(* ===== verification/_CoqProject ===== *)
-Q . S2P
Prelude.v
CString.v
Types.v
World.v
Amf.v
Proc.v
Getopt.v
NssText.v
NssConfig.v
NssDb.v
NssMain.v
NssFbs.v
NssSystem.v
LogTrace.v
Config.v
Utils.v
PowerOff.v
LockFile.v
ImmOm.v
Mips.v
DrbdMgr.v
Net.v
DevmonMsg.v
MdPipe.v
MdState.v
MdTipc.v
AgentTipc.v
MdDisk.v
MdReserve.v
MdRole.v
MdMain.v
MdSafety.v
MdRenew.v
MdDevmon.v
Ping.v
Arping.v
Ndisc.v
Failover.v
DrbdMon.v
RoleMgr.v
DevmonBase.v
DevmonWatch.v
DevmonAdm.v
DevmonSpec.v
DevmonAgent.v
Adm.v
HaManager.v
Main.v
Handshake.v
ImmLib.v
ImmValues.v
ImmSet.v
ImmSetSpec.v
ImmDemo.v
ImmTypes.v
ImmAtomic.v
ImmHonest.v
ImmGet.v
ImmGetSpec.v
Simucliss.v
SimuclissSpec.v
Cla.v
ClaSpec.v
ClaConf.v
Date.v
DateSpec.v
ConfSched.v
ConfShutdown.v
ConfCli.v
Simap.v
