(* ===== verification/Prelude.v ===== *)
(** * APOS: a verification development

    The programs.  APOS is the operating system layer of a two-node cluster.  One
    node of the pair is active: it mounts the shared disk, holds the moving IP
    addresses (MIPs) and runs the services.
    - The agent [apos_ha_rdeagentd] (src/ha_cnz/haadm_agent_caa/drbd) decides on each
      node, under the availability framework AMF, when that node may become active,
      brings the services up and down, watches the disk that DRBD replicates, and takes
      the node out of service when it must not go on.  Two active nodes at a time would
      destroy the data, so what matters is what the daemon does before its first start
      command, and that it gives up in the right way.
    - The device monitor [apos_ha_devmond] (src/ha_cnz/haadm_devmon_caa/drbd) looks at
      the disk every few seconds, tells the agent over a FIFO when its health changes,
      and has a degraded mirror repaired.
    - Agent and device monitor exist in a second version for a software RAID on disks
      that both nodes can reach (the md directories): there SCSI reservations decide who
      owns the disks, and a generation counter tells whether the owner is alive.
    - On simulated nodes two smaller programs stand in for agent and device monitor
      (src/ha_cnz/ha_appdemo/simap_agent and simap_devmon).
    - The command [nss_ufbs] and the module [libnss_fbs] of the name service switch
      (src/cmd_cnz/nss) keep a local copy of users of the LDAP directory: the command
      writes the file, the module answers lookups from it.
    - The configuration daemon [apos_cfgd] (src/conf_cnz/confadm_caa) executes requests
      in a scheduler thread, beside the threads of AMF and of the reactor.
    - The commands [immset] and [immget] change and print attributes of the information
      model (IMM); [simucliss] is a restricted command session; [cla] tells whether the
      LDAP server can be reached; [date] reads and sets the clocks (src/cmd_cnz).

    Parts and interaction.  [main] of the agent parses the command line and starts the
    AMF class or, without AMF, one of the two parts directly.  AMF's callbacks set the
    state of the component; the HA manager starts the active or the standby part for
    it and waits for the part's thread.  The active part runs the role manager: health
    check, split-brain check, start of the services, then a wait for the order to
    stop, during which it reads the messages of the device monitor.  Both parts run the
    DRBD monitor.  All of them share the singleton [Global], whose recovery actions
    (fail over, restart, reboot) call back into the role manager.  The device monitor
    has the same shape with one part and two threads.  The MD agent is one loop on
    descriptors of signals, timer, AMF and TIPC.  Command and module of the name service
    switch share two files: the configuration and the database.

    The model.  A function is a state transformer with four outcomes ([M], [outcome],
    this file): it returns, ends the process, reaches behaviour that C++ does not
    define, or is out of fuel.  The state of the DRBD agent ([World]) is the memory of the
    process, the files it owns and the history of its requests; that of the other
    daemons ([Proc]) is the history, the files of the node and a memory of their own.
    Everything outside the source - commands, kernel, sockets, AMF, IMM, LDAP, the
    allocator, the other threads where they matter - answers requests: an [Env] maps a
    history and a request to an answer, and a theorem that does not restrict the [Env]
    holds whatever the outside does.  The IMM commands, [cla] and [date] have requests of
    their own ([ImmEnv], [LdapEnv], [DateEnv]).  The configuration daemon is a tree of
    actions for each thread, whose interleavings are a step relation ([ConfSched]); the
    session of [simucliss] is a step relation because signals arrive between any two
    steps.  A pointer is an [option] (or a [bool] for an object without state) and its use
    without a test is [deref]; strings are C strings with their buffer sizes; integers
    have their width written out.  An exception that nothing catches ends the process
    with 134.

    Files, with the source they model:
    - [Prelude]: outcomes, weakest preconditions ([wp], [valQ]), what every run does
      ([does]), machine integers;
    - [CString]: the C library on strings and streams the programs use;
    - [Types]: apos_ha_agent_types.h and the private state of the agent's classes;
    - [World]: requests, environments, the state of the agent, frames ([steps],
      [QueryFrame], [CoreFrame], [Frame], [LockFrame]) and which commands start the node;
    - [Amf]: the AMF class, which the HA daemons have under different names, over
      what differs between them (the class [Host]);
    - [Proc]: other processes, stdio on the files of the node, the requests of a run
      ([traced], [asks]); [Getopt]: the option parser.
    The name service switch:
    - [NssText]: TString.cpp and [ParsingLine] of TDbHandler.cpp;
    - [NssConfig]: TConfigFile.cpp; [NssDb]: TDbHandler.cpp;
    - [NssMain]: TUfbsHandler.cpp and main.cpp; [NssFbs]: nss_fbs.c;
    - [NssSystem]: command and module together.
    The agent:
    - [LogTrace]: apos_ha_logtrace.cpp;
    - [Config], [Mips]: apos_ha_agent_config.cpp;
    - [Utils]: apos_ha_agent_utils.cpp; [PowerOff]: apos_ha_agent_powerOff.cpp;
    - [LockFile]: apos_ha_agent_lockFile.cpp; [ImmOm]: apos_ha_agent_immOm.cpp;
    - [DrbdMgr]: apos_ha_agent_drbdmgr.cpp; [AgentTipc]: apos_ha_agent_tipc.cpp;
    - [Net], [Ping], [Arping], [Ndisc]: the probes apos_ha_agent_ping.cpp,
      apos_ha_agent_arping.cpp and apos_ha_agent_ndisc.cpp, behind the interface
      [Prober];
    - [Failover]: the recovery actions of apos_ha_agent_global.cpp;
    - [DrbdMon]: apos_ha_agent_drbdmon.cpp, over a reference [DMRef] to the object;
    - [RoleMgr]: apos_ha_agent_rolemngr.cpp;
    - [Adm]: apos_ha_agent_actvAdm.cpp and apos_ha_agent_stbyAdm.cpp, [waitOntask];
    - [HaManager]: apos_ha_agent_hamanager.cpp and apos_ha_agent_amfclass.cpp;
    - [Main]: apos_ha_agent_main.cpp;
    - [Handshake]: the interleavings of the role manager and the callback.
    The device monitor:
    - [DevmonMsg]: the messages of the FIFO, as both daemons copy them;
    - [DevmonBase]: apos_ha_devmon_global.cpp, apos_ha_devmon_config.cpp,
      apos_ha_devmon_utils.cpp and its apos_ha_logtrace.cpp;
    - [DevmonWatch]: apos_ha_devmon_drbdmgr.cpp, apos_ha_devmon_drbdmon.cpp and
      apos_ha_devmon_drbdrecovery.cpp;
    - [DevmonAdm]: apos_ha_devmon_adm.cpp, apos_ha_devmon_hamanager.cpp and
      apos_ha_devmon_main.cpp;
    - [DevmonSpec]: what the agent is told, and that the thread tells it;
    - [DevmonAgent]: device monitor and agent together.
    Agent and device monitor for software RAID (the md directories):
    - [MdPipe]: the commands and their output; [MdState]: the memory of the agent;
    - [MdTipc], [MdDisk], [MdRole], [MdMain]: apos_ha_rdeagent_tipc.cpp,
      apos_ha_rdeagent_class.cpp by its disks, roles and main loop,
      apos_ha_rdeagent_utils.cpp and apos_ha_rdeagent_main.cpp;
    - [MdDevmon]: apos_ha_devmon_class.cpp, apos_ha_devmon_appclass.cpp and
      apos_ha_devmon_main.cpp;
    - [MdReserve], [MdSafety], [MdRenew]: theorems on reservations, on mounting, and on
      the time in which a living owner is noticed.
    The stand-ins:
    - [Simap]: apos_ha_fagent_adm.cpp, apos_ha_fagent_class.cpp, apos_ha_fagent_main.cpp,
      and the files of these names of the device monitor (fdevmon).
    The configuration daemon:
    - [ConfSched]: daemon.cpp, haimplementer.cpp, signalseventhandler.cpp and the
      operations; [ConfShutdown]: how it ends; [ConfCli]: main.cpp.
    The commands:
    - [ImmLib], [ImmSet], [ImmGet]: apos_cmd_immset.cpp, apos_cmd_immget.cpp and their
      utilities; [ImmValues], [ImmSetSpec], [ImmAtomic], [ImmTypes], [ImmHonest],
      [ImmGetSpec]: theorems; [ImmDemo]: a library for the examples;
    - [Simucliss]: simucliss.cpp, with its theorems in [SimuclissSpec];
    - [Cla]: main.cpp, configuration_reader.cpp and ldap_connector.cpp, with the theorems
      in [ClaSpec] and [ClaConf];
    - [Date]: date.cpp, with its theorems in [DateSpec].
    A function keeps its name; where two classes share a method name, the class is
    prefixed ([rolemgr_svc], [drbdmon_svc], [stby_svc], and [dev_] for the device
    monitor), and [close(u_long)], the hook that runs when a thread ends, is named
    [_closed].

    What is shown.
    - Safety of the start ([RoleMgr]): no start command before a healthy disk was
      reported and the split-brain check passed; an answer on one MIP keeps the node
      down and leaves the lock file; a node with an inconsistent disk stays down.
    - One role at a time ([HaManager]): under AMF's state machine the active and the
      standby part never exist together, by induction on the steps; AMF is told of
      success only after the role manager's; in [Handshake] for all interleavings.
    - Order of the start and stop commands ([DrbdMgr]), supervision of the disk
      ([DrbdMon]).
    - Recovery ([Failover]): a fail-over never returns, reboots when the stop commands
      succeed, and recurses without end when they keep failing.
    - The device monitor ([DevmonSpec], [DevmonAgent]): the thread refines a
      specification on sequences of observations; a change of role that comes first is
      acted on by the agent; one that follows another fault, or waits behind another
      message, is lost, and so is the news that DRBD does not answer.
    - The MD agent ([MdSafety], [MdReserve], [MdRenew], [MdDevmon]): the disks are mounted
      only after they were taken; a disk whose owner renews its registration is not
      preempted, and how often it has to; the rule for the change of roles; a registration
      that is refused, and a buffer that is too small, break this.
    - The stand-ins ([Simap]): their threads exist only in the active state, and one of the
      commands is never given.
    - The database of users ([NssMain], [NssDb], [NssText]): the command refines
      operations on a list of users; records survive printing and parsing; a full disk
      costs the database.  The module ([NssFbs], [NssSystem]) enumerates all entries in
      order, loses its place by a lookup, reads the path the command reads, and finds
      what the command has inserted.
    - The configuration daemon ([ConfSched], [ConfShutdown], [ConfCli]): in every
      interleaving it settles, and a shutdown that was scheduled completes; without the
      scheduler thread it does not end; the command line is read back as written.
    - Attributes ([ImmAtomic], [ImmTypes], [ImmHonest], [ImmGetSpec]): [immset] changes
      all attributes or sets them back, keeps the types of the model, and sets what it was
      asked to with a library that does its part; a value that cannot be read makes it
      set the others back and then read past a vector; which values [immset] takes back
      from what [immget] prints.
    - The session ([SimuclissSpec]): it runs no other program than [mml]; words fit their
      array; an interrupt while a command is treated and one at the next prompt free the line
      twice.
    - The LDAP check ([ClaSpec], [ClaConf]): credentials are sent only to the configured
      server, over TLS only when its certificate is demanded; handles are used while they
      are open and given back once; the verdict is that of the search; the configuration
      is read back as written.
    - The clocks ([DateSpec]): the order of the commands, none of which touches a clock
      before the other node has answered; the user that each command runs as.
    - Probes ([Ping], [Arping], [Ndisc]): no answer without a matching packet, an answer
      for a matching packet, the checksum, the rule of two answers, and the packet that
      overruns a buffer.
    - Input ([Config], [Mips], [Utils], [ImmOm], [Main]): the configuration file as a
      list of settings, one of which has no effect, safety on arbitrary bytes, the MIP table, the
      output of commands, the locked state of the peer, the command line.
    - Bounds and round trips: [waitOntask] ([Adm]), the persistent file ([PowerOff]).

    Fuel.  [fuel] bounds what the outside can prolong: packets that are not the
    reply, messages in a queue, rounds of [poll], and the mutual recursion of
    [nodefailOver] and [shutDown_all].  Safety theorems hold for every fuel; where a
    theorem says that a function returns, it fixes a fuel that is enough ([svc_spec]
    for one more than the rounds) or shows that the loop needs none ([readMips],
    [waitOntask], [reconnect], [probe_loop]).  [scan] and [parse_options] take the
    length of the data, of which every round uses at least one byte.  The commands have
    no fuel: their loops run over their arguments, over lines, or as often as a counter
    says ([tries] of [cla], the repetitions of [immset]).

    Simplifications.  A call of [fwrite] either writes its data or fails: stdio's buffer is
    not modelled, so that the failure of a write that fits the buffer shows at the call and
    not when the file is closed.  A change of the IMM that fails has no effect, also when the
    library reports a timeout, where the standard leaves it open.  A name of 256 bytes without
    NUL is read as 256 bytes.  The queues of the configuration daemon are unbounded and taking
    a message from them succeeds.  The handlers of the RAID agent run while it polls, the one
    for the shutdown signal SIGUSR2 is not among them, and the descriptor AMF gives it is not 0.
    The signals of [simucliss] arrive between its first [sigsetjmp] and its last use of the
    line; its handlers are installed before and stay after.

    Not modelled: the text of trace, log, usage and error messages; exceptions of ACE's
    queues; the locks of the DRBD daemons (each shared access is one step); ACE's event
    loop and the thread that runs it (apos_ha_reactorrunner.cpp); the logging classes of
    the configuration daemon; completion and history of [simucliss], which belong to the
    readline library; the shell that runs the commands.  The other demonstration
    applications (src/ha_cnz/ha_appdemo/apg_2nred and apg_nored) use a library that is not part of the source.  Scripts in
    shell, Perl and Python, MIB and XML files, packaging and the code of other projects
    (src/3pp_cnz, src/ext_cnz) are outside the development: they call system tools whose
    behaviour would have to be assumed. *)

From stdpp Require Export prelude strings list.
From Stdlib Require Export ZArith Lia.

(** ** Outcomes of a run

    A run of a function of the daemon returns a value, ends the process with
    [exit(code)], reaches behaviour the C++ standard does not define (a null or
    dangling dereference, an access outside an array), or is still running when
    the fuel of the model is used up. *)

Inductive outcome (A : Type) : Type :=
| Val (a : A)
| Exited (code : Z)
| Undef
| NoFuel.
Arguments Val {A} _.
Arguments Exited {A} _.
Arguments Undef {A}.
Arguments NoFuel {A}.

(** The effect of a function on the process: a state transformer that may not
    return. *)
Definition M (S A : Type) : Type := S → outcome A * S.

#[export] Instance M_ret {S : Type} : MRet (M S) := λ A a s, (Val a, s).

#[export] Instance M_bind {S : Type} : MBind (M S) := λ A B k m s,
  match m s with
  | (Val a, s') => k a s'
  | (Exited c, s') => (Exited c, s')
  | (Undef, s') => (Undef, s')
  | (NoFuel, s') => (NoFuel, s')
  end.

Definition get {S : Type} : M S S := λ s, (Val s, s).
Definition gets {S A : Type} (f : S → A) : M S A := λ s, (Val (f s), s).
Definition modify {S : Type} (f : S → S) : M S unit := λ s, (Val tt, f s).
Definition exit {S A : Type} (code : Z) : M S A := λ s, (Exited code, s).
Definition undef {S A : Type} : M S A := λ s, (Undef, s).
Definition nofuel {S A : Type} : M S A := λ s, (NoFuel, s).

(** Dereference of a pointer that may be null. *)
Definition deref {S A : Type} (p : option A) : M S A :=
  match p with Some a => mret a | None => undef end.

Definition EXIT_FAILURE : Z := 1.

(** ** Weakest preconditions

    [wp m Q s] says that the run of [m] from [s] ends in an outcome and a
    state that satisfy [Q]. *)

Section wp.
Context {S : Type}.

Definition wp {A} (m : M S A) (Q : outcome A → S → Prop) (s : S) : Prop :=
  Q (m s).1 (m s).2.

(** What a postcondition asks of the prefix of a sequence. *)
Definition thenQ {A B} (k : A → M S B) (Q : outcome B → S → Prop)
    (o : outcome A) (s : S) : Prop :=
  match o with
  | Val a => wp (k a) Q s
  | Exited c => Q (Exited c) s
  | Undef => Q Undef s
  | NoFuel => Q NoFuel s
  end.

Lemma wp_bind {A B} (m : M S A) (k : A → M S B) Q s :
  wp m (thenQ k Q) s → wp (m ≫= k) Q s.
Proof.
  unfold wp, mbind, M_bind. destruct (m s) as [[] s'] eqn:E; simpl; auto.
Qed.

Lemma wp_bind_inv {A B} (m : M S A) (k : A → M S B) Q s :
  wp (m ≫= k) Q s → wp m (thenQ k Q) s.
Proof.
  unfold wp, mbind, M_bind. destruct (m s) as [[] s'] eqn:E; simpl; auto.
Qed.

Lemma wp_ret {A} (a : A) (Q : outcome A → S → Prop) s :
  Q (Val a) s → wp (mret a) Q s.
Proof. auto. Qed.

Lemma wp_gets {A} (f : S → A) (Q : outcome A → S → Prop) s : Q (Val (f s)) s → wp (gets f) Q s.
Proof. auto. Qed.

Lemma wp_modify (f : S → S) (Q : outcome unit → S → Prop) s : Q (Val tt) (f s) → wp (modify f) Q s.
Proof. auto. Qed.

Lemma wp_exit {A} c (Q : outcome A → S → Prop) s : Q (Exited c) s → wp (exit c) Q s.
Proof. auto. Qed.

Lemma wp_undef {A} (Q : outcome A → S → Prop) s : Q Undef s → wp undef Q s.
Proof. auto. Qed.

Lemma wp_mono {A} (m : M S A) (P Q : outcome A → S → Prop) s :
  wp m P s → (∀ o s', P o s' → Q o s') → wp m Q s.
Proof. unfold wp. auto. Qed.

Lemma wp_run {A} (m : M S A) (Q : outcome A → S → Prop) s o s' :
  wp m Q s → m s = (o, s') → Q o s'.
Proof. unfold wp. intros H E. by rewrite E in H. Qed.

Lemma run_wp {A} (m : M S A) (Q : outcome A → S → Prop) s :
  (∀ o s', m s = (o, s') → Q o s') → wp m Q s.
Proof. unfold wp. destruct (m s); auto. Qed.

Lemma wp_known {A} (m : M S A) (Q : outcome A → S → Prop) s o s' :
  m s = (o, s') → Q o s' → wp m Q s.
Proof. unfold wp. by intros ->. Qed.

(** The run returns a value and a state that satisfy [P]. *)
Definition valQ {A} (P : A → S → Prop) (o : outcome A) (s : S) : Prop :=
  match o with Val a => P a s | _ => False end.

Lemma wp_valQ_bind {A B} (m : M S A) (k : A → M S B) P s :
  wp m (valQ (λ a, wp (k a) (valQ P))) s → wp (m ≫= k) (valQ P) s.
Proof.
  intros H. apply wp_bind. eapply wp_mono; [exact H|]. by intros [] s'.
Qed.

Lemma wp_valQ_run {A} (m : M S A) P s :
  wp m (valQ P) s → ∃ a s', m s = (Val a, s') ∧ P a s'.
Proof. unfold wp. destruct (m s) as [[] s']; simpl; naive_solver. Qed.

Lemma wp_valQ_mono {A} (m : M S A) (P Q : A → S → Prop) s :
  wp m (valQ P) s → (∀ a s', P a s' → Q a s') → wp m (valQ Q) s.
Proof. intros H HPQ. eapply wp_mono; [exact H|]. intros [] s'; simpl; auto. Qed.

Lemma wp_valQ_and {A} (m : M S A) (P Q : A → S → Prop) s :
  wp m (valQ P) s → wp m (valQ Q) s → wp m (valQ (λ a s', P a s' ∧ Q a s')) s.
Proof. unfold wp. destruct (m s).1; simpl; auto. Qed.

Lemma bind_Val_inv {A B} (m : M S A) (k : A → M S B) s b s' :
  (m ≫= k) s = (Val b, s') →
  ∃ a s1, m s = (Val a, s1) ∧ k a s1 = (Val b, s').
Proof.
  unfold mbind, M_bind. destruct (m s) as [[] s1]; naive_solver.
Qed.

Lemma bind_Val {A B} (m : M S A) (k : A → M S B) s a s1 :
  m s = (Val a, s1) → (m ≫= k) s = k a s1.
Proof. unfold mbind, M_bind. by intros ->. Qed.

(** What holds when [m] returns. *)
Definition after {A} (m : M S A) (P : A → S → Prop) (s : S) : Prop :=
  ∀ a s', m s = (Val a, s') → P a s'.

Lemma after_bind {A B} (m : M S A) (k : A → M S B) P s :
  after m (λ a, after (k a) P) s → after (m ≫= k) P s.
Proof. intros H b s' (a & s1 & Hm & Hk)%bind_Val_inv. by eapply H. Qed.

Lemma after_ret {A} (a : A) P s : P a s → after (mret a) P s.
Proof. by intros H ? ? [= <- <-]. Qed.

Lemma after_gets {A} (f : S → A) P s : P (f s) s → after (gets f) P s.
Proof. by intros HP ? ? [= <- <-]. Qed.

Lemma after_modify f (P : unit → S → Prop) s : P tt (f s) → after (modify f) P s.
Proof. by intros HP ? ? [= <- <-]. Qed.

Lemma after_mono {A} (m : M S A) (P Q : A → S → Prop) s :
  after m P s → (∀ a s', P a s' → Q a s') → after m Q s.
Proof. intros H HPQ a s' Hm. auto. Qed.

Lemma after_wp {A} (m : M S A) P s : wp m (valQ P) s → after m P s.
Proof. unfold wp. intros H a s' Hm. by rewrite Hm in H. Qed.

(** [does R m]: every run of [m] returns, and takes the state along [R]. *)
Definition does {A} (R : relation S) (m : M S A) : Prop := ∀ s, wp m (valQ (λ _, R s)) s.

Lemma does_bind {A B} (R : relation S) `{!PreOrder R} (m : M S A) (k : A → M S B) :
  does R m → (∀ a, does R (k a)) → does R (m ≫= k).
Proof.
  intros Hm Hk s. apply wp_valQ_bind. eapply wp_valQ_mono; [apply Hm|].
  intros a s1 H1. eapply wp_valQ_mono; [apply Hk|]. intros b s2 H2. by transitivity s1.
Qed.

Lemma does_ret {A} (R : relation S) `{!Reflexive R} (a : A) : does R (mret a : M S A).
Proof. intros s. apply wp_ret. cbn. reflexivity. Qed.

Lemma does_gets {A} (R : relation S) `{!Reflexive R} (f : S → A) : does R (gets f).
Proof. intros s. apply wp_gets. cbn. reflexivity. Qed.

Lemma does_mono {A} (R R' : relation S) (m : M S A) :
  does R m → (∀ s s', R s s' → R' s s') → does R' m.
Proof. intros Hm HR s. eapply wp_valQ_mono; [apply Hm|]. eauto. Qed.
End wp.

(** [solve_does] takes a function apart as [solve_steps] does. *)
Create HintDb does.
#[export] Hint Resolve does_ret does_gets : does.
#[export] Hint Extern 0 (Reflexive _) => apply _ : does.
#[export] Hint Extern 0 (PreOrder _) => apply _ : does.
Ltac solve_does :=
  repeat lazymatch goal with
  | |- does _ (_ ≫= _) => apply does_bind; [apply _| |intros ?]
  | |- does _ (if ?b then _ else _) => destruct b
  | |- does _ (match ?x with _ => _ end) => destruct x
  | |- does _ (let _ := _ in _) => cbv zeta
  | |- does _ _ => solve [eauto 3 with does]
  end.

(** ** Machine integers *)

Open Scope Z_scope.

(** Assignment to an [ACE_UINT32] and to an [int]. *)
Definition u32 (z : Z) : Z := z mod 2 ^ 32.
Definition u16 (z : Z) : Z := z mod 2 ^ 16.
Definition u64 (z : Z) : Z := z mod 2 ^ 64.
Definition i32 (z : Z) : Z := (z + 2 ^ 31) mod 2 ^ 32 - 2 ^ 31.

Lemma u32_range z : 0 ≤ u32 z < 2 ^ 32.
Proof. apply Z.mod_pos_bound. lia. Qed.

Lemma u16_range z : 0 ≤ u16 z < 2 ^ 16.
Proof. apply Z.mod_pos_bound. lia. Qed.

Lemma u32_small z : 0 ≤ z < 2 ^ 32 → u32 z = z.
Proof. apply Z.mod_small. Qed.

Lemma u64_small z : 0 ≤ z < 2 ^ 64 → u64 z = z.
Proof. apply Z.mod_small. Qed.

(** ** Automation

    [split_matches] does the case analysis a run leaves behind. *)

Ltac split_matches :=
  repeat (first [ progress simplify_eq/= | case_match ]).
