(* ===== verification/CString.v ===== *)
(** * C strings

    The functions of the C library the daemon uses on [char] buffers.  A buffer
    is represented by the C string it holds (the bytes before the first NUL);
    where the source writes into a buffer of fixed size the model says what
    happens when the string does not fit. *)

From S2P Require Import Prelude.
From Stdlib Require Export Ascii.
From stdpp Require Import pretty.

Open Scope Z_scope.

Definition NUL : ascii := Ascii.zero.
Definition LF : ascii := "010"%char.
Definition CR : ascii := "013"%char.
Definition TAB : ascii := "009"%char.
Definition SP : ascii := " "%char.

(** A double quote, for the shell commands. *)
Definition DQ : string := String "034"%char EmptyString.

Definition eqc (a b : ascii) : bool := Ascii.eqb a b.

(** The C string in a buffer: what precedes the first NUL. *)
Fixpoint c_str (s : string) : string :=
  match s with
  | EmptyString => EmptyString
  | String c r => if eqc c NUL then EmptyString else String c (c_str r)
  end.

(** [isspace] in the C locale. *)
Definition isspace (c : ascii) : bool :=
  eqc c SP || eqc c TAB || eqc c LF || eqc c CR
  || eqc c "011"%char || eqc c "012"%char.

(** [strchr(s, c)]: what precedes the first [c] and what follows it. *)
Fixpoint strchr (s : string) (c : ascii) : option (string * string) :=
  match s with
  | EmptyString => None
  | String a r =>
      if eqc a c then Some (EmptyString, r)
      else match strchr r c with
           | Some (p, q) => Some (String a p, q)
           | None => None
           end
  end.

(** [strstr(s, pat) != NULL]. *)
Fixpoint strstr (s pat : string) : bool :=
  String.prefix pat s ||
  match s with
  | EmptyString => false
  | String _ r => strstr r pat
  end.

(** [strcmp(a, b) == 0]. *)
Definition streq (a b : string) : bool := String.eqb a b.

(** The blanks (' ' and TAB) in front of a line. *)
Fixpoint skip_blanks (s : string) : string :=
  match s with
  | String c r => if eqc c SP || eqc c TAB then skip_blanks r else s
  | EmptyString => EmptyString
  end.

Fixpoint skip_space (s : string) : string :=
  match s with
  | String c r => if isspace c then skip_space r else s
  | EmptyString => EmptyString
  end.

(** The longest prefix without white space. *)
Fixpoint word (s : string) : string :=
  match s with
  | String c r => if isspace c then EmptyString else String c (word r)
  | EmptyString => EmptyString
  end.

Fixpoint take (n : nat) (s : string) : string :=
  match n, s with
  | S n, String c r => String c (take n r)
  | _, _ => EmptyString
  end.

Fixpoint drop (n : nat) (s : string) : string :=
  match n, s with
  | S n, String _ r => drop n r
  | _, _ => s
  end.

(** [snprintf(buf, n, "%s", s)] and [strncpy] followed by the write of the
    terminating NUL at [n - 1]: at most [n - 1] bytes are kept. *)
Definition snprintf (n : nat) (s : string) : string := take (pred n) s.

(** [strcpy] into a buffer of [n] bytes: it overruns the buffer when the string
    and its NUL do not fit. *)
Definition strcpy {S} (n : nat) (s : string) : M S string :=
  if (String.length s <? n)%nat then mret s else undef.

(** Every character satisfies [f]; [no c]: no character is [c]. *)
Fixpoint all_chars (f : ascii → bool) (s : string) : bool :=
  match s with
  | EmptyString => true
  | String c r => f c && all_chars f r
  end.

Definition no (c a : ascii) : bool := negb (eqc a c).

(** ** Numbers *)

Definition digit_val (c : ascii) : option Z :=
  let n := Z.of_nat (nat_of_ascii c) in
  if (48 <=? n) && (n <=? 57) then Some (n - 48)
  else if (97 <=? n) && (n <=? 122) then Some (n - 87)
  else if (65 <=? n) && (n <=? 90) then Some (n - 55)
  else None.

(** The digits of base [b] in front of [s]; [acc] is the value read so far. *)
Fixpoint digits (b acc : Z) (s : string) : Z :=
  match s with
  | String c r =>
      match digit_val c with
      | Some d => if d <? b then digits b (acc * b + d) r else acc
      | None => acc
      end
  | EmptyString => acc
  end.

Definition clamp (lo hi z : Z) : Z := Z.max lo (Z.min hi z).

(** An optional sign: whether the number is negated, and what follows. *)
Definition sign (s : string) : bool * string :=
  match s with
  | String c r =>
      if eqc c "-"%char then (true, r)
      else if eqc c "+"%char then (false, r) else (false, s)
  | EmptyString => (false, s)
  end.

(** [strtol(s, NULL, 10)], which saturates, and [atoi], its value cast to
    [int]. *)
Definition strtol10 (s : string) : Z :=
  let '(neg, r) := sign (skip_space s) in
  let v := digits 10 0 r in
  clamp (- 2 ^ 63) (2 ^ 63 - 1) (if neg then - v else v).

Definition atoi (s : string) : Z := i32 (strtol10 s).

(** A natural number in decimal, as [operator<<] and [%u] print it. *)
Definition dec (z : Z) : string := pretty (Z.to_N z).

(** [strtoul(s, NULL, 10)]: saturates at [ULONG_MAX]; a minus sign negates the value
    modulo [2^64]. *)
Definition strtoul10 (s : string) : Z :=
  let '(neg, r) := sign (skip_space s) in
  let v := digits 10 0 r in
  if 2 ^ 64 <=? v then 2 ^ 64 - 1 else if neg then u64 (- v) else v.

(** An optional [0x] in front of a hexadecimal number. *)
Definition skip_0x (s : string) : string :=
  match s with
  | String a (String b (String c r)) =>
      if eqc a "0"%char && (eqc b "x"%char || eqc b "X"%char)
         && match digit_val c with Some d => d <? 16 | None => false end
      then String c r else s
  | _ => s
  end.

(** [strtoull(s, NULL, 16)]: saturates at [ULLONG_MAX]; a minus sign negates the
    value modulo [2^64]. *)
Definition strtoull16 (s : string) : Z :=
  let '(neg, r) := sign (skip_space s) in
  let v := digits 16 0 (skip_0x r) in
  if 2 ^ 64 <=? v then 2 ^ 64 - 1 else if neg then u64 (- v) else v.

(** ** Reading a file line by line

    [fgets(buf, n, fp)] stores at most [n - 1] bytes and stops after a newline,
    so a longer line comes back in several pieces.  [room] is what is left in
    the buffer, [cur] the reversed piece read so far. *)

Fixpoint fgets_go (n room : nat) (cur s : string) : list string :=
  match s with
  | EmptyString => match cur with EmptyString => [] | _ => [cur] end
  | String c r =>
      if eqc c LF then String.append cur (String c EmptyString) :: fgets_go n n EmptyString r
      else match room with
           | O | 1%nat =>
               String.append cur (String c EmptyString) :: fgets_go n n EmptyString r
           | S room => fgets_go n room (String.append cur (String c EmptyString)) r
           end
  end.

Definition fgets_lines (n : nat) (file : string) : list string :=
  fgets_go (pred n) (pred n) EmptyString file.

(** ** Lemmas *)

Lemma append_cons c a b : String.append (String c a) b = String c (String.append a b).
Proof. reflexivity. Qed.

Lemma append_nil_l b : String.append EmptyString b = b.
Proof. reflexivity. Qed.


Lemma length_append a b : String.length (String.append a b) = (String.length a + String.length b)%nat.
Proof. induction a as [|c a IH]; [done|]. rewrite append_cons. simpl. by rewrite IH. Qed.

Lemma append_assoc a b c : String.append (String.append a b) c = String.append a (String.append b c).
Proof. induction a as [|x a IH]; [done|]. by rewrite !append_cons, IH. Qed.

Lemma append_nil_r a : String.append a EmptyString = a.
Proof. induction a as [|x a IH]; [done|]. by rewrite append_cons, IH. Qed.

Lemma length_take n s : (String.length (take n s) ≤ n)%nat.
Proof. revert s; induction n as [|n IH]; intros [|c s]; simpl; [lia..|]. specialize (IH s). lia. Qed.

Lemma length_take_min n s : String.length (take n s) = min n (String.length s).
Proof. revert s; induction n as [|n IH]; intros [|c s]; simpl; auto. Qed.

Lemma take_all n s : (String.length s ≤ n)%nat → take n s = s.
Proof.
  revert s; induction n as [|n IH]; intros [|c s]; simpl; intros H; [done|lia|done|].
  f_equal. apply IH. lia.
Qed.

Lemma drop_all n s : (String.length s ≤ n)%nat → drop n s = EmptyString.
Proof.
  revert s; induction n as [|n IH]; intros [|c s]; simpl; intros H; [done|lia|done|]. apply IH. lia.
Qed.

Lemma take_drop n s : String.append (take n s) (drop n s) = s.
Proof.
  revert s; induction n as [|n IH]; intros [|c s]; cbn [take drop]; try done.
  by rewrite append_cons, IH.
Qed.

Lemma snprintf_fits n s : (String.length s < n)%nat → snprintf n s = s.
Proof. intros H. apply take_all. lia. Qed.

Lemma snprintf_length n s : (0 < n)%nat → (String.length (snprintf n s) < n)%nat.
Proof. intros H. unfold snprintf. pose proof (length_take (pred n) s). lia. Qed.

Lemma streq_spec a b : streq a b = true ↔ a = b.
Proof. apply String.eqb_eq. Qed.

Lemma streq_refl a : streq a a = true.
Proof. by apply streq_spec. Qed.

Lemma length_word s : (String.length (word s) ≤ String.length s)%nat.
Proof. induction s as [|c s IH]; simpl; [lia|]. destruct (isspace c); simpl; lia. Qed.

Lemma length_c_str s : (String.length (c_str s) ≤ String.length s)%nat.
Proof. induction s as [|c s IH]; simpl; [lia|]. destruct (eqc c NUL); simpl; lia. Qed.

Lemma length_skip_blanks s : (String.length (skip_blanks s) ≤ String.length s)%nat.
Proof. induction s as [|c s IH]; simpl; [lia|]. case_match; simpl; lia. Qed.

Lemma strchr_length s c p q :
  strchr s c = Some (p, q) → String.length s = S (String.length p + String.length q).
Proof.
  revert p q; induction s as [|a s IH]; simpl; intros p q H; [done|].
  split_matches; [done|]. by rewrite (IH _ _ eq_refl).
Qed.

Lemma eqc_refl c : eqc c c = true.
Proof. apply Ascii.eqb_refl. Qed.

Lemma strchr_append_is_Some p c q : is_Some (strchr (String.append p (String c q)) c).
Proof.
  induction p as [|a p IH]; rewrite ?append_nil_l, ?append_cons; cbn [strchr].
  - rewrite eqc_refl. eauto.
  - destruct (eqc a c); [eauto|]. destruct IH as [[? ?] ->]. eauto.
Qed.

Lemma prefix_spec pat s : String.prefix pat s = true → ∃ r, s = String.append pat r.
Proof.
  revert s; induction pat as [|a pat IH]; intros s H; [by exists s|].
  destruct s as [|b s]; [done|]. cbn in H. destruct (ascii_dec a b); [|done].
  subst. destruct (IH s H) as [r Hr]. exists r. by rewrite append_cons, <-Hr.
Qed.

(** A match of [pat] found by [strstr] puts each byte of [pat] in the string. *)
Lemma strstr_spec s pat : strstr s pat = true → ∃ a b, s = String.append a (String.append pat b).
Proof.
  induction s as [|c s IH]; cbn [strstr]; intros H.
  - apply orb_true_iff in H as [H|H]; [|done].
    destruct (prefix_spec _ _ H) as [r Hr]. by exists EmptyString, r.
  - apply orb_true_iff in H as [H|H].
    + destruct (prefix_spec _ _ H) as [r Hr]. exists EmptyString, r. by rewrite append_nil_l.
    + destruct (IH H) as (a & b & Hs). exists (String c a), b. by rewrite append_cons, <-Hs.
Qed.

Lemma fgets_go_length n room cur s :
  (0 < n)%nat → (String.length cur + room ≤ n)%nat → (0 < room)%nat →
  Forall (λ l, (String.length l ≤ n)%nat) (fgets_go n room cur s).
Proof.
  intros Hn. revert room cur; induction s as [|c s IH]; intros room cur Hc Hr; cbn [fgets_go].
  - destruct cur; constructor; [|done]. simpl in *. lia.
  - destruct (eqc c LF).
    + constructor; [rewrite length_append; simpl; lia|]. apply IH; simpl; lia.
    + destruct room as [|[|room]].
      * lia.
      * constructor; [rewrite length_append; simpl; lia|]. apply IH; simpl; lia.
      * apply IH; rewrite ?length_append; simpl; lia.
Qed.

(** Every piece [fgets] stores fits in the buffer with its NUL. *)
Lemma fgets_lines_length n file :
  (1 < n)%nat → Forall (λ l, (String.length l < n)%nat) (fgets_lines n file).
Proof.
  intros Hn. eapply Forall_impl; [apply fgets_go_length; simpl; lia|]. simpl. lia.
Qed.

Definition concat_str (l : list string) : string := foldr String.append EmptyString l.

Lemma fgets_go_concat n room cur s :
  concat_str (fgets_go n room cur s) = String.append cur s.
Proof.
  revert room cur; induction s as [|c s IH]; intros room cur; cbn [fgets_go].
  - destruct cur; simpl; by rewrite ?append_nil_r.
  - assert (Hcons : ∀ rest, String.append (String.append cur (String c EmptyString)) rest
      = String.append cur (String c rest)) by (intros; by rewrite append_assoc).
    destruct (eqc c LF); cbn [concat_str foldr]; fold concat_str.
    + change (foldr _ _ ?l) with (concat_str l). by rewrite IH, Hcons.
    + destruct room as [|[|room]]; cbn [concat_str foldr];
        try change (foldr _ _ ?l) with (concat_str l); by rewrite IH, Hcons.
Qed.

(** No byte of the file is lost or read twice. *)
Lemma fgets_lines_concat n file : concat_str (fgets_lines n file) = file.
Proof. apply fgets_go_concat. Qed.

Lemma all_chars_append f a b :
  all_chars f (String.append a b) = all_chars f a && all_chars f b.
Proof. induction a as [|c a IH]; [done|]. rewrite append_cons. simpl. by rewrite IH, andb_assoc. Qed.

Lemma all_chars_impl (f g : ascii → bool) s :
  (∀ c, f c = true → g c = true) → all_chars f s = true → all_chars g s = true.
Proof.
  intros H. induction s as [|c s IH]; simpl; [done|]. intros [Hc Hs]%andb_true_iff.
  apply andb_true_iff; auto.
Qed.

Lemma all_chars_take f n s : all_chars f s = true → all_chars f (take n s) = true.
Proof.
  revert s; induction n as [|n IH]; intros [|c s]; simpl; auto.
  intros [-> Hs]%andb_true_iff. simpl. auto.
Qed.

Lemma c_str_id s : all_chars (no NUL) s = true → c_str s = s.
Proof.
  induction s as [|c s IH]; simpl; [done|]. intros [Hc Hs]%andb_true_iff.
  unfold no in Hc. destruct (eqc c NUL); [done|]. by rewrite IH.
Qed.

Lemma strchr_first p c q :
  all_chars (no c) p = true → strchr (String.append p (String c q)) c = Some (p, q).
Proof.
  induction p as [|a p IH]; rewrite ?append_cons, ?append_nil_l; cbn [strchr all_chars].
  - by rewrite eqc_refl.
  - intros [Ha Hp]%andb_true_iff. unfold no in Ha. destruct (eqc a c); [done|]. by rewrite IH.
Qed.

Lemma strchr_inv s c p q :
  strchr s c = Some (p, q) → s = String.append p (String c q) ∧ all_chars (no c) p = true.
Proof.
  revert p q; induction s as [|a s IH]; simpl; intros p q H; [done|].
  destruct (eqc a c) eqn:E; simplify_eq; [by apply Ascii.eqb_eq in E as ->|].
  destruct (strchr s c) as [[p' q']|]; [|done]. simplify_eq.
  destruct (IH _ _ eq_refl) as [-> Hp]. split; [done|]. simpl. unfold no at 1. by rewrite E.
Qed.

Lemma strchr_None s c : all_chars (no c) s = true → strchr s c = None.
Proof.
  induction s as [|a s IH]; simpl; [done|]. intros [Ha Hs]%andb_true_iff.
  unfold no in Ha. destruct (eqc a c); [done|]. by rewrite IH.
Qed.

Lemma word_app v c r :
  all_chars (λ a, negb (isspace a)) v = true → isspace c = true →
  word (String.append v (String c r)) = v.
Proof.
  intros Hv Hc. induction v as [|a v IH]; rewrite ?append_cons, ?append_nil_l; cbn [word].
  - by rewrite Hc.
  - simpl in Hv. apply andb_true_iff in Hv as [Ha Hv]. apply negb_true_iff in Ha.
    by rewrite Ha, IH.
Qed.

(** A pattern that ends in [x] is not in a string without [x] ... *)
Lemma strstr_no s w x :
  all_chars (no x) s = true → strstr s (String.append w (String x EmptyString)) = false.
Proof.
  intros Hs. destruct (strstr _ _) eqn:Hm; [|done]. apply strstr_spec in Hm as (a & b & ->).
  rewrite !all_chars_append in Hs. simpl in Hs. unfold no in Hs. rewrite eqc_refl in Hs.
  by destruct (all_chars _ a), (all_chars _ w).
Qed.

Lemma prefix_cut w p x v :
  all_chars (no x) w = true → all_chars (no x) p = true →
  String.prefix (String.append w (String x EmptyString)) (String.append p (String x v))
  = String.prefix (String.append w (String x EmptyString)) (String.append p (String x EmptyString)).
Proof.
  revert p; induction w as [|a w IH]; intros p Hw Hp; destruct p as [|b p];
    rewrite ?append_cons, ?append_nil_l; cbn [String.prefix].
  - by destruct (ascii_dec x x), v.
  - by destruct (ascii_dec x b), p.
  - destruct (ascii_dec a x) as [->|]; [|done]. simpl in Hw. unfold no in Hw.
    by rewrite eqc_refl in Hw.
  - simpl in Hw, Hp. apply andb_true_iff in Hw as [_ Hw], Hp as [_ Hp].
    destruct (ascii_dec a b); [by apply IH|done].
Qed.

(** ... and what follows the only [x] of a string does not matter to it. *)
Lemma strstr_cut w p x v :
  all_chars (no x) w = true → all_chars (no x) p = true → all_chars (no x) v = true →
  strstr (String.append p (String x v)) (String.append w (String x EmptyString))
  = strstr (String.append p (String x EmptyString)) (String.append w (String x EmptyString)).
Proof.
  intros Hw Hp Hv. pose proof (prefix_cut w p x v Hw Hp) as Hpre.
  revert Hp Hpre; induction p as [|b p IH]; intros Hp Hpre;
    rewrite ?append_cons, ?append_nil_l in *; cbn [strstr].
  - rewrite Hpre, (strstr_no v) by done.
    f_equal. by destruct w.
  - rewrite Hpre. f_equal. simpl in Hp. apply andb_true_iff in Hp as [_ Hp].
    apply IH; [done|]. by apply prefix_cut.
Qed.

(** A line that fits in the buffer is read in one piece. *)
Lemma fgets_go_line n room cur l rest :
  all_chars (no LF) l = true → (String.length l < room)%nat →
  fgets_go n room cur (String.append l (String LF rest))
  = String.append cur (String.append l (String LF EmptyString)) :: fgets_go n n EmptyString rest.
Proof.
  revert room cur; induction l as [|c l IH]; intros room cur Hl Hr;
    rewrite ?append_cons, ?append_nil_l; cbn [fgets_go].
  - by rewrite eqc_refl.
  - simpl in Hl, Hr. apply andb_true_iff in Hl as [Hc Hl]. unfold no in Hc.
    destruct (eqc c LF); [done|]. destruct room as [|[|room]]; [lia..|].
    rewrite IH by (done || lia). by rewrite append_assoc.
Qed.

Lemma fgets_lines_line n l rest :
  all_chars (no LF) l = true → (S (String.length l) < n)%nat →
  fgets_lines n (String.append l (String LF rest))
  = String.append l (String LF EmptyString) :: fgets_lines n rest.
Proof. intros Hl Hn. unfold fgets_lines. rewrite fgets_go_line by (done || lia). done. Qed.

Lemma strcpy_fits {S} n s (st : S) :
  (String.length s < n)%nat → strcpy n s st = (Val s, st).
Proof. intros H. unfold strcpy. by destruct (Nat.ltb_spec (String.length s) n); [|lia]. Qed.

Lemma wp_strcpy {S} n s (Q : outcome string → S → Prop) st :
  (String.length s < n)%nat → Q (Val s) st → wp (strcpy n s) Q st.
Proof. intros H HQ. unfold strcpy. by destruct (Nat.ltb_spec (String.length s) n); [|lia]. Qed.


Lemma get_append_r l c r : String.get (String.length l) (String.append l (String c r)) = Some c.
Proof. induction l as [|a l IH]; rewrite ?append_cons, ?append_nil_l; simpl; auto. Qed.

Lemma get_append_l f l r n :
  all_chars f l = true → (n < String.length l)%nat →
  ∃ c, String.get n (String.append l r) = Some c ∧ f c = true.
Proof.
  revert n; induction l as [|a l IH]; intros n Hf Hn; cbn [all_chars String.length] in *; [lia|].
  apply andb_true_iff in Hf as [Ha Hf].
  destruct n as [|n]; [by exists a|]. apply IH; [done|lia].
Qed.

Lemma take_append l r : take (String.length l) (String.append l r) = l.
Proof. induction l as [|a l IH]; [by destruct r|]. rewrite append_cons. simpl. by rewrite IH. Qed.

(** The text of a list of lines, each ended by a newline. *)
Fixpoint text_of (lines : list string) : string :=
  match lines with
  | [] => EmptyString
  | l :: ls => String.append l (String LF (text_of ls))
  end.

Definition nl (l : string) : string := String.append l (String LF EmptyString).

Lemma text_of_app l1 l2 : text_of (l1 ++ l2) = String.append (text_of l1) (text_of l2).
Proof. induction l1 as [|l ls IH]; [done|]. cbn. by rewrite IH, append_assoc. Qed.

Lemma text_of_nl l ls : text_of (l :: ls) = String.append (nl l) (text_of ls).
Proof. unfold nl. by rewrite append_assoc. Qed.

Lemma drop_append a b : drop (String.length a) (String.append a b) = b.
Proof. induction a as [|c a IH]; [by destruct b|]. rewrite append_cons. apply IH. Qed.

Lemma fgets_lines_text n lines :
  Forall (λ l, all_chars (no LF) l = true ∧ (S (String.length l) < n)%nat) lines →
  fgets_lines n (text_of lines) = (λ l, String.append l (String LF EmptyString)) <$> lines.
Proof.
  induction 1 as [|l ls [Hl Hn] _ IH]; [done|]. cbn [text_of].
  rewrite fgets_lines_line by done. by rewrite IH.
Qed.

(** ** Printed numbers *)

Lemma digit_val_char d : (d < 10)%N → digit_val (pretty_N_char d) = Some (Z.of_N d).
Proof.
  intros H. destruct d as [|p]; [done|].
  do 4 (destruct p as [p|p|]; try done).
Qed.

Definition is_digit (c : ascii) : bool :=
  match digit_val c with Some d => d <? 10 | None => false end.

Lemma is_digit_char d : (d < 10)%N → is_digit (pretty_N_char d) = true.
Proof. intros H. unfold is_digit. rewrite digit_val_char by done. apply Z.ltb_lt. lia. Qed.

Lemma pretty_go_digits x :
  (0 < x)%N → ∃ k, ∀ acc s, digits 10 acc (pretty_N_go x s) = digits 10 (acc * k + Z.of_N x) s.
Proof.
  induction (N.lt_wf_0 x) as [x _ IH]. intros Hx.
  pose proof (N.div_mod x 10 ltac:(lia)) as Hdm. pose proof (N.mod_lt x 10 ltac:(lia)) as Hm.
  assert (Hd : digit_val (pretty_N_char (x `mod` 10)) = Some (Z.of_N (x `mod` 10)))
    by (by apply digit_val_char).
  destruct (decide (x `div` 10 = 0)%N) as [E|E].
  - exists 10. intros acc s. rewrite pretty_N_go_step by done. rewrite E, pretty_N_go_0.
    cbn [digits]. rewrite Hd. destruct (Z.ltb_spec (Z.of_N (x `mod` 10)) 10); [|lia].
    f_equal. lia.
  - destruct (IH (x `div` 10)%N) as [k Hk]; [apply N.div_lt; lia|lia|].
    exists (k * 10). intros acc s. rewrite pretty_N_go_step by done. rewrite Hk.
    cbn [digits]. rewrite Hd. destruct (Z.ltb_spec (Z.of_N (x `mod` 10)) 10); [|lia].
    f_equal. lia.
Qed.

Lemma pretty_go_all x s :
  all_chars is_digit s = true → all_chars is_digit (pretty_N_go x s) = true.
Proof.
  revert s. induction (N.lt_wf_0 x) as [x _ IH]. intros s Hs.
  destruct (decide (x = 0)%N) as [->|Hx]; [by rewrite pretty_N_go_0|].
  rewrite pretty_N_go_step by lia. apply IH; [apply N.div_lt; lia|].
  simpl. by rewrite is_digit_char, Hs by (apply N.mod_lt; lia).
Qed.

Lemma dec_digits z : all_chars is_digit (dec z) = true.
Proof.
  unfold dec, pretty, pretty_N. case_decide; [done|]. by apply pretty_go_all.
Qed.

Lemma digits_dec z : 0 ≤ z → digits 10 0 (dec z) = z.
Proof.
  intros Hz. unfold dec, pretty, pretty_N. case_decide as H.
  { assert (z = 0) as -> by lia. done. }
  destruct (pretty_go_digits (Z.to_N z)) as [k Hk]; [lia|]. rewrite Hk. cbn [digits]. lia.
Qed.

Lemma dec_head z : ∃ c s, dec z = String c s ∧ is_digit c = true.
Proof.
  pose proof (dec_digits z) as Hd. destruct (dec z) as [|c s] eqn:E.
  - exfalso. unfold dec, pretty, pretty_N in E. case_decide as H; [done|].
    destruct (pretty_go_digits (Z.to_N z) ltac:(lia)) as [k Hk]. specialize (Hk 0 EmptyString).
    rewrite E in Hk. cbn in Hk. lia.
  - exists c, s. simpl in Hd. by apply andb_true_iff in Hd as [? _].
Qed.

(** Integers, as [operator<<] and [%d] print them. *)
Lemma pretty_nonneg z : 0 ≤ z → pretty z = dec z.
Proof. by destruct z. Qed.

Lemma pretty_neg z : z < 0 → pretty z = String "-" (dec (- z)).
Proof. by destruct z. Qed.

Lemma pretty_go_length n x s :
  (x < 10 ^ N.of_nat n)%N → (String.length (pretty_N_go x s) ≤ n + String.length s)%nat.
Proof.
  revert x s; induction n as [|n IH]; intros x s Hx.
  { assert (x = 0)%N as -> by (simpl in Hx; lia). by rewrite pretty_N_go_0. }
  destruct (decide (x = 0)%N) as [->|Hx0]; [rewrite pretty_N_go_0; lia|].
  rewrite pretty_N_go_step by lia. etrans; [apply IH|simpl; lia].
  apply N.Div0.div_lt_upper_bound. rewrite Nat2N.inj_succ, N.pow_succ_r' in Hx. lia.
Qed.

Lemma dec_length n z :
  0 ≤ z < 10 ^ Z.of_nat n → (0 < n)%nat → (String.length (dec z) ≤ n)%nat.
Proof.
  intros Hz Hn. unfold dec, pretty, pretty_N. case_decide; [simpl; lia|].
  etrans; [apply (pretty_go_length n)|simpl; lia].
  apply N2Z.inj_lt. rewrite Z2N.id, N2Z.inj_pow, nat_N_Z by lia. simpl. lia.
Qed.

(** A digit is neither a space nor a sign, and neither ends a line nor a string. *)
Lemma digit_plain c :
  is_digit c = true →
  isspace c = false ∧ eqc c "-"%char = false ∧ eqc c "+"%char = false
  ∧ no LF c = true ∧ no NUL c = true.
Proof. destruct c as [[] [] [] [] [] [] [] []]; vm_compute; intros; try done. Qed.

Lemma dec_all z (f : ascii → bool) :
  (∀ c, is_digit c = true → f c = true) → all_chars f (dec z) = true.
Proof. intros Hf. eapply all_chars_impl; [exact Hf|apply dec_digits]. Qed.

Lemma dec_unsigned z r :
  skip_space (String.append (dec z) r) = String.append (dec z) r
  ∧ sign (String.append (dec z) r) = (false, String.append (dec z) r).
Proof.
  destruct (dec_head z) as (c & s & -> & Hc). rewrite append_cons.
  destruct (digit_plain c Hc) as (Hsp & Hm & Hp & _). cbn [skip_space sign]. by rewrite Hsp, Hm, Hp.
Qed.

Lemma strtoul10_dec z : 0 ≤ z < 2 ^ 32 → strtoul10 (dec z) = z.
Proof.
  intros Hz. unfold strtoul10. destruct (dec_unsigned z EmptyString) as [H1 H2].
  rewrite append_nil_r in H1, H2. rewrite H1, H2, digits_dec by lia.
  by destruct (Z.leb_spec (2 ^ 64) z); [lia|].
Qed.

Lemma i32_small z : - 2 ^ 31 ≤ z < 2 ^ 31 → i32 z = z.
Proof. intros H. unfold i32. rewrite Z.mod_small; lia. Qed.

(** An unsigned number of 32 bits goes through an [int] unharmed. *)
Lemma u32_i32 z : u32 (i32 z) = u32 z.
Proof.
  unfold u32, i32. rewrite Zminus_mod_idemp_l.
  by replace (z + 2 ^ 31 - 2 ^ 31) with z by lia.
Qed.

Lemma u32_atoi_dec z : 0 ≤ z < 2 ^ 32 → u32 (atoi (dec z)) = z.
Proof.
  intros Hz. unfold atoi, strtol10. destruct (dec_unsigned z EmptyString) as [H1 H2].
  rewrite append_nil_r in H1, H2. rewrite H1, H2, digits_dec, u32_i32 by lia.
  unfold clamp. rewrite u32_small; lia.
Qed.

(** A line that holds a number, as the C library reads it. *)
Lemma word_dec z : word (skip_space (String.append (dec z) (String LF EmptyString))) = dec z.
Proof.
  rewrite (proj1 (dec_unsigned z _)). apply word_app; [|done].
  apply dec_all. intros c Hc. by destruct (digit_plain c Hc) as [-> _].
Qed.
