(* ===== verification/Types.v ===== *)
(** * Data of the agent daemon

    The constants, enumerations and structures of [apos_ha_agent_types.h], the
    private state of each class of the daemon as a record, and the configuration
    object with the defaults of [HA_AGENT_Config]. *)

From S2P Require Import Prelude CString.

Open Scope Z_scope.

(** ** Files, commands and options *)

Definition APOS_HA_FILE_NODE_ID : string := "/etc/cluster/nodes/this/id".
Definition APOS_HA_FILE_CNFG : string := "/opt/ap/apos/conf/apos_ha_agentd.conf".
Definition APOS_HA_FILE_LOCK : string := "/opt/ap/apos/bin/.agent.lock".
Definition APOS_HA_FILE_AGENT_PSST_INFO : string := "/opt/ap/apos/bin/.agent.persistent.info".
Definition APOS_HA_FILE_RC : string := "/var/log/.haagentrcf".
Definition APOS_HA_AGENT_AEH_FIFO : string := "/var/run/ap/acs_aehfifo".
Definition APOS_HA_CMD_APOS_OPERATIONS : string := "/opt/ap/apos/bin/apos_operations".
Definition APOS_HA_CMD_HA_OPERATIONS : string := "/opt/ap/apos/bin/apos_ha_operations".
Definition APOS_HA_CMD_DRBDMGR : string := "/opt/ap/apos/bin/raidmgr".
Definition APOS_HA_CMD_LEN : nat := 100.
Definition APOS_HA_ONESEC_IN_MILLI : Z := 1000.
Definition APOS_HA_ONESEC_IN_MICRO : Z := 1000000.
Definition APOS_HA_ONEMILLISEC_IN_MICRO : Z := 1000.
Definition APOS_HA_AGENT_LOG_FILE : string := "agentd.log".

Definition APOS_HA_DFLT_TRCE_CATGY : Z := 1.
Definition APOS_HA_DFLT_TRCE_DIR : string := "/var/log/acs/tra/logging/".
Definition APOS_HA_DFLT_X_TIMES : Z := 3.
Definition APOS_HA_DFLT_Y_MSECS : Z := 1000.
Definition APOS_HA_DFLT_REBOOT_TMOUT : Z := 3000.
Definition APOS_HA_DFLT_CALLBACK_TMOUT : Z := 90000.
Definition APOS_HA_DFLT_REBOOT_COUNT : Z := 3.
Definition APOS_HA_DFLT_DRBD_SUPERVISION_INTVL : Z := 2000.

Definition APOS_HA_CMD_ASSEMBLE_OPTS : string := " --assemble --mount &>/dev/null".
Definition APOS_HA_CMD_ASSEMBLE_FORCE_OPTS : string := " --assemble --mount --force &>/dev/null".
Definition APOS_HA_CMD_DISABLE_OPTS : string := " --disable --unmount &>/dev/null".
Definition APOS_HA_CMD_ACTIVATE_OPTS : string := " --activate --force &>/dev/null".
Definition APOS_HA_CMD_ACTIVATE_MIP_OPTS : string := " --activate-mips &>/dev/null".
Definition APOS_HA_CMD_DEACTIVATE_MIP_OPTS : string := " --deactivate-mips &>/dev/null".
Definition APOS_HA_CMD_GET_MIP_INFO_OPTS : string := " --mip-info".

(** ** Enumerations *)

(** The states an AMF component can be assigned ([ACS_APGCC_AMF_HA_StateT]). *)
Inductive HAState : Set :=
| HA_UNDEFINED | HA_ACTIVE | HA_STANDBY | HA_QUIESCED | HA_QUIESCING.

#[export] Instance HAState_eq_dec : EqDecision HAState.
Proof. solve_decision. Defined.

(** The recoveries the daemons recommend to AMF. *)
Inductive Recovery : Set := NODE_FAILOVER | NODE_FAILFAST | COMPONENT_RESTART | COMPONENT_FAILOVER.

#[export] Instance Recovery_eq_dec : EqDecision Recovery.
Proof. solve_decision. Defined.

(** [APOS_HA_Msgs]: the message types of the threads' queues. *)
Definition AGENT_SHUTDOWN : Z := 0.
Definition ROLEMGR_CLOSE : Z := 1.
Definition DRBDMON_TIMEOUT : Z := 2.
Definition DRBDMON_CLOSE : Z := 3.

(** [APOS_HA_Nodes], [APOS_HA_Node_Architectures] and [APOS_HA_AdminStates]. *)
Definition APOS_HA_NODE_ONE : Z := 1.
Definition APOS_HA_NODE_TWO : Z := 2.
Definition APOS_HA_NODE_VIRTUAL : Z := 3.
Definition APOS_HA_ADMIN_UNLOCK : Z := 1.
Definition APOS_HA_ADMIN_LOCK : Z := 2.
Definition APOS_HA_ADMIN_LOCK_IN : Z := 3.

(** [HA_DEVMON_MsgTypeT]: what the device monitor reports over the FIFO. *)
Definition DRBD_DISK_HEALTHY : Z := 1.
Definition DRBD_DISK_FAULTY : Z := 2.
Definition DRBD_ROLE_CHANGE : Z := 3.
Definition DRBD_CONN_ERROR : Z := 4.

(** The signals the daemon handles. *)
Definition SIGHUP : Z := 1.
Definition SIGINT : Z := 2.
Definition SIGALRM : Z := 14.
Definition SIGRTMIN : Z := 34.
Definition EVENT_REBUILD : Z := SIGRTMIN + 1.

(** ** Structures *)

(** [DRBD_InfoT]; a [char] array is the C string it holds. *)
Record DRBD_InfoT : Set := mkDRBD {
  isConfigured : bool;
  cstate : string;
  role : string;
  dstate : string;
  diskinfo : string
}.

Definition DRBD_zero : DRBD_InfoT := mkDRBD false EmptyString EmptyString EmptyString EmptyString.

(** [HA_AGENT_PersistantInfoT]. *)
Record PersistantInfoT : Set := mkPInfo { p_cstate : string; p_rebootCount : Z }.

(** [APOS_HA_MipInfoT]: the arrays are null before they are allocated, and a
    slot is [None] until a string is stored in it. *)
Record MipInfoT : Set := mkMipInfo {
  ipAddress : option (list (option string));
  interface : option (list (option string));
  size : Z
}.

(** [HA_AGENT_ConfigT]; [traceDir] is null when its allocation failed. *)
Record ConfigT : Set := mkConfig {
  xtimes : Z;
  ysecs : Z;
  traceMask : Z;
  rebootTmout : Z;
  rebootCount : Z;
  traceDir : option string;
  callbackTmout : Z;
  drbdSupervisionIntvl : Z;
  mipInfo : MipInfoT
}.

(** ** State of the objects *)

(** [HA_AGENT_Utils]: which node of the pair this is. *)
Record UtilsT : Set := mkUtils { ap_1 : bool; ap_2 : bool }.

(** [HA_AGENT_PWROff]: [m_map] is null, the value [mmap] returns when it fails,
    or the address of the persistent file. *)
Inductive MapT : Set := MapNull | MAP_FAILED | Mapped.
Record PWROffT : Set := mkPWROff { m_map : MapT }.

(** [HA_AGENT_DRBDMgr]. *)
Record DRBDMgrT : Set := mkDRBDMgr { m_aposOpts : option string; m_assemble_force : bool }.

(** [HA_AGENT_DRBDMon]. *)
Record DRBDMonT : Set := mkDRBDMon {
  dm_reactorRunner : bool;
  dm_reactor : bool;
  m_timerid : Z;
  m_rebuildInProgress : bool
}.

(** [HA_AGENT_RoleMgr]; an object without state is its pointer being set. *)
Record RoleMgrT : Set := mkRoleMgr {
  m_regHndlr : bool;
  m_arpObj : bool;
  m_pingObj : bool;
  m_ndiscObj : bool;
  m_drbdObj : option DRBDMgrT;
  m_fileObj : bool;
  m_immObj : bool;
  m_DMObj : option DRBDMonT;
  m_reactorRunner : bool;
  m_handle : Z;
  m_startJobsDone : bool;
  m_isVirtual : bool
}.

Definition ACE_INVALID_HANDLE : Z := -1.

(** [HA_AGENT_RoleMgr::HA_AGENT_RoleMgr]. *)
Definition newRoleMgr : RoleMgrT :=
  mkRoleMgr false false false false None false false None false ACE_INVALID_HANDLE false false.

(** [HA_AGENT_DRBDMgr::HA_AGENT_DRBDMgr] and [HA_AGENT_DRBDMon::HA_AGENT_DRBDMon]. *)
Definition newDRBDMgr : DRBDMgrT := mkDRBDMgr None false.
Definition newDRBDMon : DRBDMonT := mkDRBDMon false false (-1) false.

(** [Global]: the singleton every thread shares. *)
Record GlobalT : Set := mkGlobal {
  m_shutdownOrdered : bool;
  m_haMode : bool;
  m_tasksDone : bool;
  m_compRestart : bool;
  m_oldhaState : HAState;
  m_rMgrObj : option RoleMgrT;
  m_utilObj : option UtilsT;
  m_pwrOffObj : option PWROffT;
  m_cngObj : option ConfigT;
  m_haObj : bool
}.

(** [Global::Global]. *)
Definition newGlobal : GlobalT :=
  mkGlobal false false false false HA_UNDEFINED None None None None false.

(** [HA_AGENT_STNBYAdm], and its constructor. *)
Record StbyAdmT : Set := mkStby {
  sb_fileObj : bool;
  sb_DMObj : option DRBDMonT;
  ShutdownDone : bool
}.

Definition newStby : StbyAdmT := mkStby false None false.

(** What the AMF class of a daemon keeps: the state AMF assigned, the flag that ends
    the loop of [activate], the key of the health check, and whether the static pointer
    [appMngrObj] is set. *)
Record AmfT : Set := mkAmf {
  a_state : HAState;
  termAppEventReceived : bool;
  hCheckKey : option string;
  appMngrObj : bool
}.

Definition newAmf : AmfT := mkAmf HA_UNDEFINED false None false.

(** [agentHAClass]: its base [APOS_HA_RdeAgent_AmfClass], the active and the standby
    part. *)
Record HaT : Set := mkHa {
  ha_amf : AmfT;
  m_actvAdmObj : bool;
  m_stbyAdmObj : option StbyAdmT
}.

Definition ha_state (h : HaT) : HAState := a_state (ha_amf h).

Definition newHa : HaT := mkHa newAmf false None.
