(* ===== verification/World.v ===== *)
(** * The daemon and its environment

    The daemon runs shell commands, talks to AMF and IMM, opens files and
    sockets, allocates memory and shares queues between its threads.  None of
    that is code of the daemon: each request is a [Call], and an environment
    [Env] answers it from the history of all earlier requests and answers.  A
    theorem that holds for every [Env] holds whatever the commands, the kernel
    and the middleware do. *)

From S2P Require Import Prelude CString Types.

Open Scope Z_scope.

(** ** Requests and answers *)

(** A forked child: [fork] failed, or what [waitpid] stored in [status]. *)
Inductive ChildR : Set := ForkFailed | ChildStatus (status : Z).

(** The answer to [Utils::_execvp]: the steps of the function in order. *)
Record ExecvpR : Set := mkExecvpR {
  xv_pipe : bool; (* pipe() succeeded *)
  xv_fork : bool; (* fork() succeeded *)
  xv_ready : bool; (* select() reported the pipe readable *)
  xv_out : option string; (* what getdelim() stored, or its failure *)
  xv_status : Z (* the status of the child *)
}.

(** [mkdir] and [mkfifo]: success, [EEXIST], [ENOENT] or another error. *)
Inductive MkR : Set := MkOk | MkExists | MkNoent | MkError.

(** What [recvfrom] returned: its value, the packet type and the hardware type
    of the sender's address, and the bytes of the packet. *)
Record RecvT : Set := mkRecv {
  rx_len : Z;
  rx_pkttype : Z;
  rx_hatype : Z;
  rx_bytes : list Z
}.

(** What [recvmsg] returned on the ICMPv6 socket: its value, the hop limit if the
    kernel passed it, the scope of the sender and the bytes. *)
Record Recv6T : Set := mkRecv6 {
  rx6_len : Z;
  rx6_hops : option Z;
  rx6_scope : Z;
  rx6_bytes : list Z
}.

(** What [poll] reports to the loop of the AMF class: its value, whether a failure
    was [EINTR], and which descriptors are readable. *)
Record PollR : Set := mkPoll { pl_ret : Z; pl_intr : bool; pl_amf : bool; pl_usr2 : bool }.

(** The callbacks AMF invokes from [saAmfDispatch]. *)
Inductive Callback : Set :=
| CsiSet (st : HAState)
| CsiRemove
| CsiTerminate
| Healthcheck (key : string).

(** [fcntl(F_SETLK)]: the lock is taken, another process holds it, or another
    error. *)
Inductive LockR : Set := LockTaken | LockHeld | LockError.

(** An event of the TIPC topology server: the length received, the kind of event and
    the lower bound of the name found. *)
Record TipcEvT : Set := mkTipcEv { te_len : Z; te_event : Z; te_lower : Z }.

(** What [recv] on a selection object did: removed so many indications, or failed with
    [EAGAIN], [EINTR] or another error. *)
Inductive IndR : Set := IndGot (n : Z) | IndAgain | IndIntr | IndFail.

(** The signals the MD agent handles. *)
Inductive MdSignal : Set := SigUsr1 | SigHup | SigTerm | SigInt | SigAlrm | SigUpdateDisk | SigUpdateRaid.

(** What [poll] reports to the loop of the MD agent, and the signals that arrived since the
    last call: their handlers only set flags that the loop reads after [poll]. *)
Record PollMdR : Set := mkPollMd {
  pm_ret : Z; pm_intr : bool;
  pm_amf : bool; pm_rt : bool; pm_hup : bool; pm_term : bool; pm_int : bool;
  pm_timer : bool; pm_tipc : bool; pm_signals : list MdSignal
}.

(** [struct passwd]. *)
Record PasswdT : Set := mkPasswd {
  pw_name : string;
  pw_passwd : string;
  pw_uid : Z;
  pw_gid : Z;
  pw_gecos : string;
  pw_dir : string;
  pw_shell : string
}.

(** [enum nss_status]. *)
Inductive nss_status : Set :=
  NSS_STATUS_TRYAGAIN | NSS_STATUS_UNAVAIL | NSS_STATUS_NOTFOUND | NSS_STATUS_SUCCESS.

(** What [_nss_ldap_getpwuid_r] answers, and the bytes of the buffer it filled. *)
Record LdapR : Set := mkLdapR { ld_status : nss_status; ld_pwd : PasswdT; ld_used : Z }.

Inductive Call : Set :=
(* processes *)
| CExec (cmd : string) (alarm : Z)
| CExecvp (argv : list string) (alarm : Z)
| CPopen (cmd : string)
| CRebootCmd
| CGetpid
| CFork
(* memory *)
| CNew (cls : string)
(* time *)
| CSleep (msecs : Z)
| CTime
| CMono
(* files and the FIFO *)
| CReadFile (path : string)
| CCreate (path : string)
| CUnlink (path : string)
| CWrite (path data : string)
| CClose (path : string)
| CFileOp (op : string)
| CMkdir (path : string)
| CMkfifo
| COpenFifo
| CReadFifo
(* the information model (IMM) *)
| CImm (op : string)
| CImmGet (dn attr : string)
(* the availability framework (AMF) *)
| CReport (r : Recovery)
| CAmf (op : string) (error : Z)
| CPollAmf
| CDispatch
(* threads, queues and timers *)
| CActivate (thread : string)
| CRegister (what : string)
| CRemove (what : string)
| CGetq (queue : string)
| CPutq (queue : string) (msg : Z)
| CTimer (op : string) (secs : Z)
| CFlags
| CWait (thread : string)
(* sockets *)
| CSocket (domain : string)
| CIfFlags (intf : string)
| CSockopt (name arg : string)
| CGetaddrinfo (name : string)
| CConnect
| CGetsockname (sock : string)
| CSendto (pkt : list Z)
| CSelect (usec : Z)
| CRecvfrom
| CPoll (msecs : Z)
| CRecvmsg
| CIfIndex (intf : string)
| CIfHwaddr (intf : string)
(* record locks, the LDAP module and system limits *)
| CLock (path : string)
| CLdap (uid buflen : Z)
| CSysconf
| CWriteFifo (data : list Z)
(* pipes to commands, signals, TIPC and the selection objects of the MD daemons *)
| CPclose (cmd : string)
| CKill (pid sig : Z)
| CTipc (op : string)
| CTipcEvent
| CPollMd
| CRecvInd (obj : string)
(* the contents of an array that was not initialised *)
| CUninit (n : Z).

Definition resp (c : Call) : Set :=
  match c with
  | CExec _ _ | CRebootCmd => ChildR
  | CExecvp _ _ => ExecvpR
  | CPopen _ | CReadFile _ => option string
  | CGetpid | CFork | CTime | CWrite _ _ | CIfFlags _ | CSendto _ | CSelect _
  | CPoll _ | CIfIndex _ | CSysconf | CWriteFifo _ | CMono | CPclose _ => Z
  | CNew _ | CCreate _ | CUnlink _ | CClose _ | CFileOp _ | COpenFifo | CImm _
  | CReport _ | CAmf _ _ | CActivate _ | CRegister _ | CRemove _ | CPutq _ _
  | CTimer _ _ | CSocket _ | CSockopt _ _ | CConnect | CKill _ _ | CTipc _ => bool
  | CSleep _ | CWait _ => unit
  | CPollAmf => PollR
  | CDispatch => list Callback * bool
  | CMkfifo | CMkdir _ => MkR
  | CReadFifo => Z * list Z
  | CImmGet _ _ => option (string * list Z)
  | CGetq _ => option Z
  | CFlags => bool * bool
  | CGetaddrinfo _ | CIfHwaddr _ => option (list Z)
  | CGetsockname _ => option (Z * list Z)
  | CRecvfrom => RecvT
  | CRecvmsg => Recv6T
  | CUninit _ => list Z
  | CLock _ => LockR
  | CLdap _ _ => LdapR
  | CTipcEvent => TipcEvT
  | CPollMd => PollMdR
  | CRecvInd _ => IndR
  end.

(** A request with its answer. *)
Inductive Event : Set := Ev (c : Call) (r : resp c).

Definition request (e : Event) : Call := let 'Ev c _ := e in c.

(** The history of a process, the latest event first. *)
Definition Trace : Set := list Event.

Class Env := { answer : Trace → ∀ c : Call, resp c }.

(** The answers of a system in which everything succeeds; the examples start
    from it. *)
Definition dflt (c : Call) : resp c :=
  match c with
  | CExec _ _ | CRebootCmd => ChildStatus 0
  | CExecvp _ _ => mkExecvpR true true true (Some EmptyString) 0
  | CPopen _ | CReadFile _ => Some EmptyString
  | CGetpid => 100
  | CFork | CTime | CMono | CIfFlags _ | CSelect _ | CPoll _ | CIfIndex _ | CPclose _ => 0
  | CWrite _ data => Z.of_nat (String.length data)
  | CSendto pkt | CWriteFifo pkt => Z.of_nat (length pkt)
  | CSysconf => 1024
  | CNew _ | CCreate _ | CUnlink _ | CClose _ | CFileOp _ | COpenFifo | CImm _
  | CReport _ | CAmf _ _ | CActivate _ | CRegister _ | CRemove _ | CPutq _ _
  | CTimer _ _ | CSocket _ | CSockopt _ _ | CConnect | CKill _ _ | CTipc _ => true
  | CSleep _ | CWait _ => tt
  | CPollAmf => mkPoll 0 false false false
  | CDispatch => ([], true)
  | CMkfifo | CMkdir _ => MkOk
  | CReadFifo => (0, [])
  | CImmGet _ _ | CGetq _ | CGetaddrinfo _ | CGetsockname _ | CIfHwaddr _ => None
  | CFlags => (false, false)
  | CRecvfrom => mkRecv 0 0 0 []
  | CRecvmsg => mkRecv6 0 None 0 []
  | CUninit _ => []
  | CLock _ => LockTaken
  | CTipcEvent => mkTipcEv 0 0 0
  | CPollMd => mkPollMd 0 false false false false false false false false []
  | CRecvInd _ => IndGot 1
  | CLdap _ _ => mkLdapR NSS_STATUS_NOTFOUND
      (mkPasswd EmptyString EmptyString 0 0 EmptyString EmptyString EmptyString) 0
  end.

Definition calm : Env := {| answer := λ _ c, dflt c |}.

(** ** State *)

(** The static variables of [apos_ha_logtrace.cpp]: whether [trace_fd] is open,
    and the mask. *)
Record LogT : Set := mkLog { trace_open : bool; category_mask : Z }.

(** The process and the files it owns: the lock file, the reboot-count file
    with its contents, and the persistent file of [HA_AGENT_PWROff]. *)
Record World : Set := mkWorld {
  w_trace : Trace;
  w_glob : GlobalT;
  w_lock : bool;
  w_rcf : option string;
  w_psst : option PersistantInfoT;
  w_log : LogT;
  w_ha : HaT
}.

Abbreviation MW := (M World).

Definition push (e : Event) (s : World) : World :=
  mkWorld (e :: w_trace s) (w_glob s) (w_lock s) (w_rcf s) (w_psst s) (w_log s) (w_ha s).
Definition set_glob (f : GlobalT → GlobalT) (s : World) : World :=
  mkWorld (w_trace s) (f (w_glob s)) (w_lock s) (w_rcf s) (w_psst s) (w_log s) (w_ha s).
Definition set_lock (b : bool) (s : World) : World :=
  mkWorld (w_trace s) (w_glob s) b (w_rcf s) (w_psst s) (w_log s) (w_ha s).
Definition set_rcf (c : option string) (s : World) : World :=
  mkWorld (w_trace s) (w_glob s) (w_lock s) c (w_psst s) (w_log s) (w_ha s).
Definition set_psst (p : option PersistantInfoT) (s : World) : World :=
  mkWorld (w_trace s) (w_glob s) (w_lock s) (w_rcf s) p (w_log s) (w_ha s).
Definition set_log (l : LogT) (s : World) : World :=
  mkWorld (w_trace s) (w_glob s) (w_lock s) (w_rcf s) (w_psst s) l (w_ha s).
Definition set_ha (f : HaT → HaT) (s : World) : World :=
  mkWorld (w_trace s) (w_glob s) (w_lock s) (w_rcf s) (w_psst s) (w_log s) (f (w_ha s)).

(** The process when it starts. *)
Definition newWorld : World := mkWorld [] newGlobal false None None (mkLog false 0) newHa.

(** The assignments to the members of [Global]. *)
Definition set_shutdownOrdered (b : bool) (g : GlobalT) : GlobalT :=
  mkGlobal b (m_haMode g) (m_tasksDone g) (m_compRestart g) (m_oldhaState g)
    (m_rMgrObj g) (m_utilObj g) (m_pwrOffObj g) (m_cngObj g) (m_haObj g).
Definition set_haMode (b : bool) (g : GlobalT) : GlobalT :=
  mkGlobal (m_shutdownOrdered g) b (m_tasksDone g) (m_compRestart g) (m_oldhaState g)
    (m_rMgrObj g) (m_utilObj g) (m_pwrOffObj g) (m_cngObj g) (m_haObj g).
Definition set_tasksDone (b : bool) (g : GlobalT) : GlobalT :=
  mkGlobal (m_shutdownOrdered g) (m_haMode g) b (m_compRestart g) (m_oldhaState g)
    (m_rMgrObj g) (m_utilObj g) (m_pwrOffObj g) (m_cngObj g) (m_haObj g).
Definition set_compRestart (b : bool) (g : GlobalT) : GlobalT :=
  mkGlobal (m_shutdownOrdered g) (m_haMode g) (m_tasksDone g) b (m_oldhaState g)
    (m_rMgrObj g) (m_utilObj g) (m_pwrOffObj g) (m_cngObj g) (m_haObj g).
Definition set_oldhaState (h : HAState) (g : GlobalT) : GlobalT :=
  mkGlobal (m_shutdownOrdered g) (m_haMode g) (m_tasksDone g) (m_compRestart g) h
    (m_rMgrObj g) (m_utilObj g) (m_pwrOffObj g) (m_cngObj g) (m_haObj g).
Definition set_rMgrObj (o : option RoleMgrT) (g : GlobalT) : GlobalT :=
  mkGlobal (m_shutdownOrdered g) (m_haMode g) (m_tasksDone g) (m_compRestart g) (m_oldhaState g)
    o (m_utilObj g) (m_pwrOffObj g) (m_cngObj g) (m_haObj g).
Definition set_utilObj (o : option UtilsT) (g : GlobalT) : GlobalT :=
  mkGlobal (m_shutdownOrdered g) (m_haMode g) (m_tasksDone g) (m_compRestart g) (m_oldhaState g)
    (m_rMgrObj g) o (m_pwrOffObj g) (m_cngObj g) (m_haObj g).
Definition set_pwrOffObj (o : option PWROffT) (g : GlobalT) : GlobalT :=
  mkGlobal (m_shutdownOrdered g) (m_haMode g) (m_tasksDone g) (m_compRestart g) (m_oldhaState g)
    (m_rMgrObj g) (m_utilObj g) o (m_cngObj g) (m_haObj g).
Definition set_cngObj (o : option ConfigT) (g : GlobalT) : GlobalT :=
  mkGlobal (m_shutdownOrdered g) (m_haMode g) (m_tasksDone g) (m_compRestart g) (m_oldhaState g)
    (m_rMgrObj g) (m_utilObj g) (m_pwrOffObj g) o (m_haObj g).
Definition set_haObj (b : bool) (g : GlobalT) : GlobalT :=
  mkGlobal (m_shutdownOrdered g) (m_haMode g) (m_tasksDone g) (m_compRestart g) (m_oldhaState g)
    (m_rMgrObj g) (m_utilObj g) (m_pwrOffObj g) (m_cngObj g) b.

(** ** Primitives *)

Section primitives.
Context `{E : Env}.

Definition call (c : Call) : MW (resp c) := λ s,
  let r := answer (w_trace s) c in (Val r, push (Ev c r) s).

Definition global {A} (f : GlobalT → A) : MW A := gets (f ∘ w_glob).
Definition assign (f : GlobalT → GlobalT) : MW unit := modify (set_glob f).

Lemma bind_call {A} c (k : resp c → MW A) s :
  (call c ≫= k) s = k (answer (w_trace s) c) (push (Ev c (answer (w_trace s) c)) s).
Proof. done. Qed.

Lemma wp_call c Q s :
  (∀ r, r = answer (w_trace s) c → Q (Val r) (push (Ev c r) s)) → wp (call c) Q s.
Proof. unfold wp. simpl. auto. Qed.
End primitives.

(** [wp_prim] runs one primitive step of a goal [wp m Q s]; [wp_auto] runs the
    straight-line code in front of the next case distinction. *)
Ltac positive_lit p :=
  lazymatch p with xH => idtac | xO ?q => positive_lit q | xI ?q => positive_lit q end.
Ltac Z_lit z :=
  lazymatch z with Z0 => idtac | Zpos ?p => positive_lit p | Zneg ?p => positive_lit p end.
Ltac closed_bool b :=
  lazymatch b with
  | true => idtac
  | false => idtac
  | negb ?c => closed_bool c
  | Z.eqb ?x ?y => Z_lit x; Z_lit y
  | Z.ltb ?x ?y => Z_lit x; Z_lit y
  end.
Ltac wp_prim :=
  lazymatch goal with
  | |- wp (_ ≫= _) (valQ _) _ => apply wp_valQ_bind
  | |- wp (_ ≫= _) _ _ => apply wp_bind
  | |- wp (mret _) _ _ => apply wp_ret; cbn [valQ thenQ]
  | |- wp (call ?c) _ _ => apply (wp_call c); intros ? ?; cbn [valQ thenQ]
  | |- wp (gets _) _ _ => apply wp_gets; cbn [valQ thenQ]
  | |- wp (global _) _ _ => apply wp_gets; cbn [valQ thenQ compose]
  | |- wp (modify _) _ _ => apply wp_modify; cbn [valQ thenQ]
  | |- wp (assign _) _ _ => apply wp_modify; cbn [valQ thenQ]
  | |- wp (deref (Some _)) _ _ => apply wp_ret; cbn [valQ thenQ]
  | |- thenQ _ _ _ _ => cbn [thenQ]
  | |- valQ _ (Val _) _ => cbn [valQ]
  | |- wp (if ?b then ?m else ?k) ?Q ?s =>
      closed_bool b;
      let b' := eval lazy in b in
      lazymatch b' with true => change (wp m Q s) | false => change (wp k Q s) end
  | |- wp ?m ?Q ?s =>
      let m' := eval cbv beta iota in m in progress change (wp m' Q s)
  end.
Ltac wp_auto := repeat wp_prim.

(** ** What a run leaves unchanged

    [steps R m]: every run of [m], however it ends, takes the state along the
    relation [R].  With [R] a preorder this composes, so the frame of a function
    (the events it may cause, the fields it does not touch) follows from the
    frames of the functions it calls. *)

Definition steps {W A : Type} (R : relation W) (m : M W A) : Prop := ∀ s, R s (m s).2.

Section steps.
Context {W : Type} (R : relation W) `{!PreOrder R}.

Lemma steps_ret {A} (a : A) : steps R (mret a : M W A).
Proof. by intros s. Qed.

Lemma steps_bind {A B} (m : M W A) (k : A → M W B) :
  steps R m → (∀ a, steps R (k a)) → steps R (m ≫= k).
Proof.
  intros Hm Hk s. specialize (Hm s). unfold mbind, M_bind.
  destruct (m s) as [[a| | |] s'] eqn:Em; simpl in *; auto.
  etrans; [done|apply Hk].
Qed.

(** From one state on, with what is known after the first part. *)
Lemma steps_bind_at {A B} (m : M W A) (k : A → M W B) s :
  R s (m s).2 → after m (λ a s', R s' (k a s').2) s → R s ((m ≫= k) s).2.
Proof.
  intros Hm Hk. unfold mbind, M_bind. unfold after in Hk.
  destruct (m s) as [[a| | |] s'] eqn:Em; simpl in *; auto.
  etrans; [done|by apply Hk].
Qed.

Lemma steps_gets {A} (f : W → A) : steps R (gets f).
Proof. by intros s. Qed.

Lemma steps_exit {A} c : steps R (exit c : M W A).
Proof. by intros s. Qed.

Lemma steps_undef {A} : steps R (undef : M W A).
Proof. by intros s. Qed.

Lemma steps_nofuel {A} : steps R (nofuel : M W A).
Proof. by intros s. Qed.

Lemma steps_deref {A} (p : option A) : steps R (deref p : M W A).
Proof. destruct p; by intros s. Qed.

Lemma steps_strcpy n s : steps R (strcpy n s : M W string).
Proof. unfold strcpy. case_match; by intros ?. Qed.

Lemma steps_run {A} (m : M W A) s o s' : steps R m → m s = (o, s') → R s s'.
Proof. intros H Em. specialize (H s). by rewrite Em in H. Qed.

Lemma steps_modify f : (∀ s, R s (f s)) → steps R (modify f).
Proof. by intros H s. Qed.

(** What a relation of states gives after a run. *)
Lemma steps_after {A} (m : M W A) (P : A → W → Prop) s :
  steps R m → (∀ a s', R s s' → P a s') → after m P s.
Proof. intros Hm HP a s' Hrun. eapply HP, steps_run; eauto. Qed.
End steps.

Lemma steps_global `{Env} (R : relation World) `{!PreOrder R} {A} (f : GlobalT → A) :
  steps R (global f).
Proof. by intros s. Qed.

Create HintDb steps.
#[export] Hint Resolve steps_ret steps_gets steps_global steps_exit steps_undef
  steps_nofuel steps_deref steps_strcpy : steps.
#[export] Hint Extern 0 (PreOrder _) => apply _ : steps.

(** [emits Φ]: the run only adds events that satisfy [Φ] to the history. *)
Definition emits (Φ : Event → Prop) : relation World := λ s s',
  ∃ new, w_trace s' = new ++ w_trace s ∧ Forall Φ new.

#[export] Instance emits_preorder Φ : PreOrder (emits Φ).
Proof.
  split.
  - intros s. by exists [].
  - intros s1 s2 s3 (n1 & E1 & F1) (n2 & E2 & F2). exists (n2 ++ n1).
    rewrite E2, E1, app_assoc. split; [done|]. by apply Forall_app.
Qed.

(** [keeps f]: the run does not change the part [f] of the state. *)
Definition keeps {W A : Type} (f : W → A) : relation W := λ s s', f s' = f s.

#[export] Instance keeps_preorder {W A : Type} (f : W → A) : PreOrder (keeps f).
Proof. split; unfold keeps; [by intros ?|]. intros ??? H1 H2. congruence. Qed.

Lemma steps_call_emits `{Env} (Φ : Event → Prop) c :
  (∀ r, Φ (Ev c r)) → steps (emits Φ) (call c).
Proof. intros H0 s. exists [Ev c (answer (w_trace s) c)]. simpl. auto. Qed.

Lemma steps_assign `{Env} (R : relation World) f :
  (∀ s, R s (set_glob f s)) → steps R (assign f).
Proof. by intros H0 s. Qed.

(** [solve_steps] takes a function apart along its control flow; what is left
    are the calls and assignments [tac] has to justify. *)
Ltac steps_leaf :=
  first
    [ solve [eauto 3 with steps]
    | apply steps_call_emits; intros; simpl; done
    | apply steps_modify; intros; exists []; simpl; done
    | apply steps_assign; intros; exists []; simpl; done
    | apply steps_modify; intros; reflexivity
    | apply steps_assign; intros; reflexivity ].

Ltac solve_steps :=
  repeat lazymatch goal with
  | |- steps _ (_ ≫= _) => apply steps_bind; [apply _| |intros ?]
  | |- steps _ (if ?b then _ else _) => destruct b
  | |- steps _ (match ?x with _ => _ end) => destruct x
  | |- steps _ (let _ := _ in _) => cbv zeta
  | |- steps _ _ => steps_leaf
  end.

(** ** Commands that bring the node up

    Mounting the shared disk, configuring the MIPs and starting the services on
    them are what only one node of the pair may do at a time. *)

Definition cmd_assemble : string := String.append APOS_HA_CMD_DRBDMGR APOS_HA_CMD_ASSEMBLE_OPTS.
Definition cmd_assemble_force : string :=
  String.append APOS_HA_CMD_DRBDMGR APOS_HA_CMD_ASSEMBLE_FORCE_OPTS.
Definition cmd_activate_mips : string :=
  String.append APOS_HA_CMD_APOS_OPERATIONS APOS_HA_CMD_ACTIVATE_MIP_OPTS.
Definition cmd_startup : string :=
  String.append APOS_HA_CMD_APOS_OPERATIONS " --startup &>/dev/null".

Definition is_start (c : Call) : bool :=
  match c with
  | CExec cmd _ =>
      streq cmd cmd_assemble || streq cmd cmd_assemble_force
      || streq cmd cmd_activate_mips || streq cmd cmd_startup
  | _ => false
  end.

(** No start command among the events. *)
Definition quiet : relation World := emits (λ e, is_start (request e) = false).

#[export] Instance quiet_preorder : PreOrder quiet.
Proof. apply emits_preorder. Qed.

(** All of the HA object but the members of its standby part. *)
Definition ha_shape (h : HaT) : AmfT * bool * bool :=
  (ha_amf h, m_actvAdmObj h, bool_decide (is_Some (m_stbyAdmObj h))).

(** Frames are preorders that the steps of the daemon respect: a [QueryFrame] every
    request but a start command, and the creation of the configuration and the utility
    object; a [CoreFrame] also every assignment to the shared memory that neither
    creates nor deletes a part of the HA object; a [Frame] also every change of a file
    but the lock file, and a [LockFrame] of that too.  What a function leaves alone is
    proved once, for all frames of the weakest kind that fits it. *)
Class QueryFrame (R : relation World) : Prop := {
  frame_preorder :: PreOrder R;
  frame_push : ∀ s e, is_start (request e) = false → R s (push e s);
  frame_config : ∀ s c, m_cngObj (w_glob s) = None → R s (set_glob (set_cngObj (Some c)) s);
  frame_utils : ∀ s u, R s (set_glob (set_utilObj (Some u)) s)
}.

Class CoreFrame (R : relation World) : Prop := {
  frame_query :: QueryFrame R;
  frame_glob : ∀ s f, R s (set_glob f s);
  frame_ha : ∀ s f, (∀ h, ha_shape (f h) = ha_shape h) → R s (set_ha f s)
}.

Class Frame (R : relation World) : Prop := {
  frame_core :: CoreFrame R;
  frame_rcf : ∀ s c, R s (set_rcf c s);
  frame_psst : ∀ s p, R s (set_psst p s);
  frame_log : ∀ s l, R s (set_log l s)
}.

Class LockFrame (R : relation World) : Prop := {
  frame_files :: Frame R;
  frame_lock : ∀ s b, R s (set_lock b s)
}.

#[export] Instance quiet_frame : LockFrame quiet.
Proof.
  split; [split; [split; [split|..]|..]|..]; try apply _; try by (intros; exists []).
  intros s e He. exists [e]. auto.
Qed.

#[export] Instance lock_frame : Frame (keeps w_lock).
Proof. split; [split; [split|..]|..]; try apply _; done. Qed.

#[export] Instance shape_frame : LockFrame (keeps (ha_shape ∘ w_ha)).
Proof.
  split; [split; [split; [split|..]|..]|..]; try apply _; try done. intros s f Hf. apply Hf.
Qed.

#[export] Instance psst_frame : CoreFrame (keeps w_psst).
Proof. split; [split|..]; try apply _; done. Qed.

#[export] Instance rcf_frame : CoreFrame (keeps w_rcf).
Proof. split; [split|..]; try apply _; done. Qed.

Lemma frame_call `{Env} R `{!QueryFrame R} c : is_start c = false → steps R (call c).
Proof. intros Hc s. by apply frame_push. Qed.

Lemma frame_assign `{Env} R `{!CoreFrame R} f : steps R (assign f).
Proof. intros s. apply frame_glob. Qed.

#[export] Hint Extern 0 (QueryFrame _) => apply _ : steps.
#[export] Hint Extern 0 (CoreFrame _) => apply _ : steps.
#[export] Hint Extern 0 (Frame _) => apply _ : steps.
#[export] Hint Extern 0 (LockFrame _) => apply _ : steps.
#[export] Hint Resolve frame_assign : steps.
#[export] Hint Extern 1 (steps _ (call _)) => apply frame_call; [apply _|reflexivity] : steps.
#[export] Hint Extern 1 (steps _ (modify _)) =>
  intros ?; first [apply frame_rcf|apply frame_psst|apply frame_log|apply frame_lock
    |apply frame_ha; intros [? ? []]; reflexivity|apply frame_glob] : steps.

(** The history only grows, so what happened stays in it. *)
Lemma quiet_keeps {A} (m : MW A) s o s' e :
  steps quiet m → m s = (o, s') → e ∈ w_trace s → e ∈ w_trace s'.
Proof.
  intros Hm Hrun He. destruct (steps_run _ _ _ _ _ Hm Hrun) as (new & -> & _).
  apply elem_of_app. by right.
Qed.

(** What happened between two points of a run. *)
Definition since (s s' : World) (P : Trace → Prop) : Prop :=
  ∃ new, w_trace s' = new ++ w_trace s ∧ P new.

(** The request [c] was made. *)
Definition did (c : Call) (t : Trace) : Prop := ∃ r, Ev c r ∈ t.

Lemma since_refl s (P : Trace → Prop) : P [] → since s s P.
Proof. intros H. by exists []. Qed.

Lemma since_trans s1 s2 s3 (P Q R : Trace → Prop) :
  since s1 s2 P → since s2 s3 Q → (∀ n1 n2, P n1 → Q n2 → R (n2 ++ n1)) → since s1 s3 R.
Proof.
  intros (n1 & E1 & H1) (n2 & E2 & H2) HR. exists (n2 ++ n1).
  rewrite E2, E1, app_assoc. eauto.
Qed.

Lemma since_push s e (P : Trace → Prop) : P [e] → since s (push e s) P.
Proof. intros H. by exists [e]. Qed.

Lemma did_app c t1 t2 : did c (t1 ++ t2) ↔ did c t1 ∨ did c t2.
Proof. unfold did. set_solver. Qed.

Lemma did_cons c d (r : resp d) t : did c (Ev d r :: t) ↔ c = d ∨ did c t.
Proof.
  unfold did. split.
  - intros [x Hx]. apply elem_of_cons in Hx as [[= -> _]|Hx]; eauto.
  - intros [->|[x Hx]]; [exists r; left|exists x; by right].
Qed.

Lemma did_nil c : ¬ did c [].
Proof. intros [r Hr]. by apply not_elem_of_nil in Hr. Qed.

(** The history grew. *)
Definition grew (s s' : World) : Prop := ∃ new, w_trace s' = new ++ w_trace s.

#[export] Instance grew_preorder : PreOrder grew.
Proof.
  split.
  - intros s. by exists [].
  - intros s1 s2 s3 [n1 E1] [n2 E2]. exists (n2 ++ n1). by rewrite E2, E1, app_assoc.
Qed.

#[export] Instance grew_frame : LockFrame grew.
Proof.
  split; [split; [split; [split|..]|..]|..]; try apply _; try by (intros; exists []).
  intros s e _. by exists [e].
Qed.

Lemma grew_call `{Env} c : steps grew (call c).
Proof. intros s. by eexists [_]. Qed.

Lemma quiet_grew s s' : quiet s s' → grew s s'.
Proof. intros (new & H & _). by exists new. Qed.
