(* ===== verification/Amf.v ===== *)
(** * The AMF class

    Every daemon is a component of the availability framework AMF through a class of
    its own copy ([APOS_HA_RdeAgent_AmfClass], [APOS_HA_Devmon_AmfClass]): the daemon
    detaches itself from its parent, registers with AMF, and waits in [activate] for
    the callbacks by which AMF assigns a state to it.  What a daemon does in a state
    are its jobs, virtual functions of the class.  Here is the class over a [Host],
    the interface of a daemon to it; which callbacks [saAmfDispatch] invokes is an
    answer of the environment.  A result [ACS_APGCC_SUCCESS] is [true]. *)

From stdpp Require Import pretty.
From S2P Require Import Prelude CString Types World.

Open Scope Z_scope.

Definition SA_AIS_OK : Z := 1.
Definition SA_AIS_ERR_FAILED_OPERATION : Z := 21.

Definition PIDDIR : string := "/var/run/apg".
Definition PID_FILE_LEN : nat := 50.

(** [ACS_APGCC_HA_ReturnType]. *)
Inductive HAReturn : Set := HA_SUCCESS | HA_FAILURE | HA_FAILURE_CLOSE.

(** The jobs; those of a state change are passed the previous state. *)
Inductive Job : Set :=
| JobActive (previousHAState : HAState)
| JobPassive (previousHAState : HAState)
| JobQuiesing (previousHAState : HAState)
| JobQuiesced (previousHAState : HAState)
| JobTerminate
| JobRemove
| JobShutdown
| JobHealth.

Definition set_a_state (st : HAState) (a : AmfT) : AmfT :=
  mkAmf st (termAppEventReceived a) (hCheckKey a) (appMngrObj a).
Definition set_termApp (b : bool) (a : AmfT) : AmfT :=
  mkAmf (a_state a) b (hCheckKey a) (appMngrObj a).
Definition set_hCheckKey (k : option string) (a : AmfT) : AmfT :=
  mkAmf (a_state a) (termAppEventReceived a) k (appMngrObj a).
Definition set_appMngr (b : bool) (a : AmfT) : AmfT :=
  mkAmf (a_state a) (termAppEventReceived a) (hCheckKey a) b.

(** An object of the class: its requests, where the state of the daemon keeps its
    members, and the name of the daemon. *)
Class AmfObj (St : Type) := {
  host_ask : ∀ c, M St (resp c);
  host_amf : St → AmfT;
  host_set : (AmfT → AmfT) → St → St;
  host_name : string
}.

(** A daemon under AMF: the object with its jobs. *)
Class Host (St : Type) := {
  host_obj :: AmfObj St;
  host_job : Job → M St bool
}.

Definition error_of (ok : bool) : Z := if ok then SA_AIS_OK else SA_AIS_ERR_FAILED_OPERATION.

Section object.
Context {St : Type} `{!AmfObj St}.

Definition amf {A} (f : AmfT → A) : M St A := gets (f ∘ host_amf).
Definition on_amf (f : AmfT → AmfT) : M St unit := modify (host_set f).

(** ** Registration with AMF *)

(** [safAMFInitialize]. *)
Definition safAMFInitialize : M St bool :=
  r ← host_ask (CAmf "saAmfInitialize" SA_AIS_OK);
  if negb r then mret false else
  on_amf (set_appMngr true);;
  mret true.

(** [coreMWInitialize]: the result of [safAMFInitialize] is not looked at. *)
Definition coreMWInitialize : M St bool :=
  sg ← host_ask (CRegister "SIGUSR2");
  if negb sg then mret false else
  _ ← safAMFInitialize;
  r ← host_ask (CAmf "saAmfSelectionObjectGet" SA_AIS_OK);
  if negb r then mret false else
  r ← host_ask (CAmf "saAmfComponentNameGet" SA_AIS_OK);
  if negb r then mret false else
  r ← host_ask (CAmf "saAmfComponentRegister" SA_AIS_OK);
  if negb r then mret false else
  on_amf (set_hCheckKey (Some (String.append host_name "_hck")));;
  r ← host_ask (CAmf "saAmfHealthcheckStart" SA_AIS_OK);
  mret (r : bool).

(** [finalize] and [AmfFinalize]. *)
Definition finalize : M St bool :=
  r ← host_ask (CAmf "saAmfHealthcheckStop" SA_AIS_OK);
  if negb r then mret false else
  on_amf (set_hCheckKey None);;
  r ← host_ask (CAmf "saAmfComponentUnregister" SA_AIS_OK);
  if negb r then mret false else
  r ← host_ask (CAmf "saAmfFinalize" SA_AIS_OK);
  mret (r : bool).

Definition AmfFinalize : M St bool :=
  on_amf (set_hCheckKey None);;
  r ← host_ask (CAmf "saAmfFinalize" SA_AIS_OK);
  mret (r : bool).

End object.

Section amf.
Context {St : Type} `{!Host St}.

(** ** Callbacks *)

(** The callbacks use [appMngrObj] without a test. *)
Definition via_appMngr : M St unit :=
  o ← amf appMngrObj;
  if (o : bool) then mret tt else undef.

(** [saAmfResponse] and [saAmfCSIQuiescingComplete], after which a failure sets the
    state back. *)
Definition respond (op : string) (ok : bool) (previousHAState : HAState) : M St unit :=
  sent ← host_ask (CAmf op (error_of ok));
  if (sent : bool) then mret tt else on_amf (set_a_state previousHAState).

(** [coremw_csi_set_callback]. *)
Definition csi_set (st : HAState) : M St unit :=
  via_appMngr;;
  previousHAState ← amf a_state;
  on_amf (set_a_state st);;
  match st with
  | HA_ACTIVE =>
      ok ← host_job (JobActive previousHAState);
      respond "saAmfResponse" ok previousHAState
  | HA_STANDBY =>
      ok ← host_job (JobPassive previousHAState);
      respond "saAmfResponse" ok previousHAState
  | HA_QUIESCED =>
      ok ← host_job (JobQuiesced previousHAState);
      respond "saAmfResponse" ok previousHAState
  | HA_QUIESCING =>
      _ ← host_ask (CAmf "saAmfResponse" SA_AIS_OK);
      ok ← host_job (JobQuiesing previousHAState);
      respond "saAmfCSIQuiescingComplete" ok previousHAState
  | HA_UNDEFINED => respond "saAmfResponse" true previousHAState
  end.

(** [coremw_csi_remove_callback]. *)
Definition csi_remove : M St unit :=
  via_appMngr;;
  on_amf (set_a_state HA_UNDEFINED);;
  ok ← host_job JobRemove;
  _ ← host_ask (CAmf "saAmfResponse" (error_of ok));
  mret tt.

(** [coremw_csi_terminate_callback]. *)
Definition csi_terminate : M St unit :=
  via_appMngr;;
  on_amf (set_a_state HA_UNDEFINED);;
  ok ← host_job JobTerminate;
  sent ← host_ask (CAmf "saAmfResponse" (error_of ok));
  if (sent : bool) then on_amf (set_termApp true) else mret tt.

(** [coremw_healthcheck_callback]. *)
Definition healthcheck (key : string) : M St unit :=
  via_appMngr;;
  o ← amf hCheckKey;
  k ← deref o;
  if negb (streq key k) then mret tt else
  ok ← host_job JobHealth;
  if (ok : bool) then _ ← host_ask (CAmf "saAmfResponse" SA_AIS_OK); mret tt else mret tt.

(** [registerApplicationShutdownhandler], the handler of [SIGUSR2]: it runs the jobs, and
    does not write to the pipe that would end the loop of [activate]. *)
Definition usr2_handler : M St unit :=
  via_appMngr;;
  _ ← host_job JobShutdown;
  mret tt.

Definition callback (cb : Callback) : M St unit :=
  match cb with
  | CsiSet st => csi_set st
  | CsiRemove => csi_remove
  | CsiTerminate => csi_terminate
  | Healthcheck key => healthcheck key
  end.

Fixpoint callbacks (cbs : list Callback) : M St unit :=
  match cbs with
  | [] => mret tt
  | cb :: cbs => callback cb;; callbacks cbs
  end.

(** [dispatch]: the library invokes the callbacks that are pending. *)
Definition dispatch_amf : M St bool :=
  '(cbs, ok) ← host_ask CDispatch;
  callbacks cbs;;
  mret (ok : bool).

(** ** Life cycle *)

(** The loop of [activate]: [fuel] bounds the rounds. *)
Fixpoint activate_loop (fuel : nat) : M St unit :=
  match fuel with
  | O => nofuel
  | S fuel =>
      p ← host_ask CPollAmf;
      if pl_ret p =? -1 then (if pl_intr p then activate_loop fuel else mret tt)
      else if pl_ret p =? 0 then activate_loop fuel
      else
        go ← (if pl_amf p then
                ok ← dispatch_amf;
                if negb ok then mret false else
                t ← amf termAppEventReceived;
                mret (negb t)
              else mret true);
        if negb go then mret tt
        else if pl_usr2 p then _ ← host_job JobShutdown; mret tt
        else activate_loop fuel
  end.

(** [activate]. *)
Definition activate_ha (fuel : nat) : M St HAReturn :=
  i ← coreMWInitialize;
  if negb i then mret HA_FAILURE else
  p ← host_ask (CFileOp "pipe");
  if negb p then mret HA_FAILURE else
  f0 ← host_ask (CFileOp "fcntl 0");
  if negb f0 then mret HA_FAILURE else
  f1 ← host_ask (CFileOp "fcntl 1");
  if negb f1 then mret HA_FAILURE else
  activate_loop fuel;;
  _ ← host_ask (CClose "shutdownPipeFd[0]");
  _ ← host_ask (CClose "shutdownPipeFd[1]");
  t ← amf termAppEventReceived;
  ok ← (if (t : bool) then AmfFinalize else finalize);
  mret (if (ok : bool) then HA_SUCCESS else HA_FAILURE_CLOSE).

(** ** Starting the daemon *)

(** [__create_pidfile]: [fprintf] returns 0 only when it wrote nothing. *)
Definition __create_pidfile (pidfile : string) : M St bool :=
  fd ← host_ask (CCreate pidfile);
  if negb fd then mret false else
  file ← host_ask (CFileOp "fdopen pidfile");
  if negb file then mret false else
  lock ← host_ask (CFileOp "flock pidfile");
  if negb lock then _ ← host_ask (CClose pidfile); mret false else
  pid ← host_ask CGetpid;
  n ← host_ask (CWrite pidfile (String.append (pretty (pid : Z)) (String LF EmptyString)));
  if n =? 0 then _ ← host_ask (CClose pidfile); mret false else
  unlock ← host_ask (CFileOp "funlock pidfile");
  _ ← host_ask (CClose pidfile);
  mret (unlock : bool).

(** [daemonize]. *)
Definition daemonize : M St unit :=
  init ← host_ask (CFileOp "getppid is 1");
  if (init : bool) then mret tt else
  root ← host_ask (CFileOp "getuid or geteuid is 0");
  (if (root : bool) then
     pw ← host_ask (CFileOp "getpwnam");
     if (pw : bool) then _ ← host_ask (CFileOp "setuid"); mret tt else mret tt
   else mret tt);;
  pid ← host_ask CFork;
  if pid <? 0 then exit EXIT_FAILURE else
  if 0 <? pid then exit 0 else
  sid ← host_ask (CFileOp "setsid");
  if negb sid then exit EXIT_FAILURE else
  _ ← host_ask (CFileOp "freopen stdin");
  _ ← host_ask (CFileOp "freopen stdout");
  _ ← host_ask (CFileOp "freopen stderr");
  cd ← host_ask (CFileOp "chdir");
  if negb cd then exit EXIT_FAILURE else
  ok ← __create_pidfile (snprintf PID_FILE_LEN (concat_str [PIDDIR; "/"%string; host_name; ".pid"%string]));
  if (ok : bool) then mret tt else exit EXIT_FAILURE.
End amf.

(** ** Frames

    A preorder that the requests of the class and the changes of its members respect is
    respected by the class; if the jobs respect it, by the daemon under AMF. *)

Definition amf_request (c : Call) : bool :=
  match c with
  | CAmf _ _ | CRegister _ | CFileOp _ | CClose _ | CPollAmf | CDispatch | CCreate _ | CGetpid
  | CWrite _ _ | CFork => true
  | _ => false
  end.

Section frames.
Context {St : Type} (R : relation St) `{!PreOrder R}.

Class AmfFrame `{!AmfObj St} : Prop := {
  frame_ask : ∀ c, amf_request c = true → steps R (host_ask c);
  frame_on_amf : ∀ f, steps R (on_amf f)
}.

Lemma steps_amf `{!AmfObj St} {A} (f : AmfT → A) : steps R (amf f).
Proof. by apply steps_gets. Qed.
End frames.

Arguments frame_ask {St} R {_ _} c.
#[export] Hint Extern 1 (steps ?R (host_ask ?c)) => apply (frame_ask R c); reflexivity : steps.
#[export] Hint Extern 1 (steps _ (on_amf _)) => apply frame_on_amf; apply _ : steps.
#[export] Hint Resolve steps_amf : steps.
#[export] Hint Extern 0 (AmfFrame _) => apply _ : steps.

Section object_frames.
Context {St : Type} (R : relation St) `{!PreOrder R} `{!AmfObj St} `{!AmfFrame R}.

Lemma finalize_frame : steps R finalize.
Proof. unfold finalize. solve_steps. Qed.

Lemma AmfFinalize_frame : steps R AmfFinalize.
Proof. unfold AmfFinalize. solve_steps. Qed.

Lemma coreMWInitialize_frame : steps R coreMWInitialize.
Proof. unfold coreMWInitialize, safAMFInitialize. solve_steps. Qed.
End object_frames.
#[export] Hint Resolve finalize_frame AmfFinalize_frame coreMWInitialize_frame : steps.

Section job_frames.
Context {St : Type} (R : relation St) `{!PreOrder R} `{!Host St} `{!AmfFrame R}.

Lemma daemonize_frame : steps R daemonize.
Proof. unfold daemonize, __create_pidfile. solve_steps. Qed.

Context (Hjob : ∀ j, steps R (host_job j)).

Lemma callback_frame cb : steps R (callback cb).
Proof.
  destruct cb as [st| | |key]; unfold callback, csi_set, csi_remove, csi_terminate, healthcheck,
    via_appMngr, respond; [destruct st|..]; solve_steps; apply Hjob.
Qed.

Lemma dispatch_frame : steps R dispatch_amf.
Proof.
  unfold dispatch_amf. apply steps_bind; [done|by apply (frame_ask R CDispatch)|]. intros [cbs ok].
  apply steps_bind; [done| |intros; solve_steps].
  induction cbs as [|cb cbs IH]; cbn [callbacks]; solve_steps; apply callback_frame.
Qed.
End job_frames.
#[export] Hint Resolve daemonize_frame : steps.

(** ** Invariants of a daemon under AMF

    The daemon and the state AMF has assigned to it last.  AMF only orders the state
    changes of [amf_may]; a signal may arrive between the callbacks, and between them
    the threads of the daemon run. *)

Inductive amf_may : HAState → HAState → Prop :=
| may_activate : amf_may HA_UNDEFINED HA_ACTIVE
| may_standby : amf_may HA_UNDEFINED HA_STANDBY
| may_promote : amf_may HA_STANDBY HA_ACTIVE
| may_quiesce : amf_may HA_ACTIVE HA_QUIESCED
| may_drain : amf_may HA_ACTIVE HA_QUIESCING
| may_drained : amf_may HA_QUIESCING HA_QUIESCED
| may_demote : amf_may HA_QUIESCED HA_STANDBY
| may_resume : amf_may HA_QUIESCED HA_ACTIVE
| may_undrain : amf_may HA_QUIESCING HA_ACTIVE.

(** The job of a state AMF assigns. *)
Definition job_of (st prev : HAState) : option Job :=
  match st with
  | HA_ACTIVE => Some (JobActive prev)
  | HA_STANDBY => Some (JobPassive prev)
  | HA_QUIESCED => Some (JobQuiesced prev)
  | HA_QUIESCING => Some (JobQuiesing prev)
  | HA_UNDEFINED => None
  end.

Section invariants.
Context {St : Type} `{!Host St} (threads : relation St).

Inductive amf_step : HAState * St → HAState * St → Prop :=
| step_set v st s s' :
    amf_may v st → csi_set st s = (Val tt, s') → amf_step (v, s) (st, s')
| step_remove v s s' :
    csi_remove s = (Val tt, s') → amf_step (v, s) (HA_UNDEFINED, s')
| step_terminate v s s' :
    csi_terminate s = (Val tt, s') → amf_step (v, s) (HA_UNDEFINED, s')
| step_health v key s s' :
    healthcheck key s = (Val tt, s') → amf_step (v, s) (v, s')
| step_usr2 v s s' :
    usr2_handler s = (Val tt, s') → amf_step (v, s) (v, s')
| step_threads v s s' :
    threads s s' → amf_step (v, s) (v, s').

(** What a daemon has to show of its jobs for [I] to be an invariant: a state change
    establishes it for the new state, the other jobs keep it, and neither the members
    of the class nor the requests nor the threads matter to it. *)
Record amf_inv (I : HAState → St → Prop) : Prop := {
  inv_set : ∀ v st prev j s,
    amf_may v st → job_of st prev = Some j → I v s → after (host_job j) (λ _, I st) s;
  inv_stop : ∀ v j s, j = JobRemove ∨ j = JobTerminate →
    I v s → after (host_job j) (λ _, I HA_UNDEFINED) s;
  inv_keep : ∀ v j s, j = JobHealth ∨ j = JobShutdown → I v s → after (host_job j) (λ _, I v) s;
  inv_amf : ∀ v f s, I v s → I v (host_set f s);
  inv_ask : ∀ v c s, I v s → after (host_ask c) (λ _, I v) s;
  inv_threads : ∀ v s s', threads s s' → I v s → I v s'
}.

Section proof.
Context {I : HAState → St → Prop} (HI : amf_inv I).

Lemma via_appMngr_inv v s : I v s → after via_appMngr (λ _, I v) s.
Proof.
  intros H. apply after_bind, after_gets. cbn [compose].
  destruct (appMngrObj (host_amf s)); [by apply after_ret|]. by intros ? ? [=].
Qed.

Lemma ask_inv {A} c (k : resp c → M St A) v s P :
  I v s → (∀ r s', I v s' → after (k r) P s') → after (host_ask c ≫= k) P s.
Proof.
  intros H Hk. apply after_bind. eapply after_mono; [by apply (inv_ask I HI v)|]. cbn beta. eauto.
Qed.

Lemma respond_inv op ok prev v s : I v s → after (respond op ok prev) (λ _, I v) s.
Proof.
  intros H. unfold respond. apply (ask_inv (CAmf op (error_of ok)) _ v); [done|].
  intros [] s' H'; [by apply after_ret|].
  by apply after_modify, (inv_amf I HI).
Qed.

Lemma job_inv {A} j v (k : bool → M St A) P s :
  after (host_job j) (λ _, I v) s → (∀ r s', I v s' → after (k r) P s') →
  after (host_job j ≫= k) P s.
Proof. intros Hj Hk. apply after_bind. eapply after_mono; [exact Hj|]. eauto. Qed.

Lemma csi_set_inv v st s : amf_may v st → I v s → after (csi_set st) (λ _, I st) s.
Proof.
  intros Hmay H. apply after_bind. eapply after_mono; [by apply (via_appMngr_inv v)|].
  cbn beta. intros _ s1 H1. apply after_bind, after_gets, after_bind, after_modify.
  apply (inv_amf I HI v (set_a_state st)) in H1. revert H1.
  generalize (host_set (set_a_state st) s1). intros s2 H2.
  pose proof (inv_set I HI v st ((a_state ∘ host_amf) s1)) as Hset.
  destruct st; try by inversion Hmay.
  1-3: eapply job_inv; [by eapply Hset|]; intros; by apply respond_inv.
  apply (ask_inv (CAmf "saAmfResponse" SA_AIS_OK) _ v); [done|]. intros _ s3 H3.
  eapply job_inv; [by eapply Hset|]. intros; by apply respond_inv.
Qed.

Lemma csi_stop_inv v s :
  I v s → after csi_remove (λ _, I HA_UNDEFINED) s ∧ after csi_terminate (λ _, I HA_UNDEFINED) s.
Proof.
  intros H. split; apply after_bind; (eapply after_mono; [by apply (via_appMngr_inv v)|]);
    cbn beta; intros _ s1 H1; apply after_bind, after_modify;
    (eapply job_inv; [apply (inv_stop I HI v); [tauto|by apply (inv_amf I HI)]|]);
    intros ok s2 H2; (apply (ask_inv (CAmf "saAmfResponse" (error_of ok)) _ HA_UNDEFINED); [done|]).
  - intros _ s3 H3. by apply after_ret.
  - intros [] s3 H3; [by apply after_modify, (inv_amf I HI)|by apply after_ret].
Qed.

Lemma healthcheck_inv key v s : I v s → after (healthcheck key) (λ _, I v) s.
Proof.
  intros H. apply after_bind. eapply after_mono; [by apply (via_appMngr_inv v)|].
  cbn beta. intros _ s1 H1. apply after_bind, after_gets, after_bind. cbn [compose].
  destruct (hCheckKey (host_amf s1)) as [k|]; [|by intros ? ? [=]].
  apply after_ret. destruct (negb (streq key k)); [by apply after_ret|].
  eapply job_inv; [apply (inv_keep I HI v); [tauto|done]|]. intros [] s2 H2; [|by apply after_ret].
  apply (ask_inv (CAmf "saAmfResponse" SA_AIS_OK) _ v); [done|]. intros _ s3 H3. by apply after_ret.
Qed.

Lemma usr2_inv v s : I v s → after usr2_handler (λ _, I v) s.
Proof.
  intros H. apply after_bind. eapply after_mono; [by apply (via_appMngr_inv v)|].
  cbn beta. intros _ s1 H1. eapply job_inv; [apply (inv_keep I HI v); [tauto|done]|].
  intros. by apply after_ret.
Qed.

Lemma amf_invariant c c' : rtc amf_step c c' → I c.1 c.2 → I c'.1 c'.2.
Proof.
  induction 1 as [c|c0 c1 c2 Hstep _ IH]; [done|]. intros H. apply IH. clear IH.
  destruct Hstep as [v st s s' Hmay Hr|v s s' Hr|v s s' Hr|v key s s' Hr|v s s' Hr|v s s' HR]; cbn in *.
  - exact (csi_set_inv v st s Hmay H tt s' Hr).
  - exact (proj1 (csi_stop_inv v s H) tt s' Hr).
  - exact (proj2 (csi_stop_inv v s H) tt s' Hr).
  - exact (healthcheck_inv key v s H tt s' Hr).
  - exact (usr2_inv v s H tt s' Hr).
  - exact (inv_threads I HI v s s' HR H).
Qed.
End proof.
End invariants.
