(* ===== verification/Proc.v ===== *)
(** * Other processes, and their files

    The programs beside the agent daemon have memories of their own.  [Proc G] is a
    process with memory [G], the history of its requests and the files of the node;
    the environment answers its requests as it does for the daemon.  On top of it are
    the functions of [stdio] the programs use.  A [FILE] is its path and its position;
    the environment says whether an operation succeeds and how much of a buffer
    [fwrite] stores, the contents follow from the operations. *)

From stdpp Require Export gmap.
From S2P Require Import Prelude CString World.

Open Scope Z_scope.

Abbreviation Files := (gmap string string).

Record Proc (G : Type) : Type := mkProc {
  p_trace : Trace;
  p_fs : Files;
  p_mem : G
}.
Arguments mkProc {G} _ _ _.
Arguments p_trace {G} _.
Arguments p_fs {G} _.
Arguments p_mem {G} _.

Record FILE : Set := mkFILE { f_path : string; f_pos : nat }.

(** The modes of [fopen] the programs use: ["r"], ["r+"], ["w"], ["w+"], ["a+"]. *)
Inductive mode : Set := MR | MRplus | MW_ | MWplus | MAplus.

(** A stream of [content] after [data] was written at [pos]: a gap reads as NULs. *)
Fixpoint nuls (n : nat) : string :=
  match n with O => EmptyString | S n => String NUL (nuls n) end.
Definition overwrite (pos : nat) (data content : string) : string :=
  String.append (take pos content)
    (String.append (nuls (pos - String.length content))
      (String.append data (drop (pos + String.length data) content))).

Section proc.
Context `{E : Env} {G : Type}.

Definition req (c : Call) : M (Proc G) (resp c) := λ s,
  let r := answer (p_trace s) c in
  (Val r, mkProc (Ev c r :: p_trace s) (p_fs s) (p_mem s)).

Definition mem {A} (f : G → A) : M (Proc G) A := gets (f ∘ p_mem).
Definition upd (f : G → G) : M (Proc G) unit :=
  modify (λ s, mkProc (p_trace s) (p_fs s) (f (p_mem s))).
Definition files (f : Files → Files) : M (Proc G) unit :=
  modify (λ s, mkProc (p_trace s) (f (p_fs s)) (p_mem s)).

(** The contents of a path; [stat] finds a file exactly if it has contents. *)
Definition contents (path : string) : M (Proc G) (option string) := gets (λ s, p_fs s !! path).

Definition fopen (path : string) (m : mode) : M (Proc G) (option FILE) :=
  ok ← req (CFileOp "fopen");
  c ← contents path;
  if negb ok || streq path EmptyString then mret None else
  match m, c with
  | (MR | MRplus), None => mret None
  | (MR | MRplus), Some _ | MAplus, Some _ => mret (Some (mkFILE path 0))
  | (MW_ | MWplus), _ | MAplus, None =>
      files (insert path EmptyString);;
      mret (Some (mkFILE path 0))
  end.

(** [fclose(f) == 0]. *)
Definition fclose (f : FILE) : M (Proc G) bool := req (CClose (f_path f)).

(** What is left to read. *)
Definition unread (f : FILE) : M (Proc G) string :=
  c ← contents (f_path f);
  mret (drop (f_pos f) (default EmptyString c)).

(** [fseek(f, 0, SEEK_SET) == 0]. *)
Definition fseek0 (f : FILE) : M (Proc G) (bool * FILE) :=
  ok ← req (CFileOp "fseek");
  mret (if (ok : bool) then (true, mkFILE (f_path f) 0) else (false, f)).

(** [fwrite(data, 1, strlen(data), f)]. *)
Definition fwrite (data : string) (f : FILE) : M (Proc G) (Z * FILE) :=
  n ← req (CWrite (f_path f) data);
  let stored := take (Z.to_nat n) data in
  c ← contents (f_path f);
  files (insert (f_path f) (overwrite (f_pos f) stored (default EmptyString c)));;
  mret (Z.of_nat (String.length stored),
        mkFILE (f_path f) (f_pos f + String.length stored)).

(** [ftruncate(fileno(f), 0) > -1]. *)
Definition ftruncate0 (f : FILE) : M (Proc G) bool :=
  ok ← req (CFileOp "ftruncate");
  if (ok : bool) then files (insert (f_path f) EmptyString);; mret true else mret false.

(** [rename(from, to) == 0]. *)
Definition rename (from to : string) : M (Proc G) bool :=
  ok ← req (CFileOp "rename");
  c ← contents from;
  match c with
  | Some c => if (ok : bool) then files (insert to c ∘ delete from);; mret true else mret false
  | None => mret false
  end.

(** [remove(path)]. *)
Definition remove (path : string) : M (Proc G) unit :=
  ok ← req (CUnlink path);
  if (ok : bool) then files (delete path) else mret tt.

(** ** Rules *)

Lemma wp_req c (Q : outcome (resp c) → Proc G → Prop) s :
  (∀ r, r = answer (p_trace s) c →
    Q (Val r) (mkProc (Ev c r :: p_trace s) (p_fs s) (p_mem s))) → wp (req c) Q s.
Proof. unfold wp. simpl. auto. Qed.

End proc.

(** [pw_auto] runs straight-line code of a process, as [wp_auto] does for the
    daemon. *)
Ltac pw_prim :=
  lazymatch goal with
  | |- wp (req ?c) _ _ => apply (wp_req c); intros ? ?; cbn [valQ thenQ p_trace p_fs p_mem]
  | |- wp (mem _) _ _ => apply wp_gets; cbn [valQ thenQ p_mem compose]
  | |- wp (contents _) _ _ => apply wp_gets; cbn [valQ thenQ p_fs]
  | |- wp (upd _) _ _ => apply wp_modify; cbn [valQ thenQ p_trace p_fs p_mem]
  | |- wp (files _) _ _ => apply wp_modify; cbn [valQ thenQ p_trace p_fs p_mem]
  | |- _ => wp_prim
  end.
Ltac pw_auto := repeat pw_prim.

(** What a run leaves of the memory of a process. *)
Lemma steps_req `{Env} {G A : Type} (f : G → A) c :
  steps (keeps (f ∘ p_mem)) (req (G:=G) c).
Proof. by intros s. Qed.

Lemma steps_mem `{Env} {G A B : Type} (f : G → A) (g : G → B) :
  steps (keeps (f ∘ p_mem)) (mem g).
Proof. by intros s. Qed.

#[export] Hint Resolve steps_req steps_mem : steps.
#[export] Hint Extern 1 (steps (keeps (_ ∘ p_mem)) (upd _)) => intros ?; reflexivity : steps.

(** The run makes only requests that satisfy [Φ]. *)
Definition traced {G : Type} (Φ : Call → Prop) : relation (Proc G) := λ s s',
  ∃ new, p_trace s' = new ++ p_trace s ∧ Forall (λ e, Φ (request e)) new.

#[export] Instance traced_preorder {G : Type} (Φ : Call → Prop) : PreOrder (traced (G:=G) Φ).
Proof.
  split.
  - intros s. by exists [].
  - intros s1 s2 s3 (n1 & E1 & H1) (n2 & E2 & H2). exists (n2 ++ n1).
    rewrite E2, E1, app_assoc. split; [done|]. by apply Forall_app.
Qed.

(** It also leaves memory and files alone. *)
Definition asks {G : Type} (Φ : Call → Prop) : relation (Proc G) := λ s s',
  p_mem s' = p_mem s ∧ p_fs s' = p_fs s ∧ traced Φ s s'.

#[export] Instance asks_preorder {G : Type} (Φ : Call → Prop) : PreOrder (asks (G:=G) Φ).
Proof.
  split.
  - by intros s.
  - intros s1 s2 s3 (M1 & F1 & T1) (M2 & F2 & T2).
    split_and!; [congruence..|]. by etrans.
Qed.

Lemma does_req `{Env} {G : Type} (Φ : Call → Prop) c : Φ c → does (asks Φ) (req (G:=G) c).
Proof.
  intros Hc s. apply (wp_req c). intros r _. split_and!; [done..|]. exists [Ev c r]. auto.
Qed.

Lemma does_mem {G A : Type} (R : relation (Proc G)) `{!Reflexive R} (f : G → A) : does R (mem f).
Proof. by apply does_gets. Qed.

Lemma does_upd_traced {G : Type} (Φ : Call → Prop) f : does (traced Φ) (upd (G:=G) f).
Proof. intros s. apply wp_modify. by exists []. Qed.

Lemma does_traced {G A : Type} (Φ : Call → Prop) (m : M (Proc G) A) :
  does (asks Φ) m → does (traced Φ) m.
Proof. intros H. eapply does_mono; [exact H|]. by intros ?? (_ & _ & ?). Qed.

#[export] Hint Resolve does_mem does_upd_traced : does.
#[export] Hint Extern 3 (does (traced _) _) => apply does_traced : does.
#[export] Hint Extern 1 (does (asks _) (req ?c)) => apply (does_req _ c) : does.

(** A system on which no file operation fails, and one on which every write to
    [path] is complete. *)
Definition steady `{Env} : Prop :=
  (∀ t op, answer t (CFileOp op) = true) ∧ (∀ t p, answer t (CClose p) = true)
  ∧ (∀ t p, answer t (CUnlink p) = true).
Definition writable `{Env} (path : string) : Prop :=
  ∀ t d, answer t (CWrite path d) = Z.of_nat (String.length d).

(** ** Rules for a steady system

    Each rule says what an operation does to the files; what it adds to the history
    does not matter. *)

Section steady.
Context `{E : Env} {G : Type} (Hst : steady).
Implicit Types (fs : Files) (g : G).

Lemma wp_fileop op (Q : outcome bool → Proc G → Prop) t fs g :
  (∀ t', Q (Val true) (mkProc t' fs g)) → wp (req (CFileOp op)) Q (mkProc t fs g).
Proof. intros H. apply wp_req. intros r ->. destruct Hst as (Hf & _). cbn. rewrite Hf. apply H. Qed.

Lemma wp_fclose f (Q : outcome bool → Proc G → Prop) t fs g :
  (∀ t', Q (Val true) (mkProc t' fs g)) → wp (fclose f) Q (mkProc t fs g).
Proof. intros H. apply wp_req. intros r ->. destruct Hst as (_ & Hc & _). cbn. rewrite Hc. apply H. Qed.

Lemma wp_fopen_read path m c (Q : outcome (option FILE) → Proc G → Prop) t fs g :
  m = MR ∨ m = MRplus ∨ m = MAplus →
  path ≠ EmptyString → fs !! path = Some c →
  (∀ t', Q (Val (Some (mkFILE path 0))) (mkProc t' fs g)) →
  wp (fopen path m) Q (mkProc t fs g).
Proof.
  intros Hm Hp Hc HQ. unfold fopen. apply wp_bind, wp_fileop. intros t'. cbn [thenQ].
  apply wp_bind, wp_gets. cbn [thenQ p_fs]. rewrite Hc.
  assert (streq path EmptyString = false) as -> by (by destruct path).
  destruct Hm as [->|[->| ->]]; apply HQ.
Qed.

Lemma wp_fopen_create path m (Q : outcome (option FILE) → Proc G → Prop) t fs g :
  m = MW_ ∨ m = MWplus ∨ (m = MAplus ∧ fs !! path = None) → path ≠ EmptyString →
  (∀ t', Q (Val (Some (mkFILE path 0))) (mkProc t' (<[path := EmptyString]> fs) g)) →
  wp (fopen path m) Q (mkProc t fs g).
Proof.
  intros Hm Hp HQ. unfold fopen. apply wp_bind, wp_fileop. intros t'. cbn [thenQ].
  apply wp_bind, wp_gets. cbn [thenQ p_fs].
  assert (streq path EmptyString = false) as -> by (by destruct path).
  destruct Hm as [->|[->|[-> ->]]]; apply wp_bind, wp_modify; cbn; apply HQ.
Qed.

Lemma wp_unread f c (Q : outcome string → Proc G → Prop) t fs g :
  fs !! f_path f = Some c → Q (Val (drop (f_pos f) c)) (mkProc t fs g) →
  wp (unread f) Q (mkProc t fs g).
Proof. intros Hc HQ. unfold unread. apply wp_bind, wp_gets. cbn [thenQ p_fs]. by rewrite Hc. Qed.

Lemma wp_fseek0 f (Q : outcome (bool * FILE) → Proc G → Prop) t fs g :
  (∀ t', Q (Val (true, mkFILE (f_path f) 0)) (mkProc t' fs g)) → wp (fseek0 f) Q (mkProc t fs g).
Proof. intros HQ. apply wp_bind, wp_fileop. intros t'. apply HQ. Qed.

Lemma wp_ftruncate0 f (Q : outcome bool → Proc G → Prop) t fs g :
  (∀ t', Q (Val true) (mkProc t' (<[f_path f := EmptyString]> fs) g)) →
  wp (ftruncate0 f) Q (mkProc t fs g).
Proof. intros HQ. apply wp_bind, wp_fileop. intros t'. apply wp_bind, wp_modify. apply HQ. Qed.

Lemma wp_rename from to c (Q : outcome bool → Proc G → Prop) t fs g :
  fs !! from = Some c →
  (∀ t', Q (Val true) (mkProc t' (<[to := c]> (delete from fs)) g)) →
  wp (rename from to) Q (mkProc t fs g).
Proof.
  intros Hc HQ. apply wp_bind, wp_fileop. intros t'. apply wp_bind, wp_gets. cbn [thenQ p_fs].
  rewrite Hc. apply wp_bind, wp_modify. apply HQ.
Qed.

Lemma wp_remove path (Q : outcome unit → Proc G → Prop) t fs g :
  (∀ t', Q (Val tt) (mkProc t' (delete path fs) g)) → wp (remove path) Q (mkProc t fs g).
Proof.
  intros HQ. apply wp_bind, (wp_req (CUnlink path)). intros r ->.
  destruct Hst as (_ & _ & Hu). cbn [thenQ p_trace]. rewrite Hu. apply wp_modify. apply HQ.
Qed.

(** A write at the end of a file appends. *)
Lemma wp_fwrite_end data f c (Q : outcome (Z * FILE) → Proc G → Prop) t fs g :
  writable (f_path f) → fs !! f_path f = Some c → f_pos f = String.length c →
  (∀ t', Q (Val (Z.of_nat (String.length data),
                 mkFILE (f_path f) (String.length (String.append c data))))
           (mkProc t' (<[f_path f := String.append c data]> fs) g)) →
  wp (fwrite data f) Q (mkProc t fs g).
Proof.
  intros Hw Hc Hpos HQ. unfold fwrite. apply wp_bind, (wp_req (CWrite (f_path f) data)). intros r ->.
  cbn [thenQ p_trace p_fs p_mem]. rewrite (Hw t data : answer t (CWrite (f_path f) data) = _), Nat2Z.id, take_all by lia.
  apply wp_bind, wp_gets. cbn [thenQ p_fs]. rewrite Hc. apply wp_bind, wp_modify. cbn.
  apply wp_ret. rewrite Hpos, <-length_append.
  replace (overwrite (String.length c) data c) with (String.append c data); [apply HQ|].
  unfold overwrite. rewrite take_all, Nat.sub_diag, drop_all by lia. cbn.
  by rewrite append_nil_r.
Qed.
End steady.
