(* ===== verification/Getopt.v ===== *)
(** * The option parser of the C library

    [getopt] and [getopt_long] as the commands use them: options may follow other arguments,
    short options may be joined, the value of an option may be joined to it or follow it,
    a long option may be abbreviated while it is unambiguous, and two dashes end the
    options. *)

From S2P Require Import Prelude CString.

Open Scope Z_scope.

(** One call: a long or a short option with its value, or a question mark with what
    [optopt] holds. *)
Inductive OptEvent : Set :=
| EvLong (name : string) (optarg : option string)
| EvShort (c : ascii) (optarg : option string)
| EvError (optopt : ascii).

(** A long option: its name and whether it takes a value. *)
Record LongOpt : Set := mkLong { lo_name : string; lo_arg : bool }.

(** Whether a short option is known, and takes a value. *)
Fixpoint short_opt (spec : string) (c : ascii) : option bool :=
  match spec with
  | EmptyString => None
  | String x rest =>
      if eqc x c && negb (eqc c ":") then
        Some (match rest with String y _ => eqc y ":" | EmptyString => false end)
      else short_opt rest c
  end.

(** The option of that name, or the only one the name abbreviates. *)
Definition long_opt (table : list LongOpt) (name : string) : option LongOpt :=
  match List.filter (λ o, streq (lo_name o) name) table with
  | o :: _ => Some o
  | [] =>
      match List.filter (λ o, String.prefix name (lo_name o)) table with
      | [o] => Some o
      | _ => None
      end
  end.

(** The options joined in one argument: their events and, where the last one takes a value
    that does not follow in the argument, that option. *)
Fixpoint cluster (spec : string) (s : string) : list OptEvent * option ascii :=
  match s with
  | EmptyString => ([], None)
  | String c rest =>
      match short_opt spec c with
      | None => let '(evs, open) := cluster spec rest in (EvError c :: evs, open)
      | Some false => let '(evs, open) := cluster spec rest in (EvShort c None :: evs, open)
      | Some true =>
          match rest with
          | EmptyString => ([], Some c)
          | _ => ([EvShort c (Some rest)], None)
          end
      end
  end.

(** A long option: its event, or the option whose value is the next argument. *)
Definition long_event (table : list LongOpt) (text : string) : OptEvent + string :=
  let '(name, value) :=
    match strchr text "=" with
    | Some (name, value) => (name, Some value)
    | None => (text, None)
    end in
  match long_opt table name, value with
  | None, _ => inl (EvError NUL)
  | Some o, Some v => inl (if lo_arg o then EvLong (lo_name o) (Some v) else EvError NUL)
  | Some o, None => if lo_arg o then inr (lo_name o) else inl (EvLong (lo_name o) None)
  end.

(** What an argument is: no option, the end of the options, or options, the last of which
    may take its value from the next argument. *)
Inductive ArgKind : Set :=
| Plain
| Dashes
| Events (evs : list OptEvent)
| Opened (evs : list OptEvent) (complete : string → OptEvent) (missing : OptEvent).

Definition cluster_kind (spec text : string) : ArgKind :=
  match cluster spec text with
  | (evs, None) => Events evs
  | (evs, Some c) => Opened evs (λ v, EvShort c (Some v)) (EvError c)
  end.

(** [table] is [None] for [getopt]. *)
Definition arg_kind (spec : string) (table : option (list LongOpt)) (arg : string) : ArgKind :=
  match arg with
  | String d (String e text) =>
      if negb (eqc d "-") then Plain
      else if streq arg "--" then Dashes
      else
        match table with
        | Some table =>
            if eqc e "-" then
              match long_event table text with
              | inl ev => Events [ev]
              | inr name => Opened [] (λ v, EvLong name (Some v)) (EvError NUL)
              end
            else cluster_kind spec (String e text)
        | None => cluster_kind spec (String e text)
        end
  | _ => Plain
  end.

(** All calls: their events, and the arguments that are no options. *)
Fixpoint getopt_all (spec : string) (table : option (list LongOpt)) (args : list string) :
    list OptEvent * list string :=
  match args with
  | [] => ([], [])
  | arg :: args =>
      match arg_kind spec table arg with
      | Plain => let '(evs, rest) := getopt_all spec table args in (evs, arg :: rest)
      | Dashes => ([], args)
      | Events evs => let '(evs', rest) := getopt_all spec table args in (evs ++ evs', rest)
      | Opened evs complete missing =>
          match args with
          | [] => (evs ++ [missing], [])
          | v :: args =>
              let '(evs', rest) := getopt_all spec table args in (evs ++ complete v :: evs', rest)
          end
      end
  end.

Definition getopt (spec : string) : list string → list OptEvent * list string := getopt_all spec None.
Definition getopt_long (spec : string) (table : list LongOpt) : list string → list OptEvent * list string :=
  getopt_all spec (Some table).

(** ** Options as they are written *)

(** The ways to write an option and its value. *)
Inductive Written : Set :=
| WShort (c : ascii)
| WShortSep (c : ascii) (value : string)
| WShortJoined (c : ascii) (value : string)
| WLong (name : string)
| WLongSep (name value : string)
| WLongJoined (name value : string).

Definition write (w : Written) : list string :=
  match w with
  | WShort c => [String "-" (String c EmptyString)]
  | WShortSep c v => [String "-" (String c EmptyString); v]
  | WShortJoined c v => [String "-" (String c v)]
  | WLong n => [String.append "--" n]
  | WLongSep n v => [String.append "--" n; v]
  | WLongJoined n v => [String.append "--" (String.append n (String "=" v))]
  end.

Definition read_event (w : Written) : OptEvent :=
  match w with
  | WShort c => EvShort c None
  | WShortSep c v | WShortJoined c v => EvShort c (Some v)
  | WLong n => EvLong n None
  | WLongSep n v | WLongJoined n v => EvLong n (Some v)
  end.

(** An option that is written as the tables have it. *)
Definition known (spec : string) (table : list LongOpt) (w : Written) : bool :=
  match w with
  | WShort c => negb (eqc c "-") && bool_decide (short_opt spec c = Some false)
  | WShortSep c _ => negb (eqc c "-") && bool_decide (short_opt spec c = Some true)
  | WShortJoined c v =>
      negb (eqc c "-") && bool_decide (short_opt spec c = Some true) && negb (streq v EmptyString)
  | WLong n => all_chars (no "=") n && negb (streq n EmptyString)
               && bool_decide ((λ o, (lo_name o, lo_arg o)) <$> long_opt table n = Some (n, false))
  | WLongSep n _ | WLongJoined n _ =>
      all_chars (no "=") n && negb (streq n EmptyString)
      && bool_decide ((λ o, (lo_name o, lo_arg o)) <$> long_opt table n = Some (n, true))
  end.

Lemma kind_cluster spec table c s :
  eqc c "-" = false → arg_kind spec (Some table) (String "-" (String c s)) = cluster_kind spec (String c s).
Proof.
  intros H. cbn [arg_kind]. rewrite eqc_refl, H. cbn [negb].
  replace (streq _ _) with false; [done|]. symmetry. apply not_true_iff_false.
  intros [= -> _]%streq_spec. discriminate.
Qed.

Lemma kind_long spec table text :
  text ≠ EmptyString →
  arg_kind spec (Some table) (String.append "--" text)
  = match long_event table text with
    | inl ev => Events [ev]
    | inr name => Opened [] (λ v, EvLong name (Some v)) (EvError NUL)
    end.
Proof.
  intros H. change (String.append "--" text) with (String "-" (String "-" text)).
  cbn [arg_kind]. rewrite eqc_refl. cbn [negb].
  replace (streq _ _) with false; [done|]. symmetry. apply not_true_iff_false.
  by intros [= ->]%streq_spec.
Qed.

Lemma getopt_events spec table arg args evs :
  arg_kind spec table arg = Events evs →
  getopt_all spec table (arg :: args)
  = (evs ++ (getopt_all spec table args).1, (getopt_all spec table args).2).
Proof. intros H. cbn [getopt_all]. rewrite H. by destruct (getopt_all spec table args). Qed.

Lemma getopt_opened spec table arg v args evs f m :
  arg_kind spec table arg = Opened evs f m →
  getopt_all spec table (arg :: v :: args)
  = (evs ++ f v :: (getopt_all spec table args).1, (getopt_all spec table args).2).
Proof. intros H. cbn [getopt_all]. rewrite H. by destruct (getopt_all spec table args). Qed.

Lemma getopt_written spec table w args :
  known spec table w = true →
  getopt_long spec table (write w ++ args)
  = (read_event w :: (getopt_long spec table args).1, (getopt_long spec table args).2).
Proof.
  unfold getopt_long. intros H. destruct w as [c|c v|c v|n|n v|n v]; cbn [write known read_event app] in *;
    repeat match goal with
      | H : _ && _ = true |- _ => apply andb_true_iff in H as [H ?]
      | H : bool_decide _ = true |- _ => apply bool_decide_eq_true in H
      | H : negb _ = true |- _ => apply negb_true_iff in H
      end.
  - apply (getopt_events _ _ _ _ [_]). rewrite kind_cluster by done. unfold cluster_kind. cbn. by rewrite H0.
  - apply (getopt_opened _ _ _ _ _ [] (λ v, EvShort c (Some v)) (EvError c)). rewrite kind_cluster by done.
    unfold cluster_kind. cbn. by rewrite H0.
  - apply (getopt_events _ _ _ _ [_]). rewrite kind_cluster by done. unfold cluster_kind. cbn. rewrite H1.
    by destruct v.
  - apply (getopt_events _ _ _ _ [_]). rewrite kind_long by (by intros ->).
    unfold long_event. rewrite strchr_None by done.
    destruct (long_opt table n) as [o|]; [|done]. by injection H0 as -> ->.
  - apply (getopt_opened _ _ _ _ _ [] (λ v, EvLong n (Some v)) (EvError NUL)). rewrite kind_long by (by intros ->).
    unfold long_event. rewrite strchr_None by done.
    destruct (long_opt table n) as [o|]; [|done]. by injection H0 as -> ->.
  - apply (getopt_events _ _ _ _ [_]). rewrite kind_long by (by destruct n).
    unfold long_event. rewrite strchr_first by done.
    destruct (long_opt table n) as [o|]; [|done]. by injection H0 as -> ->.
Qed.

(** A command line of options is read back as it was written. *)
Lemma getopt_write_all spec table ws :
  forallb (known spec table) ws = true →
  getopt_long spec table (ws ≫= write) = (read_event <$> ws, []).
Proof.
  induction ws as [|w ws IH]; [done|]. cbn [forallb mbind list_bind fmap list_fmap].
  intros [Hw Hws]%andb_true_iff. rewrite (getopt_written _ _ _ _ Hw), IH by done. done.
Qed.
