(* ===== verification/NssText.v ===== *)
(** * The text of the user database

    [nss_ufbs] keeps LDAP users in a file with the format of [passwd].  This file holds
    the string functions of [TString], a line as [TDbHandler::ParsingLine] reads it
    and as [InsertItemInDb] prints it, and that the two agree. *)

From S2P Require Import Prelude CString.

Open Scope Z_scope.

(** [TsPassword]. *)
Record TsPassword : Set := mkTs {
  uId : Z;
  uGid : Z;
  strName : string;
  strPasswd : string;
  strGecos : string;
  strDir : string;
  strShell : string
}.

(** [ClearPwdStruct] and [ClearPasswd]. *)
Definition ClearPwdStruct : TsPassword :=
  mkTs 0 0 EmptyString EmptyString EmptyString EmptyString EmptyString.

(** ** [std::string] *)

Fixpoint find_first_not_of (f : ascii → bool) (s : string) : option nat :=
  match s with
  | EmptyString => None
  | String c r => if f c then S <$> find_first_not_of f r else Some 0%nat
  end.

Fixpoint find_last_of (f : ascii → bool) (s : string) : option nat :=
  match s with
  | EmptyString => None
  | String c r =>
      match find_last_of f r with
      | Some n => Some (S n)
      | None => if f c then Some 0%nat else None
      end
  end.

Definition find_last_not_of (f : ascii → bool) : string → option nat :=
  find_last_of (λ c, negb (f c)).

(** ** [TString] *)

Definition TrimLeft (s : string) : string :=
  match find_first_not_of isspace s with Some n => drop n s | None => EmptyString end.

Definition TrimRight (s : string) : string :=
  match find_last_not_of isspace s with Some n => take (S n) s | None => EmptyString end.

Definition Trim (s : string) : string := TrimRight (TrimLeft s).

Definition is_separator (c : ascii) : bool := eqc c "\"%char || eqc c "/"%char.

Definition PathFileName (s : string) : string :=
  match find_last_of is_separator s with
  | Some n => if (S n <? String.length s)%nat then drop (S n) s else EmptyString
  | None => s
  end.

(** ** Lines *)

Definition COLON : ascii := ":"%char.

(** The codes [IUFBS_DB_ERROR], [IUFBS_DB_EMPTY] and [IUFBS_DB_SUCCESS], the last
    with the structure the line was parsed to. *)
Inductive ParseR : Set := DB_ERROR | DB_EMPTY | DB_SUCCESS (pwd : TsPassword).

(** The loop of [ParsingLine]: [n] fields that end in a colon and one that ends in a
    newline. *)
Fixpoint split_fields (n : nat) (s : string) : option (list string) :=
  match n with
  | O => match strchr s LF with Some (f, _) => Some [f] | None => None end
  | S n =>
      match strchr s COLON with
      | Some (f, r) => (f ::.) <$> split_fields n r
      | None => None
      end
  end.

Definition fields_pwd (fields : list string) : ParseR :=
  match fields with
  | [name; passwd; uid; gid; gecos; dir; shell] =>
      match strchr shell COLON with
      | Some _ => DB_ERROR
      | None =>
          DB_SUCCESS (mkTs (u32 (strtoul10 (Trim uid))) (u32 (strtoul10 (Trim gid)))
            (Trim name) (Trim passwd) (Trim gecos) (Trim dir) (Trim shell))
      end
  | _ => DB_ERROR
  end.

(** [ParsingLine] on a buffer. *)
Definition ParsingLine (pBuf : string) : ParseR :=
  let strLine := Trim (c_str pBuf) in
  match strLine with
  | EmptyString => DB_EMPTY
  | _ =>
      match split_fields 6 (String.append strLine (String LF EmptyString)) with
      | Some fields => fields_pwd fields
      | None => DB_ERROR
      end
  end.

Definition colon (a b : string) : string := String.append a (String COLON b).

(** The tuple [InsertItemInDb] and [printPwd] print, without its newline. *)
Definition tuple (p : TsPassword) : string :=
  colon (strName p) (colon (strPasswd p) (colon (dec (uId p)) (colon (dec (uGid p))
    (colon (strGecos p) (colon (strDir p) (strShell p)))))).

(** ** Trimming *)

Lemma drop_length_eq n s : drop n s = s → n = 0%nat ∨ s = EmptyString.
Proof.
  intros H. destruct n as [|n]; [by left|]. destruct s as [|c s]; [by right|]. simpl in H.
  assert (Hl : ∀ n s, (String.length (drop n s) ≤ String.length s)%nat).
  { clear. intros n; induction n as [|n IH]; intros [|c s]; simpl; [lia..|].
    specialize (IH s). lia. }
  specialize (Hl n s). rewrite H in Hl. simpl in Hl. lia.
Qed.

Lemma find_last_of_app f a b :
  find_last_of f (String.append a b)
  = match find_last_of f b with
    | Some n => Some (String.length a + n)%nat
    | None => find_last_of f a
    end.
Proof.
  induction a as [|c a IH]; rewrite ?append_nil_l, ?append_cons; cbn [find_last_of String.length].
  - by destruct (find_last_of f b).
  - rewrite IH. by destruct (find_last_of f b).
Qed.

Lemma find_last_of_lt f s n : find_last_of f s = Some n → (n < String.length s)%nat.
Proof.
  revert n; induction s as [|c s IH]; simpl; intros n H; [done|].
  destruct (find_last_of f s); simplify_eq; [specialize (IH _ eq_refl); lia|].
  case_match; simplify_eq. lia.
Qed.

Lemma length_take_le n s : (n ≤ String.length s)%nat → String.length (take n s) = n.
Proof.
  revert s; induction n as [|n IH]; intros [|c s]; simpl; intros H; try lia. rewrite IH; lia.
Qed.

Lemma TrimLeft_colon a b : TrimLeft a = a → TrimLeft (colon a b) = colon a b.
Proof.
  unfold TrimLeft, colon. destruct a as [|c a]; [done|].
  rewrite append_cons. cbn [find_first_not_of]. destruct (isspace c); [|done].
  destruct (find_first_not_of isspace a) as [n|]; simpl; [|done].
  intros H. apply (drop_length_eq (S n) (String c a)) in H. destruct H; done.
Qed.

Lemma TrimRight_colon a b : TrimRight b = b → TrimRight (colon a b) = colon a b.
Proof.
  unfold TrimRight, colon, find_last_not_of. intros H. rewrite find_last_of_app. cbn [find_last_of].
  destruct (find_last_of _ b) as [n|] eqn:E.
  - apply (f_equal String.length) in H. pose proof (find_last_of_lt _ _ _ E).
    rewrite length_take_le in H by lia. apply take_all. rewrite length_append. simpl. lia.
  - subst b. change (isspace COLON) with false. cbn [negb]. apply take_all.
    rewrite length_append. simpl. lia.
Qed.

Lemma TrimLeft_shape s : TrimLeft s = s → s = EmptyString ∨ find_first_not_of isspace s = Some 0%nat.
Proof.
  unfold TrimLeft. destruct (find_first_not_of isspace s) as [n|] eqn:E; [|by left].
  intros [->| ->]%drop_length_eq; auto.
Qed.

(** What [Trim] leaves is already trimmed on both sides. *)
Lemma drop_space s : TrimLeft (TrimLeft s) = TrimLeft s.
Proof.
  induction s as [|c s IH]; [done|]. unfold TrimLeft in *. cbn [find_first_not_of].
  destruct (isspace c) eqn:Hc.
  - destruct (find_first_not_of isspace s) as [n|]; [exact IH|done].
  - cbn [fmap option_fmap option_map drop find_first_not_of]. by rewrite Hc.
Qed.

Lemma Trim_id s : TrimLeft s = s → TrimRight s = s → Trim s = s.
Proof. unfold Trim. by intros -> ->. Qed.

(** ** Round trip *)

(** A field that survives a round trip: no separator, no NUL, and trimmed. *)
Definition field_char (c : ascii) : bool := no COLON c && no LF c && no NUL c.
Definition clean_field (f : string) : bool := all_chars field_char f && streq (Trim f) f.
Definition clean (p : TsPassword) : bool :=
  clean_field (strName p) && clean_field (strPasswd p) && clean_field (strGecos p)
  && clean_field (strDir p) && clean_field (strShell p)
  && (0 <=? uId p) && (uId p <? 2 ^ 32) && (0 <=? uGid p) && (uGid p <? 2 ^ 32).

Lemma length_drop n s : String.length (drop n s) = (String.length s - n)%nat.
Proof. revert s; induction n as [|n IH]; intros [|c s]; simpl; auto. Qed.

Lemma Trim_fixed s : Trim s = s → TrimLeft s = s ∧ TrimRight s = s.
Proof.
  intros H. assert (HL : TrimLeft s = s); [|unfold Trim in H; by rewrite HL in H].
  assert (Hle : ∀ x, (String.length (TrimRight x) ≤ String.length x)%nat).
  { intros x. unfold TrimRight. case_match eqn:E; [|simpl; lia].
    pose proof (find_last_of_lt _ _ _ E). rewrite length_take_le; lia. }
  specialize (Hle (TrimLeft s)). unfold Trim in H. rewrite H in Hle. unfold TrimLeft in *.
  destruct (find_first_not_of isspace s) as [n|]; [|by destruct s; simpl in Hle; [|lia]].
  rewrite length_drop in Hle. destruct n as [|n]; [done|]. destruct s; simpl in *; [done|lia].
Qed.

(** A line ends in a newline, which [Trim] takes off. *)
Lemma Trim_line t : TrimLeft t = t → TrimRight t = t → Trim (String.append t (String LF EmptyString)) = t.
Proof.
  intros HL HR. destruct (TrimLeft_shape _ HL) as [->|Hf]; [done|].
  assert (TrimLeft (String.append t (String LF EmptyString)) = String.append t (String LF EmptyString)) as H.
  { unfold TrimLeft. destruct t as [|c t]; [done|]. rewrite append_cons. cbn [find_first_not_of] in *.
    by destruct (isspace c); [destruct (find_first_not_of isspace t)|]. }
  unfold Trim. rewrite H. unfold TrimRight, find_last_not_of in *. rewrite find_last_of_app.
  change (find_last_of _ (String LF EmptyString)) with (@None nat).
  destruct (find_last_of _ t) as [n|] eqn:E; [|by subst].
  assert (S n = String.length t) as ->; [|apply take_append].
  apply (f_equal String.length) in HR. pose proof (find_last_of_lt _ _ _ E).
  rewrite length_take_le in HR; lia.
Qed.

Lemma digit_props c :
  is_digit c = true →
  isspace c = false ∧ field_char c = true.
Proof.
  destruct c as [[] [] [] [] [] [] [] []]; vm_compute; intros; try done.
Qed.

Lemma dec_clean z : clean_field (dec z) = true.
Proof.
  unfold clean_field. pose proof (dec_digits z) as Hd. apply andb_true_iff. split.
  { eapply all_chars_impl; [|exact Hd]. intros c Hc. by destruct (digit_props c Hc) as (_ & ?). }
  apply streq_spec. revert Hd. generalize (dec z). intros s Hs. apply Trim_id.
  - unfold TrimLeft. destruct s as [|c s]; [done|]. simpl in Hs. apply andb_true_iff in Hs as [Hc _].
    destruct (digit_props c Hc) as [H _]. cbn [find_first_not_of]. by rewrite H.
  - unfold TrimRight, find_last_not_of.
    assert (s = EmptyString ∨ find_last_of (λ c, negb (isspace c)) s = Some (pred (String.length s)))
      as [->|E]; [|done|].
    { induction s as [|c s IH]; [by left|]. right. simpl in Hs. apply andb_true_iff in Hs as [Hc Hs].
      destruct (digit_props c Hc) as [H _]. cbn [find_last_of].
      destruct (IH Hs) as [->|E]; [by cbn; rewrite H|]. rewrite E.
      pose proof (find_last_of_lt _ _ _ E). f_equal. simpl. lia. }
    rewrite E. apply take_all. lia.
Qed.

Lemma clean_field_spec f :
  clean_field f = true →
  all_chars (no COLON) f = true ∧ all_chars (no LF) f = true ∧ all_chars (no NUL) f = true
  ∧ TrimLeft f = f ∧ TrimRight f = f.
Proof.
  intros [Hf Ht]%andb_true_iff. apply streq_spec, Trim_fixed in Ht as [HL HR].
  repeat split; try done; (eapply all_chars_impl; [|exact Hf]); intros c;
    unfold field_char; intros [[H1 H2]%andb_true_iff H3]%andb_true_iff; done.
Qed.

Lemma clean_spec p :
  clean p = true →
  clean_field (strName p) = true ∧ clean_field (strPasswd p) = true
  ∧ clean_field (strGecos p) = true ∧ clean_field (strDir p) = true
  ∧ clean_field (strShell p) = true ∧ 0 ≤ uId p < 2 ^ 32 ∧ 0 ≤ uGid p < 2 ^ 32.
Proof. unfold clean. rewrite !andb_true_iff, !Z.leb_le, !Z.ltb_lt. tauto. Qed.

Lemma all_chars_colon f a b :
  f COLON = true → all_chars f a = true → all_chars f b = true → all_chars f (colon a b) = true.
Proof. intros Hc Ha Hb. unfold colon. rewrite all_chars_append. simpl. by rewrite Ha, Hb, Hc. Qed.

Lemma colon_append a b c : String.append (colon a b) c = colon a (String.append b c).
Proof. unfold colon. by rewrite append_assoc. Qed.

(** A property of the characters of clean fields and of the colon holds in a tuple. *)
Lemma tuple_chars f p :
  (∀ s, clean_field s = true → all_chars f s = true) → f COLON = true → clean p = true →
  all_chars f (tuple p) = true.
Proof.
  intros Hf Hc (? & ? & ? & ? & ? & _)%clean_spec. unfold tuple.
  repeat (apply all_chars_colon; [done|by apply Hf, dec_clean || by apply Hf|]). by apply Hf.
Qed.

Lemma tuple_no_LF p : clean p = true → all_chars (no LF) (tuple p) = true.
Proof. apply tuple_chars; [|done]. intros s Hs. by destruct (clean_field_spec s Hs) as (_ & ? & _). Qed.

Lemma tuple_no_NUL p : clean p = true → all_chars (no NUL) (tuple p) = true.
Proof. apply tuple_chars; [|done]. intros s Hs. by destruct (clean_field_spec s Hs) as (_ & _ & ? & _). Qed.

Lemma tuple_Trim p :
  clean p = true → Trim (String.append (tuple p) (String LF EmptyString)) = tuple p.
Proof.
  intros (H1 & _ & _ & _ & H5 & _)%clean_spec. apply Trim_line.
  - apply TrimLeft_colon. by apply clean_field_spec in H1 as (_ & _ & _ & ? & _).
  - unfold tuple. repeat apply TrimRight_colon. by apply clean_field_spec in H5 as (_ & _ & _ & _ & ?).
Qed.

Lemma split_colon n a b :
  clean_field a = true → split_fields (S n) (colon a b) = (a ::.) <$> split_fields n b.
Proof.
  intros (Ha & _)%clean_field_spec. cbn [split_fields]. unfold colon. by rewrite strchr_first.
Qed.

Lemma split_tuple p :
  clean p = true →
  split_fields 6 (String.append (tuple p) (String LF EmptyString))
  = Some [strName p; strPasswd p; dec (uId p); dec (uGid p); strGecos p; strDir p; strShell p].
Proof.
  intros (? & ? & ? & ? & H5 & _)%clean_spec. unfold tuple. rewrite !colon_append.
  rewrite !split_colon by (done || apply dec_clean). cbn [split_fields].
  apply clean_field_spec in H5 as (_ & Hn & _). by rewrite strchr_first.
Qed.

Lemma fields_pwd_clean p :
  clean p = true →
  fields_pwd [strName p; strPasswd p; dec (uId p); dec (uGid p); strGecos p; strDir p; strShell p]
  = DB_SUCCESS p.
Proof.
  intros (H1 & H2 & H3 & H4 & H5 & Hu & Hg)%clean_spec. cbn [fields_pwd].
  assert (HT : ∀ f, clean_field f = true → Trim f = f)
    by (by intros f [_ ?%streq_spec]%andb_true_iff).
  rewrite strchr_None by (by apply clean_field_spec in H5 as [? _]).
  rewrite !HT by (done || apply dec_clean). rewrite !strtoul10_dec, !u32_small by done.
  by destruct p.
Qed.

(** What is printed is parsed back. *)
Lemma ParsingLine_tuple p :
  clean p = true → ParsingLine (String.append (tuple p) (String LF EmptyString)) = DB_SUCCESS p.
Proof.
  intros Hp. unfold ParsingLine. rewrite c_str_id, tuple_Trim by
    (rewrite ?all_chars_append, ?tuple_no_NUL; done).
  rewrite split_tuple, fields_pwd_clean by done. unfold tuple, colon. by destruct (strName p).
Qed.

(** ** What is parsed is clean *)

Lemma all_chars_strchr f s c p q :
  strchr s c = Some (p, q) → all_chars f s = true →
  all_chars (λ a, f a && no c a) p = true ∧ all_chars f q = true.
Proof.
  revert p q; induction s as [|a s IH]; simpl; intros p q H Hf; [done|].
  apply andb_true_iff in Hf as [Ha Hs]. destruct (eqc a c) eqn:E; [by simplify_eq|].
  destruct (strchr s c) as [[p' q']|] eqn:Hc; [|done]. simplify_eq.
  destruct (IH _ _ eq_refl Hs) as [Hp Hq]. split; [|done]. simpl. unfold no at 1.
  by rewrite Ha, E, Hp.
Qed.

Lemma all_chars_drop f n s : all_chars f s = true → all_chars f (drop n s) = true.
Proof.
  revert s; induction n as [|n IH]; intros [|c s]; simpl; auto.
  intros [_ Hs]%andb_true_iff. auto.
Qed.

Lemma all_chars_Trim f s : all_chars f s = true → all_chars f (Trim s) = true.
Proof.
  intros H. unfold Trim, TrimRight. case_match; [|done]. apply all_chars_take.
  unfold TrimLeft. case_match; [|done]. by apply all_chars_drop.
Qed.

Lemma find_last_of_take f s n : find_last_of f s = Some n → find_last_of f (take (S n) s) = Some n.
Proof.
  revert n; induction s as [|c s IH]; intros n H; [done|]. cbn [find_last_of] in H. cbn [take].
  destruct (find_last_of f s) as [m|] eqn:E; simplify_eq.
  - cbn [find_last_of]. by rewrite (IH m).
  - destruct (f c) eqn:Hc; simplify_eq. cbn. by rewrite Hc.
Qed.

Lemma Trim_Trim s : Trim (Trim s) = Trim s.
Proof.
  apply Trim_id; unfold Trim.
  - pose proof (drop_space s) as H. destruct (TrimLeft_shape _ H) as [->|Hf]; [done|].
    destruct (TrimLeft s) as [|c t]; [done|]. cbn [find_first_not_of] in Hf.
    destruct (isspace c) eqn:Hc; [by destruct (find_first_not_of isspace t)|].
    unfold TrimRight. case_match; [|done]. unfold TrimLeft. cbn. by rewrite Hc.
  - unfold TrimRight, find_last_not_of.
    destruct (find_last_of _ (TrimLeft s)) as [n|] eqn:E; [|done].
    rewrite (find_last_of_take _ _ _ E). rewrite take_all; [done|].
    rewrite length_take_le; [lia|]. apply find_last_of_lt in E. lia.
Qed.

(** A buffer as [fgets] fills it: at most one newline, at the end. *)
Definition line_like (b : string) : Prop :=
  ∃ l, all_chars (no LF) l = true ∧ (b = l ∨ b = String.append l (String LF EmptyString)).

Lemma fgets_go_line_like n room cur s :
  all_chars (no LF) cur = true → Forall line_like (fgets_go n room cur s).
Proof.
  revert room cur; induction s as [|c s IH]; intros room cur Hc; cbn [fgets_go].
  - destruct cur; constructor; [|done]. eexists; split; [exact Hc|by left].
  - destruct (eqc c LF) eqn:E.
    + apply Ascii.eqb_eq in E. subst. constructor; [|by apply IH].
      eexists; split; [exact Hc|by right].
    + assert (H : all_chars (no LF) (String.append cur (String c EmptyString)) = true).
      { rewrite all_chars_append, Hc. simpl. unfold no. by rewrite E. }
      destruct room as [|[|room]]; [..|by apply IH]; (constructor; [|by apply IH]);
        (eexists; split; [exact H|by left]).
Qed.

Lemma fgets_line_like n file b : b ∈ fgets_lines n file → line_like b.
Proof.
  intros Hb. pose proof (fgets_go_line_like (pred n) (pred n) EmptyString file eq_refl) as H.
  rewrite Forall_forall in H. by apply H.
Qed.

Lemma TrimRight_LF a : TrimRight (String.append a (String LF EmptyString)) = TrimRight a.
Proof.
  unfold TrimRight, find_last_not_of. rewrite find_last_of_app.
  change (find_last_of _ (String LF EmptyString)) with (@None nat).
  destruct (find_last_of _ a) as [n|] eqn:E; [|done]. apply find_last_of_lt in E.
  revert a E; induction n as [|n IH]; intros [|c a] E; simpl in E; try lia; [by destruct a|].
  rewrite append_cons. cbn [take]. f_equal. apply IH. lia.
Qed.

Lemma Trim_LF a : Trim (String.append a (String LF EmptyString)) = Trim a.
Proof.
  unfold Trim, TrimLeft. induction a as [|c a IH]; [done|].
  rewrite append_cons. cbn [find_first_not_of]. destruct (isspace c) eqn:Hc.
  - destruct (find_first_not_of isspace (String.append a _)) as [n|],
      (find_first_not_of isspace a) as [k|]; exact IH.
  - cbn [fmap option_fmap option_map drop]. rewrite <-append_cons. apply TrimRight_LF.
Qed.

Lemma c_str_line l :
  c_str (String.append l (String LF EmptyString)) = c_str l
  ∨ c_str (String.append l (String LF EmptyString)) = String.append (c_str l) (String LF EmptyString).
Proof.
  induction l as [|c l IH]; [by right|]. rewrite append_cons. cbn [c_str].
  destruct (eqc c NUL); [by left|]. destruct IH as [->| ->]; [by left|by right].
Qed.

Lemma all_chars_c_str f s : all_chars f s = true → all_chars (λ c, f c && no NUL c) (c_str s) = true.
Proof.
  induction s as [|c s IH]; simpl; [done|]. intros [Hc Hs]%andb_true_iff.
  destruct (eqc c NUL) eqn:E; [done|]. simpl. unfold no at 1. by rewrite Hc, E, IH.
Qed.

Lemma line_like_chars b :
  line_like b → all_chars (λ c, no LF c && no NUL c) (Trim (c_str b)) = true.
Proof.
  intros (l & Hl & [->| ->]); [by apply all_chars_Trim, all_chars_c_str|].
  destruct (c_str_line l) as [->| ->]; rewrite ?Trim_LF; by apply all_chars_Trim, all_chars_c_str.
Qed.

Lemma clean_Trim s : all_chars field_char s = true → clean_field (Trim s) = true.
Proof.
  intros H. unfold clean_field. rewrite Trim_Trim, streq_refl, andb_true_r.
  by apply all_chars_Trim.
Qed.

(** All fields but the last are cut at a colon. *)
Lemma split_fields_chars f n s l :
  split_fields n (String.append s (String LF EmptyString)) = Some l →
  all_chars (λ c, f c && no LF c) s = true →
  ∃ init z, l = init ++ [z] ∧ length init = n ∧
    Forall (λ x, all_chars (λ c, f c && no LF c && no COLON c) x = true) init ∧
    all_chars (λ c, f c && no LF c) z = true.
Proof.
  revert s l; induction n as [|n IH]; intros s l H Hs; cbn [split_fields] in H.
  - rewrite strchr_first in H by (eapply all_chars_impl; [|exact Hs]; by intros c [_ ?]%andb_true_iff).
    simplify_eq. exists [], s. by repeat constructor.
  - destruct (strchr s COLON) as [[a r]|] eqn:E.
    + assert (strchr (String.append s (String LF EmptyString)) COLON
        = Some (a, String.append r (String LF EmptyString))) as HE.
      { clear -E. revert a E; induction s as [|c s IHs]; intros a E; [done|].
        rewrite append_cons. cbn [strchr] in *. destruct (eqc c COLON); [by simplify_eq|].
        destruct (strchr s COLON) as [[p q]|]; [|done]. simplify_eq. by rewrite (IHs p). }
      rewrite HE in H. destruct (all_chars_strchr _ _ _ _ _ E Hs) as [Ha Hr].
      destruct (split_fields n _) as [l'|] eqn:El; [|done]. simpl in H. simplify_eq.
      destruct (IH _ _ El Hr) as (init & z & -> & Hlen & Hi & Hz).
      exists (a :: init), z. simpl. rewrite Hlen. by repeat constructor.
    + assert (strchr (String.append s (String LF EmptyString)) COLON = None) as HE.
      { clear -E. induction s as [|c s IHs]; [done|]. rewrite append_cons. cbn [strchr] in *.
        destruct (eqc c COLON); [done|]. destruct (strchr s COLON) as [[? ?]|]; [done|].
        by rewrite IHs. }
      by rewrite HE in H.
Qed.

Lemma ParsingLine_clean b p : line_like b → ParsingLine b = DB_SUCCESS p → clean p = true.
Proof.
  intros Hb H. unfold ParsingLine in H. pose proof (line_like_chars b Hb) as Hc.
  destruct (Trim (c_str b)) as [|c t] eqn:Et; [done|].
  destruct (split_fields 6 _) as [l|] eqn:El; [|done].
  assert (Hc' : all_chars (λ c, no NUL c && no LF c) (String c t) = true).
  { eapply all_chars_impl; [|exact Hc]. intros x. rewrite !andb_true_iff. tauto. }
  destruct (split_fields_chars _ _ _ _ El Hc') as (init & z & -> & Hlen & Hi & Hz).
  do 6 (destruct init as [|? init]; [done|]). destruct init; [|done]. cbn [app fields_pwd] in H.
  destruct (strchr z COLON) eqn:Ez; [done|]. simplify_eq.
  assert (Hf : ∀ x, all_chars (λ c, no NUL c && no LF c && no COLON c) x = true →
    all_chars field_char x = true).
  { intros x Hx. eapply all_chars_impl; [|exact Hx]. unfold field_char. intros a.
    rewrite !andb_true_iff. tauto. }
  assert (Hz' : all_chars field_char z = true).
  { apply Hf. clear -Hz Ez. induction z as [|a z IH]; [done|]. simpl in *.
    destruct (eqc a COLON) eqn:E; [done|]. destruct (strchr z COLON) as [[? ?]|]; [done|].
    apply andb_true_iff in Hz as [-> Hz]. unfold no. rewrite E. simpl. auto. }
  rewrite !Forall_cons in Hi. destruct Hi as (? & ? & _ & _ & ? & ? & _).
  unfold clean; cbn. rewrite !clean_Trim by auto.
  pose proof (u32_range (strtoul10 (Trim s1))). pose proof (u32_range (strtoul10 (Trim s2))).
  rewrite !andb_true_iff, !Z.leb_le, !Z.ltb_lt. repeat split; (done || lia).
Qed.

(** C31: A record read from the database is unchanged by printing it and reading it
    again: whatever spacing the line had, its record is stable from then on. *)
Theorem parse_print_parse n file b p :
  b ∈ fgets_lines n file → ParsingLine b = DB_SUCCESS p →
  ParsingLine (String.append (tuple p) (String LF EmptyString)) = DB_SUCCESS p.
Proof. intros Hb Hp. apply ParsingLine_tuple, (ParsingLine_clean b); [by eapply fgets_line_like|done]. Qed.

Lemma parse_print_parse_witness :
  ParsingLine (String.append (tuple (mkTs 7 8 "bob" "x" EmptyString "/home/b" "/bin/sh"))
    (String LF EmptyString)) = DB_SUCCESS (mkTs 7 8 "bob" "x" EmptyString "/home/b" "/bin/sh").
Proof.
  apply (parse_print_parse 2048 " bob: x:7 : 8::/home/b:/bin/sh " " bob: x:7 : 8::/home/b:/bin/sh ").
  - vm_compute. left.
  - vm_compute. reflexivity.
Defined.
