(* ===== verification/NssConfig.v ===== *)
(** * The state of [nss_ufbs] and its configuration file

    The memory of the command: the members of [TDbHandler], with its [TConfigFile],
    and of [TUfbsHandler]; and how [TConfigFile] finds the paths of the database in
    [fbs.conf]. *)

From S2P Require Import Prelude CString World Proc NssText.

Open Scope Z_scope.

(** [errConfig]. *)
Inductive errConfig : Set := errConfOk | errConfEmpty | errConfBroken.

#[export] Instance errConfig_eq_dec : EqDecision errConfig.
Proof. solve_decision. Defined.

Record TConfigFile : Set := mkCfg {
  m_nStatus : errConfig;
  m_strReadPath : string;
  m_strWritePath : string
}.

Definition newConfigFile : TConfigFile := mkCfg errConfEmpty EmptyString EmptyString.

(** [errNssDb]. *)
Inductive errNssDb : Set :=
| errDbOk | errDbUnknow | errDbCreate | errDbOpen | errDbAlready | errDbNotOpen
| errDbHandling | errDbFormat | errDbTmp | errDbWrite | errDbRead | errDbTmpCreate
| errDbTmpAlready | errDbCopy | errDbTruncate | errDbUidNotFound | errDbRename | errDbPath
| errDbWorkPath | errDbTmpPath | errDbCloseWDb | errDbLocked | errDbLockD.

#[export] Instance errNssDb_eq_dec : EqDecision errNssDb.
Proof. solve_decision. Defined.

(** [TDbHandler]; the message that goes with the code is not kept. *)
Record TDbHandler : Set := mkDbHandler {
  m_pWorkFile : option FILE;
  m_pTmpFile : option FILE;
  m_iLckFile : bool; (* the descriptor is not -1 *)
  m_pConfig : TConfigFile;
  m_enmRetCode : errNssDb
}.

Definition newDbHandler : TDbHandler := mkDbHandler None None false newConfigFile errDbOk.

Definition set_work (f : option FILE) (h : TDbHandler) : TDbHandler :=
  mkDbHandler f (m_pTmpFile h) (m_iLckFile h) (m_pConfig h) (m_enmRetCode h).
Definition set_tmp (f : option FILE) (h : TDbHandler) : TDbHandler :=
  mkDbHandler (m_pWorkFile h) f (m_iLckFile h) (m_pConfig h) (m_enmRetCode h).
Definition set_lck (b : bool) (h : TDbHandler) : TDbHandler :=
  mkDbHandler (m_pWorkFile h) (m_pTmpFile h) b (m_pConfig h) (m_enmRetCode h).
Definition set_config (c : TConfigFile) (h : TDbHandler) : TDbHandler :=
  mkDbHandler (m_pWorkFile h) (m_pTmpFile h) (m_iLckFile h) c (m_enmRetCode h).
Definition SetInternalError_ (e : errNssDb) (h : TDbHandler) : TDbHandler :=
  mkDbHandler (m_pWorkFile h) (m_pTmpFile h) (m_iLckFile h) (m_pConfig h) e.

Abbreviation MN := (M (Proc TDbHandler)).

Definition STR_CONFIG_FILEPATH : string := "/opt/ap/apos/conf/fbs.conf".
Definition STR_CONFIG_WFILE : string := "W_FILE".
Definition STR_CONFIG_RFILE : string := "R_FILE".
Definition MAX_CONFIG_LINEBUFFER : nat := Z.to_nat 2048.

Definition is_empty (s : string) : bool :=
  match s with EmptyString => true | _ => false end.

(** One line: the pair of paths found so far, or [None] where the loop is left with
    a format error. *)
Definition config_line (pBuf : string) (paths : string * string) : option (string * string) :=
  let strLine := Trim (c_str pBuf) in
  let '(strReadPath, strWritePath) := paths in
  if is_empty strLine then Some paths else
  match strchr strLine "="%char with
  | None | Some (EmptyString, _) => None
  | Some (l, r) =>
      if is_empty r then None else
      let strLeft := Trim l in
      let strRight := Trim r in
      if streq strLeft STR_CONFIG_WFILE && is_empty strWritePath then Some (strReadPath, strRight)
      else if streq strLeft STR_CONFIG_RFILE && is_empty strReadPath then Some (strRight, strWritePath)
      else Some paths
  end.

Fixpoint config_lines (lines : list string) (paths : string * string) : option (string * string) :=
  match lines with
  | [] => Some paths
  | l :: ls =>
      match config_line l paths with
      | Some paths => config_lines ls paths
      | None => None
      end
  end.

(** [ParsingConfigFile] on the contents of the file: the paths of [R_FILE] and
    [W_FILE], both of which have to be there. *)
Definition ParsingConfigFile (file : string) : option (string * string) :=
  match config_lines (fgets_lines MAX_CONFIG_LINEBUFFER file) (EmptyString, EmptyString) with
  | Some (r, w) => if is_empty w || is_empty r then None else Some (r, w)
  | None => None
  end.

(** [NSS_CONFIG_RFILE] and [NSS_CONFIG_WFILE]. *)
Inductive ConfigParam : Set := NSS_CONFIG_RFILE | NSS_CONFIG_WFILE.

Section config.
Context `{E : Env}.

(** [GetConfigValue]: the file is read once it has been read without error. *)
Definition GetConfigValue (iParam : ConfigParam) : MN (option string) :=
  c ← mem m_pConfig;
  (if bool_decide (m_nStatus c = errConfEmpty) then
     pFile ← fopen STR_CONFIG_FILEPATH MR;
     match pFile with
     | None => mret tt
     | Some f =>
         file ← unread f;
         (match ParsingConfigFile file with
          | Some (r, w) => upd (set_config (mkCfg errConfOk r w))
          | None => mret tt
          end);;
         _ ← fclose f;
         mret tt
     end
   else mret tt);;
  c ← mem m_pConfig;
  if bool_decide (m_nStatus c = errConfOk) then
    mret (Some (match iParam with
                | NSS_CONFIG_RFILE => m_strReadPath c
                | NSS_CONFIG_WFILE => m_strWritePath c
                end))
  else mret None.
End config.
