(* ===== verification/NssDb.v ===== *)
(** * The user database of [nss_ufbs]

    [TDbHandler]: the database is copied to a work file beside it, the work file is
    edited through a temporary file, and closing renames the work file over the
    database. *)

From S2P Require Import Prelude World Proc CString NssText NssConfig.

Open Scope Z_scope.

Definition STR_NSSDB_LOCKPATH : string := "/var/lock/~nss_ufbs.lck".
Definition MAX_UFDB_FILEBUFFER : nat := Z.to_nat 2048.
Definition MAX_UFDB_CPYBUFFER : nat := Z.to_nat 4096.
Definition P_tmpdir : string := "/tmp".
Definition SDB_PATH_TMPDBSUFFIX : string := "~tmp_".
Definition SDB_PATH_WORKDBEXT : string := "~.tmp".

(** The codes of the private [RemoveItemInDb]: [IUFBS_DB_ERROR],
    [IUFBS_DB_SUCCESS_FOUND] and [IUFBS_DB_SUCCESS_NOTFOUND]. *)
Inductive RemoveR : Set := REMOVE_ERROR | REMOVE_FOUND | REMOVE_NOTFOUND.

#[export] Instance RemoveR_eq_dec : EqDecision RemoveR.
Proof. solve_decision. Defined.

(** The blocks [fread] returns for a stream: [n] bytes each but the last. *)
Fixpoint blocks_go (fuel n : nat) (s : string) : list string :=
  match fuel, s with
  | _, EmptyString => []
  | S fuel, _ => take n s :: blocks_go fuel n (drop n s)
  | O, _ => []
  end.
Definition blocks (n : nat) (s : string) : list string := blocks_go (String.length s) n s.

(** The work path of a database, and the temporary path of a process. *)
Definition work_path (db : string) : string := String.append db SDB_PATH_WORKDBEXT.
Definition tmp_path (pid : Z) (db : string) : string :=
  String.append P_tmpdir (String.append "/" (String.append SDB_PATH_TMPDBSUFFIX
    (String.append (dec pid) (PathFileName db)))).

Section db.
Context `{E : Env}.

Definition SetInternalError (e : errNssDb) : MN unit := upd (SetInternalError_ e).

(** [LockDatabase]: true when the database is not locked, and also when the lock
    file cannot be opened or the lock fails with another error. *)
Definition LockDatabase : MN bool :=
  lck ← mem m_iLckFile;
  if (lck : bool) then mret false else
  opened ← req (CFileOp "open lock");
  if negb opened then SetInternalError errDbLockD;; mret true else
  upd (set_lck true);;
  r ← req (CLock STR_NSSDB_LOCKPATH);
  mret (match r with LockHeld => false | LockTaken | LockError => true end).

Definition UnLockDatabase : MN bool :=
  lck ← mem m_iLckFile;
  if negb lck then mret false else
  ok ← req (CFileOp "unlock");
  _ ← req (CClose STR_NSSDB_LOCKPATH);
  upd (set_lck false);;
  mret ok.

Definition GetTempFilePath : MN (option string) :=
  o ← GetConfigValue NSS_CONFIG_WFILE;
  match o with
  | Some db => pid ← req CGetpid; mret (Some (tmp_path pid db))
  | None => SetInternalError errDbTmpPath;; mret None
  end.

Definition GetDatapaseWorkPath : MN (option string) :=
  o ← GetConfigValue NSS_CONFIG_WFILE;
  match o with
  | Some db => mret (Some (work_path db))
  | None => SetInternalError errDbTmpPath;; mret None
  end.

Definition CreateTmpFile : MN bool :=
  t ← mem m_pTmpFile;
  match t with
  | Some _ => mret true
  | None =>
      o ← GetTempFilePath;
      match o with
      | None => mret false
      | Some path =>
          f ← fopen path MWplus;
          upd (set_tmp f);;
          match f with
          | Some _ => mret true
          | None => SetInternalError errDbTmpCreate;; mret false
          end
      end
  end.

Definition CloseTmpFile : MN unit :=
  t ← mem m_pTmpFile;
  match t with
  | None => mret tt
  | Some f =>
      _ ← fclose f;
      upd (set_tmp None);;
      o ← GetTempFilePath;
      match o with Some path => remove path | None => mret tt end
  end.

(** [FileTransfer]: the blocks of the source, each after a test of [ferror]. *)
Fixpoint transfer (bs : list string) (out : FILE) : MN (bool * FILE) :=
  ok ← req (CFileOp "fread");
  if negb ok then SetInternalError errDbCopy;; mret (false, out) else
  match bs with
  | [] => mret (true, out)
  | b :: bs =>
      '(n, out) ← fwrite b out;
      if n =? Z.of_nat (String.length b) then transfer bs out
      else SetInternalError errDbCopy;; mret (false, out)
  end.

(** The streams after the transfer; the source has been read to its end. *)
Definition FileTransfer (pFileIn pFileOut : FILE) : MN (bool * FILE * FILE) :=
  rest ← unread pFileIn;
  '(ok, out) ← transfer (blocks MAX_UFDB_CPYBUFFER rest) pFileOut;
  mret (ok, mkFILE (f_path pFileIn) (f_pos pFileIn + String.length rest), out).

Definition CopyFile (strFrom strTo : string) : MN bool :=
  i ← fopen strFrom MR;
  match i with
  | None => SetInternalError errDbCopy;; mret false
  | Some fin =>
      o ← fopen strTo MW_;
      r ← (match o with
           | None => SetInternalError errDbCopy;; mret false
           | Some fout =>
               '(ok, _, fout) ← FileTransfer fin fout;
               _ ← fclose fout;
               mret ok
           end);
      _ ← fclose fin;
      mret r
  end.

(** [Truncate]; [fileno] of an open stream does not fail. *)
Definition Truncate (pFile : FILE) : MN (bool * FILE) :=
  '(ok, f) ← fseek0 pFile;
  if negb ok then SetInternalError errDbHandling;; mret (false, f) else
  ok ← ftruncate0 f;
  if (ok : bool) then mret (true, f) else SetInternalError errDbTruncate;; mret (false, f).

(** The part of [OpenDbInstance] under the lock. *)
Definition open_work : MN bool :=
  w ← mem m_pWorkFile;
  match w with
  | Some _ => SetInternalError errDbAlready;; mret false
  | None =>
      o ← GetConfigValue NSS_CONFIG_WFILE;
      match o with
      | None => SetInternalError errDbPath;; mret false
      | Some strDbFilePath =>
          o ← GetDatapaseWorkPath;
          match o with
          | None => SetInternalError errDbTmpCreate;; mret false
          | Some strDbWorkPath =>
              fileInfo ← contents strDbFilePath;
              match fileInfo with
              | None =>
                  f ← fopen strDbWorkPath MWplus;
                  upd (set_work f);;
                  match f with
                  | Some _ => SetInternalError errDbOk;; mret true
                  | None => SetInternalError errDbCreate;; mret false
                  end
              | Some _ =>
                  copied ← CopyFile strDbFilePath strDbWorkPath;
                  if negb copied then mret false else
                  f ← fopen strDbWorkPath MRplus;
                  upd (set_work f);;
                  match f with
                  | Some _ => mret true
                  | None => SetInternalError errDbOpen;; mret false
                  end
              end
          end
      end
  end.

Definition OpenDbInstance : MN bool :=
  SetInternalError errDbUnknow;;
  unlocked ← LockDatabase;
  bRet ← (if (unlocked : bool) then open_work else SetInternalError errDbLocked;; mret false);
  if negb bRet then mret false else
  bRet ← CreateTmpFile;
  (if (bRet : bool) then mret tt else
   w ← mem m_pWorkFile; work ← deref w;
   _ ← fclose work;
   upd (set_work None));;
  mret bRet.

Definition CloseDbInstance : MN bool :=
  CloseTmpFile;;
  w ← mem m_pWorkFile;
  bRet ←
    (match w with
     | None => mret false
     | Some work =>
         closed ← fclose work;
         if negb closed then SetInternalError errDbCloseWDb;; mret false else
         upd (set_work None);;
         o ← GetDatapaseWorkPath;
         match o with
         | None => mret false
         | Some strWorkDb =>
             o ← GetConfigValue NSS_CONFIG_WFILE;
             match o with
             | None => SetInternalError errDbPath;; mret false
             | Some strDb =>
                 ok ← rename strWorkDb strDb;
                 SetInternalError (if (ok : bool) then errDbOk else errDbRename);;
                 mret ok
             end
         end
     end);
  _ ← UnLockDatabase;
  mret bRet.

(** [FlushTmpFile]: both files are open whenever it is called. *)
Definition FlushTmpFile : MN bool :=
  t ← mem m_pTmpFile; tmp ← deref t;
  '(ok, tmp) ← fseek0 tmp;
  upd (set_tmp (Some tmp));;
  if negb ok then SetInternalError errDbHandling;; mret false else
  w ← mem m_pWorkFile; work ← deref w;
  '(ok, work) ← Truncate work;
  upd (set_work (Some work));;
  if negb ok then mret false else
  '(ok, tmp, work) ← FileTransfer tmp work;
  upd (set_tmp (Some tmp));;
  upd (set_work (Some work));;
  if negb ok then mret false else
  '(ok, tmp) ← Truncate tmp;
  upd (set_tmp (Some tmp));;
  mret ok.

(** The loop of the private [RemoveItemInDb] over the buffers [fgets] fills: whether
    the loop was left with an error, whether the user was found, whether the last
    buffer copied ends in a newline, and the temporary file.  A buffer that starts
    with a NUL is an empty line, and the test of its last character reads
    [pBuf[UINT_MAX]]. *)
Fixpoint remove_loop (uiUid : Z) (lines : list string) (bFound bNl : bool) (tmp : FILE)
    : MN (bool * bool * bool * FILE) :=
  match lines with
  | [] => mret (false, bFound, bNl, tmp)
  | pBuf :: ls =>
      let copy :=
        let str := c_str pBuf in
        '(uiByteWrited, tmp) ← fwrite str tmp;
        last ← deref (String.get (String.length str - 1) str);
        if uiByteWrited =? Z.of_nat (String.length str)
        then remove_loop uiUid ls bFound (eqc last LF) tmp
        else mret (true, bFound, eqc last LF, tmp) in
      match ParsingLine pBuf with
      | DB_EMPTY => copy
      | DB_SUCCESS pwd =>
          if negb (uiUid =? uId pwd) then copy else remove_loop uiUid ls true bNl tmp
      | DB_ERROR => SetInternalError errDbFormat;; mret (true, bFound, bNl, tmp)
      end
  end.

(** The private [RemoveItemInDb]: its code and [*pbNlLatest].  The position of the
    work file is not used before the next seek. *)
Definition RemoveItemInDb_ (uiUid : Z) (bNlLatest : bool) : MN (RemoveR * bool) :=
  w ← mem m_pWorkFile;
  t ← mem m_pTmpFile;
  match w, t with
  | Some work, Some tmp =>
      '(ok1, work) ← fseek0 work;
      upd (set_work (Some work));;
      if negb ok1 then SetInternalError errDbHandling;; mret (REMOVE_ERROR, bNlLatest) else
      '(ok2, tmp) ← fseek0 tmp;
      upd (set_tmp (Some tmp));;
      if negb ok2 then SetInternalError errDbHandling;; mret (REMOVE_ERROR, bNlLatest) else
      file ← unread work;
      '(bExit, bFound, bNl, tmp) ←
        remove_loop uiUid (fgets_lines MAX_UFDB_FILEBUFFER file) false true tmp;
      upd (set_tmp (Some tmp));;
      upd (set_work (Some (mkFILE (f_path work) (String.length file))));;
      mret (if bExit : bool then REMOVE_ERROR
            else if bFound : bool then REMOVE_FOUND else REMOVE_NOTFOUND, bNl)
  | _, _ => SetInternalError errDbNotOpen;; mret (REMOVE_ERROR, bNlLatest)
  end.

Definition RemoveItemInDb (uiUid : Z) : MN bool :=
  SetInternalError errDbUnknow;;
  w ← mem m_pWorkFile;
  match w with
  | None => SetInternalError errDbNotOpen;; mret false
  | Some _ =>
      '(iFlag, _) ← RemoveItemInDb_ uiUid false;
      match iFlag with
      | REMOVE_FOUND =>
          bRet ← FlushTmpFile;
          (if (bRet : bool) then SetInternalError errDbOk else mret tt);;
          mret bRet
      | REMOVE_NOTFOUND => SetInternalError errDbUidNotFound;; mret false
      | REMOVE_ERROR => mret false
      end
  end.

(** [InsertItemInDb]: the result of the write is replaced by that of the flush. *)
Definition InsertItemInDb (pwd : TsPassword) : MN bool :=
  SetInternalError errDbUnknow;;
  w ← mem m_pWorkFile;
  match w with
  | None => SetInternalError errDbNotOpen;; mret false
  | Some _ =>
      '(iFlag, bIsNewLine) ← RemoveItemInDb_ (uId pwd) false;
      match iFlag with
      | REMOVE_ERROR => mret false
      | REMOVE_FOUND | REMOVE_NOTFOUND =>
          let line := String.append (tuple pwd) (String LF EmptyString) in
          let ostrTuple := if (bIsNewLine : bool) then line else String LF line in
          t ← mem m_pTmpFile; tmp ← deref t;
          '(iIoBytes, tmp) ← fwrite ostrTuple tmp;
          upd (set_tmp (Some tmp));;
          SetInternalError
            (if iIoBytes =? Z.of_nat (String.length ostrTuple) then errDbOk else errDbWrite);;
          FlushTmpFile
      end
  end.

Definition ClearDatabase : MN bool :=
  SetInternalError errDbUnknow;;
  w ← mem m_pWorkFile;
  match w with
  | None => SetInternalError errDbNotOpen;; mret false
  | Some work =>
      '(bRet, work) ← Truncate work;
      upd (set_work (Some work));;
      (if (bRet : bool) then SetInternalError errDbOk else mret tt);;
      mret bRet
  end.
End db.

(** ** The database as a list of lines *)

(** The user of a line; a blank line has none. *)
Definition line_user (l : string) : option TsPassword :=
  match ParsingLine (nl l) with DB_SUCCESS p => Some p | _ => None end.

(** A line the handler reads in one piece and accepts. *)
Definition good_line (l : string) : Prop :=
  all_chars (no LF) l = true ∧ all_chars (no NUL) l = true
  ∧ (S (String.length l) < MAX_UFDB_FILEBUFFER)%nat ∧ ParsingLine (nl l) ≠ DB_ERROR.

(** Whether a line is about the user [uid], and the lines that are not. *)
Definition has_uid (uid : Z) (l : string) : bool :=
  match line_user l with Some p => uid =? uId p | None => false end.

Fixpoint without (uid : Z) (lines : list string) : list string :=
  match lines with
  | [] => []
  | l :: ls => if has_uid uid l then without uid ls else l :: without uid ls
  end.

(** The contents after an insertion. *)
Definition inserted (pwd : TsPassword) (lines : list string) : list string :=
  without (uId pwd) lines ++ [tuple pwd].

Lemma blocks_go_concat fuel n s :
  (0 < n)%nat → (String.length s ≤ fuel)%nat → concat_str (blocks_go fuel n s) = s.
Proof.
  intros Hn. revert s; induction fuel as [|fuel IH]; intros s Hs.
  - by destruct s; simpl in Hs; [|lia].
  - destruct s as [|c s]; [done|]. cbn [blocks_go concat_str foldr].
    change (foldr _ _ ?l) with (concat_str l). rewrite IH, take_drop; [done|].
    rewrite length_drop. simpl in *. lia.
Qed.

Lemma blocks_concat s : concat_str (blocks MAX_UFDB_CPYBUFFER s) = s.
Proof. apply blocks_go_concat; [|done]. vm_compute. lia. Qed.

(** [db_auto] runs straight-line code of the handler on a known state. *)
Ltac db_simpl :=
  cbn [thenQ negb compose f_path f_pos p_mem p_fs p_trace
       m_pWorkFile m_pTmpFile m_iLckFile m_pConfig m_enmRetCode
       m_nStatus m_strReadPath m_strWritePath
       set_work set_tmp set_lck set_config SetInternalError_].
Ltac db_prim :=
  lazymatch goal with
  | H : steady |- wp (req (CFileOp _)) _ _ => apply (wp_fileop H); intros ?
  | H : steady |- wp (fclose _) _ _ => apply (wp_fclose H); intros ?
  | H : steady |- wp (fseek0 _) _ _ => apply (wp_fseek0 H); intros ?
  | H : steady |- wp (ftruncate0 _) _ _ => apply (wp_ftruncate0 H); intros ?
  | H : steady |- wp (remove _) _ _ => apply (wp_remove H); intros ?
  | |- _ => pw_prim
  end.
Ltac db_auto :=
  unfold SetInternalError; db_simpl;
  repeat (db_prim; unfold SetInternalError; db_simpl).

Section db_spec.
Context `{E : Env} (Hst : steady).
Implicit Types (fs : Files) (h : TDbHandler).

Lemma transfer_spec bs out c (Q : outcome (bool * FILE) → Proc TDbHandler → Prop) t fs h :
  writable (f_path out) → fs !! f_path out = Some c → f_pos out = String.length c →
  (∀ t', Q (Val (true, mkFILE (f_path out) (String.length (String.append c (concat_str bs)))))
           (mkProc t' (<[f_path out := String.append c (concat_str bs)]> fs) h)) →
  wp (transfer bs out) Q (mkProc t fs h).
Proof.
  revert out c t fs Q. induction bs as [|b bs IH]; intros out c t fs Q Hw Hc Hpos HQ; cbn [transfer].
  - apply wp_bind, (wp_fileop Hst). intros t'. cbn. specialize (HQ t'). cbn in HQ.
    rewrite append_nil_r, insert_id, <-Hpos in HQ by done. by destruct out.
  - apply wp_bind, (wp_fileop Hst). intros t1. cbn [thenQ negb].
    apply wp_bind, (wp_fwrite_end _ _ c); [done..|]. intros t2. cbn [thenQ].
    rewrite Z.eqb_refl. eapply IH; [done|apply lookup_insert_eq|done|]. intros t3.
    cbn [f_path]. rewrite insert_insert_eq, append_assoc. apply HQ.
Qed.

Lemma FileTransfer_spec fin fout x c
    (Q : outcome (bool * FILE * FILE) → Proc TDbHandler → Prop) t fs h :
  writable (f_path fout) → fs !! f_path fin = Some x → f_pos fin = 0%nat →
  fs !! f_path fout = Some c → f_pos fout = String.length c →
  (∀ t' n, Q (Val (true, mkFILE (f_path fin) n,
                   mkFILE (f_path fout) (String.length (String.append c x))))
             (mkProc t' (<[f_path fout := String.append c x]> fs) h)) →
  wp (FileTransfer fin fout) Q (mkProc t fs h).
Proof.
  intros Hw Hx Hp Hc Hq HQ. unfold FileTransfer. apply wp_bind, (wp_unread _ x); [done|].
  cbn [thenQ]. rewrite Hp. cbn [drop]. apply wp_bind, (transfer_spec _ _ c); [done..|].
  intros t'. cbn [thenQ]. rewrite blocks_concat. apply wp_ret, HQ.
Qed.

(** The loop copies the lines of other users to the end of the temporary file. *)
Lemma remove_loop_spec uid lines found tmp c
    (Q : outcome (bool * bool * bool * FILE) → Proc TDbHandler → Prop) t fs h :
  writable (f_path tmp) → Forall good_line lines →
  fs !! f_path tmp = Some c → f_pos tmp = String.length c →
  (∀ t', let c' := String.append c (text_of (without uid lines)) in
    Q (Val (false, found || existsb (has_uid uid) lines, true, mkFILE (f_path tmp) (String.length c')))
      (mkProc t' (<[f_path tmp := c']> fs) h)) →
  wp (remove_loop uid (nl <$> lines) found true tmp) Q (mkProc t fs h).
Proof.
  intros Hwr Hl. revert found tmp c t fs Q Hwr.
  induction Hl as [|l ls (Hlf & Hnul & _ & Herr) _ IH]; intros found tmp c t fs Q Hwr Hc Hpos HQ.
  - specialize (HQ t). cbn in HQ. rewrite append_nil_r, insert_id, <-Hpos, orb_false_r in HQ by done.
    by destruct tmp.
  - cbn [remove_loop fmap list_fmap]. cbn [existsb without] in HQ.
    assert (Hstr : c_str (nl l) = nl l)
      by (apply c_str_id; unfold nl; by rewrite all_chars_append, Hnul).
    assert (Hcopy : has_uid uid l = false → wp
      ('(uiByteWrited, tmp) ← fwrite (nl l) tmp;
       last ← deref (String.get (String.length (nl l) - 1) (nl l));
       if uiByteWrited =? Z.of_nat (String.length (nl l))
       then remove_loop uid (nl <$> ls) found (eqc last LF) tmp
       else mret (true, found, eqc last LF, tmp)) Q (mkProc t fs h)).
    { intros Hu. rewrite Hu in HQ. apply wp_bind, (wp_fwrite_end _ _ c); [done..|].
      intros t1. cbn [thenQ].
      replace (String.get _ (nl l)) with (Some LF) by
        (symmetry; unfold nl; rewrite length_append; simpl; rewrite Nat.add_sub;
         apply get_append_r).
      cbn [deref]. apply wp_bind, wp_ret. cbn [thenQ]. rewrite Z.eqb_refl, eqc_refl.
      eapply IH; [done|apply lookup_insert_eq|done|]. intros t2. cbn [f_path].
      rewrite insert_insert_eq, append_assoc, <-text_of_nl. apply HQ. }
    unfold has_uid, line_user in Hcopy, HQ. rewrite Hstr.
    destruct (ParsingLine (nl l)) as [| |p] eqn:Ep; [done|by apply Hcopy|].
    destruct (uid =? uId p) eqn:Eu; cbn [negb]; [|by apply Hcopy].
    apply (IH true tmp c); [done..|]. intros t1. specialize (HQ t1).
    by rewrite orb_true_r in HQ.
Qed.

(** ** The operations on an open database *)

Context (pid : Z) (Hpid : ∀ t, answer t CGetpid = pid) (rp db : string).
Context (Hdb : db ≠ EmptyString) (Htd : tmp_path pid db ≠ db) (Htw : tmp_path pid db ≠ work_path db).
Context (Hwt : writable (tmp_path pid db)).

Lemma work_not_db : work_path db ≠ db.
Proof.
  unfold work_path. intros H. apply (f_equal String.length) in H. rewrite length_append in H.
  simpl in H. lia.
Qed.

Lemma work_not_empty : work_path db ≠ EmptyString.
Proof. unfold work_path. by destruct db. Qed.

(** The handler between opening and closing. *)
Definition opened (n1 n2 : nat) (lck : bool) (e : errNssDb) : TDbHandler :=
  mkDbHandler (Some (mkFILE (work_path db) n1)) (Some (mkFILE (tmp_path pid db) n2)) lck
    (mkCfg errConfOk rp db) e.

Lemma wp_Truncate f (Q : outcome (bool * FILE) → Proc TDbHandler → Prop) t fs h :
  (∀ t', Q (Val (true, mkFILE (f_path f) 0)) (mkProc t' (<[f_path f := EmptyString]> fs) h)) →
  wp (Truncate f) Q (mkProc t fs h).
Proof.
  intros HQ. unfold Truncate. db_auto. apply HQ.
Qed.

(** A flush moves the temporary file to the work file. *)
Lemma FlushTmpFile_spec x y n1 n2 lck e (Q : outcome bool → Proc TDbHandler → Prop) t fs :
  writable (work_path db) → fs !! tmp_path pid db = Some x → fs !! work_path db = Some y →
  (∀ t' n, Q (Val true)
    (mkProc t' (<[tmp_path pid db := EmptyString]> (<[work_path db := x]> fs)) (opened n 0 lck e))) →
  wp FlushTmpFile Q (mkProc t fs (opened n1 n2 lck e)).
Proof.
  intros Hww Hx Hy HQ. unfold FlushTmpFile, opened. db_auto.
  apply wp_Truncate. intros t2. db_auto.
  apply (FileTransfer_spec _ _ x EmptyString); db_simpl;
    rewrite ?lookup_insert_ne, ?lookup_insert_eq by done; [done..|].
  intros t3 n. db_auto. apply wp_Truncate. intros t4. db_auto.
  rewrite append_nil_l, insert_insert_eq. apply HQ.
Qed.

Lemma fgets_good lines :
  Forall good_line lines → fgets_lines MAX_UFDB_FILEBUFFER (text_of lines) = nl <$> lines.
Proof. intros H. apply fgets_lines_text. eapply Forall_impl; [exact H|]. by intros l (? & _ & ? & _). Qed.

(** The private removal leaves the lines of the other users in the temporary file. *)
Lemma RemoveItemInDb__spec uid lines b n1 n2 lck e
    (Q : outcome (RemoveR * bool) → Proc TDbHandler → Prop) t fs :
  Forall good_line lines →
  fs !! work_path db = Some (text_of lines) → fs !! tmp_path pid db = Some EmptyString →
  (∀ t' n, let x := text_of (without uid lines) in
    Q (Val (if existsb (has_uid uid) lines then REMOVE_FOUND else REMOVE_NOTFOUND, true))
      (mkProc t' (<[tmp_path pid db := x]> fs) (opened n (String.length x) lck e))) →
  wp (RemoveItemInDb_ uid b) Q (mkProc t fs (opened n1 n2 lck e)).
Proof.
  intros Hl Hw Ht HQ. unfold RemoveItemInDb_, opened. db_auto.
 
  apply (wp_unread _ (text_of lines)); [done|]. cbn [f_pos drop]. db_auto.
  rewrite fgets_good by done. apply (remove_loop_spec _ _ _ _ EmptyString); [done..|].
  intros t3. db_auto. cbn [orb]. apply HQ.
Qed.

Lemma InsertItemInDb_spec pwd lines n1 n2 lck e (Q : outcome bool → Proc TDbHandler → Prop) t fs :
  writable (work_path db) → Forall good_line lines →
  fs !! work_path db = Some (text_of lines) → fs !! tmp_path pid db = Some EmptyString →
  (∀ t' n, Q (Val true)
    (mkProc t' (<[tmp_path pid db := EmptyString]> (<[work_path db := text_of (inserted pwd lines)]> fs))
      (opened n 0 lck errDbOk))) →
  wp (InsertItemInDb pwd) Q (mkProc t fs (opened n1 n2 lck e)).
Proof.
  intros Hww Hl Hw Ht HQ. unfold InsertItemInDb, opened. db_auto.
  apply (RemoveItemInDb__spec _ lines); [done..|]. intros t1 n. db_auto.
  assert (∀ (m : MN bool) s, wp m Q s → wp (match
      (if existsb (has_uid (uId pwd)) lines then REMOVE_FOUND else REMOVE_NOTFOUND)
    with REMOVE_ERROR => mret false | REMOVE_FOUND | REMOVE_NOTFOUND => m end) Q s) as Hcase.
  { intros m s. by destruct (existsb _ lines). }
  apply Hcase. unfold opened. db_auto.
  apply (wp_fwrite_end _ _ (text_of (without (uId pwd) lines)));
    [done|db_simpl; by rewrite lookup_insert_eq|done|].
  intros t2. db_auto. rewrite Z.eqb_refl, insert_insert_eq.
  eapply FlushTmpFile_spec; [done|apply lookup_insert_eq|by rewrite lookup_insert_ne|].
  intros t3 n3. unfold inserted in HQ. rewrite text_of_app in HQ.
  rewrite insert_insert_ne, insert_insert_eq, insert_insert_ne by done. apply HQ.
Qed.

(** Removing a user the database has, and one it has not. *)
Lemma RemoveItemInDb_spec uid lines n1 n2 lck e (Q : outcome bool → Proc TDbHandler → Prop) t fs :
  writable (work_path db) → Forall good_line lines →
  fs !! work_path db = Some (text_of lines) → fs !! tmp_path pid db = Some EmptyString →
  (∀ t' n m c, Q (Val (existsb (has_uid uid) lines))
    (mkProc t' (<[tmp_path pid db := c]> (<[work_path db := text_of (without uid lines)]> fs))
      (opened n m lck (if existsb (has_uid uid) lines then errDbOk else errDbUidNotFound)))) →
  wp (RemoveItemInDb uid) Q (mkProc t fs (opened n1 n2 lck e)).
Proof.
  intros Hww Hl Hw Ht HQ. unfold RemoveItemInDb, opened. db_auto.
  apply (RemoveItemInDb__spec _ lines); [done..|]. intros t1 n. db_auto.
  destruct (existsb (has_uid uid) lines) eqn:Ex.
  - apply wp_bind. eapply FlushTmpFile_spec; [done|apply lookup_insert_eq|by rewrite lookup_insert_ne|].
    intros t2 n2'. unfold opened. db_auto.
    rewrite insert_insert_ne, insert_insert_eq, insert_insert_ne by done. apply HQ.
  - unfold opened. db_auto. assert (without uid lines = lines) as Hid.
    { clear -Ex. induction lines as [|l ls IH]; [done|]. cbn in *.
      apply orb_false_iff in Ex as [-> Ex]. by rewrite IH. }
    specialize (HQ t1 n (String.length (text_of lines)) (text_of lines)).
    rewrite Hid in HQ |- *. rewrite (insert_id fs (work_path db)) in HQ by done.
    apply HQ.
Qed.

Lemma ClearDatabase_spec n1 n2 lck e (Q : outcome bool → Proc TDbHandler → Prop) t fs :
  (∀ t', Q (Val true)
    (mkProc t' (<[work_path db := EmptyString]> fs) (opened 0 n2 lck errDbOk))) →
  wp ClearDatabase Q (mkProc t fs (opened n1 n2 lck e)).
Proof.
  intros HQ. unfold ClearDatabase, opened. db_auto. apply wp_Truncate. intros t1. db_auto. apply HQ.
Qed.

(** ** Opening and closing *)

(** A configuration that has been read is not read again. *)
Lemma GetConfigValue_cached (Q : outcome (option string) → Proc TDbHandler → Prop) t fs h :
  m_pConfig h = mkCfg errConfOk rp db → Q (Val (Some db)) (mkProc t fs h) →
  wp (GetConfigValue NSS_CONFIG_WFILE) Q (mkProc t fs h).
Proof.
  intros Hc HQ. unfold GetConfigValue. db_auto. rewrite Hc. cbn [m_nStatus].
  rewrite bool_decide_false by done. db_auto. rewrite Hc. cbn [m_nStatus m_strWritePath].
  rewrite bool_decide_true by done. by apply wp_ret.
Qed.

Lemma GetTempFilePath_cached (Q : outcome (option string) → Proc TDbHandler → Prop) t fs h :
  m_pConfig h = mkCfg errConfOk rp db →
  (∀ t', Q (Val (Some (tmp_path pid db))) (mkProc t' fs h)) →
  wp GetTempFilePath Q (mkProc t fs h).
Proof.
  intros Hc HQ. unfold GetTempFilePath. apply wp_bind, GetConfigValue_cached; [done|]. cbn [thenQ].
  apply wp_bind, (wp_req CGetpid). intros r ->. cbn [thenQ p_trace p_fs p_mem]. rewrite Hpid.
  apply wp_ret, HQ.
Qed.

Lemma CloseDbInstance_spec x n1 n2 lck e (Q : outcome bool → Proc TDbHandler → Prop) t fs :
  fs !! work_path db = Some x →
  (∀ t', Q (Val true)
    (mkProc t' (<[db := x]> (delete (work_path db) (delete (tmp_path pid db) fs)))
      (mkDbHandler None None false (mkCfg errConfOk rp db) errDbOk))) →
  wp CloseDbInstance Q (mkProc t fs (opened n1 n2 lck e)).
Proof.
  intros Hx HQ. unfold CloseDbInstance, CloseTmpFile, opened. db_auto.
  apply GetTempFilePath_cached; [done|]. intros t2. db_auto.
  unfold GetDatapaseWorkPath. apply wp_bind, GetConfigValue_cached; [done|]. db_auto.
  apply GetConfigValue_cached; [done|]. db_auto.
  apply (wp_rename Hst _ _ x); [by rewrite lookup_delete_ne|]. intros t5. db_auto.
  unfold UnLockDatabase. db_auto. destruct lck; db_auto; apply HQ.
Qed.

(** ** A full disk *)

(** No byte can be written to the work file any more. *)
Definition full : Prop := ∀ t d, answer t (CWrite (work_path db) d) = 0.

Lemma fwrite_full d n c (Q : outcome (Z * FILE) → Proc TDbHandler → Prop) t fs h :
  full → fs !! work_path db = Some c → (n ≤ String.length c)%nat →
  (∀ t', Q (Val (0, mkFILE (work_path db) n)) (mkProc t' fs h)) →
  wp (fwrite d (mkFILE (work_path db) n)) Q (mkProc t fs h).
Proof.
  intros Hfull Hc Hn HQ. unfold fwrite. apply wp_bind, (wp_req (CWrite (work_path db) d)).
  intros r ->. cbn [thenQ p_trace p_fs p_mem f_path f_pos].
  rewrite (Hfull t d : answer t (CWrite (work_path db) d) = _).
  change (take (Z.to_nat 0) d) with EmptyString.
  apply wp_bind, wp_gets. cbn [thenQ p_fs]. rewrite Hc. apply wp_bind, wp_modify.
  cbn [thenQ p_trace p_fs p_mem default id]. apply wp_ret. cbn [String.length Z.of_nat].
  replace (overwrite n EmptyString c) with c; [rewrite insert_id, Nat.add_0_r by done; apply HQ|].
  unfold overwrite. replace (n - String.length c)%nat with 0%nat by lia. cbn.
  by rewrite Nat.add_0_r, take_drop.
Qed.

Lemma FlushTmpFile_full x y n1 n2 lck e (Q : outcome bool → Proc TDbHandler → Prop) t fs :
  full → x ≠ EmptyString → fs !! tmp_path pid db = Some x → fs !! work_path db = Some y →
  (∀ t' n m, Q (Val false)
    (mkProc t' (<[work_path db := EmptyString]> fs) (opened n m lck errDbCopy))) →
  wp FlushTmpFile Q (mkProc t fs (opened n1 n2 lck e)).
Proof.
  intros Hfull Hne Hx Hy HQ. unfold FlushTmpFile, opened. db_auto. apply wp_Truncate. intros t2.
  db_auto. unfold FileTransfer. apply wp_bind, (wp_unread _ x); [by rewrite lookup_insert_ne|].
  cbn [drop f_pos]. db_auto. unfold blocks. destruct x as [|c x]; [done|].
  cbn [String.length blocks_go transfer]. db_auto.
  apply (fwrite_full _ _ EmptyString); [done|by rewrite lookup_insert_eq|simpl; lia|]. intros t4. db_auto.
  change (String.length (take MAX_UFDB_CPYBUFFER (String c x)))
    with (S (String.length (take (pred MAX_UFDB_CPYBUFFER) x))).
  db_auto. apply HQ.
Qed.

(** C29: When the disk fills up while a removal copies its result to the work file,
    the removal fails, but closing still renames the work file over the database:
    every user is lost. *)
Theorem full_disk_loses_db uid lines n1 n2 lck e t fs :
  full → Forall good_line lines → existsb (has_uid uid) lines = true → without uid lines ≠ [] →
  fs !! work_path db = Some (text_of lines) → fs !! tmp_path pid db = Some EmptyString →
  wp (removed ← RemoveItemInDb uid; closed ← CloseDbInstance; mret (removed, closed))
    (valQ (λ r s, r = (false, true) ∧ p_fs s !! db = Some EmptyString))
    (mkProc t fs (opened n1 n2 lck e)).
Proof.
  intros Hfull Hl Hu Hne Hw Ht. unfold RemoveItemInDb, opened. db_auto.
  apply (RemoveItemInDb__spec _ lines); [done..|]. intros t1 n. db_auto. rewrite Hu. apply wp_bind.
  eapply FlushTmpFile_full; [done| |apply lookup_insert_eq|by rewrite lookup_insert_ne|].
  { destruct (without uid lines) as [|[] ?]; done. }
  intros t2 n2' m. unfold opened. db_auto.
  eapply CloseDbInstance_spec; [by rewrite lookup_insert_eq|]. intros t3. db_auto.
  by rewrite lookup_insert_eq.
Qed.

Lemma CopyFile_spec x (Q : outcome bool → Proc TDbHandler → Prop) t fs h :
  writable (work_path db) → fs !! db = Some x →
  (∀ t', Q (Val true) (mkProc t' (<[work_path db := x]> fs) h)) →
  wp (CopyFile db (work_path db)) Q (mkProc t fs h).
Proof.
  intros Hww Hx HQ. unfold CopyFile. pose proof work_not_db. pose proof work_not_empty.
  apply wp_bind, (wp_fopen_read Hst _ _ x); [auto|done|done|]. intros t1. db_auto.
  apply (wp_fopen_create Hst); [auto|done|]. intros t2. db_auto.
  apply (FileTransfer_spec _ _ x EmptyString); db_simpl;
    rewrite ?lookup_insert_ne, ?lookup_insert_eq by done; [done..|].
  intros t3 n. db_auto.  rewrite append_nil_l, insert_insert_eq. apply HQ.
Qed.

Context (cfg : string) (Hcfg : ParsingConfigFile cfg = Some (rp, db)).
Context (Hlock : ∀ t, answer t (CLock STR_NSSDB_LOCKPATH) ≠ LockHeld).

Lemma GetConfigValue_first (Q : outcome (option string) → Proc TDbHandler → Prop) t fs w tm lck e :
  fs !! STR_CONFIG_FILEPATH = Some cfg →
  (∀ t', Q (Val (Some db)) (mkProc t' fs (mkDbHandler w tm lck (mkCfg errConfOk rp db) e))) →
  wp (GetConfigValue NSS_CONFIG_WFILE) Q (mkProc t fs (mkDbHandler w tm lck newConfigFile e)).
Proof.
  intros Hf HQ. unfold GetConfigValue. db_auto. rewrite bool_decide_true by done. db_auto.
  apply (wp_fopen_read Hst _ _ cfg); [auto|done..|]. intros t1. db_auto.
  apply (wp_unread _ cfg); [done|]. cbn [f_pos drop]. db_auto. rewrite Hcfg. db_auto.
  rewrite bool_decide_true by done. apply wp_ret, HQ.
Qed.

(** Opening copies the database, or starts with an empty one. *)
Lemma OpenDbInstance_spec (Q : outcome bool → Proc TDbHandler → Prop) t fs :
  writable (work_path db) → fs !! STR_CONFIG_FILEPATH = Some cfg →
  (∀ t' e, Q (Val true)
    (mkProc t' (<[tmp_path pid db := EmptyString]>
        (<[work_path db := default EmptyString (fs !! db)]> fs)) (opened 0 0 true e))) →
  wp OpenDbInstance Q (mkProc t fs newDbHandler).
Proof.
  intros Hww Hf HQ. unfold OpenDbInstance, LockDatabase, newDbHandler. pose proof work_not_empty.
  db_auto. match goal with H : ?r = answer ?t' (CLock _) |- _ => destruct r eqn:Hr; [|by destruct (Hlock t')|] end; unfold open_work; db_auto.
  all: apply GetConfigValue_first; [done|]; intros t2; db_auto; unfold GetDatapaseWorkPath.
  all: apply wp_bind, GetConfigValue_cached; [done|]; db_auto.
  all: destruct (fs !! db) as [x|] eqn:Ex;
    [ apply wp_bind, (CopyFile_spec x); [done..|]; intros t3; db_auto;
      apply (wp_fopen_read Hst _ _ x); [auto|done|by rewrite lookup_insert_eq|]; intros t4; db_auto
    | apply wp_bind, (wp_fopen_create Hst); [auto|done|]; intros t4; db_auto ].
  all: unfold CreateTmpFile; db_auto.
  all: apply GetTempFilePath_cached; [done|]; intros t5; db_auto.
  all: apply (wp_fopen_create Hst); [auto|done|]; intros t6; db_auto; apply HQ.
Qed.
End db_spec.

(** A node on which the work file cannot grow. *)
Definition full_env : Env := {|
  answer := λ _ c, match c with
    | CWrite p d => if streq p "/db~.tmp" then 0 else Z.of_nat (String.length d)
    | c => dflt c
    end |}.

Lemma full_disk_loses_db_witness :
  wp (removed ← RemoveItemInDb (E:=full_env) 3; closed ← CloseDbInstance (E:=full_env);
      mret (removed, closed))
    (valQ (λ r s, r = (false, true) ∧ p_fs s !! "/db"%string = Some EmptyString))
    (mkProc [] {["/db~.tmp"%string := text_of ["a:x:3:4:::"; "b:x:5:6:::"]%string;
                 "/tmp/~tmp_100db"%string := EmptyString]} (opened 100 "/d" "/db" 0 0 true errDbOk)).
Proof.
  apply (full_disk_loses_db (E:=full_env)) with (lines := ["a:x:3:4:::"; "b:x:5:6:::"]%string);
    try done.
  repeat constructor; vm_compute; try done; lia.
Defined.
