(* ===== verification/NssMain.v ===== *)
(** * The command [nss_ufbs]

    [TUfbsHandler], which asks the LDAP module of the name service for a user, and
    [main.cpp]: [nss_ufbs -i <uid>] copies a user from LDAP to the database, [-r <uid>]
    removes one and [-d] empties the database. *)

From S2P Require Import Prelude World Proc CString NssText NssConfig NssDb.

Open Scope Z_scope.

Definition RET_SUCCESS : Z := 0.
Definition RET_ABORT : Z := 1.
Definition RET_SYNTAX : Z := 2.
Definition ERR_NOTFOUND : Z := 3.

(** [strspn(s, "0123456789") == strlen(s)]. *)
Definition all_digits (s : string) : bool := all_chars is_digit s.

(** [CopyPasswd]. *)
Definition CopyPasswd (p : PasswdT) : TsPassword :=
  mkTs (pw_uid p) (pw_gid p) (pw_name p) (pw_passwd p) (pw_gecos p) (pw_dir p) (pw_shell p).

(** The size [ldapGetPwUid] passes for its buffer, whatever the buffer has. *)
Definition LDAP_BUFLEN : Z := 16384.

Section main.
Context `{E : Env}.

(** [TUfbsHandler::Initialize] on a new object: [dlopen], then [dlsym]. *)
Definition Initialize : MN bool :=
  handle ← req (CFileOp "dlopen libnss_ldap.so.2");
  if negb handle then mret false else req (CFileOp "dlsym _nss_ldap_getpwuid_r").

(** [ldapGetPwUid]: the module may use [LDAP_BUFLEN] bytes of the buffer. *)
Definition ldapGetPwUid (uid : Z) : MN (option TsPassword) :=
  n ← req CSysconf;
  let iBufSize := if n <? 0 then 1024 else n in
  r ← req (CLdap (u32 uid) LDAP_BUFLEN);
  if iBufSize <? ld_used r then undef else
  mret (match ld_status r with NSS_STATUS_SUCCESS => Some (CopyPasswd (ld_pwd r)) | _ => None end).

(** A command on an open database, between [OpenDbInstance] and [CloseDbInstance]. *)
Definition with_db (op : MN Z) : MN Z :=
  upd (λ _, newDbHandler);;
  opened ← OpenDbInstance;
  if negb opened then mret RET_ABORT else
  iRet ← op;
  closed ← CloseDbInstance;
  mret (if (closed : bool) then iRet else RET_ABORT).

Definition nssInsertItem (pArg : string) : MN Z :=
  if negb (all_digits pArg) then mret RET_ABORT else
  let iUid := atoi pArg in
  ok ← Initialize;
  if negb ok then mret RET_ABORT else
  o ← ldapGetPwUid iUid;
  match o with
  | None => mret RET_ABORT
  | Some pwd =>
      with_db (ok ← InsertItemInDb pwd; mret (if (ok : bool) then RET_SUCCESS else RET_ABORT))
  end.

Definition nssRemoveItem (pArg : string) : MN Z :=
  if negb (all_digits pArg) then mret RET_ABORT else
  let iUid := atoi pArg in
  with_db
    (ok ← RemoveItemInDb (u32 iUid);
     if (ok : bool) then mret RET_SUCCESS else
     nDbErr ← mem m_enmRetCode;
     mret (if bool_decide (nDbErr = errDbUidNotFound) then ERR_NOTFOUND else RET_ABORT)).

Definition nssDeleteDb : MN Z :=
  with_db (ok ← ClearDatabase; mret (if (ok : bool) then RET_SUCCESS else RET_ABORT)).

(** [ParseOption]: the option character with its argument, where there is one. *)
Inductive OptR : Set := OptMissing | OptUnknown | Opt (c : ascii) (arg : option string).

Definition ParseOption (args : list string) : OptR :=
  match args with
  | [] => OptMissing
  | opt :: rest =>
      match opt with
      | String d (String c EmptyString) =>
          if eqc d "-"%char then Opt c (head rest) else OptUnknown
      | _ => OptUnknown
      end
  end.

(** [nssExecuteCommand]; [args] are the arguments after the program name.  The option
    characters [0x01] and [0x02] are what [ParseOption] returns for its errors. *)
Definition nssExecuteCommand (args : list string) : MN Z :=
  match ParseOption args with
  | OptMissing | OptUnknown => mret RET_SYNTAX
  | Opt c arg =>
      if eqc c "i"%char then
        match arg with
        | Some a => if (length args =? 2)%nat then nssInsertItem a else mret RET_SYNTAX
        | None => mret RET_SYNTAX
        end
      else if eqc c "r"%char then
        match arg with
        | Some a => if (length args =? 2)%nat then nssRemoveItem a else mret RET_SYNTAX
        | None => mret RET_SYNTAX
        end
      else if eqc c "d"%char then
        if (length args =? 1)%nat then nssDeleteDb else mret RET_SYNTAX
      else mret RET_SYNTAX
  end.
End main.

(** ** The database as a list of users *)

(** What the command promises: an ordered collection of users, at most one of which
    it has inserted per id. *)
Definition abs_remove (uid : Z) (us : list TsPassword) : list TsPassword :=
  filter (λ q, uId q ≠ uid) us.
Definition abs_insert (p : TsPassword) (us : list TsPassword) : list TsPassword :=
  abs_remove (uId p) us ++ [p].

Definition has_user (uid : Z) (us : list TsPassword) : bool := existsb (λ q, uid =? uId q) us.

(** The file holds the users [us]: its lines are accepted, and blank or about a user. *)
Definition holds (us : list TsPassword) (file : string) : Prop :=
  ∃ lines, file = text_of lines ∧ Forall good_line lines ∧ omap line_user lines = us.

Lemma users_without uid lines :
  omap line_user (without uid lines) = abs_remove uid (omap line_user lines).
Proof.
  induction lines as [|l ls IH]; [done|]. cbn [without]. unfold has_uid.
  destruct (line_user l) as [p|] eqn:E; cbn [omap list_omap]; rewrite ?E.
  - unfold abs_remove in *. rewrite filter_cons. destruct (Z.eqb_spec uid (uId p)) as [->|Hne].
    + rewrite decide_False by auto. apply IH.
    + rewrite decide_True by auto. cbn [omap list_omap]. rewrite E. f_equal. apply IH.
  - apply IH.
Qed.

Lemma has_user_lines uid lines :
  existsb (has_uid uid) lines = has_user uid (omap line_user lines).
Proof.
  induction lines as [|l ls IH]; [done|]. cbn. rewrite IH. unfold has_uid.
  by destruct (line_user l).
Qed.

Lemma good_without uid lines : Forall good_line lines → Forall good_line (without uid lines).
Proof. induction 1; cbn; [constructor|]. case_match; [done|by constructor]. Qed.

(** A user that can be stored: clean, and short enough for the buffer. *)
Definition storable (p : TsPassword) : Prop :=
  clean p = true ∧ (S (String.length (tuple p)) < MAX_UFDB_FILEBUFFER)%nat.

Lemma good_tuple p : storable p → good_line (tuple p) ∧ line_user (tuple p) = Some p.
Proof.
  intros [Hc Hn]. unfold good_line, line_user, nl. rewrite ParsingLine_tuple by done.
  repeat split; [by apply tuple_no_LF|by apply tuple_no_NUL|done|done].
Qed.

Lemma holds_inserted p lines :
  storable p → Forall good_line lines →
  holds (abs_insert p (omap line_user lines)) (text_of (inserted p lines)).
Proof.
  intros Hp Hl. destruct (good_tuple p Hp) as [Hg Hu]. exists (inserted p lines).
  split; [done|]. unfold inserted. split.
  - apply Forall_app. split; [by apply good_without|by constructor].
  - rewrite omap_app, users_without. cbn. by rewrite Hu.
Qed.

Lemma holds_without uid lines :
  Forall good_line lines →
  holds (abs_remove uid (omap line_user lines)) (text_of (without uid lines)).
Proof.
  intros Hl. exists (without uid lines). split; [done|].
  split; [by apply good_without|apply users_without].
Qed.

Section nss_spec.
Context `{E : Env} (Hst : steady) (Hwr : ∀ p, writable p) (pid : Z) (Hpid : ∀ t, answer t CGetpid = pid).
Context (Hlock : ∀ t, answer t (CLock STR_NSSDB_LOCKPATH) ≠ LockHeld).
Context (rp db cfg : string) (Hcfg : ParsingConfigFile cfg = Some (rp, db)).
Context (Htd : tmp_path pid db ≠ db) (Htw : tmp_path pid db ≠ work_path db).

Lemma db_not_empty : db ≠ EmptyString.
Proof.
  unfold ParsingConfigFile in Hcfg. destruct (config_lines _ _) as [[r w]|]; [|done].
  intros ->. by destruct w, r.
Qed.

(** What a command leaves behind: its work and temporary files are gone, and only the
    database has changed, to [file]. *)
Definition committed (fs : Files) (file : string) : Files :=
  <[db := file]> (delete (work_path db) (delete (tmp_path pid db) fs)).

(** A command that turns the lines of the work file into [x] commits [x]. *)
Lemma with_db_spec op x z lines t fs h :
  fs !! STR_CONFIG_FILEPATH = Some cfg →
  default EmptyString (fs !! db) = text_of lines →
  (∀ t fs1 e (Q : outcome Z → Proc TDbHandler → Prop),
    fs1 !! work_path db = Some (text_of lines) → fs1 !! tmp_path pid db = Some EmptyString →
    (∀ t' c n m e',
      Q (Val z) (mkProc t' (<[tmp_path pid db := c]> (<[work_path db := x]> fs1))
        (opened pid rp db n m true e'))) →
    wp op Q (mkProc t fs1 (opened pid rp db 0 0 true e))) →
  wp (with_db op) (valQ (λ r s, r = z ∧ p_fs s = committed fs x)) (mkProc t fs h).
Proof.
  intros Hf Hl Hop. pose proof db_not_empty as Hne. unfold with_db. db_auto.
  eapply (OpenDbInstance_spec Hst pid Hpid rp db); [done..|].
  intros t1 e. rewrite Hl. db_auto. apply Hop.
  { by rewrite lookup_insert_ne, lookup_insert_eq by done. }
  { by rewrite lookup_insert_eq. }
  intros t2 c n m e'. db_auto.
  eapply (CloseDbInstance_spec Hst pid Hpid rp db Htw x).
  { by rewrite lookup_insert_ne, lookup_insert_eq by done. }
  intros t3. db_auto. split; [done|]. cbn [p_fs]. unfold committed. f_equal.
  apply map_eq. intros k.
  destruct (decide (k = work_path db)) as [->|]; [by rewrite !lookup_delete_eq|].
  rewrite !(lookup_delete_ne _ (work_path db)) by done.
  destruct (decide (k = tmp_path pid db)) as [->|]; [by rewrite !lookup_delete_eq|].
  rewrite !(lookup_delete_ne _ (tmp_path pid db)) by done.
  by rewrite !lookup_insert_ne by done.
Qed.

Lemma nssInsertItem_spec arg p lines t fs h :
  fs !! STR_CONFIG_FILEPATH = Some cfg →
  default EmptyString (fs !! db) = text_of lines → Forall good_line lines →
  all_digits arg = true →
  (∀ t, ∃ used, answer t (CLdap (u32 (atoi arg)) LDAP_BUFLEN) = mkLdapR NSS_STATUS_SUCCESS p used
    ∧ ∀ t', used ≤ if answer t' CSysconf <? 0 then 1024 else answer t' CSysconf) →
  wp (nssInsertItem arg) (valQ (λ r s, r = RET_SUCCESS
    ∧ p_fs s = committed fs (text_of (inserted (CopyPasswd p) lines)))) (mkProc t fs h).
Proof.
  intros Hf Hl Hg Ha Hldap. unfold nssInsertItem, Initialize, ldapGetPwUid. rewrite Ha.
  db_auto. subst.
  match goal with |- context [answer ?t1 (CLdap _ _)] => destruct (Hldap t1) as (used & -> & Hsize) end.
  cbn [ld_used ld_status ld_pwd].
  match goal with
  | |- context [answer ?t1 CSysconf] => specialize (Hsize t1); destruct (Z.ltb_spec
      (if answer t1 CSysconf <? 0 then 1024 else answer t1 CSysconf) used); [lia|]
  end.
  db_auto. apply (with_db_spec _ _ _ lines); [done..|]. intros t1 fs1 e Q Hw Ht HQ. db_auto.
  eapply (InsertItemInDb_spec Hst pid rp db Htw (Hwr _)); [done..|]. intros t2 n. db_auto. apply HQ.
Qed.

Lemma nssRemoveItem_spec arg lines t fs h :
  fs !! STR_CONFIG_FILEPATH = Some cfg →
  default EmptyString (fs !! db) = text_of lines → Forall good_line lines →
  all_digits arg = true →
  let us := omap line_user lines in let uid := u32 (atoi arg) in
  wp (nssRemoveItem arg) (valQ (λ r s,
    r = (if has_user uid us then RET_SUCCESS else ERR_NOTFOUND)
    ∧ p_fs s = committed fs (text_of (without uid lines)))) (mkProc t fs h).
Proof.
  intros Hf Hl Hg Ha us uid. unfold nssRemoveItem. rewrite Ha. db_auto.
  apply (with_db_spec _ _ _ lines); [done..|]. intros t1 fs1 e Q Hw Ht HQ. db_auto.
  eapply (RemoveItemInDb_spec Hst pid rp db Htw (Hwr _)); [done..|]. intros t2 n m c. db_auto.
  specialize (HQ t2 c n m). rewrite has_user_lines. unfold us, uid in *.
  destruct (has_user _ _); db_auto; apply HQ.
Qed.

Lemma nssDeleteDb_spec lines t fs h :
  fs !! STR_CONFIG_FILEPATH = Some cfg →
  default EmptyString (fs !! db) = text_of lines →
  wp nssDeleteDb (valQ (λ r s, r = RET_SUCCESS ∧ p_fs s = committed fs EmptyString)) (mkProc t fs h).
Proof.
  intros Hf Hl. unfold nssDeleteDb. apply (with_db_spec _ _ _ lines); [done..|].
  intros t1 fs1 e Q Hw Ht HQ. db_auto. apply (ClearDatabase_spec Hst). intros t2. db_auto.
  specialize (HQ t2 EmptyString 0%nat 0%nat errDbOk).
  rewrite insert_insert_ne, (insert_id fs1) in HQ by done. apply HQ.
Qed.
End nss_spec.

(** ** Refinement *)

(** The commands, with what each does to the collection of users and what it returns;
    [ldap] is the directory. *)
Inductive Cmd : Set := CmdInsert (arg : string) | CmdRemove (arg : string) | CmdDelete.

Definition cmd_args (c : Cmd) : list string :=
  match c with
  | CmdInsert a => ["-i"; a]
  | CmdRemove a => ["-r"; a]
  | CmdDelete => ["-d"]
  end%string.

Definition cmd_valid (c : Cmd) : bool :=
  match c with CmdInsert a | CmdRemove a => all_digits a | CmdDelete => true end.

Definition abs_cmd (ldap : Z → PasswdT) (c : Cmd) (us : list TsPassword) : Z * list TsPassword :=
  match c with
  | CmdInsert a => (RET_SUCCESS, abs_insert (CopyPasswd (ldap (u32 (atoi a)))) us)
  | CmdRemove a =>
      let uid := u32 (atoi a) in
      (if has_user uid us then RET_SUCCESS else ERR_NOTFOUND, abs_remove uid us)
  | CmdDelete => (RET_SUCCESS, [])
  end.

(** A node on which the command can work: no file operation fails, the database is
    not locked, and the directory answers within the buffer. *)
Record node_ok `{Env} (pid : Z) (ldap : Z → PasswdT) (fs : Files) (rp db : string) : Prop := {
  ok_steady : steady;
  ok_writable : ∀ p, writable p;
  ok_pid : ∀ t, answer t CGetpid = pid;
  ok_lock : ∀ t, answer t (CLock STR_NSSDB_LOCKPATH) ≠ LockHeld;
  ok_ldap : ∀ t uid, ∃ used, answer t (CLdap uid LDAP_BUFLEN) = mkLdapR NSS_STATUS_SUCCESS (ldap uid) used
    ∧ ∀ t', used ≤ if answer t' CSysconf <? 0 then 1024 else answer t' CSysconf;
  ok_storable : ∀ uid, storable (CopyPasswd (ldap uid));
  ok_config : ∃ cfg, fs !! STR_CONFIG_FILEPATH = Some cfg ∧ ParsingConfigFile cfg = Some (rp, db);
  ok_tmp : tmp_path pid db ≠ db ∧ tmp_path pid db ≠ work_path db
}.

(** C7: The command implements its specification: started on a database that holds
    the users [us], it returns the code and leaves a database that holds the users
    the specification says, removes its work and temporary files, and touches no
    other file. *)
Theorem nss_refines `{E : Env} pid ldap fs rp db us c t h :
  node_ok pid ldap fs rp db → holds us (default EmptyString (fs !! db)) → cmd_valid c = true →
  wp (nssExecuteCommand (cmd_args c)) (valQ (λ r s,
    r = (abs_cmd ldap c us).1 ∧
    ∃ file, p_fs s = committed pid db fs file ∧ holds (abs_cmd ldap c us).2 file))
    (mkProc t fs h).
Proof.
  intros [Hst Hwr Hpid Hlock Hldap Hsto (cfg & Hf & Hcfg) [Htd Htw]] (lines & Hl & Hg & <-) Hc.
  destruct c as [a|a|]; cbn in Hc |- *; (eapply wp_valQ_mono;
    [ by apply (nssInsertItem_spec Hst Hwr pid Hpid Hlock rp db cfg)
        || by apply (nssRemoveItem_spec Hst Hwr pid Hpid Hlock rp db cfg)
        || by apply (nssDeleteDb_spec Hst Hwr pid Hpid Hlock rp db cfg) with (lines := lines)
    | intros r s [-> ->]; split; [done|]; eexists; split; [done|] ]).
  - by apply holds_inserted.
  - by apply holds_without.
  - by exists [].
Qed.

(** A node with one user in its database. *)
Definition ex_user (uid : Z) : PasswdT := mkPasswd "u" "x" 5 100 EmptyString "/h" "/bin/sh".
Definition ex_env : Env := {|
  answer := λ _ c, match c with
    | CLdap uid _ => mkLdapR NSS_STATUS_SUCCESS (ex_user uid) 20
    | c => dflt c
    end |}.
Definition ex_conf : string := text_of ["R_FILE=/d"; "W_FILE = /db"]%string.
Definition ex_files : Files :=
  {[STR_CONFIG_FILEPATH := ex_conf; "/db"%string := text_of ["a:x:3:4:::"; EmptyString]%string]}.
Definition ex_us : list TsPassword := [mkTs 3 4 "a" "x" EmptyString EmptyString EmptyString].

Lemma nss_refines_witness :
  wp (nssExecuteCommand (E:=ex_env) ["-i"; "5"]%string) (valQ (λ r s,
    r = RET_SUCCESS ∧ ∃ file, p_fs s = committed 100 "/db" ex_files file
      ∧ holds (ex_us ++ [CopyPasswd (ex_user 5)]) file)) (mkProc [] ex_files newDbHandler).
Proof.
  apply (nss_refines (E:=ex_env) 100 ex_user ex_files "/d" "/db" ex_us (CmdInsert "5")).
  - split; try done.
    + intros t uid. exists 20. split; [done|]. intros t'. vm_compute. done.
    + intros uid. split; [vm_compute; reflexivity|]. vm_compute. lia.
    + exists ex_conf. split; vm_compute; reflexivity.
  - exists ["a:x:3:4:::"; EmptyString]%string. split; [vm_compute; reflexivity|]. split.
    + repeat constructor; vm_compute; try done; lia.
    + vm_compute. reflexivity.
  - vm_compute. reflexivity.
Defined.
