(* ===== verification/NssFbs.v ===== *)
(** * The name service module [libnss_fbs]

    [nss_fbs.c]: the lookups of [passwd] the C library makes in the database that
    [nss_ufbs] writes.  The static variables of the module are its memory.  The lines
    are parsed by [fgetpwent_r] of the C library, whose behaviour is written out
    here. *)

From S2P Require Import Prelude World Proc CString NssText.

Open Scope Z_scope.

Definition NSS_FBS_CONFIG_FILEPATH : string := "/opt/ap/apos/conf/fbs.conf".
Definition PASSWD_FILE_PARAM_NAME : string := "R_FILE".
Definition LINEBUF : nat := Z.to_nat 1024.

(** The values of [last_op]. *)
Inductive Op : Set := no_op | getent_op | getby_op.

#[export] Instance Op_eq_dec : EqDecision Op.
Proof. solve_decision. Defined.

#[export] Instance nss_status_eq_dec : EqDecision nss_status.
Proof. solve_decision. Defined.

Record FbsT : Set := mkFbs {
  passwd_filepath : string;
  passwd_stream : option FILE;
  passwd_position : nat;
  last_op : Op
}.

Definition newFbs : FbsT := mkFbs EmptyString None 0 no_op.

Definition set_filepath (p : string) (m : FbsT) : FbsT :=
  mkFbs p (passwd_stream m) (passwd_position m) (last_op m).
Definition set_stream (f : option FILE) (m : FbsT) : FbsT :=
  mkFbs (passwd_filepath m) f (passwd_position m) (last_op m).
Definition set_position (n : nat) (m : FbsT) : FbsT :=
  mkFbs (passwd_filepath m) (passwd_stream m) n (last_op m).
Definition set_op (o : Op) (m : FbsT) : FbsT :=
  mkFbs (passwd_filepath m) (passwd_stream m) (passwd_position m) o.

Abbreviation MF := (M (Proc FbsT)).

(** ** [fgetpwent_r] *)

(** A field up to a colon or the end of the line, and what follows. *)
Definition str_field (s : string) : string * string :=
  match strchr s COLON with Some (f, r) => (f, r) | None => (s, EmptyString) end.

Fixpoint skip_digits (s : string) : string :=
  match s with
  | String c r => if is_digit c then skip_digits r else s
  | EmptyString => EmptyString
  end.

(** A number that ends at a colon or the end of the line; a value of more than 32 bits
    is read as [0xffffffff]. *)
Definition int_field (s : string) : option (Z * string) :=
  let '(_, r) := sign (skip_space s) in
  match r with
  | String c _ =>
      if is_digit c then
        match skip_digits r with
        | EmptyString => Some (Z.min (strtoul10 s) (2 ^ 32 - 1), EmptyString)
        | String e rest =>
            if eqc e COLON then Some (Z.min (strtoul10 s) (2 ^ 32 - 1), rest) else None
        end
      else None
  | EmptyString => None
  end.

(** The same where the field may be empty, which is read as 0. *)
Definition int_field_maybe (s : string) : option (Z * string) :=
  match s with
  | EmptyString => None
  | String c r => if eqc c COLON then Some (0, r) else int_field s
  end.

Definition compat_name (name : string) : bool :=
  match name with
  | String c _ => eqc c "+"%char || eqc c "-"%char
  | EmptyString => false
  end.

(** A line without its newline; a name that starts with a plus or a minus has its own
    rules. *)
Definition parse_pwent (line : string) : option PasswdT :=
  let '(name, r) := str_field line in
  let compat := compat_name name in
  if compat && match r with EmptyString => true | _ => false end
  then Some (mkPasswd name EmptyString 0 0 EmptyString EmptyString EmptyString) else
  let '(passwd, r) := str_field r in
  let num := if compat then int_field_maybe else int_field in
  match num r with
  | None => None
  | Some (uid, r) =>
      match num r with
      | None => None
      | Some (gid, r) =>
          let '(gecos, r) := str_field r in
          let '(dir, shell) := str_field r in
          Some (mkPasswd name passwd uid gid gecos dir shell)
      end
  end.

(** What a buffer filled by [fgets] holds: the leading white space is skipped, and
    blank lines, comments and lines that do not parse have no entry. *)
Definition buffer_entry (b : string) : option PasswdT :=
  let line := skip_space (c_str b) in
  let line := match strchr line LF with Some (l, _) => l | None => line end in
  match line with
  | EmptyString => None
  | String c _ => if eqc c "#"%char then None else parse_pwent line
  end.

Inductive PwentR : Set := PwEntry (p : PasswdT) | PwRange | PwEnd.

(** Over the buffers that are left; [pos] is the position of the first.  A line that
    fills the buffer does not fit. *)
Fixpoint next_entry (buflen : nat) (bs : list string) (pos : nat) : PwentR * nat :=
  match bs with
  | [] => (PwEnd, pos)
  | b :: bs =>
      if (pred buflen <=? String.length b)%nat then (PwRange, pos) else
      match buffer_entry b with
      | Some p => (PwEntry p, (pos + String.length b)%nat)
      | None => next_entry buflen bs (pos + String.length b)%nat
      end
  end.

(** ** Configuration *)

Definition isblank (c : ascii) : bool := eqc c SP || eqc c TAB.

(** The value with the blanks at its end trimmed. *)
Definition trim_blanks (v : string) : string :=
  match find_last_not_of isblank v with Some n => take (S n) v | None => take 1 v end.

(** One line: [None] where it sets nothing, the value of [R_FILE] otherwise. *)
Definition rfile_line (linebuf : string) : option string :=
  let p := skip_blanks (c_str linebuf) in
  if String.prefix PASSWD_FILE_PARAM_NAME p then
    match skip_blanks (drop (String.length PASSWD_FILE_PARAM_NAME) p) with
    | String e q =>
        if negb (eqc e "="%char) then None else
        match strchr (skip_blanks q) LF with
        | None | Some (EmptyString, _) => None
        | Some (v, _) => Some (trim_blanks v)
        end
    | EmptyString => None
    end
  else None.

(** The loop: what it returns, and the path; the last line that sets it wins. *)
Fixpoint rfile_lines (lines : list string) (path : string) : Z * string :=
  match lines with
  | [] => (0, path)
  | l :: ls =>
      match rfile_line l with
      | None => rfile_lines ls path
      | Some v =>
          if (LINEBUF - 1 <? String.length v)%nat then (-1, path) else rfile_lines ls v
      end
  end.

Section fbs.
Context `{E : Env}.

Definition get_passwd_filepath (force_read : bool) : MF Z :=
  path ← mem passwd_filepath;
  if negb (streq path EmptyString) && negb force_read then mret 0 else
  o ← fopen NSS_FBS_CONFIG_FILEPATH MR;
  match o with
  | None => mret (-1)
  | Some f =>
      file ← unread f;
      let '(retval, path) := rfile_lines (fgets_lines LINEBUF file) path in
      upd (set_filepath path);;
      read ← req (CFileOp "fgets");
      _ ← fclose f;
      mret (if (read : bool) then retval else -1)
  end.

Definition fgetpwent_r (f : FILE) (buflen : nat) : MF (PwentR * FILE) :=
  rest ← unread f;
  let '(r, pos) := if (buflen <? 3)%nat then (PwRange, f_pos f)
                   else next_entry buflen (fgets_lines buflen rest) (f_pos f) in
  mret (r, mkFILE (f_path f) pos).

(** [init_passwd_database]: opening for appending creates a missing file. *)
Definition init_passwd_database : MF nss_status :=
  s ← mem passwd_stream;
  match s with
  | Some f => upd (set_stream (Some (mkFILE (f_path f) 0)));; mret NSS_STATUS_SUCCESS
  | None =>
      path ← mem passwd_filepath;
      (if streq path EmptyString then _ ← get_passwd_filepath false; mret tt else mret tt);;
      path ← mem passwd_filepath;
      o ← fopen path MAplus;
      upd (set_stream o);;
      match o with
      | Some _ => mret NSS_STATUS_SUCCESS
      | None =>
          again ← req (CFileOp "errno == EAGAIN");
          mret (if (again : bool) then NSS_STATUS_TRYAGAIN else NSS_STATUS_UNAVAIL)
      end
  end.

Definition close_passwd_database : MF unit :=
  s ← mem passwd_stream;
  match s with
  | Some f => _ ← fclose f; upd (set_stream None)
  | None => mret tt
  end.

(** [getent_from_passwd]; the stream is open whenever it is called. *)
Definition getent_from_passwd (buflen : nat) : MF (nss_status * option PasswdT) :=
  s ← mem passwd_stream; f ← deref s;
  '(r, f) ← fgetpwent_r f buflen;
  upd (set_stream (Some f));;
  mret (match r with
        | PwEntry p => (NSS_STATUS_SUCCESS, Some p)
        | PwRange => (NSS_STATUS_TRYAGAIN, None)
        | PwEnd => (NSS_STATUS_NOTFOUND, None)
        end).

(** [fgetpos] on the stream, after it was opened; where it fails the stream is closed. *)
Definition save_position (status : nss_status) : MF nss_status :=
  if bool_decide (status = NSS_STATUS_SUCCESS) then
    s ← mem passwd_stream; f ← deref s;
    ok ← req (CFileOp "fgetpos");
    if (ok : bool) then upd (set_position (f_pos f));; mret NSS_STATUS_SUCCESS
    else _ ← fclose f; upd (set_stream None);; mret NSS_STATUS_UNAVAIL
  else mret status.

Definition _nss_fbs_setpwent : MF nss_status :=
  status ← init_passwd_database;
  status ← save_position status;
  upd (set_op getent_op);;
  mret status.

Definition _nss_fbs_endpwent : MF nss_status :=
  close_passwd_database;;
  mret NSS_STATUS_SUCCESS.

Definition _nss_fbs_getpwent_r (buflen : nat) : MF (nss_status * option PasswdT) :=
  s ← mem passwd_stream;
  status ← (match s with
            | None => status ← init_passwd_database; save_position status
            | Some _ => mret NSS_STATUS_SUCCESS
            end);
  if negb (bool_decide (status = NSS_STATUS_SUCCESS)) then mret (status, None) else
  op ← mem last_op;
  status ←
    (if bool_decide (op = getent_op) then mret NSS_STATUS_SUCCESS else
     ok ← req (CFileOp "fsetpos");
     if negb ok then mret NSS_STATUS_UNAVAIL else
     s ← mem passwd_stream; f ← deref s;
     pos ← mem passwd_position;
     upd (set_stream (Some (mkFILE (f_path f) pos)));;
     upd (set_op getent_op);;
     mret NSS_STATUS_SUCCESS);
  if negb (bool_decide (status = NSS_STATUS_SUCCESS)) then mret (status, None) else
  '(status, p) ← getent_from_passwd buflen;
  (if bool_decide (status = NSS_STATUS_SUCCESS) then
     s ← mem passwd_stream; f ← deref s;
     ok ← req (CFileOp "fgetpos");
     if (ok : bool) then upd (set_position (f_pos f)) else mret tt
   else upd (set_op no_op));;
  mret (status, p).

(** The loop of the lookups: entries are read until one fits or the reading ends.
    Every entry takes at least one byte of the file, so its length bounds the rounds. *)
Fixpoint scan (fuel : nat) (fits : PasswdT → bool) (buflen : nat) : MF (nss_status * option PasswdT) :=
  match fuel with
  | O => nofuel
  | S fuel =>
      '(status, o) ← getent_from_passwd buflen;
      match o with
      | Some p => if fits p then mret (status, Some p) else scan fuel fits buflen
      | None => mret (status, None)
      end
  end.

(** What [_nss_fbs_getpwnam_r] and [_nss_fbs_getpwuid_r] have in common. *)
Definition getby (fits : PasswdT → bool) (buflen : nat) : MF (nss_status * option PasswdT) :=
  status ← init_passwd_database;
  if negb (bool_decide (status = NSS_STATUS_SUCCESS)) then mret (status, None) else
  upd (set_op getby_op);;
  s ← mem passwd_stream; f ← deref s;
  file ← unread f;
  r ← scan (S (String.length file)) fits buflen;
  close_passwd_database;;
  mret r.

Definition fits_name (name : string) (p : PasswdT) : bool :=
  negb (compat_name name) && streq name (pw_name p).
Definition fits_uid (uid : Z) (p : PasswdT) : bool :=
  (pw_uid p =? uid) && negb (compat_name (pw_name p)).

Definition _nss_fbs_getpwnam_r (name : string) (buflen : nat) : MF (nss_status * option PasswdT) :=
  getby (fits_name name) buflen.
Definition _nss_fbs_getpwuid_r (uid : Z) (buflen : nat) : MF (nss_status * option PasswdT) :=
  getby (fits_uid uid) buflen.
End fbs.

(** ** The lines [nss_ufbs] writes *)

Definition pw_of (p : TsPassword) : PasswdT :=
  mkPasswd (strName p) (strPasswd p) (uId p) (uGid p) (strGecos p) (strDir p) (strShell p).

(** A name the C library does not take for a comment or a compatibility entry. *)
Definition plain_name (name : string) : bool :=
  negb (compat_name name)
  && match name with String c _ => negb (eqc c "#"%char) | EmptyString => true end.

Lemma str_field_colon a b : clean_field a = true → str_field (colon a b) = (a, b).
Proof. intros (Ha & _)%clean_field_spec. unfold str_field, colon. by rewrite strchr_first. Qed.

Lemma str_field_end a : all_chars (no COLON) a = true → str_field a = (a, EmptyString).
Proof. intros Ha. unfold str_field. by rewrite strchr_None. Qed.

Lemma digits_colon a acc r :
  all_chars is_digit a = true → digits 10 acc (colon a r) = digits 10 acc a.
Proof.
  unfold colon. revert acc; induction a as [|c a IH]; intros acc Ha; [done|].
  rewrite append_cons. cbn [digits]. simpl in Ha. apply andb_true_iff in Ha as [Hc Ha].
  unfold is_digit in Hc. destruct (digit_val c) as [d|]; [|done]. rewrite Hc. by apply IH.
Qed.

Lemma skip_digits_colon a r :
  all_chars is_digit a = true → skip_digits (colon a r) = String COLON r.
Proof.
  unfold colon. induction a as [|c a IH]; intros Ha; [done|]. rewrite append_cons. cbn [skip_digits].
  simpl in Ha. apply andb_true_iff in Ha as [-> Ha]. by apply IH.
Qed.

Lemma int_field_dec z r : 0 ≤ z < 2 ^ 32 → int_field (colon (dec z) r) = Some (z, r).
Proof.
  intros Hz. pose proof (dec_digits z) as Hd. destruct (dec_head z) as (c & s & Hc & Hcd).
  assert (Hs : sign (skip_space (colon (dec z) r)) = (false, colon (dec z) r)).
  { unfold colon. destruct (dec_unsigned z (String COLON r)) as [-> ->]. done. }
  assert (Hv : strtoul10 (colon (dec z) r) = z).
  { unfold strtoul10. rewrite Hs, digits_colon, digits_dec by (done || lia).
    by destruct (Z.leb_spec (2 ^ 64) z); [lia|]. }
  unfold int_field. rewrite Hs, Hv, skip_digits_colon by done.
  rewrite Hc. unfold colon. rewrite append_cons, Hcd, eqc_refl. do 2 f_equal. lia.
Qed.

Lemma skip_space_TrimLeft s : TrimLeft s = s → skip_space s = s.
Proof.
  intros [->|H]%TrimLeft_shape; [done|]. destruct s as [|c s]; [done|]. cbn in *.
  destruct (isspace c); [by destruct (find_first_not_of isspace s)|done].
Qed.

Lemma parse_tuple p :
  clean p = true → plain_name (strName p) = true → parse_pwent (tuple p) = Some (pw_of p).
Proof.
  intros (H1 & H2 & H3 & H4 & H5 & Hu & Hg)%clean_spec [Hn _]%andb_true_iff.
  apply negb_true_iff in Hn. unfold parse_pwent, tuple. rewrite str_field_colon, Hn by done.
  cbn [andb]. rewrite str_field_colon, !int_field_dec, !str_field_colon by done. done.
Qed.

(** The line of a user is read as that user. *)
Lemma buffer_tuple p :
  clean p = true → plain_name (strName p) = true →
  buffer_entry (String.append (tuple p) (String LF EmptyString)) = Some (pw_of p).
Proof.
  intros Hc Hn. pose proof (parse_tuple p Hc Hn) as Hp. unfold buffer_entry.
  rewrite c_str_id by (by rewrite all_chars_append, tuple_no_NUL).
  assert (Hl : TrimLeft (tuple p) = tuple p).
  { apply TrimLeft_colon. by apply clean_spec, proj1, clean_field_spec in Hc as (_ & _ & _ & ? & _). }
  assert (skip_space (String.append (tuple p) (String LF EmptyString))
    = String.append (tuple p) (String LF EmptyString)) as ->.
  { unfold tuple in *. rewrite colon_append. apply skip_space_TrimLeft, TrimLeft_colon.
    by apply clean_spec, proj1, clean_field_spec in Hc as (_ & _ & _ & ? & _). }
  rewrite strchr_first by (by apply tuple_no_LF).
  destruct (tuple p) as [|c s] eqn:E; [unfold tuple, colon in E; by destruct (strName p)|].
  assert (eqc c "#"%char = false) as ->; [|done].
  apply andb_true_iff in Hn as [_ Hn]. unfold tuple, colon in E.
  destruct (strName p) as [|a n]; [by injection E as <- _|].
  rewrite append_cons in E. injection E as -> _. by apply negb_true_iff in Hn.
Qed.

(** ** Entries of a file *)

(** A line that fits in the caller's buffer, and the entries of a list of lines. *)
Definition fits_buffer (buflen : nat) (l : string) : Prop :=
  all_chars (no LF) l = true ∧ (S (String.length l) < pred buflen)%nat.
Definition entries (lines : list string) : list PasswdT := omap (buffer_entry ∘ nl) lines.

Lemma fits_pieces buflen lines :
  Forall (fits_buffer buflen) lines → fgets_lines buflen (text_of lines) = nl <$> lines.
Proof.
  intros H. apply fgets_lines_text. eapply Forall_impl; [exact H|]. intros l [? ?]. split; [done|lia].
Qed.

(** Reading on from a line boundary: the next entry, and the boundary after it. *)
Lemma next_entry_lines buflen lines pos :
  Forall (fits_buffer buflen) lines →
  match entries lines with
  | [] => next_entry buflen (nl <$> lines) pos = (PwEnd, (pos + String.length (text_of lines))%nat)
  | p :: ps => ∃ l1 l2, lines = l1 ++ l2 ∧ entries l2 = ps ∧
      next_entry buflen (nl <$> lines) pos = (PwEntry p, (pos + String.length (text_of l1))%nat)
  end.
Proof.
  intros H. revert pos. induction H as [|l ls [_ Hn] _ IH]; intros pos.
  { cbn. by rewrite Nat.add_0_r. }
  assert (Hlen : String.length (nl l) = S (String.length l))
    by (unfold nl; rewrite length_append; simpl; lia).
  assert (Hlt : (pred buflen <=? String.length (nl l))%nat = false) by (apply Nat.leb_gt; lia).
  assert (Htext : ∀ k, String.length (text_of (l :: k)) = (String.length (nl l) + String.length (text_of k))%nat).
  { intros k. cbn [text_of]. rewrite Hlen, length_append. simpl. lia. }
  unfold entries. cbn [omap list_omap compose next_entry fmap list_fmap]. rewrite Hlt.
  change (omap (buffer_entry ∘ nl) ls) with (entries ls).
  destruct (buffer_entry (nl l)) as [p|] eqn:Ep.
  - exists [l], ls. split; [done|]. split; [done|]. rewrite (Htext []). cbn [text_of String.length].
    by rewrite Nat.add_0_r.
  - specialize (IH (pos + String.length (nl l))%nat). destruct (entries ls) as [|p ps].
    + rewrite IH, (Htext ls). f_equal. lia.
    + destruct IH as (l1 & l2 & -> & He & Hr). exists (l :: l1), l2. split; [done|]. split; [done|].
      rewrite Hr, (Htext l1). f_equal. lia.
Qed.

Lemma entries_length lines : (length (entries lines) ≤ String.length (text_of lines))%nat.
Proof.
  induction lines as [|l ls IH]; [simpl; lia|]. cbn [text_of]. rewrite length_append.
  unfold entries in *. cbn [omap list_omap String.length]. case_match; simpl; lia.
Qed.

Ltac fbs_simpl :=
  cbn [thenQ negb compose f_path f_pos p_mem p_fs p_trace
       passwd_filepath passwd_stream passwd_position last_op
       set_filepath set_stream set_position set_op].
Ltac fbs_prim :=
  lazymatch goal with
  | H : steady |- wp (req (CFileOp _)) _ _ => apply (wp_fileop H); intros ?
  | H : steady |- wp (fclose _) _ _ => apply (wp_fclose H); intros ?
  | |- _ => pw_prim
  end.
Ltac fbs_auto := fbs_simpl; repeat (fbs_prim; fbs_simpl).

(** The position after the lines [l1]. *)
Definition at_line (path : string) (l1 : list string) : FILE :=
  mkFILE path (String.length (text_of l1)).

Section fbs_spec.
Context `{E : Env} (Hst : steady) (path : string) (Hpath : path ≠ EmptyString).
Context (buflen : nat) (Hbuf : (3 ≤ buflen)%nat).

(** One read at a line boundary. *)
Lemma getent_spec l1 l2 q pos op (Q : outcome (nss_status * option PasswdT) → Proc FbsT → Prop) t fs :
  fs !! path = Some (text_of (l1 ++ l2)) → Forall (fits_buffer buflen) l2 →
  match entries l2 with
  | [] => Q (Val (NSS_STATUS_NOTFOUND, None))
            (mkProc t fs (mkFbs q (Some (at_line path (l1 ++ l2))) pos op))
  | p :: ps => ∀ l3 l4, l2 = l3 ++ l4 → entries l4 = ps →
      Q (Val (NSS_STATUS_SUCCESS, Some p))
        (mkProc t fs (mkFbs q (Some (at_line path (l1 ++ l3))) pos op))
  end →
  wp (getent_from_passwd buflen) Q (mkProc t fs (mkFbs q (Some (at_line path l1)) pos op)).
Proof.
  intros Hf Hl HQ. unfold getent_from_passwd, fgetpwent_r. fbs_auto.
  apply (wp_unread _ (text_of (l1 ++ l2))); [done|]. fbs_auto.
  change (f_pos (at_line path l1)) with (String.length (text_of l1)).
  rewrite text_of_app, drop_append, fits_pieces by done.
  destruct (Nat.ltb_spec buflen 3); [lia|].
  pose proof (next_entry_lines buflen l2 (String.length (text_of l1)) Hl) as Hn.
  destruct (entries l2) as [|p ps].
  - rewrite Hn. fbs_auto. unfold at_line in *. cbn [f_pos f_path] in *.
    by rewrite text_of_app, length_append in HQ.
  - destruct Hn as (l3 & l4 & -> & He & ->). fbs_auto. specialize (HQ l3 l4 eq_refl He).
    unfold at_line in *. cbn [f_pos f_path] in *. by rewrite text_of_app, length_append in HQ.
Qed.

(** The loop finds the first entry that fits, and ends. *)
Lemma scan_spec fuel fits l1 l2 q pos op
    (Q : outcome (nss_status * option PasswdT) → Proc FbsT → Prop) t fs :
  (length (entries l2) < fuel)%nat →
  fs !! path = Some (text_of (l1 ++ l2)) → Forall (fits_buffer buflen) l2 →
  (∀ f, Q (Val (match find fits (entries l2) with
                | Some p => (NSS_STATUS_SUCCESS, Some p)
                | None => (NSS_STATUS_NOTFOUND, None)
                end)) (mkProc t fs (mkFbs q (Some f) pos op))) →
  wp (scan fuel fits buflen) Q (mkProc t fs (mkFbs q (Some (at_line path l1)) pos op)).
Proof.
  revert l1 l2. induction fuel as [|fuel IH]; intros l1 l2 Hfuel Hf Hl HQ; [lia|].
  cbn [scan]. apply wp_bind, (getent_spec l1 l2); [done..|].
  destruct (entries l2) as [|p ps] eqn:Ee; [fbs_auto; apply HQ|].
  intros l3 l4 -> He. fbs_auto. cbn [find] in HQ. destruct (fits p); [fbs_auto; apply HQ|].
  apply (IH (l1 ++ l3) l4).
  - rewrite He. simpl in Hfuel. lia.
  - by rewrite <-app_assoc.
  - by apply Forall_app in Hl as [_ ?].
  - by rewrite He.
Qed.

Lemma close_spec q f pos op (Q : outcome unit → Proc FbsT → Prop) t fs :
  (∀ t', Q (Val tt) (mkProc t' fs (mkFbs q None pos op))) →
  wp close_passwd_database Q (mkProc t fs (mkFbs q (Some f) pos op)).
Proof. intros HQ. unfold close_passwd_database. fbs_auto. apply HQ. Qed.

(** Opening an existing database, whatever the state of the stream. *)
Lemma init_spec s pos op (Q : outcome nss_status → Proc FbsT → Prop) t fs c :
  (∀ f, s = Some f → f_path f = path) → fs !! path = Some c →
  (∀ t', Q (Val NSS_STATUS_SUCCESS) (mkProc t' fs (mkFbs path (Some (at_line path [])) pos op))) →
  wp init_passwd_database Q (mkProc t fs (mkFbs path s pos op)).
Proof.
  intros Hs Hc HQ. unfold init_passwd_database. fbs_auto. destruct s as [f|].
  - fbs_auto. rewrite (Hs f eq_refl). apply HQ.
  - fbs_auto. assert (streq path EmptyString = false) as -> by (by destruct path). fbs_auto.
    apply (wp_fopen_read Hst _ _ c); [auto|done|done|]. intros t'. fbs_auto. apply HQ.
Qed.

(** A lookup finds the first user that fits, changes no file, and closes the
    database. *)
Lemma getby_spec fits lines s pos op
    (Q : outcome (nss_status * option PasswdT) → Proc FbsT → Prop) t fs :
  (∀ f, s = Some f → f_path f = path) → fs !! path = Some (text_of lines) →
  Forall (fits_buffer buflen) lines →
  (∀ t', Q (Val (match find fits (entries lines) with
                 | Some p => (NSS_STATUS_SUCCESS, Some p)
                 | None => (NSS_STATUS_NOTFOUND, None)
                 end)) (mkProc t' fs (mkFbs path None pos getby_op))) →
  wp (getby fits buflen) Q (mkProc t fs (mkFbs path s pos op)).
Proof.
  intros Hs Hf Hl HQ. unfold getby. apply wp_bind, (init_spec _ _ _ _ _ _ (text_of lines)); [done..|].
  intros t1. fbs_auto. rewrite bool_decide_true by done. fbs_auto.
  apply (wp_unread _ (text_of lines)); [done|]. change (f_pos (at_line path [])) with 0%nat. cbn [drop].
  fbs_auto. apply (scan_spec _ _ [] lines); [|done..|].
  { pose proof (entries_length lines). lia. }
  intros f. fbs_auto. apply close_spec. intros t2. fbs_auto. apply HQ.
Qed.

(** ** Enumeration *)

(** The state between two calls of [getpwent]: the lines [l1] have been delivered.
    The stream may have been moved, but not after a successful call. *)
Definition between (l1 : list string) (m : FbsT) : Prop :=
  passwd_filepath m = path ∧ passwd_position m = String.length (text_of l1)
  ∧ ∃ f, passwd_stream m = Some f ∧ f_path f = path ∧ (last_op m = getent_op → f = at_line path l1).

Lemma getpwent_step l1 l2 m (Q : outcome (nss_status * option PasswdT) → Proc FbsT → Prop) t fs :
  between l1 m → fs !! path = Some (text_of (l1 ++ l2)) → Forall (fits_buffer buflen) l2 →
  match entries l2 with
  | [] => ∀ t' m', between l1 m' → Q (Val (NSS_STATUS_NOTFOUND, None)) (mkProc t' fs m')
  | p :: ps => ∀ t' m' l3 l4, l2 = l3 ++ l4 → entries l4 = ps → between (l1 ++ l3) m' →
      Q (Val (NSS_STATUS_SUCCESS, Some p)) (mkProc t' fs m')
  end →
  wp (_nss_fbs_getpwent_r buflen) Q (mkProc t fs m).
Proof.
  intros (Hp & Hpos & f & Hs & Hfp & Hop) Hf Hl HQ. destruct m as [q s pos op]. cbn in *. subst q s pos.
  assert (Hread : ∀ t1, wp ('(status, p) ← getent_from_passwd buflen;
    (if bool_decide (status = NSS_STATUS_SUCCESS) then
       s ← mem passwd_stream; f ← deref s; ok ← req (CFileOp "fgetpos");
       if (ok : bool) then upd (set_position (f_pos f)) else mret tt
     else upd (set_op no_op));; mret (status, p)) Q
    (mkProc t1 fs (mkFbs path (Some (at_line path l1)) (String.length (text_of l1)) getent_op))).
  { intros t1. apply wp_bind, (getent_spec l1 l2); [done..|]. destruct (entries l2) as [|p ps].
    - fbs_auto. rewrite bool_decide_false by done. fbs_auto. apply HQ. split; [done|]. split; [done|].
      by eexists.
    - intros l3 l4 H34 He. fbs_auto. rewrite bool_decide_true by done. fbs_auto.
      apply (HQ _ _ l3 l4); [done..|]. split; [done|]. split; [done|]. by eexists. }
  unfold _nss_fbs_getpwent_r. fbs_auto. rewrite bool_decide_true by done. fbs_auto.
  destruct op; cbn [bool_decide]; fbs_auto; rewrite ?bool_decide_true, ?bool_decide_false by done;
    fbs_auto; rewrite ?bool_decide_true by done; fbs_auto; rewrite ?Hfp; try apply wp_bind_inv, Hread.
  rewrite (Hop eq_refl). apply wp_bind_inv, Hread.
Qed.

(** [n] calls of [getpwent]. *)
Fixpoint enumerate (n : nat) : MF (list (nss_status * option PasswdT)) :=
  match n with
  | O => mret []
  | S n => r ← _nss_fbs_getpwent_r buflen; rs ← enumerate n; mret (r :: rs)
  end.

Definition nth_entry (es : list PasswdT) (i : nat) : nss_status * option PasswdT :=
  match es !! i with
  | Some p => (NSS_STATUS_SUCCESS, Some p)
  | None => (NSS_STATUS_NOTFOUND, None)
  end.

Lemma enumerate_spec n l1 l2 m t fs :
  between l1 m → fs !! path = Some (text_of (l1 ++ l2)) → Forall (fits_buffer buflen) l2 →
  wp (enumerate n) (valQ (λ rs s, rs = nth_entry (entries l2) <$> seq 0 n ∧ p_fs s = fs))
    (mkProc t fs m).
Proof.
  revert l1 l2 m t. induction n as [|n IH]; intros l1 l2 m t Hm Hf Hl; [done|].
  cbn [enumerate]. apply wp_bind, (getpwent_step l1 l2); [done..|].
  destruct (entries l2) as [|p ps] eqn:Ee.
  - intros t' m' Hm'. cbn [thenQ]. apply wp_valQ_bind.
    eapply wp_valQ_mono; [by apply (IH l1 l2)|]. intros rs s [-> Hs]. apply wp_ret. cbn [valQ].
    split; [|done]. rewrite Ee. cbn [seq fmap list_fmap]. f_equal. rewrite <-fmap_S_seq, <-list_fmap_compose.
    apply list_fmap_ext. done.
  - intros t' m' l3 l4 -> He Hm'. cbn [thenQ]. apply wp_valQ_bind.
    eapply wp_valQ_mono; [apply (IH (l1 ++ l3) l4); [done|by rewrite <-app_assoc|by apply Forall_app in Hl as [_ ?]]|].
    intros rs s [-> Hs]. apply wp_ret. cbn [valQ]. split; [|done]. rewrite He.
    cbn [seq fmap list_fmap]. f_equal. by rewrite <-fmap_S_seq, <-list_fmap_compose.
Qed.

(** With the stream closed, the next call starts over. *)
Lemma getpwent_closed pos op lines (Q : outcome (nss_status * option PasswdT) → Proc FbsT → Prop) t fs :
  fs !! path = Some (text_of lines) →
  (∀ t', wp (_nss_fbs_getpwent_r buflen) Q
    (mkProc t' fs (mkFbs path (Some (at_line path [])) 0 op))) →
  wp (_nss_fbs_getpwent_r buflen) Q (mkProc t fs (mkFbs path None pos op)).
Proof.
  intros Hf HQ. unfold _nss_fbs_getpwent_r at 1. fbs_auto.
  apply (init_spec _ _ _ _ _ _ (text_of lines)); [done..|]. intros t1. fbs_auto.
  unfold save_position. rewrite bool_decide_true by done. fbs_auto.
  match goal with |- context [mkProc ?t2 fs _] => exact (HQ t2) end.
Qed.

Lemma setpwent_spec s pos op lines (Q : outcome nss_status → Proc FbsT → Prop) t fs :
  (∀ f, s = Some f → f_path f = path) → fs !! path = Some (text_of lines) →
  (∀ t' m', between [] m' → Q (Val NSS_STATUS_SUCCESS) (mkProc t' fs m')) →
  wp _nss_fbs_setpwent Q (mkProc t fs (mkFbs path s pos op)).
Proof.
  intros Hs Hf HQ. unfold _nss_fbs_setpwent.
  apply wp_bind, (init_spec _ _ _ _ _ _ (text_of lines)); [done..|]. intros t1. fbs_auto.
  unfold save_position. rewrite bool_decide_true by done. fbs_auto. apply HQ.
  split; [done|]. split; [done|]. by eexists.
Qed.

(** C30: An enumeration is complete: after [setpwent], the successive calls of
    [getpwent] deliver the entries of the database in order, each once, and then
    report that there are no more; no file changes. *)
Theorem getpwent_enumerates n s pos op lines t fs :
  (∀ f, s = Some f → f_path f = path) → fs !! path = Some (text_of lines) →
  Forall (fits_buffer buflen) lines →
  wp (_ ← _nss_fbs_setpwent; enumerate n)
    (valQ (λ rs s', rs = nth_entry (entries lines) <$> seq 0 n ∧ p_fs s' = fs))
    (mkProc t fs (mkFbs path s pos op)).
Proof.
  intros Hs Hf Hl. apply wp_bind, (setpwent_spec _ _ _ lines); [done..|]. intros t1 m Hm.
  cbn [thenQ]. by apply (enumerate_spec n []).
Qed.

(** [n] rounds of a program that looks up a user by name for each entry it is given. *)
Fixpoint rounds (n : nat) (name : string) : MF (list (nss_status * option PasswdT)) :=
  match n with
  | O => mret []
  | S n =>
      r ← _nss_fbs_getpwent_r buflen;
      _ ← _nss_fbs_getpwnam_r name buflen;
      rs ← rounds n name;
      mret (r :: rs)
  end.

Lemma rounds_spec n name lines m t fs :
  between [] m ∨ (∃ pos op, m = mkFbs path None pos op) →
  fs !! path = Some (text_of lines) → Forall (fits_buffer buflen) lines →
  wp (rounds n name) (valQ (λ rs _, rs = replicate n (nth_entry (entries lines) 0))) (mkProc t fs m).
Proof.
  intros Hm Hf Hl. revert m t Hm. induction n as [|n IH]; intros m t Hm; [done|]. cbn [rounds].
  assert (Hnext : ∀ r t1 m1, r = nth_entry (entries lines) 0 → (∃ l1, between l1 m1) →
    wp (_ ← _nss_fbs_getpwnam_r name buflen; rs ← rounds n name; mret (r :: rs))
      (valQ (λ rs _, rs = replicate (S n) (nth_entry (entries lines) 0))) (mkProc t1 fs m1)).
  { intros r t1 m1 -> (l1 & Hp & _ & f & Hs & Hfp & _). destruct m1 as [q s pos op]. cbn in *. subst q s.
    apply wp_bind. unfold _nss_fbs_getpwnam_r. apply (getby_spec _ lines); [by intros ? [= <-]|done..|].
    intros t2. cbn [thenQ]. apply wp_valQ_bind. eapply wp_valQ_mono; [apply IH; eauto|].
    intros rs s' ->. by apply wp_ret. }
  apply wp_bind. assert (Hfirst : ∀ t1 m1, between [] m1 → wp (_nss_fbs_getpwent_r buflen)
    (thenQ (λ r, _ ← _nss_fbs_getpwnam_r name buflen; rs ← rounds n name; mret (r :: rs))
      (valQ (λ rs _, rs = replicate (S n) (nth_entry (entries lines) 0)))) (mkProc t1 fs m1)).
  { intros t1 m1 Hm1. apply (getpwent_step [] lines); [done..|]. unfold nth_entry in *.
    destruct (entries lines) as [|p ps].
    - intros t' m' Hm'. apply Hnext; [done|eauto].
    - intros t' m' l3 l4 _ _ Hm'. apply Hnext; [done|eauto]. }
  destruct Hm as [Hm|(pos & op & ->)]; [by apply Hfirst|].
  apply (getpwent_closed _ _ lines); [done|]. intros t1. apply Hfirst.
  split; [done|]. split; [done|]. by eexists.
Qed.

(** A lookup by name closes the database, so an enumeration that is under way
    starts over: a program that looks up a user for each entry is given the first
    entry for ever. *)
Theorem getpwnam_restarts n name s pos op lines t fs :
  (∀ f, s = Some f → f_path f = path) → fs !! path = Some (text_of lines) →
  Forall (fits_buffer buflen) lines →
  wp (_ ← _nss_fbs_setpwent; rounds n name)
    (valQ (λ rs _, rs = replicate n (nth_entry (entries lines) 0)))
    (mkProc t fs (mkFbs path s pos op)).
Proof.
  intros Hs Hf Hl. apply wp_bind, (setpwent_spec _ _ _ lines); [done..|]. intros t1 m Hm.
  cbn [thenQ]. apply rounds_spec; auto.
Qed.
End fbs_spec.

(** Two users, and a caller with a buffer of 64 bytes. *)
Definition ex_lines : list string := ["a:x:3:4::/:"; "b:x:5:6::/:"]%string.
Definition ex_db : Files := {["/db"%string := text_of ex_lines]}.
Definition ex_a : PasswdT := mkPasswd "a" "x" 3 4 EmptyString "/" EmptyString.
Definition ex_b : PasswdT := mkPasswd "b" "x" 5 6 EmptyString "/" EmptyString.

Lemma getpwent_enumerates_witness :
  wp (_ ← _nss_fbs_setpwent (E:=calm); enumerate (E:=calm) 64 3)
    (valQ (λ rs s', rs = [(NSS_STATUS_SUCCESS, Some ex_a); (NSS_STATUS_SUCCESS, Some ex_b);
      (NSS_STATUS_NOTFOUND, None)] ∧ p_fs s' = ex_db)) (mkProc [] ex_db (mkFbs "/db" None 0 no_op)).
Proof.
  apply (getpwent_enumerates (E:=calm)) with (lines := ex_lines); try done; try lia.
  repeat constructor; vm_compute; lia.
Defined.

Lemma getpwnam_restarts_witness :
  wp (_ ← _nss_fbs_setpwent (E:=calm); rounds (E:=calm) 64 3 "b")
    (valQ (λ rs _, rs = replicate 3 (NSS_STATUS_SUCCESS, Some ex_a)))
    (mkProc [] ex_db (mkFbs "/db" None 0 no_op)).
Proof.
  apply (getpwnam_restarts (E:=calm)) with (lines := ex_lines); try done; try lia.
  repeat constructor; vm_compute; lia.
Defined.
