(* ===== verification/NssSystem.v ===== *)
(** * The command and the module together

    [nss_ufbs] and [libnss_fbs] read the same configuration file with different
    parsers, and one writes the database the other reads.  The parsers agree on the
    files they are meant for, and what is inserted is found. *)

From S2P Require Import Prelude World Proc CString NssText NssConfig NssDb NssMain NssFbs.

Open Scope Z_scope.

(** ** The two readers of [fbs.conf] *)

(** A character of a configuration line: of the white space only blanks. *)
Definition plain_char (c : ascii) : bool :=
  no LF c && no NUL c && no CR c && no "011"%char c && no "012"%char c.

Lemma plain_space c : plain_char c = true → isspace c = isblank c.
Proof. destruct c as [[] [] [] [] [] [] [] []]; vm_compute; done. Qed.

Lemma skip_blanks_plain s : all_chars plain_char s = true → skip_blanks s = TrimLeft s.
Proof.
  unfold TrimLeft. induction s as [|c s IH]; [done|]. intros [Hc Hs]%andb_true_iff.
  cbn [skip_blanks find_first_not_of]. change (eqc c SP || eqc c TAB) with (isblank c).
  rewrite (plain_space c Hc). destruct (isblank c); [|done]. rewrite IH by done.
  by destruct (find_first_not_of isspace s).
Qed.

Lemma find_last_plain s :
  all_chars plain_char s = true → find_last_not_of isblank s = find_last_not_of isspace s.
Proof.
  unfold find_last_not_of. induction s as [|c s IH]; [done|]. intros [Hc Hs]%andb_true_iff.
  cbn [find_last_of]. by rewrite IH, (plain_space c Hc).
Qed.

Lemma skip_blanks_LF s : skip_blanks (nl s) = nl (skip_blanks s).
Proof.
  unfold nl. induction s as [|c s IH]; [done|]. rewrite append_cons. cbn [skip_blanks].
  by destruct (eqc c SP || eqc c TAB).
Qed.

Lemma prefix_nl s : String.prefix PASSWD_FILE_PARAM_NAME (nl s) = String.prefix PASSWD_FILE_PARAM_NAME s.
Proof.
  unfold nl. do 6 (destruct s as [|? s]; [by vm_compute|]; rewrite append_cons; cbn [String.prefix PASSWD_FILE_PARAM_NAME];
    match goal with |- context [ascii_dec ?a ?b] => destruct (ascii_dec a b); [|done] end).
  by destruct s.
Qed.

(** The line of [R_FILE] as the module reads it: the name, blanks, an equals sign,
    and the rest of the line. *)
Definition rfile_spec (l : string) : option string :=
  let x := TrimLeft l in
  if String.prefix PASSWD_FILE_PARAM_NAME x then
    match TrimLeft (drop 6 x) with
    | String e z => if eqc e "="%char && negb (is_empty (Trim z)) then Some (Trim z) else None
    | EmptyString => None
    end
  else None.

Lemma drop_nl n s : (n ≤ String.length s)%nat → drop n (nl s) = nl (drop n s).
Proof.
  unfold nl. revert s; induction n as [|n IH]; intros [|c s] H; try done; simpl in H; [lia|].
  rewrite append_cons. cbn [drop]. apply IH. lia.
Qed.

Lemma prefix_length p s : String.prefix p s = true → (String.length p ≤ String.length s)%nat.
Proof. intros [r ->]%prefix_spec. rewrite length_append. lia. Qed.

Lemma TrimLeft_chars f s : all_chars f s = true → all_chars f (TrimLeft s) = true.
Proof. intros H. unfold TrimLeft. case_match; [by apply all_chars_drop|done]. Qed.

Lemma trim_blanks_plain v :
  all_chars plain_char v = true → TrimLeft v = v → v ≠ EmptyString →
  trim_blanks v = TrimRight v ∧ TrimRight v ≠ EmptyString.
Proof.
  intros Hv Hl Hne. unfold trim_blanks, TrimRight. rewrite find_last_plain by done.
  destruct (TrimLeft_shape _ Hl) as [|Hf]; [done|]. destruct v as [|c v]; [done|].
  destruct (find_last_not_of isspace (String c v)) as [n|] eqn:E; [done|]. exfalso.
  cbn in Hf. destruct (isspace c) eqn:Hc; [by destruct (find_first_not_of isspace v)|].
  unfold find_last_not_of in E. cbn in E. rewrite Hc in E.
  by destruct (find_last_of _ v).
Qed.

Lemma rfile_line_spec l : all_chars plain_char l = true → rfile_line (nl l) = rfile_spec l.
Proof.
  intros Hl. unfold rfile_line, rfile_spec.
  assert (c_str (nl l) = nl l) as ->.
  { apply c_str_id. unfold nl. rewrite all_chars_append. rewrite andb_true_iff. split; [|done].
    eapply all_chars_impl; [|exact Hl]. unfold plain_char. intros c. rewrite !andb_true_iff. tauto. }
  rewrite skip_blanks_LF, prefix_nl, skip_blanks_plain by done.
  destruct (String.prefix _ (TrimLeft l)) eqn:Hp; [|done].
  pose proof (prefix_length _ _ Hp). rewrite drop_nl by done. change (String.length PASSWD_FILE_PARAM_NAME) with 6%nat.
  assert (Hy : all_chars plain_char (drop 6 (TrimLeft l)) = true) by (by apply all_chars_drop, TrimLeft_chars).
  rewrite skip_blanks_LF, skip_blanks_plain by done. apply TrimLeft_chars in Hy.
  destruct (TrimLeft (drop 6 (TrimLeft l))) as [|e z]; [done|].
  change (nl (String e z)) with (String e (nl z)). cbn iota.
  destruct (eqc e "="%char); [|done]. cbn [negb andb]. simpl in Hy. apply andb_true_iff in Hy as [_ Hz].
  rewrite skip_blanks_LF, skip_blanks_plain by done. unfold nl at 1.
  pose proof (TrimLeft_chars _ _ Hz) as Hz'. rewrite strchr_first.
  2:{ eapply all_chars_impl; [|exact Hz']. unfold plain_char. intros c. rewrite !andb_true_iff. tauto. }
  unfold Trim. destruct (TrimLeft z) as [|c v] eqn:Ez; [done|].
  destruct (trim_blanks_plain (String c v)) as [-> Hne]; [done| |done|].
  { rewrite <-Ez. apply drop_space. }
  by destruct (TrimRight (String c v)).
Qed.

(** ** Splitting at white space *)

Lemma spaces_last w : all_chars isspace w = true → find_last_not_of isspace w = None.
Proof.
  unfold find_last_not_of. induction w as [|c w IH]; [done|]. intros [Hc Hw]%andb_true_iff.
  cbn [find_last_of]. by rewrite IH, Hc.
Qed.

Lemma TrimRight_spaces a w : all_chars isspace w = true → TrimRight (String.append a w) = TrimRight a.
Proof.
  intros Hw. unfold TrimRight, find_last_not_of. rewrite find_last_of_app.
  pose proof (spaces_last w Hw) as E. unfold find_last_not_of in E. rewrite E.
  destruct (find_last_of _ a) as [n|] eqn:Ea; [|done]. apply find_last_of_lt in Ea.
  clear -Ea. revert a Ea. induction n as [|n IH]; intros [|c a] Ea; simpl in Ea; try lia;
    rewrite append_cons; cbn [take]; [by destruct (String.append a w), a|]. f_equal. apply IH. lia.
Qed.

Lemma TrimRight_split s : ∃ w, s = String.append (TrimRight s) w ∧ all_chars isspace w = true.
Proof.
  induction s as [|c s (w & Hs & Hw)]; [by exists EmptyString|].
  unfold TrimRight, find_last_not_of in *. cbn [find_last_of].
  destruct (find_last_of _ s) as [n|] eqn:E.
  - exists w. split; [|done]. change (take (S (S n)) (String c s)) with (String c (take (S n) s)).
    rewrite append_cons. by f_equal.
  - destruct (isspace c) eqn:Hc; cbn [negb].
    + exists (String c s). split; [done|]. simpl. rewrite Hc. rewrite append_nil_l in Hs. by rewrite Hs.
    + exists s. split; [done|]. rewrite append_nil_l in Hs. by rewrite Hs.
Qed.

Lemma TrimLeft_split s : ∃ w, s = String.append w (TrimLeft s) ∧ all_chars isspace w = true.
Proof.
  unfold TrimLeft. induction s as [|c s (w & Hs & Hw)]; [by exists EmptyString|].
  cbn [find_first_not_of]. destruct (isspace c) eqn:Hc; [|by exists EmptyString].
  exists (String c w). simpl. rewrite Hc. split; [|done].
  rewrite append_cons, Hs at 1. by destruct (find_first_not_of isspace s).
Qed.

Lemma TrimLeft_spaces w s : all_chars isspace w = true → TrimLeft (String.append w s) = TrimLeft s.
Proof.
  unfold TrimLeft. induction w as [|c w IH]; [done|]. intros [Hc Hw]%andb_true_iff.
  rewrite append_cons. cbn [find_first_not_of]. rewrite Hc. rewrite <-IH by done.
  by destruct (find_first_not_of isspace (String.append w s)).
Qed.

Lemma TrimLeft_nonspace c s : isspace c = false → TrimLeft (String c s) = String c s.
Proof. intros Hc. unfold TrimLeft. cbn. by rewrite Hc. Qed.

Lemma TrimLeft_head s c r : TrimLeft s = String c r → isspace c = false.
Proof.
  intros H. pose proof (drop_space s) as Hd. rewrite H in Hd.
  destruct (TrimLeft_shape _ Hd) as [|Hf]; [done|]. cbn in Hf. destruct (isspace c); [|done].
  by destruct (find_first_not_of isspace r).
Qed.

(** A string in front of white space trims to what it trims to alone. *)
Lemma Trim_spaces b w : all_chars isspace w = true → Trim (String.append b w) = Trim b.
Proof.
  intros Hw. destruct (TrimLeft_split b) as (v & Hb & Hv). unfold Trim. rewrite Hb at 1.
  rewrite append_assoc, TrimLeft_spaces by done. destruct (TrimLeft b) as [|c r] eqn:E.
  - rewrite append_nil_l. rewrite <-(append_nil_r w), TrimLeft_spaces by done. done.
  - rewrite append_cons, TrimLeft_nonspace by (by eapply TrimLeft_head).
    rewrite <-append_cons. by apply TrimRight_spaces.
Qed.

Lemma TrimRight_nonspace a b : TrimRight b ≠ EmptyString → TrimRight (String.append a b) = String.append a (TrimRight b).
Proof.
  intros Hb. unfold TrimRight, find_last_not_of in *. rewrite find_last_of_app.
  destruct (find_last_of _ b) as [n|] eqn:E; [|done]. clear Hb E.
  induction a as [|c a IH]; [done|]. rewrite !append_cons. cbn [String.length].
  change (S (S (String.length a) + n)) with (S (S (String.length a + n))). cbn [take]. by f_equal.
Qed.

Lemma append_inj_prefix p a c y q :
  all_chars (no c) p = true → String.append a (String c q) = String.append p y →
  ∃ a', a = String.append p a' ∧ y = String.append a' (String c q).
Proof.
  revert a; induction p as [|x p IH]; intros a Hp H; [by exists a|].
  simpl in Hp. apply andb_true_iff in Hp as [Hx Hp]. destruct a as [|z a].
  - rewrite append_nil_l, append_cons in H. injection H as -> _. unfold no in Hx. by rewrite eqc_refl in Hx.
  - rewrite !append_cons in H. injection H as -> H. destruct (IH a Hp H) as (a' & -> & ->).
    exists a'. by rewrite append_cons.
Qed.

Lemma prefix_append p r : String.prefix p (String.append p r) = true.
Proof.
  induction p as [|c p IH]; [by destruct r|]. rewrite append_cons. cbn. by destruct (ascii_dec c c).
Qed.

(** ** Agreement *)

Lemma TrimRight_nonempty c s : isspace c = false → TrimRight (String c s) ≠ EmptyString.
Proof.
  intros Hc. unfold TrimRight, find_last_not_of. cbn [find_last_of].
  destruct (find_last_of _ s); [done|]. by rewrite Hc.
Qed.

Lemma Trim_empty l : Trim l = EmptyString → TrimLeft l = EmptyString.
Proof.
  unfold Trim. destruct (TrimLeft l) as [|c r] eqn:E; [done|].
  intros H. by apply TrimRight_nonempty in H; [|eapply TrimLeft_head].
Qed.

Lemma TrimRight_idem s : TrimRight (TrimRight s) = TrimRight s.
Proof.
  destruct (TrimRight_split s) as (w & Hs & Hw). by rewrite <-(TrimRight_spaces _ w), <-Hs.
Qed.

Lemma TrimRight_length s : (String.length (TrimRight s) ≤ String.length s)%nat.
Proof. destruct (TrimRight_split s) as (w & Hs & _). rewrite Hs at 2. rewrite length_append. lia. Qed.

(** The name of a setting, in front of blanks. *)
Lemma Trim_name a :
  TrimLeft a = a → Trim a = PASSWD_FILE_PARAM_NAME →
  ∃ w, a = String.append PASSWD_FILE_PARAM_NAME w ∧ all_chars isspace w = true.
Proof.
  unfold Trim. intros -> H. destruct (TrimRight_split a) as (w & Ha & Hw). exists w. by rewrite <-H.
Qed.

(** What follows the name decides: only blanks, or something else. *)
Lemma rfile_name a' b w :
  all_chars (no "="%char) a' = true → Trim b ≠ EmptyString → all_chars isspace w = true →
  (match TrimLeft (String.append a' (String "="%char (String.append b w))) with
   | String e z => if eqc e "="%char && negb (is_empty (Trim z)) then Some (Trim z) else None
   | EmptyString => None
   end) = if streq (Trim (String.append PASSWD_FILE_PARAM_NAME a')) PASSWD_FILE_PARAM_NAME
          then Some (Trim b) else None.
Proof.
  intros Ha Hb Hw. destruct (TrimLeft_split a') as (v & Hv & Hvs).
  set (tl := TrimLeft a') in *. destruct tl as [|c r] eqn:Etl; rewrite Hv.
  - rewrite append_nil_r, TrimLeft_spaces, TrimLeft_nonspace by done.
    rewrite eqc_refl, (Trim_spaces b), Trim_spaces by done.
    by destruct (Trim b).
  - assert (Hc : isspace c = false) by (by eapply TrimLeft_head).
    rewrite append_assoc, TrimLeft_spaces, append_cons, TrimLeft_nonspace by done.
    assert (Hce : eqc c "="%char = false).
    { rewrite Hv, all_chars_append in Ha. apply andb_true_iff in Ha as [_ Ha]. simpl in Ha.
      apply andb_true_iff in Ha as [Ha _]. by apply negb_true_iff in Ha. }
    rewrite Hce. cbn [andb].
    assert (Trim (String.append PASSWD_FILE_PARAM_NAME (String.append v (String c r)))
      = String.append PASSWD_FILE_PARAM_NAME (String.append v (TrimRight (String c r)))) as ->.
    { unfold Trim. assert (HL : ∀ x, TrimLeft (String.append PASSWD_FILE_PARAM_NAME x)
        = String.append PASSWD_FILE_PARAM_NAME x) by done.
      rewrite HL. pose proof (TrimRight_nonempty c r Hc).
      by rewrite <-append_assoc, TrimRight_nonspace, append_assoc. }
    pose proof (TrimRight_nonempty c r Hc) as Hne. destruct (streq _ _) eqn:Es; [|done]. exfalso.
    apply streq_spec in Es. apply (f_equal String.length) in Es. rewrite !length_append in Es.
    destruct (TrimRight (String c r)); [done|]. simpl in Es. lia.
Qed.

(** A value that is there is not blank, because the line was trimmed. *)
Lemma value_nonempty l a b :
  strchr (Trim l) "="%char = Some (a, b) → b ≠ EmptyString → Trim b ≠ EmptyString.
Proof.
  intros [HT _]%strchr_inv Hbne Hb. apply Trim_empty in Hb. destruct (TrimLeft_split b) as (v & Hv & Hvs).
  rewrite Hb, append_nil_r in Hv. pose proof (TrimRight_idem (TrimLeft l)) as Hi. unfold Trim in HT.
  rewrite HT in Hi. change (String "="%char b) with (String.append "=" b) in Hi.
  rewrite <-append_assoc, (TrimRight_spaces _ b) in Hi by (by rewrite Hv).
  apply (f_equal String.length) in Hi. pose proof (TrimRight_length (String.append a "=")).
  rewrite !length_append in *. destruct b; [done|]. simpl in *. lia.
Qed.

Lemma Trim_length s : (String.length (Trim s) ≤ String.length s)%nat.
Proof.
  unfold Trim. pose proof (TrimRight_length (TrimLeft s)). destruct (TrimLeft_split s) as (w & Hs & _).
  apply (f_equal String.length) in Hs. rewrite length_append in Hs. lia.
Qed.

Lemma line_agree l a b :
  strchr (Trim l) "="%char = Some (a, b) → a ≠ EmptyString → b ≠ EmptyString →
  rfile_spec l = if streq (Trim a) STR_CONFIG_RFILE then Some (Trim b) else None.
Proof.
  intros [HT Ha]%strchr_inv Hane Hbne. unfold rfile_spec.
  destruct (TrimRight_split (TrimLeft l)) as (w & Hx & Hw). unfold Trim in HT. rewrite HT in Hx.
  rewrite append_assoc, append_cons in Hx.
  assert (HTb : Trim b ≠ EmptyString) by (eapply value_nonempty; [|done]; unfold Trim; by rewrite HT, strchr_first).
  destruct (String.prefix PASSWD_FILE_PARAM_NAME (TrimLeft l)) eqn:Hp.
  - apply prefix_spec in Hp as [y Hy]. rewrite Hy. rewrite Hy in Hx. symmetry in Hx.
    apply append_inj_prefix in Hx as (a' & -> & ->); [|done].
    change 6%nat with (String.length PASSWD_FILE_PARAM_NAME). rewrite drop_append.
    rewrite all_chars_append in Ha. apply andb_true_iff in Ha as [_ Ha]. by apply rfile_name.
  - destruct (streq (Trim a) STR_CONFIG_RFILE) eqn:Es; [|done]. exfalso.
    apply streq_spec in Es. destruct a as [|c a]; [done|]. rewrite append_cons in Hx.
    pose proof (TrimLeft_head _ _ _ Hx) as Hc.
    destruct (Trim_name (String c a)) as (v & Hv & _); [by apply TrimLeft_nonspace|exact Es|].
    rewrite <-append_cons, Hv, append_assoc in Hx. rewrite Hx, prefix_append in Hp. done.
Qed.

(** A line both readers take in one piece. *)
Definition plain_line (l : string) : Prop :=
  all_chars plain_char l = true ∧ (S (String.length l) < LINEBUF)%nat.

(** The line sets [R_FILE], for the command. *)
Definition sets_rfile (l : string) : bool :=
  match strchr (Trim l) "="%char with
  | Some (a, _) => streq (Trim a) STR_CONFIG_RFILE
  | None => false
  end.

Lemma plain_pieces n lines :
  (LINEBUF ≤ n)%nat → Forall plain_line lines → fgets_lines n (text_of lines) = nl <$> lines.
Proof.
  intros Hn H. apply fgets_lines_text. eapply Forall_impl; [exact H|]. intros l [Hl Hs]. split; [|lia].
  eapply all_chars_impl; [|exact Hl]. unfold plain_char. intros c. rewrite !andb_true_iff. tauto.
Qed.

Lemma plain_Trim l : plain_line l → Trim (c_str (nl l)) = Trim l.
Proof.
  intros [Hl _]. rewrite c_str_id; [apply Trim_LF|]. unfold nl. rewrite all_chars_append.
  apply andb_true_iff. split; [|done]. eapply all_chars_impl; [|exact Hl].
  unfold plain_char. intros c. rewrite !andb_true_iff. tauto.
Qed.

(** A line the command accepts: what the module makes of it, and what the command
    remembers of [R_FILE]. *)
Lemma config_line_agree l r w r' w' :
  plain_line l → config_line (nl l) (r, w) = Some (r', w') →
  if sets_rfile l then ∃ v, rfile_line (nl l) = Some v ∧ v ≠ EmptyString
    ∧ (String.length v < LINEBUF - 1)%nat ∧ r' = (if is_empty r then v else r)
  else rfile_line (nl l) = None ∧ r' = r.
Proof.
  intros Hp H. pose proof Hp as [Hl Hs]. rewrite rfile_line_spec by done. unfold config_line in H.
  rewrite plain_Trim in H by done. unfold sets_rfile.
  destruct (Trim l) as [|c T] eqn:ET; cbn [is_empty] in H.
  { simplify_eq. cbn [strchr]. split; [|done]. unfold rfile_spec. by rewrite (Trim_empty l). }
  rewrite <-ET in *. destruct (strchr (Trim l) "="%char) as [[[|ca a] b]|] eqn:Ec; [done| |done].
  destruct (is_empty b) eqn:Hb; [done|]. cbv zeta in H.
  rewrite (line_agree l (String ca a) b) by (done || by destruct b).
  destruct (streq (Trim (String ca a)) STR_CONFIG_RFILE) eqn:Er.
  - exists (Trim b). split; [done|]. apply streq_spec in Er. rewrite Er in H. cbn [streq] in H.
    change (streq STR_CONFIG_RFILE STR_CONFIG_WFILE) with false in H.
    change (streq STR_CONFIG_RFILE STR_CONFIG_RFILE) with true in H. cbn [andb] in H.
    split; [eapply value_nonempty; [done|by destruct b]|]. split.
    + pose proof (Trim_length b). pose proof (Trim_length l). apply strchr_length in Ec. lia.
    + by destruct (is_empty r); simplify_eq.
  - split; [done|]. cbn [andb] in H. by destruct (_ && is_empty w); simplify_eq.
Qed.

Lemma config_lines_agree lines r w r' w' :
  Forall plain_line lines → config_lines (nl <$> lines) (r, w) = Some (r', w') →
  (length (List.filter sets_rfile lines) ≤ if is_empty r then 1 else 0)%nat →
  ∃ path, rfile_lines (nl <$> lines) r = (0, path) ∧ (r' ≠ EmptyString → path = r').
Proof.
  intros Hl. revert r w. induction Hl as [|l ls Hp Hls IH]; intros r w H Hn.
  { cbn in H. simplify_eq. by exists r'. }
  cbn [config_lines fmap list_fmap] in H. cbn [List.filter] in Hn. cbn [rfile_lines fmap list_fmap].
  destruct (config_line (nl l) (r, w)) as [[r1 w1]|] eqn:E; [|done].
  pose proof (config_line_agree l r w r1 w1 Hp E) as Ha. destruct (sets_rfile l).
  - destruct Ha as (v & -> & Hv & Hlen & ->). cbn [length] in Hn. destruct (is_empty r); [|lia].
    destruct (Nat.ltb_spec (LINEBUF - 1) (String.length v)); [lia|]. apply (IH v w1); [done|].
    destruct v; [done|]. cbn [is_empty]. lia.
  - destruct Ha as [-> ->]. by apply (IH r w1).
Qed.

Lemma rfile_lines_agree lines r w :
  Forall plain_line lines → (length (List.filter sets_rfile lines) ≤ 1)%nat →
  ParsingConfigFile (text_of lines) = Some (r, w) →
  rfile_lines (fgets_lines LINEBUF (text_of lines)) EmptyString = (0, r).
Proof.
  intros Hl Hn H. unfold ParsingConfigFile in H.
  rewrite plain_pieces in H by (done || (vm_compute; lia)). rewrite plain_pieces by done.
  destruct (config_lines _ _) as [[r' w']|] eqn:E; [|done].
  destruct (config_lines_agree lines EmptyString EmptyString r' w') as (p & -> & Hp); [done..|].
  destruct r' as [|c r'], w' as [|d w']; simplify_eq/=. by rewrite Hp.
Qed.

(** Started without a path, the module takes the one of the file. *)
Lemma get_passwd_filepath_spec `{E : Env} (Hst : steady) conf path (Q : outcome Z → Proc FbsT → Prop) t fs :
  fs !! NSS_FBS_CONFIG_FILEPATH = Some conf →
  rfile_lines (fgets_lines LINEBUF conf) EmptyString = (0, path) →
  (∀ t', Q (Val 0) (mkProc t' fs (mkFbs path None 0 no_op))) →
  wp (get_passwd_filepath false) Q (mkProc t fs newFbs).
Proof.
  intros Hc Hr HQ. unfold get_passwd_filepath, newFbs. fbs_auto.
  change (streq EmptyString EmptyString) with true. cbn [negb andb]. fbs_auto.
  apply (wp_fopen_read Hst _ _ conf); [auto|done|done|]. intros t1. fbs_auto.
  apply (wp_unread _ conf); [done|]. cbn [f_pos drop]. fbs_auto. rewrite Hr. fbs_auto. apply HQ.
Qed.

(** The two readers of the configuration file are equivalent: on a file with
    lines of ordinary length and only blanks for white space, of which one at most
    sets [R_FILE], the module stores the path the command is given for [R_FILE]. *)
Theorem rfile_agree `{E : Env} lines t fs t2 :
  steady → fs !! STR_CONFIG_FILEPATH = Some (text_of lines) →
  Forall plain_line lines → (length (List.filter sets_rfile lines) ≤ 1)%nat →
  wp (GetConfigValue NSS_CONFIG_RFILE) (valQ (λ o _, ∀ r, o = Some r →
    wp (get_passwd_filepath false)
      (valQ (λ z s', z = 0 ∧ passwd_filepath (p_mem s') = r)) (mkProc t2 fs newFbs)))
    (mkProc t fs newDbHandler).
Proof.
  intros Hst Hf Hl Hn. unfold GetConfigValue, newDbHandler, newConfigFile. db_auto.
  rewrite bool_decide_true by done. db_auto.
  apply (wp_fopen_read Hst _ _ (text_of lines)); [auto|done|done|]. intros t1. db_auto.
  apply (wp_unread _ (text_of lines)); [done|]. cbn [f_pos drop]. db_auto.
  destruct (ParsingConfigFile (text_of lines)) as [[r w]|] eqn:Hp; db_auto.
  - rewrite bool_decide_true by done. apply wp_ret. intros r' [= <-].
    apply (get_passwd_filepath_spec Hst (text_of lines) r); [done|by eapply rfile_lines_agree|].
    done.
  - rewrite bool_decide_false by done. by apply wp_ret.
Qed.

Lemma rfile_agree_witness :
  let conf := text_of [" R_FILE = /a b "; EmptyString; "W_FILE=/c"]%string in
  let fs := {[STR_CONFIG_FILEPATH := conf]} in
  wp (GetConfigValue (E:=calm) NSS_CONFIG_RFILE) (valQ (λ o _, ∀ r, o = Some r →
    wp (get_passwd_filepath (E:=calm) false)
      (valQ (λ z s', z = 0 ∧ passwd_filepath (p_mem s') = r)) (mkProc [] fs newFbs)))
    (mkProc [] fs newDbHandler).
Proof.
  eapply (rfile_agree (E:=calm)) with (lines := [" R_FILE = /a b "; EmptyString; "W_FILE=/c"]%string); try done.
  repeat constructor; vm_compute; lia.
Defined.

(** With two settings the first counts for the command and the last for the module. *)
Lemma rfile_disagree :
  let conf := text_of ["R_FILE=/a"; "W_FILE=/b"; "R_FILE=/c"]%string in
  ParsingConfigFile conf = Some ("/a", "/b")%string
  ∧ rfile_lines (fgets_lines LINEBUF conf) EmptyString = (0, "/c"%string).
Proof. split; vm_compute; reflexivity. Qed.

(** ** From the directory to a lookup *)

Lemma without_tuples uid us :
  Forall storable us → without uid (tuple <$> us) = tuple <$> abs_remove uid us.
Proof.
  induction 1 as [|p us Hp _ IH]; [done|]. destruct (good_tuple p Hp) as [_ Hu].
  cbn [fmap list_fmap without]. unfold has_uid. rewrite Hu. unfold abs_remove in *.
  rewrite filter_cons. destruct (Z.eqb_spec uid (uId p)) as [->|Hne].
  - by rewrite decide_False by auto.
  - rewrite decide_True by auto. cbn [fmap list_fmap]. by f_equal.
Qed.

Lemma inserted_tuples p us :
  Forall storable us → inserted p (tuple <$> us) = tuple <$> abs_insert p us.
Proof. intros H. unfold inserted, abs_insert. by rewrite without_tuples, fmap_app. Qed.

Lemma entries_tuples us :
  Forall storable us → Forall (λ p, plain_name (strName p) = true) us →
  entries (tuple <$> us) = pw_of <$> us.
Proof.
  intros H. induction H as [|p us [Hc _] _ IH]; [done|]. intros [Hn Hs]%Forall_cons.
  unfold entries in *. cbn [fmap list_fmap omap list_omap compose]. unfold nl at 1.
  by rewrite buffer_tuple, IH.
Qed.

Lemma find_inserted p us :
  plain_name (strName p) = true →
  find (fits_uid (uId p)) (pw_of <$> abs_insert p us) = Some (pw_of p).
Proof.
  intros [Hn _]%andb_true_iff. unfold abs_insert, abs_remove. rewrite fmap_app.
  induction us as [|q us IH].
  - cbn. unfold fits_uid. cbn. by rewrite Z.eqb_refl, Hn.
  - rewrite filter_cons. case_decide as Hq; [|exact IH]. cbn [fmap list_fmap app find].
    unfold fits_uid at 1. cbn [pw_of pw_uid]. destruct (Z.eqb_spec (uId q) (uId p)); [done|exact IH].
Qed.

Lemma Forall_insert (P : TsPassword → Prop) p us : P p → Forall P us → Forall P (abs_insert p us).
Proof.
  intros Hp H. unfold abs_insert, abs_remove. apply Forall_app. split; [|by constructor].
  induction H as [|q us Hq _ IH]; [constructor|]. rewrite filter_cons. case_decide; [by constructor|done].
Qed.

(** The module, started on a node whose configuration names [path], looks there. *)
Lemma getby_fresh `{E : Env} (Hst : steady) path lines conf fits buflen
    (Q : outcome (nss_status * option PasswdT) → Proc FbsT → Prop) t fs :
  path ≠ EmptyString → (3 ≤ buflen)%nat →
  fs !! NSS_FBS_CONFIG_FILEPATH = Some conf →
  rfile_lines (fgets_lines LINEBUF conf) EmptyString = (0, path) →
  fs !! path = Some (text_of lines) → Forall (fits_buffer buflen) lines →
  (∀ t' m', Q (Val (match find fits (entries lines) with
                    | Some p => (NSS_STATUS_SUCCESS, Some p)
                    | None => (NSS_STATUS_NOTFOUND, None)
                    end)) (mkProc t' fs m')) →
  wp (getby fits buflen) Q (mkProc t fs newFbs).
Proof.
  intros Hp Hb Hc Hr Hf Hl HQ. unfold getby, init_passwd_database. fbs_auto.
  change (passwd_stream newFbs) with (@None FILE). fbs_auto.
  change (streq (passwd_filepath newFbs) EmptyString) with true. fbs_auto.
  apply (get_passwd_filepath_spec Hst conf path); [done..|]. intros t1. fbs_auto.
  apply (wp_fopen_read Hst _ _ (text_of lines)); [auto|done|done|]. intros t2. fbs_auto.
  rewrite bool_decide_true by done. fbs_auto. apply (wp_unread _ (text_of lines)); [done|].
  cbn [f_pos drop]. fbs_auto. eapply (scan_spec path) with (l1 := []) (l2 := lines); [done| |done..|].
  { pose proof (entries_length lines). lia. }
  intros f. fbs_auto. apply (close_spec Hst). intros t3. fbs_auto. apply HQ.
Qed.

(** C8: A user copied from the directory is found: after [nss_ufbs -i <uid>] on a
    database the command has written, a lookup of the id through the name service
    returns the entry of the directory. *)
Theorem insert_then_lookup `{E : Env} pid ldap fs db us arg conf t h t2 buflen :
  let uid := u32 (atoi arg) in
  node_ok pid ldap fs db db → all_digits arg = true → pw_uid (ldap uid) = uid →
  default EmptyString (fs !! db) = text_of (tuple <$> us) → Forall storable us →
  Forall (λ p, plain_name (strName p) = true) us → plain_name (pw_name (ldap uid)) = true →
  fs !! STR_CONFIG_FILEPATH = Some (text_of conf) → Forall plain_line conf →
  (length (List.filter sets_rfile conf) ≤ 1)%nat →
  STR_CONFIG_FILEPATH ∉ [db; work_path db; tmp_path pid db] → (2049 ≤ buflen)%nat →
  wp (nssExecuteCommand ["-i"; arg]%string) (valQ (λ r s, r = RET_SUCCESS ∧
    wp (_nss_fbs_getpwuid_r uid buflen)
      (valQ (λ r' s', r' = (NSS_STATUS_SUCCESS, Some (ldap uid)) ∧ p_fs s' = p_fs s))
      (mkProc t2 (p_fs s) newFbs))) (mkProc t fs h).
Proof.
  intros uid [Hst Hwr Hpid Hlock Hldap Hsto (cfg & Hf & Hcfg) [Htd Htw]] Ha Hu Hdb Hus Hns Hn Hcf Hpl Hone Hpath Hbuf.
  assert (cfg = text_of conf) as -> by congruence. cbn.
  set (p := CopyPasswd (ldap uid)). eapply wp_valQ_mono.
  { apply (nssInsertItem_spec Hst Hwr pid Hpid Hlock db db (text_of conf) Hcfg Htd Htw arg (ldap uid) (tuple <$> us));
      [done|done| |done|done]. apply Forall_fmap. eapply Forall_impl; [exact Hus|].
    intros q Hq. by apply good_tuple. }
  intros r s [-> Hs]. split; [done|]. rewrite inserted_tuples in Hs by done.
  rewrite not_elem_of_cons, not_elem_of_cons, not_elem_of_cons in Hpath. destruct Hpath as (H1 & H2 & H3 & _).
  assert (Hst' : Forall storable (abs_insert p us)) by (apply Forall_insert; [apply Hsto|done]).
  unfold _nss_fbs_getpwuid_r.
  apply (getby_fresh Hst db (tuple <$> abs_insert p us) (text_of conf)).
  - by eapply (db_not_empty pid db db).
  - lia.
  - change NSS_FBS_CONFIG_FILEPATH with STR_CONFIG_FILEPATH. rewrite Hs. unfold committed.
    by rewrite lookup_insert_ne, !lookup_delete_ne by congruence.
  - by eapply rfile_lines_agree.
  - rewrite Hs. unfold committed. apply lookup_insert_eq.
  - apply Forall_fmap. eapply Forall_impl; [exact Hst'|]. intros q [Hc Hlen]. split; [by apply tuple_no_LF|].
    unfold MAX_UFDB_FILEBUFFER in Hlen. cbn [compose]. lia.
  - intros t' m'. rewrite entries_tuples by (done || by apply Forall_insert).
    replace (fits_uid uid) with (fits_uid (uId p)) by (by f_equal).
    rewrite find_inserted by done. cbn. split; [|done].
    unfold pw_of, p, CopyPasswd. cbn. by destruct (ldap uid).
Qed.

(** A node whose module reads the database the command writes. *)
Definition sys_conf : list string := ["R_FILE=/db"; "W_FILE = /db"]%string.
Definition sys_files : Files :=
  {[STR_CONFIG_FILEPATH := text_of sys_conf; "/db"%string := text_of (tuple <$> ex_us)]}.

Lemma insert_then_lookup_witness :
  wp (nssExecuteCommand (E:=ex_env) ["-i"; "5"]%string) (valQ (λ r s, r = RET_SUCCESS ∧
    wp (_nss_fbs_getpwuid_r (E:=ex_env) 5 4096)
      (valQ (λ r' s', r' = (NSS_STATUS_SUCCESS, Some (ex_user 5)) ∧ p_fs s' = p_fs s))
      (mkProc [] (p_fs s) newFbs))) (mkProc [] sys_files newDbHandler).
Proof.
  apply (insert_then_lookup (E:=ex_env) 100 ex_user sys_files "/db" ex_us "5" sys_conf).
  - split; try done.
    + intros t uid. exists 20. split; [done|]. intros t'. vm_compute. done.
    + intros uid. split; [vm_compute; reflexivity|]. vm_compute. lia.
    + exists (text_of sys_conf). split; vm_compute; reflexivity.
  - vm_compute. reflexivity.
  - vm_compute. reflexivity.
  - vm_compute. reflexivity.
  - repeat constructor; vm_compute; try done; lia.
  - repeat constructor.
  - vm_compute. reflexivity.
  - vm_compute. reflexivity.
  - repeat constructor; vm_compute; lia.
  - vm_compute. lia.
  - vm_compute. intros H. repeat (apply elem_of_cons in H as [H|H]; [discriminate H|]). inversion H.
  - lia.
Defined.
