(* ===== verification/LogTrace.v ===== *)
(** * Logging and tracing

    [apos_ha_logtrace.cpp]: the initialisation of the trace file with the
    directories above it, the filter on the category, and how [output] ends a
    line in its buffer of 1024 bytes. *)

From S2P Require Import Prelude CString Types World.

Open Scope Z_scope.

(** The categories of [apos_ha_logtrace.h]. *)
Definition CAT_LOG : Z := 0.
Definition CAT_TRACE : Z := 1.
Definition CAT_TRACE8 : Z := 9.
Definition CAT_TRACE_ENTER : Z := 10.
Definition CAT_TRACE_LEAVE : Z := 11.
Definition CAT_MAX : Z := 12.

(** [path.substr(0, path.find_last_of('/'))], when there is a slash. *)
Fixpoint dirname (path : string) : option string :=
  match path with
  | EmptyString => None
  | String c r =>
      match dirname r with
      | Some d => Some (String c d)
      | None => if eqc c "/"%char then Some EmptyString else None
      end
  end.

Section logtrace.
Context `{E : Env}.

(** The [do ... while] loop: [pre] is [dir.substr(0, lastpos)] and [rest] what
    follows; the directory before each slash is made, from the top down. *)
Fixpoint mkdirs (pre rest : string) : MW Z :=
  match rest with
  | EmptyString => mret 0
  | String c r =>
      if eqc c "/"%char then
        res ← call (CMkdir pre);
        match res with
        | MkOk | MkExists => mkdirs (String.append pre (String c EmptyString)) r
        | MkNoent | MkError => mret (-1)
        end
      else mkdirs (String.append pre (String c EmptyString)) r
  end.

(** Search from position 1 of a string that ends in a slash. *)
Definition mkdirs_from (dir : string) : MW Z :=
  match dir with
  | EmptyString => mret 0
  | String c r => mkdirs (String c EmptyString) r
  end.

(** [apos_ha_logtrace_init]: a failure to open the file is not reported. *)
Definition apos_ha_logtrace_init (pathname : string) (mask : Z) : MW Z :=
  modify (λ s, set_log (mkLog (trace_open (w_log s)) mask) s);;
  if mask =? 0 then mret 0 else
  rCode ←
    match dirname pathname with
    | None => mret (-1)
    | Some dirPath =>
        res ← call (CMkdir dirPath);
        match res with
        | MkOk | MkExists => mret 0
        | MkNoent => mkdirs_from (String.append dirPath "/")
        | MkError => mret (-1)
        end
    end;
  if rCode =? 0 then
    ok ← call (CCreate pathname);
    modify (set_log (mkLog ok mask));;
    mret rCode
  else mret rCode.

(** [_ha_logtrace_trace]: which messages reach the file. *)
Definition trace_passes (category mask : Z) : bool := negb (u32 mask <? category).

(** The end of [output]: [i] is what [vsnprintf] returned, the length the
    message has without truncation, and [log_string] has 1024 bytes. *)
Definition output_line (msg : string) : MW string :=
  let i := String.length msg in
  let log_string := snprintf 1024 msg in
  if (i =? 0)%nat || (1023 <? i)%nat then undef
  else match String.get (pred i) log_string with
       | Some c => if eqc c LF then mret log_string
                   else if (S i <? 1024)%nat
                   then mret (String.append log_string (String LF EmptyString))
                   else undef
       | None => undef
       end.
End logtrace.

(** ** Properties *)

(** The ancestors of a path, from the top: the prefixes before each slash. *)
Fixpoint ancestors (pre rest : string) : list string :=
  match rest with
  | EmptyString => []
  | String c r =>
      let pre' := String.append pre (String c EmptyString) in
      if eqc c "/"%char then pre :: ancestors pre' r else ancestors pre' r
  end.

(** The requests of a list of events, oldest first. *)
Definition requests (t : Trace) : list Call := reverse (request <$> t).

(** The new events of a run. *)
Definition added (s s' : World) (new : Trace) : Prop := w_trace s' = new ++ w_trace s.

Section logtrace_props.
Context `{E : Env}.

(** When [mkdirs] succeeds it has asked for every ancestor, in order, and each
    of them was made or existed; when it fails it stopped at the first error. *)
Lemma mkdirs_spec pre rest s :
  ∃ r s' new,
    mkdirs pre rest s = (Val r, s') ∧ added s s' new
    ∧ (r = 0 ∧ requests new = CMkdir <$> ancestors pre rest
       ∨ r = -1 ∧ requests new `prefix_of` (CMkdir <$> ancestors pre rest) ∧ new ≠ []).
Proof.
  revert pre s; induction rest as [|c rest IH]; intros pre s; cbn [mkdirs ancestors].
  - exists 0, s, []. unfold added. naive_solver.
  - destruct (eqc c "/") eqn:Ec; [|apply IH].
    set (e := answer (w_trace s) (CMkdir pre)). unfold mbind, M_bind. cbn [call].
    change (answer (w_trace s) (CMkdir pre)) with e. cbv zeta.
    set (s1 := push (Ev (CMkdir pre) e) s).
    assert (Hok : ∃ r s' new,
      mkdirs (String.append pre (String c EmptyString)) rest s1 = (Val r, s')
      ∧ added s s' new
      ∧ (r = 0 ∧ requests new = CMkdir <$> pre :: ancestors (String.append pre (String c EmptyString)) rest
       ∨ r = -1 ∧ requests new `prefix_of` (CMkdir <$> pre :: ancestors (String.append pre (String c EmptyString)) rest) ∧ new ≠ [])).
    { destruct (IH (String.append pre (String c EmptyString)) s1) as (r & s' & new & Hrun & Ha & Hr).
      exists r, s', (new ++ [Ev (CMkdir pre) e]). split; [done|]. unfold added, s1 in *. simpl in *.
      rewrite Ha, <-app_assoc. split; [done|]. unfold requests in *.
      rewrite fmap_app, reverse_app, fmap_cons. cbn [fmap list_fmap request reverse rev_append app].
      destruct Hr as [[-> Hr]|(-> & Hr & _)]; [left|right].
      - split; [done|]. rewrite Hr. reflexivity.
      - split_and!; [done| |by destruct new]. by apply prefix_cons. }
    destruct e; [exact Hok|exact Hok|..]; eexists _, _, [Ev (CMkdir pre) _];
      (split; [reflexivity|]); (split; [done|]); right; (split_and!; [done| |done]);
      by apply prefix_cons, prefix_nil.
Qed.

(** The initialisation returns, with 0 or -1. *)
Lemma logtrace_init_returns path mask s :
  wp (apos_ha_logtrace_init path mask) (valQ (λ r _, r = 0 ∨ r = -1)) s.
Proof.
  unfold apos_ha_logtrace_init. apply wp_valQ_bind, wp_modify.
  destruct (mask =? 0); [apply wp_ret; simpl; auto|].
  assert (Hend : ∀ (m : MW Z) s, wp m (valQ (λ r _, r = 0 ∨ r = -1)) s →
    wp (rCode ← m; if rCode =? 0 then ok ← call (CCreate path);
          modify (set_log (mkLog ok mask));; mret rCode else mret rCode)
       (valQ (λ r _, r = 0 ∨ r = -1)) s).
  { intros m s0 Hm. apply wp_valQ_bind. eapply wp_valQ_mono; [exact Hm|].
    intros r s' Hr. destruct (r =? 0); [|by apply wp_ret].
    by wp_auto. }
  apply Hend. destruct (dirname path) as [d|]; [|apply wp_ret; simpl; auto].
  wp_auto. destruct r; try (apply wp_ret; simpl; auto).
  unfold mkdirs_from. destruct (String.append d "/"); [apply wp_ret; simpl; auto|].
  apply run_wp. intros o s' Hrun. edestruct mkdirs_spec as (r & s1 & new & Hr & _ & Hor).
  rewrite Hrun in Hr. simplify_eq. simpl. tauto.
Qed.

(** Every message of up to 1022 bytes comes out as one line. *)
Lemma output_line_ends msg s :
  (0 < String.length msg ≤ 1022)%nat →
  ∃ m, output_line msg s = (Val (String.append m (String LF EmptyString)), s).
Proof.
  intros Hl. unfold output_line. rewrite snprintf_fits by lia.
  destruct (Nat.eqb_spec (String.length msg) 0); [lia|].
  destruct (Nat.ltb_spec 1023 (String.length msg)); [lia|]. cbn [orb].
  assert (Hlast : ∀ m, (0 < String.length m)%nat → ∃ p c,
    m = String.append p (String c EmptyString) ∧ String.get (pred (String.length m)) m = Some c).
  { clear. induction m as [|c m IH]; simpl; [lia|]. intros _. destruct m as [|d m].
    - by exists EmptyString, c.
    - destruct IH as (p & c' & Hm & Hg); [simpl; lia|]. exists (String c p), c'.
      rewrite append_cons, <-Hm. split; [done|]. exact Hg. }
  destruct (Hlast msg ltac:(lia)) as (p & c & Hm & ->).
  destruct (Nat.ltb_spec (S (String.length msg)) 1024); [|lia].
  destruct (eqc c LF) eqn:Ec; [|by exists msg].
  exists p. apply Ascii.eqb_eq in Ec. subst c. by rewrite <-Hm.
Qed.
End logtrace_props.
