(* ===== verification/Config.v ===== *)
(** * Configuration

    [HA_AGENT_Config] without [readMips] (which runs a command and is in
    [Mips]), and the accessor [Global::Config] that creates the object on first
    use. *)

From S2P Require Import Prelude CString Types World LogTrace.

Open Scope Z_scope.

(** [sizeof(ACE_TCHAR[256])], the buffers of the configuration, and [sizeof(buff)]
    of [readConfig]. *)
Definition BUF : nat := 256.
Definition LINE : nat := 100.

Definition noMips : MipInfoT := mkMipInfo None None 0.

(** Assignments to single members. *)
Definition set_xtimes (z : Z) (c : ConfigT) : ConfigT :=
  mkConfig z (ysecs c) (traceMask c) (rebootTmout c) (rebootCount c) (traceDir c)
    (callbackTmout c) (drbdSupervisionIntvl c) (mipInfo c).
Definition set_ysecs (z : Z) (c : ConfigT) : ConfigT :=
  mkConfig (xtimes c) z (traceMask c) (rebootTmout c) (rebootCount c) (traceDir c)
    (callbackTmout c) (drbdSupervisionIntvl c) (mipInfo c).
Definition set_traceMask (z : Z) (c : ConfigT) : ConfigT :=
  mkConfig (xtimes c) (ysecs c) z (rebootTmout c) (rebootCount c) (traceDir c)
    (callbackTmout c) (drbdSupervisionIntvl c) (mipInfo c).
Definition set_rebootTmout (z : Z) (c : ConfigT) : ConfigT :=
  mkConfig (xtimes c) (ysecs c) (traceMask c) z (rebootCount c) (traceDir c)
    (callbackTmout c) (drbdSupervisionIntvl c) (mipInfo c).
Definition set_rebootCount (z : Z) (c : ConfigT) : ConfigT :=
  mkConfig (xtimes c) (ysecs c) (traceMask c) (rebootTmout c) z (traceDir c)
    (callbackTmout c) (drbdSupervisionIntvl c) (mipInfo c).
Definition set_traceDir (d : option string) (c : ConfigT) : ConfigT :=
  mkConfig (xtimes c) (ysecs c) (traceMask c) (rebootTmout c) (rebootCount c) d
    (callbackTmout c) (drbdSupervisionIntvl c) (mipInfo c).
Definition set_callbackTmout (z : Z) (c : ConfigT) : ConfigT :=
  mkConfig (xtimes c) (ysecs c) (traceMask c) (rebootTmout c) (rebootCount c) (traceDir c)
    z (drbdSupervisionIntvl c) (mipInfo c).
Definition set_drbdSupervisionIntvl (z : Z) (c : ConfigT) : ConfigT :=
  mkConfig (xtimes c) (ysecs c) (traceMask c) (rebootTmout c) (rebootCount c) (traceDir c)
    (callbackTmout c) z (mipInfo c).
Definition set_mipInfo (m : MipInfoT) (c : ConfigT) : ConfigT :=
  mkConfig (xtimes c) (ysecs c) (traceMask c) (rebootTmout c) (rebootCount c) (traceDir c)
    (callbackTmout c) (drbdSupervisionIntvl c) m.

(** The values both [initConfig] and [readConfig] start from. *)
Definition dfltConfig (dir : option string) : ConfigT :=
  mkConfig APOS_HA_DFLT_X_TIMES APOS_HA_DFLT_Y_MSECS APOS_HA_DFLT_TRCE_CATGY
    APOS_HA_DFLT_REBOOT_TMOUT APOS_HA_DFLT_REBOOT_COUNT dir
    APOS_HA_DFLT_CALLBACK_TMOUT APOS_HA_DFLT_DRBD_SUPERVISION_INTVL noMips.

(** [getToken]: the value after the first [tok], up to white space, is moved
    left over [tok], in place.  The result is the new line and the token, or
    [None] where the code returns [NULL]. *)
Definition getToken (str : string) (tok : ascii) : option (string * string) :=
  match strchr str tok with
  | None => None
  | Some (p, q) => Some (String.append p (word q), word q)
  end.

Definition starts (s : string) (c : ascii) : bool :=
  match s with String a _ => eqc a c | EmptyString => false end.

Section config.
Context `{E : Env}.

(** [initConfig], called by the constructor only. *)
Definition initConfig (c : ConfigT) : MW (Z * ConfigT) :=
  let c := set_mipInfo (mipInfo c) (dfltConfig (traceDir c)) in
  ok ← call (CNew "traceDir");
  if (ok : bool) then
    dir ← strcpy BUF APOS_HA_DFLT_TRCE_DIR;
    mret (0, set_mipInfo noMips (set_traceDir (Some dir) c))
  else mret (-1, set_traceDir None c).

(** [HA_AGENT_Config::HA_AGENT_Config]. *)
Definition newConfig : MW ConfigT :=
  '(_, c) ← initConfig (mkConfig 0 0 0 0 0 (Some EmptyString) 0 0 noMips);
  mret c.

(** [Global::Config]. *)
Definition Config : MW (option ConfigT) :=
  o ← global m_cngObj;
  match o with
  | Some c => mret (Some c)
  | None =>
      ok ← call (CNew "HA_AGENT_Config");
      if (ok : bool) then
        c ← newConfig;
        assign (set_cngObj (Some c));;
        mret (Some c)
      else mret None
  end.

(** [Config()->getConfig()]. *)
Definition getConfig : MW ConfigT := o ← Config; deref o.

(** [m_cngObj->getConfig()], which does not create the object. *)
Definition m_cngObj_getConfig : MW ConfigT := o ← global m_cngObj; deref o.

(** One [if (strstr(ch, "KEY=") != NULL)] of [readConfig]: [ch] is the line,
    which [getToken] rewrites. *)
Definition option_line (key : string) (set : string → ConfigT → MW ConfigT)
    (st : string * ConfigT) : MW (string * ConfigT) :=
  let '(ch, c) := st in
  if strstr ch (String.append key (String "=" EmptyString)) then
    match getToken ch "=" with
    | None => undef
    | Some (ch', tmp) => c' ← set tmp c; mret (ch', c')
    end
  else mret st.

Definition set_int (set : Z → ConfigT → ConfigT) (tmp : string) (c : ConfigT) : MW ConfigT :=
  mret (set (u32 (atoi tmp)) c).

Definition readConfig_options (ch : string) (tmpConfig : ConfigT) : MW ConfigT :=
  st ← option_line "AGNT_X_TIMES" (set_int set_xtimes) (ch, tmpConfig);
  st ← option_line "AGNT_Y_MSECS" (set_int set_ysecs) st;
  st ← option_line "AGNT_REBOOT_TMOUT" (set_int set_rebootTmout) st;
  st ← option_line "AGNT_REBOOT_COUNT" (set_int set_rebootCount) st;
  st ← option_line "AGNT_CALLBACK_TMOUT" (set_int set_callbackTmout) st;
  st ← option_line "AGNT_DRBD_SUPERVISION_INTVL" (set_int set_drbdSupervisionIntvl) st;
  st ← option_line "AGNT_TRACE_CATGY"
         (λ tmp c, mret (set_traceMask (strtoull16 tmp) c)) st;
  st ← option_line "AGNT_TRACE_DIR"
         (λ tmp c, dir ← strcpy BUF tmp; mret (set_traceDir (Some dir) c)) st;
  mret st.2.

(** One iteration of the loop of [readConfig] on the line [buff]. *)
Definition readConfig_line (tmpConfig : ConfigT) (buff : string) : MW ConfigT :=
  let ch := skip_blanks (c_str buff) in
  if starts ch "#" || starts ch LF then mret tmpConfig else
  let ch := match strchr ch "#" with
            | Some (p, _) => String.append p (String LF EmptyString)
            | None => ch
            end in
  readConfig_options ch tmpConfig.

Fixpoint readConfig_lines (tmpConfig : ConfigT) (lines : list string) : MW ConfigT :=
  match lines with
  | [] => mret tmpConfig
  | l :: ls => c ← readConfig_line tmpConfig l; readConfig_lines c ls
  end.

(** [initLog]: restart tracing when its file or mask changed, then take over
    the values read. *)
Definition initLog (tmpConfig m_Config : ConfigT) : MW (Z * ConfigT) :=
  tdir ← deref (traceDir tmpConfig);
  mdir ← deref (traceDir m_Config);
  rCode ←
    if negb (streq tdir mdir) || negb (traceMask tmpConfig =? traceMask m_Config) then
      let tracefile := snprintf 256 (String.append tdir APOS_HA_AGENT_LOG_FILE) in
      r ← apos_ha_logtrace_init tracefile (u32 (traceMask tmpConfig));
      mret (if r =? 0 then 0 else -1)
    else mret 0;
  if rCode =? 0 then
    dir ← strcpy BUF tdir;
    mret (rCode,
      mkConfig (xtimes tmpConfig) (ysecs tmpConfig) (traceMask tmpConfig)
        (rebootTmout tmpConfig) (rebootCount tmpConfig) (Some dir)
        (callbackTmout tmpConfig) (drbdSupervisionIntvl m_Config) (mipInfo m_Config))
  else mret (rCode, m_Config).

(** [readConfig]. *)
Definition readConfig (m_Config : ConfigT) : MW (Z * ConfigT) :=
  fp ← call (CReadFile APOS_HA_FILE_CNFG);
  let rCode := match fp with Some _ => 0 | None => -1 end in
  ok ← call (CNew "tmpConfig.traceDir");
  dir ← if (ok : bool) then d ← strcpy BUF APOS_HA_DFLT_TRCE_DIR; mret (Some d)
        else mret None;
  let rCode := if (ok : bool) then rCode else -1 in
  let tmpConfig := dfltConfig dir in
  tmpConfig ←
    match fp with
    | Some file => if rCode =? 0 then readConfig_lines tmpConfig (fgets_lines LINE file)
                   else mret tmpConfig
    | None => mret tmpConfig
    end;
  '(rCode, m_Config) ←
    if rCode =? 0 then
      '(r, c) ← initLog tmpConfig m_Config;
      mret (if r <? 0 then -1 else 0, c)
    else mret (rCode, m_Config);
  rCode ←
    match fp with
    | Some _ => closed ← call (CClose APOS_HA_FILE_CNFG);
                mret (if (closed : bool) then rCode else -1)
    | None => mret rCode
    end;
  _ ← deref (traceDir tmpConfig);
  mret (rCode, m_Config).

(** A method that changes the configuration object, called through
    [Config()]. *)
Definition on_config (f : ConfigT → MW (Z * ConfigT)) : MW Z :=
  c ← getConfig;
  '(r, c) ← f c;
  assign (set_cngObj (Some c));;
  mret r.
End config.

(** ** The file format

    A file is a list of settings [KEY=value]; the loop of [readConfig] assigns them in
    order, as [apply_setting] says.  [initLog] then takes over all of them but one. *)

Inductive Key : Set :=
| X_TIMES | Y_MSECS | REBOOT_TMOUT | REBOOT_COUNT | CALLBACK_TMOUT
| DRBD_SUPERVISION_INTVL | TRACE_CATGY | TRACE_DIR.

#[export] Instance key_eq_dec : EqDecision Key.
Proof. solve_decision. Defined.

Definition key_name (k : Key) : string :=
  match k with
  | X_TIMES => "AGNT_X_TIMES"
  | Y_MSECS => "AGNT_Y_MSECS"
  | REBOOT_TMOUT => "AGNT_REBOOT_TMOUT"
  | REBOOT_COUNT => "AGNT_REBOOT_COUNT"
  | CALLBACK_TMOUT => "AGNT_CALLBACK_TMOUT"
  | DRBD_SUPERVISION_INTVL => "AGNT_DRBD_SUPERVISION_INTVL"
  | TRACE_CATGY => "AGNT_TRACE_CATGY"
  | TRACE_DIR => "AGNT_TRACE_DIR"
  end.

Definition apply_setting (c : ConfigT) (kv : Key * string) : ConfigT :=
  let v := kv.2 in
  match kv.1 with
  | X_TIMES => set_xtimes (u32 (atoi v)) c
  | Y_MSECS => set_ysecs (u32 (atoi v)) c
  | REBOOT_TMOUT => set_rebootTmout (u32 (atoi v)) c
  | REBOOT_COUNT => set_rebootCount (u32 (atoi v)) c
  | CALLBACK_TMOUT => set_callbackTmout (u32 (atoi v)) c
  | DRBD_SUPERVISION_INTVL => set_drbdSupervisionIntvl (u32 (atoi v)) c
  | TRACE_CATGY => set_traceMask (strtoull16 v) c
  | TRACE_DIR => set_traceDir (Some v) c
  end.

(** A value is a word without the characters the format uses. *)
Definition value_char (c : ascii) : bool :=
  negb (isspace c) && no "#" c && no "=" c && no NUL c.
Definition value_ok (v : string) : bool :=
  all_chars value_char v && (String.length v <=? 60)%nat.

Definition line_of (kv : Key * string) : string :=
  String.append (key_name kv.1) (String "=" kv.2).
Fixpoint render (kvs : list (Key * string)) : string :=
  match kvs with
  | [] => EmptyString
  | kv :: r => String.append (line_of kv) (String LF (render r))
  end.

(** The directory of a configuration is a string that fits its buffer. *)
Definition dir_ok (c : ConfigT) : Prop :=
  ∃ d, traceDir c = Some d ∧ (String.length d < BUF)%nat.

(** What [initLog] takes over from the configuration read. *)
Definition taken_over (new old : ConfigT) : ConfigT :=
  set_drbdSupervisionIntvl (drbdSupervisionIntvl old) (set_mipInfo (mipInfo old) new).

(** The settings [initLog] takes over: all but the supervision interval. *)
Definition honoured (kv : Key * string) : Prop := kv.1 ≠ DRBD_SUPERVISION_INTVL.

#[export] Instance honoured_dec kv : Decision (honoured kv).
Proof. unfold honoured. apply _. Defined.

(** The interval a file sets is lost; the other settings are not touched by it. *)
Lemma settings_honoured x c kvs :
  set_drbdSupervisionIntvl x (foldl apply_setting c kvs)
  = foldl apply_setting (set_drbdSupervisionIntvl x c) (filter honoured kvs).
Proof.
  revert c; induction kvs as [|[k v] kvs IH]; intros c; [done|]. rewrite filter_cons.
  destruct (decide (honoured (k, v))) as [Hk|Hk]; cbn [foldl]; rewrite IH.
  - f_equal. by destruct k, c.
  - f_equal. unfold honoured in Hk. destruct (decide (k = DRBD_SUPERVISION_INTVL)) as [->|]; [|done].
    by destruct c.
Qed.

Lemma value_all (f : ascii → bool) v :
  value_ok v = true → (∀ c, value_char c = true → f c = true) → all_chars f v = true.
Proof. intros [Hv _]%andb_true_iff Hf. eapply all_chars_impl; eauto. Qed.

Lemma value_no v x :
  value_ok v = true → isspace x || eqc x "#" || eqc x "=" || eqc x NUL = true →
  all_chars (no x) v = true.
Proof.
  intros Hv Hx. apply value_all; [done|]. intros c Hc. unfold value_char, no in *.
  destruct (eqc c x) eqn:Ecx; [|done]. apply Ascii.eqb_eq in Ecx. subst c.
  destruct (isspace x), (eqc x "#"), (eqc x "="), (eqc x NUL); done.
Qed.

Lemma value_length v : value_ok v = true → (String.length v ≤ 60)%nat.
Proof. intros [_ H]%andb_true_iff. by apply Nat.leb_le. Qed.

Lemma key_all x k :
  isspace x || eqc x "#" || eqc x "=" || eqc x NUL = true → all_chars (no x) (key_name k) = true.
Proof.
  intros Hx. assert (Hk : all_chars value_char (key_name k) = true) by by destruct k.
  assert (value_ok (key_name k) = true) by by destruct k. by apply value_no.
Qed.

(** One test of [readConfig_options] on the line of a setting, by [lem]. *)
Ltac options_step lem :=
  lazymatch goal with
  | |- option_line ?key _ _ _ = _ =>
      first [ change key with (key_name X_TIMES) | change key with (key_name Y_MSECS)
            | change key with (key_name REBOOT_TMOUT) | change key with (key_name REBOOT_COUNT)
            | change key with (key_name CALLBACK_TMOUT)
            | change key with (key_name DRBD_SUPERVISION_INTVL)
            | change key with (key_name TRACE_CATGY) | change key with (key_name TRACE_DIR) ];
      apply lem
  end.

Section config_props.
Context `{E : Env}.

Lemma getToken_line k v :
  value_ok v = true →
  getToken (String.append (key_name k) (String "=" (String.append v (String LF EmptyString)))) "="
  = Some (String.append (key_name k) v, v).
Proof.
  intros Hv. unfold getToken. rewrite strchr_first by by apply key_all.
  rewrite word_app; [done| |done]. apply value_all; [done|]. intros c Hc.
  unfold value_char in Hc. by destruct (isspace c).
Qed.

(** Which of the eight tests of [readConfig] the line of a setting passes. *)
Lemma strstr_line k k' v :
  value_ok v = true →
  strstr (String.append (key_name k) (String "=" (String.append v (String LF EmptyString))))
    (String.append (key_name k') (String "=" EmptyString)) = true ↔ k = k'.
Proof.
  intros Hv. rewrite strstr_cut; [| by apply key_all..|].
  - destruct k, k'; vm_compute; naive_solver.
  - rewrite all_chars_append, (value_no v) by done. done.
Qed.

Lemma option_line_other k set st s :
  strstr st.1 (String.append (key_name k) (String "=" EmptyString)) = false →
  option_line (key_name k) set st s = (Val st, s).
Proof. destruct st as [ch c]. simpl. by intros ->. Qed.

Lemma option_line_done k k' v set c s :
  value_ok v = true →
  option_line (key_name k') set
    (String.append (key_name k) v, c) s = (Val (String.append (key_name k) v, c), s).
Proof.
  intros Hv. apply option_line_other. simpl. apply strstr_no.
  rewrite all_chars_append, key_all, (value_no v); done.
Qed.

Lemma option_line_hit k v set c c' s :
  value_ok v = true → set v c s = (Val c', s) →
  option_line (key_name k) set
    (String.append (key_name k) (String "=" (String.append v (String LF EmptyString))), c) s
  = (Val (String.append (key_name k) v, c'), s).
Proof.
  intros Hv Hset. unfold option_line. rewrite (proj2 (strstr_line k k v Hv)) by done.
  rewrite getToken_line by done. unfold mbind, M_bind. by rewrite Hset.
Qed.

Lemma option_line_miss k k' v set c s :
  value_ok v = true → k ≠ k' →
  option_line (key_name k') set
    (String.append (key_name k) (String "=" (String.append v (String LF EmptyString))), c) s
  = (Val (String.append (key_name k) (String "=" (String.append v (String LF EmptyString))), c), s).
Proof.
  intros Hv Hk. apply option_line_other. simpl. apply not_true_is_false.
  by rewrite strstr_line.
Qed.

Lemma readConfig_options_of c k v s :
  value_ok v = true →
  readConfig_options
    (String.append (key_name k) (String "=" (String.append v (String LF EmptyString)))) c s
  = (Val (apply_setting c (k, v)), s).
Proof.
  intros Hv. unfold readConfig_options.
  assert (Hcpy : strcpy BUF v s = (Val v, s)).
  { unfold strcpy. pose proof (value_length v Hv). unfold BUF.
    destruct (Nat.ltb_spec (String.length v) 256); [done|lia]. }
  destruct k; repeat (erewrite bind_Val;
    [|first [ options_step option_line_done; done | options_step option_line_miss; done
            | options_step option_line_hit; [done|];
              first [reflexivity | rewrite (bind_Val _ _ _ _ _ Hcpy); reflexivity] ]]);
    reflexivity.
Qed.

(** The body of the loop assigns exactly the setting of its line. *)
Lemma readConfig_line_of c k v s :
  value_ok v = true →
  readConfig_line c (String.append (line_of (k, v)) (String LF EmptyString)) s
  = (Val (apply_setting c (k, v)), s).
Proof.
  intros Hv. unfold readConfig_line, line_of. cbn [fst snd].
  rewrite append_assoc, append_cons.
  set (l := String.append (key_name k) _).
  assert (Hno : ∀ x, isspace x || eqc x "#" || eqc x "=" || eqc x NUL = true →
    eqc "=" x = false → eqc LF x = false → all_chars (no x) l = true).
  { intros x Hx Heq Hlf. unfold l. rewrite all_chars_append, key_all by done.
    cbn [all_chars]. rewrite all_chars_append, (value_no v) by done.
    cbn [all_chars]. unfold no. by rewrite Heq, Hlf. }
  rewrite c_str_id by by apply Hno.
  replace (skip_blanks l) with l by by destruct k.
  replace (starts l "#" || starts l LF) with false by by destruct k.
  rewrite strchr_None by by apply Hno.
  apply readConfig_options_of, Hv.
Qed.

Lemma readConfig_lines_render c kvs s :
  Forall (λ kv, value_ok kv.2 = true) kvs →
  readConfig_lines c (fgets_lines LINE (render kvs)) s = (Val (foldl apply_setting c kvs), s).
Proof.
  intros Hok. revert c; induction Hok as [|[k v] kvs Hv _ IH]; intros c; [done|].
  cbn [render]. simpl in Hv. rewrite fgets_lines_line.
  - cbn [readConfig_lines]. erewrite bind_Val by by apply readConfig_line_of. apply IH.
  - unfold line_of. rewrite all_chars_append, key_all by done. simpl. by apply value_no.
  - unfold line_of. rewrite length_append. simpl. pose proof (value_length v Hv).
    unfold LINE. destruct k; simpl; lia.
Qed.

(** ** No run of [readConfig] leaves its buffers *)

Definition safe_setter (set : string → ConfigT → MW ConfigT) : Prop :=
  ∀ tmp c s, (String.length tmp < LINE)%nat → dir_ok c →
    wp (set tmp c) (valQ (λ c' s', dir_ok c' ∧ s' = s)) s.

Lemma safe_set_int set :
  (∀ z c, traceDir (set z c) = traceDir c) → safe_setter (set_int set).
Proof. intros Hset tmp c s _ Hc. apply wp_ret. unfold dir_ok in *. simpl. by rewrite Hset. Qed.

Lemma safe_set_dir :
  safe_setter (λ tmp c, dir ← strcpy BUF tmp; mret (set_traceDir (Some dir) c)).
Proof.
  intros tmp c s Hl Hc. unfold strcpy. unfold BUF, LINE in *.
  destruct (Nat.ltb_spec (String.length tmp) 256); [|lia].
  apply wp_ret. simpl. split; [|done]. by exists tmp.
Qed.

Lemma option_line_safe key set ch c s :
  safe_setter set → (String.length ch < LINE)%nat → dir_ok c →
  wp (option_line key set (ch, c))
    (valQ (λ st s', (String.length st.1 < LINE)%nat ∧ dir_ok st.2 ∧ s' = s)) s.
Proof.
  intros Hset Hch Hc. unfold option_line.
  destruct (strstr ch _) eqn:Hm; [|by apply wp_ret].
  apply strstr_spec in Hm as (a & b & Hab).
  destruct (strchr_append_is_Some (String.append a key) "=" b) as [[p q] Hpq].
  assert (Hs : strchr ch "=" = Some (p, q)).
  { rewrite <-Hpq, Hab. by rewrite !append_assoc. }
  unfold getToken. rewrite Hs. apply strchr_length in Hs.
  pose proof (length_word q).
  apply wp_valQ_bind. eapply wp_valQ_mono; [apply Hset; [lia|done]|].
  intros c' s' [Hc' ->]. apply wp_ret. simpl. rewrite length_append. split; [lia|done].
Qed.

Lemma readConfig_line_safe c buff s :
  (String.length buff < LINE)%nat → dir_ok c →
  wp (readConfig_line c buff) (valQ (λ c' s', dir_ok c' ∧ s' = s)) s.
Proof.
  intros Hl Hc. unfold readConfig_line. set (ch := skip_blanks (c_str buff)).
  assert (Hch : (String.length ch < LINE)%nat).
  { unfold ch. pose proof (length_skip_blanks (c_str buff)). pose proof (length_c_str buff). lia. }
  destruct (starts ch "#" || starts ch LF); [by apply wp_ret|]. cbv zeta.
  set (ch' := match strchr ch "#" with Some _ => _ | None => _ end).
  assert (Hch' : (String.length ch' < LINE)%nat).
  { unfold ch'. destruct (strchr ch "#") as [[p q]|] eqn:Hp; [|done].
    apply strchr_length in Hp. rewrite length_append. simpl. lia. }
  clearbody ch'. unfold readConfig_options.
  do 8 (apply wp_valQ_bind; eapply wp_valQ_mono;
    [ apply option_line_safe; [first [by apply safe_set_int | by apply safe_set_dir
        | (intros ? ? ? ? ?; by apply wp_ret) ] | done | done ]
    | intros [? ?] ? (? & ? & ->); cbn [fst snd] in * ]).
  by apply wp_ret.
Qed.

Lemma readConfig_lines_safe c lines s :
  Forall (λ l, (String.length l < LINE)%nat) lines → dir_ok c →
  wp (readConfig_lines c lines) (valQ (λ c' s', dir_ok c' ∧ s' = s)) s.
Proof.
  intros Hl. revert c; induction Hl as [|l lines Hl _ IH]; intros c Hc; cbn [readConfig_lines].
  - by apply wp_ret.
  - apply wp_valQ_bind. eapply wp_valQ_mono; [by apply readConfig_line_safe|].
    intros c' s' [Hc' ->]. by apply IH.
Qed.

Lemma initLog_spec tmp m s :
  dir_ok tmp → dir_ok m →
  wp (initLog tmp m) (valQ (λ rc _,
    rc.1 = 0 ∧ rc.2 = taken_over tmp m
    ∨ rc.1 = -1 ∧ rc.2 = m ∧ (traceDir tmp ≠ traceDir m ∨ traceMask tmp ≠ traceMask m))) s.
Proof.
  intros (td & Htd & Hlt) (md & Hmd & Hlm). unfold initLog. rewrite Htd, Hmd.
  assert (Hok : ∀ s' : World, wp (dir ← strcpy BUF td; mret (0,
    mkConfig (xtimes tmp) (ysecs tmp) (traceMask tmp) (rebootTmout tmp) (rebootCount tmp)
      (Some dir) (callbackTmout tmp) (drbdSupervisionIntvl m) (mipInfo m)))
    (valQ (λ rc _, rc.1 = 0 ∧ rc.2 = taken_over tmp m)) s').
  { intros s'. unfold strcpy. destruct (Nat.ltb_spec (String.length td) BUF); [|lia].
    apply wp_ret. simpl. split; [done|]. unfold taken_over. destruct tmp. simpl in *. by subst. }
  do 2 (apply wp_valQ_bind, wp_ret; cbn [valQ]).
  destruct (negb (streq td md) || negb (traceMask tmp =? traceMask m)) eqn:Hd.
  - apply wp_valQ_bind, wp_valQ_bind. eapply wp_valQ_mono; [apply logtrace_init_returns|].
    intros r s' [-> | ->]; apply wp_ret; cbn [valQ Z.eqb].
    + eapply wp_valQ_mono; [apply Hok|]. simpl. tauto.
    + apply wp_ret. right. split_and!; [done..|].
      apply orb_true_iff in Hd as [Hd|Hd]; apply negb_true_iff in Hd; [left|right].
      * intros [= ->]. by rewrite streq_refl in Hd.
      * by apply Z.eqb_neq.
  - apply wp_valQ_bind, wp_ret. cbn [valQ Z.eqb]. eapply wp_valQ_mono; [apply Hok|]. simpl. tauto.
Qed.

Hypothesis alloc_ok : ∀ t, answer t (CNew "tmpConfig.traceDir") = true.

(** [readConfig] in terms of what its loop computes on the lines. *)
Lemma readConfig_run m s file (P : ConfigT → Prop) :
  answer (w_trace s) (CReadFile APOS_HA_FILE_CNFG) = file → dir_ok m →
  (∀ c, P c → dir_ok c) →
  (∀ f s', file = Some f →
    wp (readConfig_lines (dfltConfig (Some APOS_HA_DFLT_TRCE_DIR)) (fgets_lines LINE f))
      (valQ (λ c s'', P c ∧ s'' = s')) s') →
  wp (readConfig m) (valQ (λ rc _,
    (rc.1 = 0 ∨ rc.1 = -1) ∧
    ((∃ tmp, P tmp ∧ rc.2 = taken_over tmp m)
     ∨ rc.1 = -1 ∧ rc.2 = m ∧ (file = None ∨ ∃ tmp, P tmp ∧
         (traceDir tmp ≠ traceDir m ∨ traceMask tmp ≠ traceMask m))))) s.
Proof.
  intros Hfile Hm HP Hlines. unfold readConfig. do 4 wp_prim.
  rewrite Hfile in H. rewrite alloc_ok in H0. subst r r0. wp_auto.
  apply wp_strcpy; [vm_compute; lia|]. wp_auto. destruct file as [f|].
  - cbn [Z.eqb]. eapply wp_valQ_mono; [by apply Hlines|].
    intros tmp ? [Htmp ->]. apply wp_valQ_bind, wp_valQ_bind.
    eapply wp_valQ_mono; [by apply initLog_spec; [apply HP|]|].
    intros [r c] s' Hrc. destruct (HP _ Htmp) as (d & Hdir & _). wp_auto. rewrite Hdir. wp_auto.
    cbn [fst snd] in *.
    destruct Hrc as [[-> ->]|(-> & -> & Hd)]; (split; [by case_match; auto|]); [by eauto|].
    right. split; [by case_match|]. eauto.
  - wp_auto. cbn [traceDir dfltConfig]. wp_auto. split; [by right|]. right. auto.
Qed.

Lemma foldl_dir_ok c kvs :
  dir_ok c → Forall (λ kv, value_ok kv.2 = true) kvs → dir_ok (foldl apply_setting c kvs).
Proof.
  intros Hc Hok. revert c Hc; induction Hok as [|[k v] kvs Hv _ IH]; intros c Hc; [done|].
  apply IH. destruct k; try exact Hc. exists v. split; [done|].
  pose proof (value_length v Hv). unfold BUF. simpl. lia.
Qed.

Lemma dflt_dir_ok : dir_ok (dfltConfig (Some APOS_HA_DFLT_TRCE_DIR)).
Proof. exists APOS_HA_DFLT_TRCE_DIR. split; [done|]. vm_compute. lia. Qed.

(** C28: Reading back a configuration file.  When the file lists settings
    [KEY=value], one per line, with words of at most 60 characters as values, and there is
    memory for the name of the directory, [readConfig] returns, and either the configuration is
    the default one with the settings applied in order, or an error is reported and the
    configuration is as it was, which can only happen when the trace file or mask
    changes.  One key is lost: [AGNT_DRBD_SUPERVISION_INTVL] is read, but whatever the
    file says of it the interval stays what it was, as the MIP table does. *)
Theorem readConfig_refines m s kvs :
  answer (w_trace s) (CReadFile APOS_HA_FILE_CNFG) = Some (render kvs) →
  dir_ok m → Forall (λ kv, value_ok kv.2 = true) kvs →
  let dflt := set_drbdSupervisionIntvl (drbdSupervisionIntvl m) (dfltConfig (Some APOS_HA_DFLT_TRCE_DIR)) in
  let new := foldl apply_setting dflt (filter honoured kvs) in
  ∃ r c s', readConfig m s = (Val (r, c), s') ∧ (r = 0 ∨ r = -1) ∧
    drbdSupervisionIntvl c = drbdSupervisionIntvl m ∧
    (c = set_mipInfo (mipInfo m) new
     ∨ r = -1 ∧ c = m ∧ (traceDir new ≠ traceDir m ∨ traceMask new ≠ traceMask m)).
Proof.
  intros Hfile Hm Hok dflt new.
  set (all := foldl apply_setting (dfltConfig (Some APOS_HA_DFLT_TRCE_DIR)) kvs).
  assert (Hnew : new = set_drbdSupervisionIntvl (drbdSupervisionIntvl m) all)
    by (symmetry; apply settings_honoured).
  assert (Hdir : dir_ok all) by by apply foldl_dir_ok; [apply dflt_dir_ok|].
  destruct (wp_valQ_run _ _ _ (readConfig_run m s _ (eq all) Hfile Hm
    (λ c Hc, eq_ind _ dir_ok Hdir _ Hc)
    (λ f s' Hf, ltac:(simplify_eq; apply run_wp; intros o s1 Hrun;
       rewrite readConfig_lines_render in Hrun by done; by simplify_eq))))
    as ([r c] & s' & Hrun & Hr & Hc).
  exists r, c, s'. split; [done|]. split; [done|]. simpl in Hc. rewrite Hnew.
  destruct Hc as [(? & <- & ->)|(-> & -> & [Hf|(? & <- & Hf)])]; [|done|by split; [|right]].
  split; [done|]. left. by destruct all.
Qed.

(** Whatever bytes the configuration file holds, [readConfig] returns: no
    line, token or directory leaves its buffer and no null pointer is used.
    The configuration stays well formed, and its supervision interval is never
    changed. *)
Theorem readConfig_safe m s :
  dir_ok m →
  ∃ r c s', readConfig m s = (Val (r, c), s') ∧ (r = 0 ∨ r = -1) ∧ dir_ok c
    ∧ drbdSupervisionIntvl c = drbdSupervisionIntvl m ∧ mipInfo c = mipInfo m.
Proof.
  intros Hm.
  destruct (wp_valQ_run _ _ _ (readConfig_run m s _ dir_ok eq_refl Hm (λ _ H, H)
    (λ f s' _, readConfig_lines_safe _ _ s'
       (fgets_lines_length LINE f ltac:(unfold LINE; lia)) dflt_dir_ok)))
    as ([r c] & s' & Hrun & Hr & Hc).
  exists r, c, s'. split; [done|]. split; [done|]. simpl in Hc.
  destruct Hc as [(tmp & Hd & ->)|(_ & -> & _)]; split_and!; done.
Qed.
End config_props.

(** ** Examples *)

Definition example_settings : list (Key * string) :=
  [(X_TIMES, "5"%string); (TRACE_CATGY, "0x1"%string); (DRBD_SUPERVISION_INTVL, "9"%string)].

Definition example_env : Env :=
  {| answer := λ _ c, match c with CReadFile _ => Some (render example_settings) | c => dflt c end |}.

Lemma readConfig_refines_witness :
  ∃ r c s', readConfig (E:=example_env) (dfltConfig (Some APOS_HA_DFLT_TRCE_DIR)) newWorld
    = (Val (r, c), s') ∧ xtimes c = 5 ∧ drbdSupervisionIntvl c = 2000.
Proof.
  destruct (readConfig_refines (E:=example_env) (λ _, eq_refl)
    (dfltConfig (Some APOS_HA_DFLT_TRCE_DIR)) newWorld example_settings eq_refl dflt_dir_ok)
    as (r & c & s' & Hrun & _ & _ & Hc).
  - by repeat constructor.
  - exists r, c, s'. split; [exact Hrun|].
    destruct Hc as [->|(_ & _ & [Hd|Hm])].
    + by vm_compute.
    + by vm_compute in Hd.
    + by vm_compute in Hm.
Defined.

Lemma readConfig_safe_witness :
  ∃ r c s', readConfig (E:=calm) (dfltConfig (Some APOS_HA_DFLT_TRCE_DIR)) newWorld
    = (Val (r, c), s') ∧ drbdSupervisionIntvl c = 2000.
Proof.
  destruct (readConfig_safe (E:=calm) (λ _, eq_refl)
    (dfltConfig (Some APOS_HA_DFLT_TRCE_DIR)) newWorld dflt_dir_ok)
    as (r & c & s' & Hrun & _ & _ & Hc & _).
  exists r, c, s'. split; [exact Hrun|exact Hc].
Defined.
