(* ===== verification/Utils.v ===== *)
(** * Utilities

    [HA_AGENT_Utils]: the identity of the node, running commands in a child
    process, the reboot-count file, the event sent to AEH, and the queries of
    the DRBD state; with the accessor [Global::Utils].  [forceExit] needs the
    fail-over of [Global] and is in [Failover]. *)

From stdpp Require Import pretty.
From S2P Require Import Prelude CString Types World LogTrace Config.

Open Scope Z_scope.

Definition newUtils : UtilsT := mkUtils false false.

(** [sizeof(readLine) - 1] of [runCommand], and [sizeof(SOURCE)] of [fillEvent]. *)
Definition READLINE : nat := Z.to_nat 9999.
Definition SOURCE : nat := 26.

(** The argument of [alarm] in the child: unsigned arithmetic on the timeout.  A
    child that finds no configuration object makes one with the defaults. *)
Definition alarm_secs (g : GlobalT) : Z :=
  let tmout := match m_cngObj g with
               | Some c => callbackTmout c
               | None => APOS_HA_DFLT_CALLBACK_TMOUT
               end in
  u32 (tmout / APOS_HA_ONESEC_IN_MILLI - 1).

(** How [runCommand] strips one piece of output in [readLine]: first the last
    byte, then the one before it.  [None] where it reads [readLine[-1]]. *)
Definition is_eol (c : option ascii) : bool :=
  match c with Some a => eqc a CR || eqc a LF | None => false end.
Definition strip_eol (piece : string) : option string :=
  let newbuflen := String.length piece in
  if (newbuflen <? 2)%nat then None
  else if is_eol (String.get (newbuflen - 2) piece) then Some (take (newbuflen - 2) piece)
  else if is_eol (String.get (newbuflen - 1) piece) then Some (take (newbuflen - 1) piece)
  else Some piece.

Section utils.
Context `{E : Env}.

(** [Global::Utils]. *)
Definition Utils : MW (option UtilsT) :=
  o ← global m_utilObj;
  match o with
  | Some u => mret (Some u)
  | None =>
      ok ← call (CNew "HA_AGENT_Utils");
      if (ok : bool) then
        assign (set_utilObj (Some newUtils));;
        mret (Some newUtils)
      else mret None
  end.

(** A method called through [Utils()] or through [m_utilObj]. *)
Definition Utils_ {A} (m : MW A) : MW A := o ← Utils; _ ← deref o; m.
Definition m_utilObj_ {A} (m : MW A) : MW A := o ← global m_utilObj; _ ← deref o; m.

(** [Ap]: [fscanf("%10s")] stores up to ten bytes and a NUL in [buff[10]]. *)
Definition Ap (u : UtilsT) : MW (Z * UtilsT) :=
  fp ← call (CReadFile APOS_HA_FILE_NODE_ID);
  match fp with
  | None => mret (-1, u)
  | Some file =>
      let tok := take 10 (word (skip_space file)) in
      if streq tok EmptyString then mret (-1, u) else
      buff ← strcpy 10 tok;
      closed ← call (CClose APOS_HA_FILE_NODE_ID);
      if negb closed then mret (-1, u) else
      let node_id := u32 (atoi buff) in
      if node_id =? APOS_HA_NODE_ONE then mret (0, mkUtils true (ap_2 u))
      else if node_id =? APOS_HA_NODE_TWO then mret (0, mkUtils (ap_1 u) true)
      else mret (-1, u)
  end.

(** [init]; [Gep] does nothing and returns 0. *)
Definition Utils_init (u : UtilsT) : MW (Z * UtilsT) :=
  '(r, u) ← Ap u;
  mret (if r <? 0 then -1 else 0, u).

Definition on_utils (f : UtilsT → MW (Z * UtilsT)) : MW Z :=
  o ← Utils;
  u ← deref o;
  '(r, u) ← f u;
  assign (set_utilObj (Some u));;
  mret r.

(** [msec_sleep]. *)
Definition msec_sleep (msecs : Z) : MW unit := call (CSleep msecs).

(** [_execlp]. *)
Definition _execlp (cmdStr : string) : MW Z :=
  alarm ← global alarm_secs;
  res ← call (CExec cmdStr alarm);
  match res with
  | ForkFailed => mret (-1)
  | ChildStatus status => mret (if status =? 0 then 0 else -1)
  end.

(** [_execvp]: the result and what [*outstr] points to. *)
Definition _execvp (argv : list string) : MW (Z * option string) :=
  alarm ← global alarm_secs;
  res ← call (CExecvp argv alarm);
  if negb (xv_pipe res) then mret (-1, None)
  else if negb (xv_fork res) then mret (-1, None)
  else
    let outstr := if xv_ready res then c_str <$> xv_out res else None in
    let rCode := match outstr with Some _ => 0 | None => -1 end in
    mret (if xv_status res =? 0 then rCode else -1, outstr).

(** [FileExist], [createRCF] and [removeRCF]: the reboot-count file. *)
Definition FileExist : MW bool := gets (λ s, bool_decide (is_Some (w_rcf s))).

Definition createRCF : MW Z :=
  ex ← FileExist;
  if (ex : bool) then mret 0 else
  ok ← call (CCreate APOS_HA_FILE_RC);
  if (ok : bool) then
    c ← getConfig;
    let text := String.append (pretty (i32 (rebootCount c))) (String LF EmptyString) in
    n ← call (CWrite APOS_HA_FILE_RC text);
    modify (set_rcf (Some (if n <? 0 then EmptyString else text)));;
    mret 0
  else mret (-1).

Definition removeRCF : MW Z :=
  ex ← FileExist;
  if (ex : bool) then
    ok ← call (CUnlink APOS_HA_FILE_RC);
    if (ok : bool) then modify (set_rcf None);; mret 0 else mret (-1)
  else mret 0.

(** [fillEvent]: [sprintf] into [SOURCE[26]]. *)
Definition fillEvent (u : UtilsT) : MW string :=
  pid ← call CGetpid;
  src ← strcpy SOURCE
    (String.append "apos_ha_rdeagentd:" (String.append (pretty (pid : Z)) " "));
  mret (concat_str
    [ if ap_1 u then "SC-2-1 "%string else "SC-2-2 "%string;
      "PASSIVE "%string; "error "%string; "root "%string; src;
      "10007 "%string; "EVENT "%string; "0 "%string;
      "P_CAUSE: DATA DISK INCONSISTENT "%string; "CLASS_REF: APZ "%string;
      "OBJ_REF: apos_ha_rdeagentd "%string;
      "P_DATA: Non recoverable fault on Active node during data disk synchronization. No Active node found in the cluster and peer node cannot be granted as Active because of data disk on this node not consistent"%string ]).

(** [APEvent]. *)
Definition APEvent (u : UtilsT) : MW Z :=
  opened ← call (CFileOp "open AEH FIFO");
  if negb opened then mret (-1) else
  message ← fillEvent u;
  written ← call (CWrite APOS_HA_AGENT_AEH_FIFO message);
  closed ← call (CClose APOS_HA_AGENT_AEH_FIFO);
  mret (if (written =? Z.of_nat (String.length message)) && closed then 0 else -1).

(** [runCommand]: the pieces [fgets] reads, stripped and put together. *)
Fixpoint runCommand_loop (pieces : list string) (output : string) : option string :=
  match pieces with
  | [] => Some output
  | p :: ps =>
      match strip_eol (c_str p) with
      | None => None
      | Some l => runCommand_loop ps (String.append output l)
      end
  end.

Definition runCommand (command : string) : MW (bool * string) :=
  fp ← call (CPopen command);
  match fp with
  | None => mret (false, EmptyString)
  | Some out =>
      output ← deref (runCommand_loop (fgets_lines READLINE out) EmptyString);
      mret (true, output)
  end.

Definition cmd_disk (resource : string) (isLocal : bool) : string :=
  concat_str
    (if isLocal then
       [ "drbdadm status "%string; resource; " |grep -w "%string; DQ; " disk"%string; DQ;
         " |awk -F : '{print $2}' | awk '{print $1}'"%string ]
     else
       [ "drbdadm status "%string; resource; " |grep -w "%string; DQ; " peer-disk"%string; DQ;
         " |awk -F 'peer-disk:' '{print $2}' | awk '{print $1}'"%string ]).

(** [getDiskState]: whether it succeeded, and [state]. *)
Definition getDiskState (resource : string) (isLocal : bool) : MW (bool * string) :=
  if streq resource EmptyString then mret (false, EmptyString)
  else runCommand (cmd_disk resource isLocal).

Definition cmd_local_role (resource : string) : string :=
  concat_str [ "drbdadm status "%string; resource; " |grep "%string; DQ; resource;
               " role"%string; DQ; " |awk -F : '{print $2}'"%string ].
Definition cmd_peer_role (resource peer_name : string) : string :=
  concat_str [ "drbdadm status "%string; resource; " |grep -w "%string; DQ; peer_name;
               " role"%string; DQ; " |awk -F : '{print $2}' |awk '{print $1}'"%string ].
Definition cat_cmd : string := "cat /etc/cluster/nodes/peer/hostname".

(** [getDrbdRole]. *)
Definition getDrbdRole (resource : string) (isLocal : bool) : MW (bool * string) :=
  if streq resource EmptyString then mret (false, EmptyString) else
  if isLocal then runCommand (cmd_local_role resource) else
  '(ok, peer_name) ← runCommand cat_cmd;
  if (ok : bool) then runCommand (cmd_peer_role resource peer_name)
  else mret (false, EmptyString).

Definition cmd_replication (resource : string) : string :=
  concat_str [ "drbdsetup status "%string; resource; " --verbose | grep "%string; DQ;
               "replication"%string; DQ; " | awk -F "%string; DQ; "replication:"%string; DQ;
               " '{print $2}' | awk '{print $1}'"%string ].
Definition cmd_connection (resource : string) : string :=
  concat_str [ "drbdsetup status "%string; resource; " --verbose | grep "%string; DQ;
               "connection"%string; DQ; " | awk -F "%string; DQ; "connection:"%string; DQ;
               " '{print $2}' | awk '{print $1}'"%string ].

(** [getConnectedState]: the replication state, or the connection state where
    replication says [Established] or [Off]. *)
Definition getConnectedState (resource : string) : MW (bool * string) :=
  if streq resource EmptyString then mret (false, EmptyString) else
  '(ok1, temp) ← runCommand (cmd_replication resource);
  state ←
    (if negb ok1 then mret EmptyString
     else if streq temp "Established" || streq temp "Off" then
       '(ok2, temp2) ← runCommand (cmd_connection resource);
       mret (if (ok2 : bool) then temp2 else EmptyString)
     else mret temp);
  mret (negb (streq state EmptyString), state).
End utils.

(** ** Properties *)

Section utils_frames.
Context `{E : Env}.

Lemma Config_frame R `{!QueryFrame R} : steps R Config.
Proof.
  intros s. unfold Config. change (wp Config (λ _ s', R s s') s).
  unfold Config, newConfig, initConfig. wp_auto.
  destruct (m_cngObj (w_glob s)) as [c|] eqn:Hc; wp_auto; [done|].
  destruct r; wp_auto; [|by apply frame_push].
  assert (Hnew : ∀ c r2, R s (set_glob (set_cngObj (Some c))
    (push (Ev (CNew "traceDir") r2) (push (Ev (CNew "HA_AGENT_Config") true) s)))).
  { intros c r2. etrans; [|by apply frame_config]. etrans; by apply frame_push. }
  destruct r; wp_auto.
  - apply wp_strcpy; [vm_compute; lia|]. wp_auto. apply Hnew.
  - apply Hnew.
Qed.

Lemma getConfig_frame R `{!QueryFrame R} : steps R getConfig.
Proof. pose proof (Config_frame R). unfold getConfig. solve_steps. Qed.
Hint Resolve Config_frame getConfig_frame : steps.

Context {R : relation World} `{!QueryFrame R}.

Lemma Utils_frame : steps R Utils.
Proof. unfold Utils. solve_steps. intros s. apply frame_utils. Qed.
Hint Resolve Utils_frame : steps.

Lemma Utils__frame {A} (m : MW A) : steps R m → steps R (Utils_ m).
Proof. intros Hm. unfold Utils_. solve_steps. Qed.

Lemma m_utilObj__frame {A} (m : MW A) : steps R m → steps R (m_utilObj_ m).
Proof. intros Hm. unfold m_utilObj_. solve_steps. Qed.

Lemma msec_sleep_frame ms : steps R (msec_sleep ms).
Proof. unfold msec_sleep. solve_steps. Qed.

Lemma execlp_frame cmd : (∀ a, is_start (CExec cmd a) = false) → steps R (_execlp cmd).
Proof.
  intros Hc. unfold _execlp. apply steps_bind; [apply _|solve_steps|intros a].
  apply steps_bind; [apply _|apply frame_call; [apply _|done]|intros r]. solve_steps.
Qed.

Lemma execvp_frame argv : steps R (_execvp argv).
Proof. unfold _execvp. solve_steps. Qed.

Lemma createRCF_frame R' `{!Frame R'} : steps R' createRCF.
Proof. unfold createRCF, FileExist. solve_steps. Qed.

Lemma removeRCF_frame R' `{!Frame R'} : steps R' removeRCF.
Proof. unfold removeRCF, FileExist. solve_steps. Qed.

Lemma APEvent_frame u : steps R (APEvent u).
Proof. unfold APEvent, fillEvent. solve_steps. Qed.

Lemma runCommand_frame cmd : steps R (runCommand cmd).
Proof. unfold runCommand. solve_steps. Qed.
Hint Resolve runCommand_frame : steps.

Lemma getDiskState_frame r l : steps R (getDiskState r l).
Proof. unfold getDiskState. solve_steps. Qed.

Lemma getDrbdRole_frame r l : steps R (getDrbdRole r l).
Proof. unfold getDrbdRole. solve_steps. Qed.

Lemma getConnectedState_frame r : steps R (getConnectedState r).
Proof. unfold getConnectedState. solve_steps. Qed.
End utils_frames.

#[export] Hint Resolve Config_frame getConfig_frame Utils_frame Utils__frame m_utilObj__frame
  msec_sleep_frame execvp_frame createRCF_frame removeRCF_frame APEvent_frame
  runCommand_frame getDiskState_frame getDrbdRole_frame getConnectedState_frame : steps.

(** A line of output: not empty, and without line ends of its own. *)
Definition LINEMAX : nat := Z.to_nat 9998.
Definition line_char (c : ascii) : bool := no LF c && no CR c && no NUL c.
Definition line_ok (l : string) : bool :=
  all_chars line_char l && (0 <? String.length l)%nat && (String.length l <? LINEMAX)%nat.

Lemma strip_eol_line l :
  all_chars line_char l = true → (0 < String.length l)%nat →
  strip_eol (String.append l (String LF EmptyString)) = Some l.
Proof.
  intros Hl Hn. unfold strip_eol. rewrite length_append. cbn [String.length].
  destruct (Nat.ltb_spec (String.length l + 1) 2); [lia|].
  replace (String.length l + 1 - 2)%nat with (pred (String.length l)) by lia.
  replace (String.length l + 1 - 1)%nat with (String.length l) by lia.
  destruct (get_append_l _ l (String LF EmptyString) (pred (String.length l)) Hl) as (c & -> & Hc);
    [lia|].
  assert (is_eol (Some c) = false) as ->.
  { unfold line_char, no, is_eol in *. by destruct (eqc c CR), (eqc c LF). }
  by rewrite get_append_r, take_append.
Qed.

Section utils_props.
Context `{E : Env}.

Lemma runCommand_loop_lines ls out :
  Forall (λ l, line_ok l = true) ls →
  runCommand_loop ((λ l, String.append l (String LF EmptyString)) <$> ls) out
  = Some (String.append out (concat_str ls)).
Proof.
  intros Hls. revert out; induction Hls as [|l ls Hl _ IH]; intros out.
  - simpl. by rewrite append_nil_r.
  - unfold line_ok in Hl. rewrite !andb_true_iff in Hl. destruct Hl as [[Hl Hn] _].
    rewrite fmap_cons. cbn [runCommand_loop].
    rewrite c_str_id, strip_eol_line.
    + rewrite IH. simpl. by rewrite append_assoc.
    + done.
    + by apply Nat.ltb_lt.
    + rewrite all_chars_append. apply andb_true_iff. split; [|done].
      eapply all_chars_impl; [|exact Hl]. unfold line_char. intros c.
      by destruct (no LF c), (no CR c), (no NUL c).
Qed.

(** [e] is the answer to the command [cmd] from which [runCommand] reads
    [text]. *)
Definition reported (cmd text : string) (e : Event) : Prop :=
  ∃ out, e = Ev (CPopen cmd) (Some out)
    ∧ runCommand_loop (fgets_lines READLINE out) EmptyString = Some text.

(** [runCommand] adds one event, and succeeds only with what it reports. *)
Lemma runCommand_spec cmd s :
  wp (runCommand cmd) (λ o s', ∃ e, s' = push e s ∧
    (o = Undef ∨ o = Val (false, EmptyString) ∨ ∃ text, o = Val (true, text) ∧ reported cmd text e)) s.
Proof.
  unfold runCommand. wp_auto. destruct r as [out|]; [|wp_auto; eauto].
  destruct (runCommand_loop _ _) as [text|] eqn:Hl; cbn [deref].
  - wp_auto. eexists. split; [done|]. right. right. exists text. split; [done|]. by exists out.
  - apply wp_bind, wp_undef. cbn [thenQ]. eauto.
Qed.

(** [runCommand] returns the output of its command with the line ends
    removed, for every output made of non-empty lines that fit the buffer. *)
Lemma runCommand_output cmd ls s :
  answer (w_trace s) (CPopen cmd) = Some (text_of ls) →
  Forall (λ l, line_ok l = true) ls →
  runCommand cmd s
  = (Val (true, concat_str ls), push (Ev (CPopen cmd) (Some (text_of ls))) s).
Proof.
  intros Ha Hls. unfold runCommand. rewrite (bind_call (CPopen cmd)), Ha.
  rewrite fgets_lines_text.
  - by rewrite runCommand_loop_lines.
  - eapply Forall_impl; [exact Hls|]. intros l Hl. unfold line_ok in Hl.
    rewrite !andb_true_iff in Hl. destruct Hl as [[Hl _] Hn]. split.
    + eapply all_chars_impl; [|exact Hl]. unfold line_char. intros c. by destruct (no LF c).
    + apply Nat.ltb_lt in Hn. change READLINE with (S LINEMAX). lia.
Qed.

(** A command that prints an empty line first sends [runCommand] outside its
    buffer: it reads [readLine[-1]]. *)
Lemma runCommand_blank_line cmd out s :
  answer (w_trace s) (CPopen cmd) = Some (String LF out) →
  (runCommand cmd s).1 = Undef.
Proof.
  intros Ha. unfold runCommand. by rewrite (bind_call (CPopen cmd)), Ha.
Qed.
End utils_props.

Definition uptodate_env : Env :=
  {| answer := λ _ c, match c with CPopen _ => Some (text_of ["UpToDate"%string]) | c => dflt c end |}.

Lemma runCommand_output_witness :
  runCommand (E:=uptodate_env) "drbdadm" newWorld
  = (Val (true, "UpToDate"%string), push (Ev (CPopen "drbdadm") (Some (text_of ["UpToDate"%string]))) newWorld).
Proof. apply (runCommand_output (E:=uptodate_env) "drbdadm" ["UpToDate"%string]); [done|]. by repeat constructor. Defined.

Definition blank_env : Env :=
  {| answer := λ _ c, match c with CPopen _ => Some (String LF EmptyString) | c => dflt c end |}.

Lemma runCommand_blank_line_witness :
  (runCommand (E:=blank_env) "drbdadm" newWorld).1 = Undef.
Proof. apply (runCommand_blank_line (E:=blank_env) "drbdadm" EmptyString). done. Defined.
