(* ===== verification/PowerOff.v ===== *)
(** * Persistent state across power-off

    [HA_AGENT_PWROff]: the file that keeps the DRBD connection state and the
    number of reboots over a restart, mapped into memory, and the queries of the
    local and the peer's DRBD state; with the accessor [Global::PWROff]. *)

From S2P Require Import Prelude CString Types World LogTrace Config Utils.

Open Scope Z_scope.

(** [sizeof] of the members [cstate], [role] and [dstate]. *)
Definition STATE : nat := 16.

(** The file as [open] creates it: it reads as zeros. *)
Definition zeroInfo : PersistantInfoT := mkPInfo EmptyString 0.

(** The write of one NUL at offset [sizeof(HA_AGENT_PersistantInfoT) - 1], the
    most significant byte of [rebootCount]. *)
Definition clear_last_byte (p : PersistantInfoT) : PersistantInfoT :=
  mkPInfo (p_cstate p) (p_rebootCount p mod 2 ^ 24).

Definition newPWROff : PWROffT := mkPWROff MapNull.

Section poweroff.
Context `{E : Env}.

(** One query of [drbdinfo] or [peerdrbdinfo]: [strncpy] into 16 bytes with a
    NUL at the end.  The field is left zeroed when the query fails. *)
Definition query (m : MW (bool * string)) : MW (bool * string) :=
  '(found, st) ← m;
  mret (if (found : bool) then (true, snprintf STATE (c_str st)) else (false, EmptyString)).

(** [drbdinfo]. *)
Definition drbdinfo : MW (Z * DRBD_InfoT) :=
  '(f1, cs) ← query (Utils_ (getConnectedState "drbd1"));
  '(f2, ro) ← query (Utils_ (getDrbdRole "drbd1" true));
  '(f3, ds) ← query (Utils_ (getDiskState "drbd1" true));
  let ok := (f1 : bool) && f2 && f3 in
  mret (if ok then 0 else -1, mkDRBD ok cs ro ds EmptyString).

(** [peerdrbdinfo]. *)
Definition peerdrbdinfo : MW (Z * DRBD_InfoT) :=
  '(f1, cs) ← query (Utils_ (getConnectedState "drbd1"));
  '(f2, ro) ← query (Utils_ (getDrbdRole "drbd1" false));
  '(f3, ds) ← query (Utils_ (getDiskState "drbd1" false));
  let ok := (f1 : bool) && f2 && f3 in
  mret (if ok then 0 else -1, mkDRBD ok cs ro ds EmptyString).

(** [get_persis_info]: [m_map] is used unchecked. *)
Definition get_persis_info (p : PWROffT) : MW PersistantInfoT :=
  match m_map p with
  | Mapped =>
      info ← (o ← gets w_psst; deref o);
      cs ← strcpy STATE (p_cstate info);
      mret (mkPInfo cs (p_rebootCount info))
  | MapNull | MAP_FAILED => undef
  end.

(** [write_persis_info]: it does nothing when [m_map] is null, and always
    returns [true]. *)
Definition write_persis_info (p : PWROffT) (info : PersistantInfoT) : MW unit :=
  match m_map p with
  | Mapped =>
      cs ← strcpy STATE (p_cstate info);
      modify (set_psst (Some (mkPInfo cs (p_rebootCount info))))
  | MapNull => mret tt
  | MAP_FAILED => undef
  end.

(** [init] on a file that exists. *)
Definition init_existing (p : PWROffT) : MW (Z * PWROffT) :=
  opened ← call (CFileOp "open psst");
  if negb opened then mret (-1, p) else
  sought ← call (CFileOp "lseek psst");
  if negb sought then mret (-1, p) else
  written ← call (CFileOp "write psst");
  if negb written then mret (-1, p) else
  modify (λ s, set_psst (clear_last_byte <$> w_psst s) s);;
  mapped ← call (CFileOp "mmap psst");
  mret (if (mapped : bool) then (0, mkPWROff Mapped) else (-1, mkPWROff MAP_FAILED)).

(** [init] on a new file: [lseek] runs even where [open] failed. *)
Definition init_new (p : PWROffT) : MW (Z * PWROffT) :=
  opened ← call (CFileOp "open psst");
  (if (opened : bool) then modify (set_psst (Some zeroInfo)) else mret tt);;
  sought ← call (CFileOp "lseek psst");
  if negb (opened && sought) then mret (-1, p) else
  written ← call (CFileOp "write psst");
  if negb written then mret (-1, p) else
  mapped ← call (CFileOp "mmap psst");
  if negb mapped then mret (-1, mkPWROff MAP_FAILED) else
  let p := mkPWROff Mapped in
  '(r, info) ← drbdinfo;
  (if r =? 0 then
     cs ← strcpy STATE (cstate info);
     write_persis_info p (mkPInfo cs 0)
   else mret tt);;
  mret (0, p).

(** [init]. *)
Definition PWROff_init (p : PWROffT) : MW (Z * PWROffT) :=
  ex ← gets (λ s, bool_decide (is_Some (w_psst s)));
  if (ex : bool) then init_existing p else init_new p.

(** [Global::PWROff]: the object is kept even where its [init] failed. *)
Definition PWROff : MW (option PWROffT) :=
  o ← global m_pwrOffObj;
  match o with
  | Some p => mret (Some p)
  | None =>
      ok ← call (CNew "HA_AGENT_PWROff");
      if (ok : bool) then
        assign (set_pwrOffObj (Some newPWROff));;
        '(_, p) ← PWROff_init newPWROff;
        assign (set_pwrOffObj (Some p));;
        mret (Some p)
      else mret None
  end.

(** A method called through [PWROff()]. *)
Definition PWROff_ {A} (f : PWROffT → MW A) : MW A := o ← PWROff; p ← deref o; f p.
End poweroff.

(** ** Properties *)

Section poweroff_frames.
Context `{E : Env} {R : relation World} `{!Frame R}.

Lemma drbdinfo_frame : steps R drbdinfo.
Proof. unfold drbdinfo, query. solve_steps. Qed.
Hint Resolve drbdinfo_frame : steps.

Lemma peerdrbdinfo_frame : steps R peerdrbdinfo.
Proof. unfold peerdrbdinfo, query. solve_steps. Qed.

Lemma get_persis_info_frame p : steps R (get_persis_info p).
Proof. unfold get_persis_info. solve_steps. Qed.

Lemma write_persis_info_frame p i : steps R (write_persis_info p i).
Proof. unfold write_persis_info. solve_steps. Qed.
Hint Resolve write_persis_info_frame : steps.

Lemma PWROff_frame : steps R PWROff.
Proof. unfold PWROff, PWROff_init, init_existing, init_new. solve_steps. Qed.

Lemma PWROff__frame {A} (f : PWROffT → MW A) :
  (∀ p, steps R (f p)) → steps R (PWROff_ f).
Proof. intros Hf. pose proof PWROff_frame. unfold PWROff_. solve_steps. Qed.
End poweroff_frames.

#[export] Hint Resolve drbdinfo_frame peerdrbdinfo_frame get_persis_info_frame
  write_persis_info_frame PWROff_frame PWROff__frame : steps.

Section poweroff_props.
Context `{E : Env}.

(** What [write_persis_info] stores is what [get_persis_info] returns, and a
    state that fits its field is never cut. *)
Theorem persis_roundtrip p info s :
  m_map p = Mapped → (String.length (p_cstate info) < STATE)%nat →
  (write_persis_info p info ;; get_persis_info p) s
  = (Val info, set_psst (Some info) s).
Proof.
  intros Hp Hl. unfold write_persis_info, get_persis_info. rewrite Hp.
  unfold mbind, M_bind. rewrite (strcpy_fits _ _ s Hl).
  cbn [modify gets deref mret M_ret w_psst set_psst p_cstate p_rebootCount].
  rewrite (strcpy_fits _ _ _ Hl). by destruct info.
Qed.

Definition info_fits (i : DRBD_InfoT) : Prop :=
  (String.length (cstate i) < STATE)%nat ∧ (String.length (role i) < STATE)%nat
  ∧ (String.length (dstate i) < STATE)%nat.

Lemma query_fits m s :
  wp (query m) (λ o _, ∀ b st, o = Val (b, st) → (String.length st < STATE)%nat) s.
Proof.
  unfold query. apply wp_bind, run_wp. intros [[b st]| | |] s' _; cbn [thenQ]; try done.
  apply wp_ret. intros b' st' [=]. destruct b; simplify_eq; simpl.
  - apply snprintf_length. unfold STATE. lia.
  - unfold STATE. lia.
Qed.

(** The states [drbdinfo] and [peerdrbdinfo] report fit their fields, and
    [isConfigured] says whether all three queries succeeded. *)
Lemma drbdinfo_spec s :
  wp drbdinfo (λ o _, ∀ r i, o = Val (r, i) →
    info_fits i ∧ (isConfigured i = true ↔ r = 0) ∧ (r = 0 ∨ r = -1)) s.
Proof.
  unfold drbdinfo.
  do 3 (apply wp_bind; eapply wp_mono; [apply query_fits|];
        intros [[[] ?]| | |] ? ?; cbn [thenQ]; try done).
  all: apply wp_ret; intros r i [= <- <-]; unfold info_fits; simpl;
    split_and!; eauto; naive_solver.
Qed.

(** The memory of the process and its files. *)
Definition mem_of (s : World) : GlobalT * bool * option string * option PersistantInfoT * HaT :=
  (w_glob s, w_lock s, w_rcf s, w_psst s, w_ha s).

(** The query only adds to the history once the [Utils] object exists. *)
Definition asks {A} (m : MW A) : Prop :=
  ∀ s, is_Some (m_utilObj (w_glob s)) → keeps mem_of s (m s).2.

Lemma asks_bind {A B} (m : MW A) (k : A → MW B) :
  asks m → (∀ a, asks (k a)) → asks (m ≫= k).
Proof.
  intros Hm Hk s Hs. specialize (Hm s Hs). unfold mbind, M_bind.
  destruct (m s) as [[a| | |] s1]; try done. cbn [snd] in *.
  assert (Hs1 : is_Some (m_utilObj (w_glob s1))).
  { injection Hm as Hg _ _ _ _. by rewrite Hg. }
  specialize (Hk a s1 Hs1). unfold keeps in *. congruence.
Qed.

Lemma asks_ret {A} (a : A) : asks (mret a).
Proof. by intros s. Qed.

Lemma Utils__asks {A} (m : MW A) : asks m → asks (Utils_ m).
Proof.
  intros Hm s Hs. unfold Utils_, Utils, global, gets, mbind, M_bind. simpl.
  destruct Hs as [u Hu]. rewrite Hu. simpl. apply Hm. eauto.
Qed.

Lemma runCommand_asks cmd : asks (runCommand cmd).
Proof.
  intros s _. destruct (runCommand_spec cmd s) as (e & -> & _). done.
Qed.

Lemma drbdinfo_asks : asks drbdinfo ∧ asks peerdrbdinfo.
Proof.
  split; unfold drbdinfo, peerdrbdinfo, query, getConnectedState, getDrbdRole, getDiskState;
    repeat lazymatch goal with
    | |- asks (_ ≫= _) => apply asks_bind; [|intros ?]
    | |- asks (Utils_ _) => apply Utils__asks
    | |- asks (runCommand _) => apply runCommand_asks
    | |- asks (mret _) => apply asks_ret
    | |- asks (if ?b then _ else _) => destruct b
    | |- asks (match ?x with _ => _ end) => destruct x
    end.
Qed.
End poweroff_props.

Lemma persis_roundtrip_witness :
  (write_persis_info (mkPWROff Mapped) (mkPInfo "PausedSyncT" 2) ;;
   get_persis_info (mkPWROff Mapped)) newWorld
  = (Val (mkPInfo "PausedSyncT" 2), set_psst (Some (mkPInfo "PausedSyncT" 2)) newWorld).
Proof. apply persis_roundtrip; [done|vm_compute; lia]. Defined.
