(* ===== verification/LockFile.v ===== *)
(** * Lock file

    [HA_AGENT_LFile]: the file that remembers over a reset that another active
    node was seen. *)

From S2P Require Import Prelude CString Types World.

Open Scope Z_scope.

Section lockfile.
Context `{E : Env} {R : relation World} `{!LockFrame R}.

(** [LFile]. *)
Definition LFile : MW Z :=
  ok ← call (CCreate APOS_HA_FILE_LOCK);
  if (ok : bool) then
    modify (set_lock true);;
    _ ← call (CClose APOS_HA_FILE_LOCK);
    mret 0
  else mret (-1).

(** [LFileExist]. *)
Definition LFileExist : MW bool := gets w_lock.

(** [RMLFile]: [unlink] fails on a file that is not there. *)
Definition RMLFile : MW Z :=
  ok ← call (CUnlink APOS_HA_FILE_LOCK);
  ex ← LFileExist;
  if (ok : bool) && ex then modify (set_lock false);; mret 0 else mret (-1).

Lemma LFile_frame : steps R LFile.
Proof. unfold LFile. solve_steps. Qed.

Lemma LFileExist_frame : steps R LFileExist.
Proof. unfold LFileExist. solve_steps. Qed.

Lemma RMLFile_frame : steps R RMLFile.
Proof. unfold RMLFile, LFileExist. solve_steps. Qed.
End lockfile.

#[export] Hint Resolve LFile_frame LFileExist_frame RMLFile_frame : steps.
