(* ===== verification/ImmOm.v ===== *)
(** * Queries of the information model

    [HA_AGENT_ImmOm]: is the peer node locked, and is this a virtual node.  The
    IMM library is part of the environment: [CImmGet] answers with the name and
    the values of the first attribute of the object. *)

From S2P Require Import Prelude CString Types World LogTrace Config Utils.

Open Scope Z_scope.

Definition APOS_HA_AXEFUNCTIONS_OBJ_DN : string := "axeFunctionsId=1".
Definition APOS_HA_NODE_ARCHITECTURE_ATTR_NAME : string := "apgShelfArchitecture".

Definition peer_dn (peerNodeId : string) : string :=
  concat_str ["safAmfNode=SC-"%string; peerNodeId; ",safAmfCluster=myAmfCluster"%string].

Section immom.
Context `{E : Env} {R : relation World} `{!QueryFrame R}.

(** [Utils()->Ap_1()] and [Utils()->Ap_2()]. *)
Definition Ap_1 : MW bool := o ← Utils; u ← deref o; mret (ap_1 u).
Definition Ap_2 : MW bool := o ← Utils; u ← deref o; mret (ap_2 u).

(** Initialise, read the first value of [attr] of the object [dn], finalise:
    the part [peerNodeLockd] and [isVirtualNode] share.  The result is [rCode]
    and the value, -1 where the attribute has none or another name. *)
Definition imm_read (dn attr : string) : MW (bool * Z) :=
  init ← call (CImm "saImmOmInitialize");
  if negb init then mret (false, -1) else
  acc ← call (CImm "saImmOmAccessorInitialize");
  '(rCode, v) ←
    (if negb acc then mret (false, -1) else
     got ← call (CImmGet dn attr);
     match got with
     | None => mret (false, -1)
     | Some (name, vals) =>
         let v := if streq name attr then default (-1) (head vals) else -1 in
         fin ← call (CImm "saImmOmAccessorFinalize");
         mret (fin : bool, v)
     end);
  fin ← call (CImm "saImmOmFinalize");
  mret (rCode && fin, v).

(** [peerNodeLockd]. *)
Definition peerNodeLockd : MW bool :=
  one ← Ap_1;
  two ← Ap_2;
  if (one : bool) || two then
    '(rCode, tCode) ← imm_read (peer_dn (if (one : bool) then "2" else "1")) "saAmfNodeAdminState";
    mret (rCode && ((tCode =? APOS_HA_ADMIN_LOCK) || (tCode =? APOS_HA_ADMIN_LOCK_IN)))
  else mret false.

(** [isVirtualNode]: errors after the read do not change the result. *)
Definition isVirtualNode : MW bool :=
  '(_, v) ← imm_read APOS_HA_AXEFUNCTIONS_OBJ_DN APOS_HA_NODE_ARCHITECTURE_ATTR_NAME;
  mret (v =? APOS_HA_NODE_VIRTUAL).

Lemma imm_read_frame dn attr : steps R (imm_read dn attr).
Proof. unfold imm_read. solve_steps. Qed.
Hint Resolve imm_read_frame : steps.

Lemma peerNodeLockd_frame : steps R peerNodeLockd.
Proof. unfold peerNodeLockd, Ap_1, Ap_2. solve_steps. Qed.

Lemma isVirtualNode_frame : steps R isVirtualNode.
Proof. unfold isVirtualNode. solve_steps. Qed.
End immom.

#[export] Hint Resolve peerNodeLockd_frame isVirtualNode_frame : steps.

Section immom_props.
Context `{E : Env}.

(** Every way out of [imm_read] with [rCode] set has read the value of the
    attribute of the object. *)
Lemma imm_read_true dn attr s :
  wp (imm_read dn attr) (valQ (λ rv s', rv.1 = true →
    ∃ t vals, Ev (CImmGet dn attr) (Some t) ∈ w_trace s' ∧ t.2 = vals
      ∧ (rv.2 = -1 ∨ rv.2 = default (-1) (head vals)))) s.
Proof.
  unfold imm_read. wp_auto.
  destruct r; cbn [negb]; [|by wp_auto]. wp_auto.
  destruct r; cbn [negb]; [|by wp_auto]. wp_auto.
  destruct r as [[name vals]|]; [|by wp_auto]. wp_auto. intros _.
  exists (name, vals), vals. split; [|split; [done|simpl; destruct (streq name attr); auto]].
  simpl. do 2 right. left.
Qed.

(** [peerNodeLockd] says that the peer is locked only where IMM reported the
    administrative state locked or locked-in for the other node of the pair: any
    error on the way, and a node that does not know its own number, count as not
    locked. *)
Theorem peerNodeLockd_sound u s :
  m_utilObj (w_glob s) = Some u →
  wp peerNodeLockd (valQ (λ b s', b = true →
    ∃ peer t, Ev (CImmGet (peer_dn peer) "saAmfNodeAdminState") (Some t) ∈ w_trace s'
      ∧ (ap_1 u = true ∧ peer = "2"%string ∨ ap_1 u = false ∧ ap_2 u = true ∧ peer = "1"%string)
      ∧ (head t.2 = Some APOS_HA_ADMIN_LOCK ∨ head t.2 = Some APOS_HA_ADMIN_LOCK_IN))) s.
Proof.
  intros Hu. unfold peerNodeLockd, Ap_1, Ap_2, Utils. wp_auto. rewrite Hu. wp_auto.
  rewrite Hu. wp_auto. destruct (ap_1 u || ap_2 u) eqn:Hap; [|by wp_auto].
  wp_auto. eapply wp_valQ_mono; [apply imm_read_true|].
  intros [rCode v] s' Hrv. wp_auto. intros Hb. apply andb_true_iff in Hb as [-> Hb].
  destruct (Hrv eq_refl) as (t & vals & Hin & <- & Hv). simpl in Hv.
  eexists _, t. split; [exact Hin|]. split.
  - destruct (ap_1 u); [by left|]. right. done.
  - destruct Hv as [->| ->]; [done|]. destruct (head t.2) as [v'|]; [|done]. simpl in Hb.
    apply orb_true_iff in Hb as [Hb|Hb]; apply Z.eqb_eq in Hb as ->; auto.
Qed.
End immom_props.

Definition locked_env : Env :=
  {| answer := λ _ c, match c with
                      | CImmGet _ attr => Some (attr, [APOS_HA_ADMIN_LOCK])
                      | c => dflt c
                      end |}.

Definition node1 : World := set_glob (set_utilObj (Some (mkUtils true false))) newWorld.

Lemma peerNodeLockd_sound_witness :
  ∃ s', peerNodeLockd (E:=locked_env) node1 = (Val true, s') ∧
    ∃ peer t, Ev (CImmGet (peer_dn peer) "saAmfNodeAdminState") (Some t) ∈ w_trace s'
      ∧ peer = "2"%string.
Proof.
  destruct (wp_valQ_run _ _ _ (peerNodeLockd_sound (E:=locked_env) (mkUtils true false) node1 eq_refl))
    as (b & s' & Hrun & Hb).
  assert (Hv := Hrun). vm_compute in Hv. injection Hv as <- Hs'.
  exists s'. split; [exact Hrun|].
  destruct (Hb eq_refl) as (peer & t & Hin & [[_ Hp]|[Hf _]] & _); [by exists peer, t|done].
Defined.
