(* ===== verification/Mips.v ===== *)
(** * The table of movable IP addresses

    [HA_AGENT_Config::readMips]: parse the output of
    [apos_ha_operations --mip-info], one line [address interface] per address,
    into the two arrays of the configuration. *)

From S2P Require Import Prelude CString Types World LogTrace Config Utils.

Open Scope Z_scope.

(** The number of newlines of a C string. *)
Fixpoint newlines (s : string) : nat :=
  match s with
  | EmptyString => 0
  | String c r => if eqc c LF then S (newlines r) else newlines r
  end.

(** One pass of the loop at [pch]: the two [while] loops that look for the space
    and for the newline.  [None] where they run past the end of the string. *)
Definition mip_line (pch : string) : option (string * string * string) :=
  match strchr pch SP with
  | None => None
  | Some (addr, r) =>
      match strchr r LF with
      | None => None
      | Some (intf, rest) => Some (addr, intf, rest)
      end
  end.

Section mips.
Context `{E : Env}.

(** [array[cntr] = v]; outside the array it corrupts memory. *)
Definition set_slot (arr : option (list (option string))) (cntr : nat) (v : option string) :
    MW (option (list (option string))) :=
  match arr with
  | Some l => if (cntr <? length l)%nat then mret (Some (<[cntr := v]> l)) else undef
  | None => undef
  end.

(** The loop of [readMips]; [fuel] bounds the number of lines. *)
Fixpoint readMips_loop (fuel : nat) (cntr : nat) (pch : string) (m : MipInfoT) : MW (Z * MipInfoT) :=
  match pch with
  | EmptyString => mret (0, m)
  | String _ _ =>
      match fuel with
      | O => nofuel
      | S fuel =>
          match mip_line pch with
          | None => undef
          | Some (addr, intf, rest) =>
              addr ← strcpy BUF addr;
              intf ← strcpy BUF intf;
              ok ← call (CNew "ipAddress[cntr]");
              a ← set_slot (ipAddress m) cntr (if (ok : bool) then Some addr else None);
              let m := mkMipInfo a (interface m) (size m) in
              if negb ok then mret (-1, m) else
              ok ← call (CNew "interface[cntr]");
              i ← set_slot (interface m) cntr (if (ok : bool) then Some intf else None);
              let m := mkMipInfo (ipAddress m) i (size m) in
              if negb ok then mret (-1, m) else
              readMips_loop fuel (S cntr) rest m
          end
      end
  end.

(** [readMips]. *)
Definition readMips (c : ConfigT) : MW (Z * ConfigT) :=
  ok0 ← call (CNew "Cmd[0]");
  if negb ok0 then mret (-1, c) else
  ok1 ← call (CNew "Cmd[1]");
  if negb ok1 then mret (-1, c) else
  '(r, mip_info) ← Utils_ (_execvp [APOS_HA_CMD_HA_OPERATIONS; APOS_HA_CMD_GET_MIP_INFO_OPTS]);
  if negb (r =? 0) then mret (-1, c) else
  text ← deref mip_info;
  let n := u32 (size (mipInfo c) + Z.of_nat (newlines text)) in
  let slots := repeat None (Z.to_nat n) in
  ok2 ← call (CNew "mipInfo.ipAddress");
  if negb ok2 then
    mret (-1, set_mipInfo (mkMipInfo None (interface (mipInfo c)) n) c)
  else
  ok3 ← call (CNew "mipInfo.interface");
  if negb ok3 then mret (-1, set_mipInfo (mkMipInfo (Some slots) None n) c) else
  '(r, m) ← readMips_loop (S (newlines text)) 0 text (mkMipInfo (Some slots) (Some slots) n);
  mret (r, set_mipInfo m c).
End mips.

(** ** Properties *)

(** The output for a list of addresses. *)
Definition mip_text (mips : list (string * string)) : string :=
  text_of ((λ ai, String.append ai.1 (String SP ai.2)) <$> mips).

Definition mip_ok (ai : string * string) : Prop :=
  all_chars (no SP) ai.1 = true ∧ all_chars (no LF) ai.1 = true ∧ all_chars (no LF) ai.2 = true
  ∧ (String.length ai.1 < BUF)%nat ∧ (String.length ai.2 < BUF)%nat.

Lemma newlines_append a b : newlines (String.append a b) = (newlines a + newlines b)%nat.
Proof.
  induction a as [|c a IH]; [done|]. rewrite append_cons. simpl. rewrite IH.
  by destruct (eqc c LF).
Qed.

Lemma newlines_none s : all_chars (no LF) s = true → newlines s = 0%nat.
Proof.
  induction s as [|c s IH]; simpl; [done|]. intros [Hc Hs]%andb_true_iff.
  unfold no in Hc. destruct (eqc c LF); [done|]. auto.
Qed.

Lemma mip_text_cons a i mips :
  mip_text ((a, i) :: mips) = String.append a (String SP (String.append i (String LF (mip_text mips)))).
Proof. unfold mip_text. cbn. by rewrite append_assoc, append_cons. Qed.

Lemma newlines_mip_text mips : Forall mip_ok mips → newlines (mip_text mips) = length mips.
Proof.
  induction 1 as [|[a i] mips (_ & Ha & Hi & _) _ IH]; [done|].
  rewrite mip_text_cons, newlines_append, newlines_none by done. cbn.
  rewrite newlines_append, newlines_none by done. cbn. by rewrite IH.
Qed.

Lemma mip_line_text a i mips :
  mip_ok (a, i) → mip_line (mip_text ((a, i) :: mips)) = Some (a, i, mip_text mips).
Proof.
  intros (Hsp & _ & Hi & _). rewrite mip_text_cons. unfold mip_line. simpl in *.
  by rewrite strchr_first, strchr_first by done.
Qed.

(** An array whose first slots hold [l]. *)
Definition filled (l : list string) (n : nat) : list (option string) :=
  (Some <$> l) ++ repeat None (n - length l).

Lemma filled_insert l x n :
  (length l < n)%nat → <[length l := Some x]> (filled l n) = filled (l ++ [x]) n.
Proof.
  intros Hn. unfold filled. rewrite fmap_app, length_app. simpl.
  replace (n - length l)%nat with (S (n - (length l + 1))) by lia. cbn [repeat].
  rewrite insert_app_r_alt by (rewrite length_fmap; lia).
  rewrite length_fmap, Nat.sub_diag. cbn. by rewrite <-app_assoc.
Qed.

Lemma filled_nil n : filled [] n = repeat None n.
Proof. unfold filled. simpl. by rewrite Nat.sub_0_r. Qed.

Lemma filled_all l : filled l (length l) = Some <$> l.
Proof. unfold filled. rewrite Nat.sub_diag. simpl. by rewrite app_nil_r. Qed.

Lemma length_filled l n : (length l ≤ n)%nat → length (filled l n) = n.
Proof. intros H. unfold filled. rewrite length_app, length_fmap, repeat_length. lia. Qed.

Section mips_props.
Context `{E : Env}.
Hypothesis alloc_ok : ∀ t c, answer t (CNew c) = true.

Lemma set_slot_filled l x n s :
  (length l < n)%nat →
  set_slot (Some (filled l n)) (length l) (Some x) s = (Val (Some (filled (l ++ [x]) n)), s).
Proof.
  intros Hn. unfold set_slot. rewrite length_filled by lia.
  destruct (Nat.ltb_spec (length l) n); [|lia]. by rewrite filled_insert.
Qed.

Lemma readMips_loop_text done_ mips n z fuel s :
  Forall mip_ok mips → (length done_ + length mips ≤ n)%nat → (length mips ≤ fuel)%nat →
  wp (readMips_loop fuel (length done_) (mip_text mips)
       (mkMipInfo (Some (filled done_.*1 n)) (Some (filled done_.*2 n)) z))
    (valQ (λ rm _, rm = (0, mkMipInfo (Some (filled (done_ ++ mips).*1 n))
                              (Some (filled (done_ ++ mips).*2 n)) z))) s.
Proof.
  intros Hok. revert done_ fuel s; induction Hok as [|[a i] mips Hai _ IH];
    intros done_ fuel s Hn Hf.
  - destruct fuel; apply wp_ret; simpl; by rewrite app_nil_r.
  - destruct fuel as [|fuel]; simpl in Hf, Hn; [lia|]. cbn [readMips_loop].
    assert (Hne : ∃ c r, mip_text ((a, i) :: mips) = String c r).
    { rewrite mip_text_cons. destruct a; rewrite ?append_cons, ?append_nil_l; eauto. }
    destruct Hne as (c & r & Hc). rewrite Hc at 1. rewrite mip_line_text by done.
    destruct Hai as (_ & _ & _ & Hla & Hli).
    wp_auto. apply wp_strcpy; [done|]. wp_auto. apply wp_strcpy; [done|]. wp_auto.
    rewrite alloc_ok in H. subst r0. cbn [negb ipAddress interface size].
    apply run_wp. intros o s' Hrun.
    pose proof (set_slot_filled done_.*1 a n) as H1. pose proof (set_slot_filled done_.*2 i n) as H2.
    rewrite length_fmap in H1, H2. rewrite H1 in Hrun by lia. simplify_eq. wp_auto.
    rewrite alloc_ok in H. subst r0. cbn [negb ipAddress interface size].
    apply run_wp. intros o s' Hrun. rewrite H2 in Hrun by lia. simplify_eq. wp_auto.
    specialize (IH (done_ ++ [(a, i)]) fuel). rewrite <-app_assoc, length_app in IH.
    cbn [app length] in IH. rewrite (fmap_app fst done_ [_]), (fmap_app snd done_ [_]), Nat.add_1_r in IH.
    apply IH; lia.
Qed.

(** [readMips] fills the table with exactly the addresses and interfaces the
    command printed, in order: with memory available and an empty table, its
    loops stay inside the output, the line buffers and the two arrays. *)
Theorem readMips_table c s mips u a :
  m_utilObj (w_glob s) = Some u → Forall mip_ok mips → Z.of_nat (length mips) < 2 ^ 32 →
  mipInfo c = noMips → all_chars (no NUL) (mip_text mips) = true →
  (∀ t, answer t (CExecvp [APOS_HA_CMD_HA_OPERATIONS; APOS_HA_CMD_GET_MIP_INFO_OPTS] a)
        = mkExecvpR true true true (Some (mip_text mips)) 0) →
  alarm_secs (w_glob s) = a →
  ∃ s', readMips c s = (Val (0, set_mipInfo (mkMipInfo (Some (Some <$> mips.*1))
                                  (Some (Some <$> mips.*2)) (Z.of_nat (length mips))) c), s').
Proof.
  intros Hu Hok Hlen Hc Hnul Hans Ha.
  assert (Hwp : wp (readMips c) (valQ (λ rc _, rc = (0, set_mipInfo (mkMipInfo (Some (Some <$> mips.*1))
    (Some (Some <$> mips.*2)) (Z.of_nat (length mips))) c))) s).
  { unfold readMips. wp_auto. rewrite alloc_ok in H. subst r. cbn [negb]. wp_auto.
    rewrite alloc_ok in H. subst r. cbn [negb]. unfold Utils_, Utils, _execvp. wp_auto.
    cbn [w_glob push]. rewrite Hu. wp_auto. cbn [w_glob push] in H. rewrite Ha, Hans in H. subst r.
    cbn [xv_pipe xv_fork xv_ready xv_out xv_status negb fmap option_fmap option_map Z.eqb]. wp_auto.
    cbn [negb Z.eqb]. wp_auto. rewrite alloc_ok in H. subst r. cbn [negb]. wp_auto.
    rewrite alloc_ok in H. subst r. cbn [negb]. wp_auto.
    rewrite c_str_id by done. rewrite newlines_mip_text by done. rewrite Hc. cbn [size noMips].
    rewrite Z.add_0_l, u32_small, Nat2Z.id by lia.
    rewrite <-(filled_nil (length mips)). eapply wp_valQ_mono; [apply (readMips_loop_text [] mips); simpl; lia || done|].
    intros rm s' ->. wp_auto. rewrite app_nil_l, <-!filled_all, !length_fmap. done. }
  destruct (wp_valQ_run _ _ _ Hwp) as (rc & s' & Hrun & ->). eauto.
Qed.
End mips_props.

Definition example_mips : list (string * string) :=
  [("192.168.169.1"%string, "eth3"%string); ("10.0.0.7"%string, "eth1"%string)].

Definition mips_env : Env :=
  {| answer := λ _ c, match c with
                      | CExecvp _ _ => mkExecvpR true true true (Some (mip_text example_mips)) 0
                      | c => dflt c
                      end |}.

Lemma readMips_table_witness :
  ∃ s', readMips (E:=mips_env) (dfltConfig None) (set_glob (set_utilObj (Some newUtils)) newWorld)
    = (Val (0, set_mipInfo (mkMipInfo (Some [Some "192.168.169.1"%string; Some "10.0.0.7"%string])
                              (Some [Some "eth3"%string; Some "eth1"%string]) 2) (dfltConfig None)), s').
Proof.
  destruct (readMips_table (E:=mips_env) (λ _ _, eq_refl) (dfltConfig None)
    (set_glob (set_utilObj (Some newUtils)) newWorld) example_mips newUtils 89) as [s' Hs'].
  - done.
  - repeat constructor.
  - done.
  - done.
  - done.
  - done.
  - done.
  - exists s'. exact Hs'.
Defined.
