(* ===== verification/DrbdMgr.v ===== *)
(** * DRBD manager

    [HA_AGENT_DRBDMgr]: the commands that mount and unmount the shared disk and
    the services on it, and the check of the disk's health.  The object is passed
    explicitly, since [HA_AGENT_DRBDMon] also has one of its own. *)

From S2P Require Import Prelude CString Types World LogTrace Config Utils.

Open Scope Z_scope.

Definition max_retry : nat := 300.

Definition set_aposOpts (o : string) (d : DRBDMgrT) : DRBDMgrT :=
  mkDRBDMgr (Some o) (m_assemble_force d).

Definition cmd_failover : string :=
  String.append APOS_HA_CMD_APOS_OPERATIONS " --failover active &>/dev/null".
Definition cmd_deactivate_mips : string :=
  String.append APOS_HA_CMD_APOS_OPERATIONS APOS_HA_CMD_DEACTIVATE_MIP_OPTS.
Definition cmd_cleanup : string :=
  String.append APOS_HA_CMD_APOS_OPERATIONS " --cleanup &>/dev/null".
Definition cmd_disable : string := String.append APOS_HA_CMD_DRBDMGR APOS_HA_CMD_DISABLE_OPTS.
Definition cmd_activate : string := String.append APOS_HA_CMD_DRBDMGR APOS_HA_CMD_ACTIVATE_OPTS.

Section drbdmgr.
Context `{E : Env}.

(** [snprintf(cmdStr, APOS_HA_CMD_LEN, ...)] and [Utils()->_execlp(cmdStr)]. *)
Definition exec_cmd (cmd : string) : MW Z :=
  Utils_ (_execlp (snprintf APOS_HA_CMD_LEN cmd)).

(** [assemble]. *)
Definition assemble (d : DRBDMgrT) : MW (Z * DRBDMgrT) :=
  rCode ← exec_cmd (if m_assemble_force d then cmd_assemble_force else cmd_assemble);
  if negb (rCode =? 0) then mret (rCode, d)
  else if m_assemble_force d then
    _ ← Utils_ removeRCF;
    mret (rCode, mkDRBDMgr (m_aposOpts d) false)
  else mret (rCode, d).

(** [aposJobs]: the options are those of [m_aposOpts]. *)
Definition aposJobs (d : DRBDMgrT) : MW Z :=
  opts ← deref (m_aposOpts d);
  exec_cmd (concat_str [APOS_HA_CMD_APOS_OPERATIONS; " "%string; opts]).

(** [setMipAddrs] and [usetMipAddrs]. *)
Definition setMipAddrs : MW Z := exec_cmd cmd_activate_mips.
Definition usetMipAddrs : MW Z := exec_cmd cmd_deactivate_mips.

(** [disable]: it first runs the code of [aposJobs] with other options; the
    result of that clean-up is logged only. *)
Definition disable (d : DRBDMgrT) : MW (Z * DRBDMgrT) :=
  let d := set_aposOpts "--cleanup &>/dev/null" d in
  _ ← aposJobs d;
  rCode ← exec_cmd cmd_disable;
  mret (rCode, d).

(** [activate]. *)
Definition activate : MW Z := exec_cmd cmd_activate.

(** [drbdStartJobs]. *)
Definition drbdStartJobs (d : DRBDMgrT) : MW (Z * DRBDMgrT) :=
  '(r, d) ← assemble d;
  if negb (r =? 0) then mret (-1, d) else
  r ← setMipAddrs;
  if negb (r =? 0) then mret (-1, d) else
  let d := set_aposOpts "--startup &>/dev/null" d in
  r ← aposJobs d;
  mret (if negb (r =? 0) then -1 else 0, d).

(** [drbdStopJobs]. *)
Definition drbdStopJobs (d : DRBDMgrT) : MW (Z * DRBDMgrT) :=
  let d := set_aposOpts "--failover active &>/dev/null" d in
  r ← aposJobs d;
  if negb (r =? 0) then mret (-1, d) else
  r ← usetMipAddrs;
  if negb (r =? 0) then mret (-1, d) else
  '(r, d) ← disable d;
  mret (if negb (r =? 0) then -1 else 0, d).

(** The retry loop of [drbdHealth]: the number of retries done, and [state]. *)
Fixpoint health_retry (n : nat) (retry : nat) (state : string) : MW (nat * string) :=
  match n with
  | O => mret (retry, state)
  | S n =>
      if streq state "UpToDate" then mret (retry, state) else
      _ ← call (CSleep 1000);
      '(_, state) ← Utils_ (getDiskState "drbd1" true);
      health_retry n (S retry) state
  end.

(** [drbdHealth]: the success of the first query is overwritten by the second. *)
Definition drbdHealth (OnStart : bool) : MW Z :=
  '(_, state) ← Utils_ (getDiskState "drbd1" true);
  '(found, disk_role) ← Utils_ (getDrbdRole "drbd1" true);
  let role_ok :=
    if OnStart then streq disk_role "Secondary" || streq disk_role "Primary"
    else streq disk_role "Primary" in
  '(retry, state) ← health_retry max_retry 0 state;
  let disk_ok := negb ((max_retry <=? retry)%nat && negb (streq state "UpToDate")) in
  mret (if role_ok && disk_ok && (found : bool) then 0 else -1).
End drbdmgr.

(** ** Properties *)

(** None of the commands is cut by [snprintf]. *)
Lemma commands_fit :
  Forall (λ c, snprintf APOS_HA_CMD_LEN c = c)
    [cmd_assemble; cmd_assemble_force; cmd_activate_mips; cmd_startup; cmd_failover;
     cmd_deactivate_mips; cmd_cleanup; cmd_disable; cmd_activate].
Proof. repeat constructor. Qed.

(** The commands of [drbdStartJobs] and of [drbdStopJobs], in order. *)
Definition start_cmds (force : bool) : list string :=
  [if force then cmd_assemble_force else cmd_assemble; cmd_activate_mips; cmd_startup].
Definition stop_cmds : list string :=
  [cmd_failover; cmd_deactivate_mips; cmd_cleanup; cmd_disable].

(** The commands executed in a piece of history, oldest first, each with whether
    it succeeded. *)
Definition exec_of (e : Event) : list (string * bool) :=
  match e with
  | Ev (CExec cmd _) r =>
      [(cmd, match r with ForkFailed => false | ChildStatus st => st =? 0 end)]
  | _ => []
  end.
Definition execs (t : Trace) : list (string * bool) := concat (exec_of <$> reverse t).

Lemma execs_app t1 t2 : execs (t1 ++ t2) = execs t2 ++ execs t1.
Proof. unfold execs. by rewrite reverse_app, fmap_app, concat_app. Qed.

Section drbdmgr_frames.
Context `{E : Env} {R : relation World} `{!CoreFrame R}.

Lemma exec_cmd_frame cmd :
  (∀ a, is_start (CExec (snprintf APOS_HA_CMD_LEN cmd) a) = false) → steps R (exec_cmd cmd).
Proof. intros H. unfold exec_cmd. by apply Utils__frame, execlp_frame. Qed.

Lemma aposJobs_frame o d :
  (∀ a, is_start (CExec (snprintf APOS_HA_CMD_LEN
     (concat_str [APOS_HA_CMD_APOS_OPERATIONS; " "%string; o])) a) = false) →
  steps R (aposJobs (set_aposOpts o d)).
Proof. intros H. by apply exec_cmd_frame in H. Qed.

Lemma disable_frame d : steps R (disable d).
Proof.
  unfold disable. solve_steps; [apply aposJobs_frame|apply exec_cmd_frame]; by intros ?.
Qed.

Lemma drbdStopJobs_frame d : steps R (drbdStopJobs d).
Proof.
  unfold drbdStopJobs, usetMipAddrs. solve_steps.
  - apply aposJobs_frame. by intros ?.
  - apply exec_cmd_frame. by intros ?.
  - apply disable_frame.
Qed.

Lemma activate_frame : steps R activate.
Proof. apply exec_cmd_frame. by intros ?. Qed.

Lemma health_retry_frame n retry st : steps R (health_retry n retry st).
Proof.
  revert retry st; induction n as [|n IH]; intros retry st; cbn [health_retry]; [solve_steps|].
  solve_steps.
Qed.
Hint Resolve health_retry_frame : steps.

Lemma drbdHealth_frame b : steps R (drbdHealth b).
Proof. unfold drbdHealth. solve_steps. Qed.
End drbdmgr_frames.

#[export] Hint Resolve drbdStopJobs_frame activate_frame drbdHealth_frame : steps.

Section drbdmgr_props.
Context `{E : Env}.

Definition utils_ready (s : World) : Prop := is_Some (m_utilObj (w_glob s)).

Lemma Utils__run {A} (m : MW A) s : utils_ready s → Utils_ m s = m s.
Proof.
  intros [u Hu]. unfold Utils_, Utils, global, gets, mbind, M_bind. simpl. by rewrite Hu.
Qed.

Lemma wp_Utils_ {A} (m : MW A) Q s : utils_ready s → wp m Q s → wp (Utils_ m) Q s.
Proof. intros Hu. unfold wp. by rewrite Utils__run. Qed.

(** One command: an event, the result it reports, and nothing else. *)
Lemma exec_cmd_spec cmd s :
  utils_ready s →
  wp (exec_cmd cmd) (valQ (λ r s', ∃ e b, s' = push e s
    ∧ exec_of e = [(snprintf APOS_HA_CMD_LEN cmd, b)] ∧ r = (if (b : bool) then 0 else -1))) s.
Proof.
  intros Hu. apply wp_Utils_; [done|]. unfold _execlp. wp_auto.
  destruct r as [|st]; wp_auto.
  - eexists _, false. done.
  - eexists _, (st =? 0). split; [done|]. split; [done|]. by destruct (st =? 0).
Qed.

Lemma removeRCF_execs s :
  wp removeRCF (valQ (λ _ s', ∃ new, w_trace s' = new ++ w_trace s ∧ execs new = []
    ∧ w_glob s' = w_glob s)) s.
Proof.
  unfold removeRCF, FileExist. wp_auto. destruct (bool_decide _); [|wp_auto; by exists []].
  wp_auto. destruct r; wp_auto; by eexists [Ev (CUnlink APOS_HA_FILE_RC) _].
Qed.

Lemma fits cmd :
  cmd ∈ [cmd_assemble; cmd_assemble_force; cmd_activate_mips; cmd_startup; cmd_failover;
         cmd_deactivate_mips; cmd_cleanup; cmd_disable; cmd_activate] →
  snprintf APOS_HA_CMD_LEN cmd = cmd.
Proof. intros H. by apply (proj1 (Forall_forall _ _) commands_fit). Qed.

Lemma aposJobs_spec o d s :
  utils_ready s →
  wp (aposJobs (set_aposOpts o d)) (valQ (λ r s', ∃ e b, s' = push e s
    ∧ exec_of e = [(snprintf APOS_HA_CMD_LEN
         (concat_str [APOS_HA_CMD_APOS_OPERATIONS; " "%string; o]), b)]
    ∧ r = (if (b : bool) then 0 else -1))) s.
Proof. intros Hu. unfold aposJobs. cbn [m_aposOpts set_aposOpts]. wp_auto. by apply exec_cmd_spec. Qed.

(** A run that extends the history of [s] by events with the commands [l] and
    keeps the objects. *)
Definition ran (s s' : World) (l : list (string * bool)) : Prop :=
  w_glob s' = w_glob s ∧ ∃ new, w_trace s' = new ++ w_trace s ∧ execs new = l.

Lemma ran_trans s1 s2 s3 l1 l2 : ran s1 s2 l1 → ran s2 s3 l2 → ran s1 s3 (l1 ++ l2).
Proof.
  intros [G1 (n1 & T1 & X1)] [G2 (n2 & T2 & X2)]. split; [congruence|].
  exists (n2 ++ n1). rewrite T2, T1, app_assoc, execs_app. by subst.
Qed.

Lemma ran_push s e : ran s (push e s) (exec_of e).
Proof. split; [done|]. exists [e]. split; [done|]. unfold execs. simpl. by rewrite app_nil_r. Qed.

Lemma ran_ready s s' l : ran s s' l → utils_ready s → utils_ready s'.
Proof. unfold utils_ready. by intros [-> _]. Qed.

Lemma exec_cmd_ran cmd s :
  utils_ready s → snprintf APOS_HA_CMD_LEN cmd = cmd →
  wp (exec_cmd cmd) (valQ (λ r s', ∃ b : bool, ran s s' [(cmd, b)] ∧ r = (if b then 0 else -1))) s.
Proof.
  intros Hu Hf. eapply wp_valQ_mono; [by apply exec_cmd_spec|].
  intros r s' (e & b & -> & He & ->). exists b. split; [|done].
  rewrite Hf in He. rewrite <-He. apply ran_push.
Qed.

Lemma aposJobs_ran o cmd d s :
  utils_ready s →
  snprintf APOS_HA_CMD_LEN (concat_str [APOS_HA_CMD_APOS_OPERATIONS; " "%string; o]) = cmd →
  wp (aposJobs (set_aposOpts o d))
    (valQ (λ r s', ∃ b : bool, ran s s' [(cmd, b)] ∧ r = (if b then 0 else -1))) s.
Proof.
  intros Hu Hf. eapply wp_valQ_mono; [by apply aposJobs_spec|].
  intros r s' (e & b & -> & He & ->). exists b. split; [|done].
  rewrite Hf in He. rewrite <-He. apply ran_push.
Qed.

Lemma assemble_ran d s :
  utils_ready s →
  wp (assemble d) (valQ (λ rd s', ∃ b : bool,
    ran s s' [(if m_assemble_force d then cmd_assemble_force else cmd_assemble, b)]
    ∧ rd.1 = (if b then 0 else -1))) s.
Proof.
  intros Hu. unfold assemble. apply wp_valQ_bind. eapply wp_valQ_mono.
  { apply exec_cmd_ran; [done|]. by destruct (m_assemble_force d); apply fits; set_solver. }
  intros r s' (b & Hran & ->). destruct b; cbn [negb Z.eqb]; [|wp_auto; by exists false].
  destruct (m_assemble_force d); [|wp_auto; by exists true].
  apply wp_valQ_bind, wp_Utils_; [by eapply ran_ready|].
  eapply wp_valQ_mono; [apply removeRCF_execs|]. intros _ s'' (new & Ht & Hx & Hg).
  wp_auto. exists true. split; [|done]. rewrite <-(app_nil_r [_]).
  eapply ran_trans; [exact Hran|]. split; [done|]. by exists new.
Qed.

(** C21: Starting the node runs the commands that mount the disk, configure the
    MIPs and start the services in this order, stops at the first that fails, and
    succeeds exactly when all of them did. *)
Theorem drbdStartJobs_order d s :
  utils_ready s →
  let cmds := start_cmds (m_assemble_force d) in
  wp (drbdStartJobs d) (valQ (λ rd s',
    rd.1 = 0 ∧ ran s s' ((λ c, (c, true)) <$> cmds)
    ∨ rd.1 = -1 ∧ ∃ k c, cmds !! k = Some c
        ∧ ran s s' (((λ c, (c, true)) <$> firstn k cmds) ++ [(c, false)]))) s.
Proof.
  intros Hu cmds. unfold drbdStartJobs.
  apply wp_valQ_bind. eapply wp_valQ_mono; [by apply assemble_ran|].
  intros [r d1] s1 (b1 & R1 & Hr). simpl in Hr. subst r. destruct b1; cbn [negb Z.eqb].
  2: { wp_auto. right. split; [done|]. by exists 0%nat, (if m_assemble_force d then cmd_assemble_force else cmd_assemble). }
  pose proof (ran_ready _ _ _ R1 Hu) as Hu1.
  apply wp_valQ_bind. eapply wp_valQ_mono; [apply exec_cmd_ran; [done|apply fits; set_solver]|].
  intros r s2 (b2 & R2 & ->). pose proof (ran_trans _ _ _ _ _ R1 R2) as R12.
  destruct b2; cbn [negb Z.eqb].
  2: { wp_auto. right. split; [done|]. by exists 1%nat, cmd_activate_mips. }
  apply wp_valQ_bind. eapply wp_valQ_mono;
    [apply (aposJobs_ran _ cmd_startup); [by eapply ran_ready|done]|].
  intros r s3 (b3 & R3 & ->). pose proof (ran_trans _ _ _ _ _ R12 R3) as R123.
  wp_auto. destruct b3; cbn [negb Z.eqb].
  - left. by split.
  - right. split; [done|]. by exists 2%nat, cmd_startup.
Qed.

(** Stopping the node fails the services over, removes the MIPs, cleans up
    and unmounts the disk, in this order; it succeeds exactly when every command
    but the clean-up did, and the disk is not unmounted before the MIPs are
    gone. *)
Theorem drbdStopJobs_order d s :
  utils_ready s →
  wp (drbdStopJobs d) (valQ (λ rd s',
    rd.1 = 0 ∧ (∃ b, ran s s' [(cmd_failover, true); (cmd_deactivate_mips, true);
                               (cmd_cleanup, b); (cmd_disable, true)])
    ∨ rd.1 = -1 ∧ (ran s s' [(cmd_failover, false)]
                   ∨ ran s s' [(cmd_failover, true); (cmd_deactivate_mips, false)]
                   ∨ ∃ b, ran s s' [(cmd_failover, true); (cmd_deactivate_mips, true);
                                    (cmd_cleanup, b); (cmd_disable, false)]))) s.
Proof.
  intros Hu. unfold drbdStopJobs.
  apply wp_valQ_bind. eapply wp_valQ_mono; [by apply (aposJobs_ran _ cmd_failover)|].
  intros r s1 (b1 & R1 & ->). destruct b1; cbn [negb Z.eqb]; [|wp_auto; auto].
  pose proof (ran_ready _ _ _ R1 Hu) as Hu1.
  apply wp_valQ_bind. eapply wp_valQ_mono; [apply exec_cmd_ran; [done|apply fits; set_solver]|].
  intros r s2 (b2 & R2 & ->). pose proof (ran_trans _ _ _ _ _ R1 R2) as R12.
  destruct b2; cbn [negb Z.eqb]; [|wp_auto; auto].
  pose proof (ran_ready _ _ _ R12 Hu) as Hu2. unfold disable.
  do 2 apply wp_valQ_bind. eapply wp_valQ_mono; [by apply (aposJobs_ran _ cmd_cleanup)|].
  intros r s3 (b3 & R3 & ->). pose proof (ran_trans _ _ _ _ _ R12 R3) as R123.
  apply wp_valQ_bind. eapply wp_valQ_mono;
    [apply exec_cmd_ran; [by eapply ran_ready|apply fits; set_solver]|].
  intros r s4 (b4 & R4 & ->). pose proof (ran_trans _ _ _ _ _ R123 R4) as R. wp_auto.
  destruct b4; cbn [negb Z.eqb]; [left|right]; (split; [done|]); [by exists b3|].
  do 2 right. by exists b3.
Qed.

(** ** Health of the disk *)

Lemma drbdStartJobs_grew d : steps grew (drbdStartJobs d).
Proof.
  unfold drbdStartJobs, assemble, setMipAddrs, aposJobs, exec_cmd, _execlp.
  solve_steps; apply (Utils__frame (R:=grew)); solve_steps; apply grew_call.
Qed.

(** Between [s] and [s'], [runCommand cmd] read [text]. *)
Definition observed (cmd text : string) (s s' : World) : Prop :=
  ∃ s1 s2 e, grew s s1 ∧ s2 = push e s1 ∧ grew s2 s' ∧ reported cmd text e.

Lemma observed_within cmd text s1 s2 s3 s4 :
  grew s1 s2 → observed cmd text s2 s3 → grew s3 s4 → observed cmd text s1 s4.
Proof.
  intros H12 (a & b & e & H2a & -> & Hb3 & He) H34. exists a, (push e a), e.
  split; [by etrans|]. split; [done|]. split; [by etrans|done].
Qed.

Lemma grew_push e s : grew s (push e s).
Proof. by exists [e]. Qed.

(** [Utils()] may have to create the object first. *)
Lemma wp_Utils_any {A} (m : MW A) Q s :
  (∀ s1, grew s s1 → Q Undef s1 ∧ wp m Q s1) → wp (Utils_ m) Q s.
Proof.
  intros Hm. unfold Utils_, Utils. wp_auto.
  destruct (m_utilObj (w_glob s)); wp_auto; [by apply Hm|].
  destruct r; wp_auto.
  - apply (Hm (set_glob _ (push _ s))). by eexists [_].
  - apply wp_undef. cbn [thenQ]. apply Hm, grew_push.
Qed.

(** The queries [drbdHealth] makes. *)
Definition asked (cmd : string) (s : World) (o : outcome (bool * string)) (s' : World) : Prop :=
  grew s s' ∧ ∀ b text, o = Val (b, text) → text = EmptyString ∨ observed cmd text s s'.

Lemma runCommand_asked cmd s : wp (Utils_ (runCommand cmd)) (asked cmd s) s.
Proof.
  apply wp_Utils_any. intros s1 Hs1. split; [by split|].
  eapply wp_mono; [apply runCommand_spec|]. intros o s' (e & -> & Ho).
  split; [etrans; [exact Hs1|apply grew_push]|]. intros b text ->.
  destruct Ho as [[=]|[[= _ <-]|(t & [= _ <-] & Hr)]]; [by left|]. right.
  by exists s1, (push e s1), e.
Qed.

(** A state the loop ends with was given to it or has been observed. *)
Lemma health_retry_spec n retry st s :
  wp (health_retry n retry st) (λ o s', grew s s' ∧
    ∀ k st', o = Val (k, st') → (retry ≤ k ≤ retry + n)%nat
      ∧ (st' = "UpToDate"%string ∨ k = (retry + n)%nat)
      ∧ (st' = st ∨ st' = EmptyString ∨ observed (cmd_disk "drbd1" true) st' s s')) s.
Proof.
  revert retry st s; induction n as [|n IH]; intros retry st s; cbn [health_retry].
  { apply wp_ret. split; [done|]. intros k st' [= <- <-]. split; [lia|]. auto. }
  destruct (streq st "UpToDate") eqn:Hst.
  { apply wp_ret. split; [done|]. intros k st' [= <- <-]. split; [lia|].
    apply streq_spec in Hst. auto. }
  wp_auto. eapply wp_mono; [apply (runCommand_asked (cmd_disk "drbd1" true))|].
  intros o s1 [H1 Hobs]. assert (Hs1 : grew s s1) by (etrans; [apply grew_push|exact H1]).
  destruct o as [[b st1]| | |]; cbn [thenQ]; try (split; [done|]; done).
  eapply wp_mono; [apply IH|]. intros o s2 [H2 Ho]. split; [by etrans|].
  intros k st' ->. destruct (Ho k st' eq_refl) as (Hk & Hend & Hst').
  split; [lia|]. split; [destruct Hend; [auto|right; lia]|].
  destruct Hst' as [->|[->|Hst']]; [|auto|].
  - destruct (Hobs b st1 eq_refl) as [->|Hob]; [auto|]. right. right.
    eapply observed_within; [apply grew_push|exact Hob|done].
  - right. right. eapply observed_within; [exact Hs1|exact Hst'|reflexivity].
Qed.

(** [drbdHealth] reports a healthy disk only after DRBD itself reported the local
    disk [UpToDate] and the local role [Primary] (or, when starting,
    [Secondary]). *)
Definition healthy (OnStart : bool) (s s' : World) : Prop :=
  observed (cmd_disk "drbd1" true) "UpToDate" s s' ∧
  (observed (cmd_local_role "drbd1") "Primary" s s'
   ∨ OnStart = true ∧ observed (cmd_local_role "drbd1") "Secondary" s s').

Lemma healthy_within b s1 s2 s3 s4 :
  grew s1 s2 → healthy b s2 s3 → grew s3 s4 → healthy b s1 s4.
Proof. unfold healthy. intros H12 [Hd Hr] H34. split; naive_solver eauto using observed_within. Qed.

Lemma drbdHealth_sound OnStart s :
  wp (drbdHealth OnStart) (λ o s', grew s s' ∧ (o = Val 0 → healthy OnStart s s')) s.
Proof.
  unfold drbdHealth.
  apply wp_bind. eapply wp_mono; [apply (runCommand_asked (cmd_disk "drbd1" true))|].
  intros [[b1 st]| | |] s1 [G1 H1]; cbn [thenQ]; try done. specialize (H1 _ _ eq_refl).
  apply wp_bind. eapply wp_mono; [apply (runCommand_asked (cmd_local_role "drbd1"))|].
  intros [[found ro]| | |] s2 [G2 H2]; cbn [thenQ]; try (split; [by etrans|done]).
  specialize (H2 _ _ eq_refl).
  apply wp_bind. eapply wp_mono; [apply health_retry_spec|].
  intros [[k st']| | |] s3 [G3 H3]; cbn [thenQ]; try (split; [etrans; [done|by etrans]|done]).
  assert (G23 : grew s1 s3) by (by etrans). split; [by etrans|].
  destruct (H3 _ _ eq_refl) as (Hk & Hend & Hst). 
  set (role_ok := if OnStart then _ else _).
  set (disk_ok := negb ((max_retry <=? k)%nat && negb (streq st' "UpToDate"))).
  cbn [fst mret M_ret]. destruct (role_ok && disk_ok && found) eqn:Hok; [|done]. intros _.
  rewrite !andb_true_iff in Hok. destruct Hok as [[Hr Hd] _].
  assert (Hup : st' = "UpToDate"%string).
  { destruct Hend as [->| ->]; [done|]. unfold disk_ok in Hd. simpl in Hd.
    rewrite negb_involutive in Hd. by apply streq_spec. }
  subst st'. split.
  - destruct Hst as [<-|[[=]|Hst]].
    + destruct H1 as [[=]|H1]. eapply observed_within; [reflexivity|exact H1|exact G23].
    + eapply observed_within; [|exact Hst|done]. by etrans.
  - assert (Hro : ∀ r, ro = r → r ≠ EmptyString → observed (cmd_local_role "drbd1") r s s3).
    { intros r -> Hne. destruct H2 as [->|H2]; [done|].
      eapply observed_within; [exact G1|exact H2|exact G3]. }
    unfold role_ok in Hr. destruct OnStart.
    + apply orb_true_iff in Hr as [Hr|Hr]; apply streq_spec in Hr; [right|left]; auto.
    + apply streq_spec in Hr. auto.
Qed.

Lemma drbdHealth_val OnStart s r s' : drbdHealth OnStart s = (Val r, s') → r = 0 ∨ r = -1.
Proof.
  unfold drbdHealth. intros H. apply bind_Val_inv in H as ([? ?] & ? & _ & H).
  apply bind_Val_inv in H as ([? ?] & ? & _ & H). apply bind_Val_inv in H as ([? ?] & ? & _ & H).
  injection H as <- _. destruct (_ && _ && _); auto.
Qed.
End drbdmgr_props.

(** A process with its [Utils] object. *)
Definition exUtils : World := set_glob (set_utilObj (Some newUtils)) newWorld.

Lemma drbdStartJobs_order_witness :
  utils_ready exUtils ∧
  let cmds := start_cmds false in
  wp (drbdStartJobs (E:=calm) newDRBDMgr) (valQ (λ rd s',
    rd.1 = 0 ∧ ran exUtils s' ((λ c, (c, true)) <$> cmds)
    ∨ rd.1 = -1 ∧ ∃ k c, cmds !! k = Some c
        ∧ ran exUtils s' (((λ c, (c, true)) <$> firstn k cmds) ++ [(c, false)]))) exUtils.
Proof.
  split; [by eexists|]. apply (drbdStartJobs_order (E:=calm) newDRBDMgr exUtils). by eexists.
Defined.

Lemma drbdStopJobs_order_witness :
  utils_ready exUtils ∧
  wp (drbdStopJobs (E:=calm) newDRBDMgr) (valQ (λ rd s',
    rd.1 = 0 ∧ (∃ b, ran exUtils s' [(cmd_failover, true); (cmd_deactivate_mips, true);
                               (cmd_cleanup, b); (cmd_disable, true)])
    ∨ rd.1 = -1 ∧ (ran exUtils s' [(cmd_failover, false)]
                   ∨ ran exUtils s' [(cmd_failover, true); (cmd_deactivate_mips, false)]
                   ∨ ∃ b, ran exUtils s' [(cmd_failover, true); (cmd_deactivate_mips, true);
                                    (cmd_cleanup, b); (cmd_disable, false)]))) exUtils.
Proof.
  split; [by eexists|]. apply (drbdStopJobs_order (E:=calm) newDRBDMgr exUtils). by eexists.
Defined.
