(* ===== verification/Net.v ===== *)
(** * Bytes and packets

    What the probes share: bytes at an offset of a buffer, 16-bit words in the
    byte order of the host (little endian) and of the network, the internet
    checksum of [HA_AGENT_Ping::checksum], and the interface of a probe that
    the split-brain algorithm uses. *)

From S2P Require Import Prelude CString Types World.

Open Scope Z_scope.

(** The byte at offset [i] of a buffer that was cleared before it was filled. *)
Definition byte_at (b : list Z) (i : nat) : Z := nth i b 0.
Definition le16_at (b : list Z) (i : nat) : Z := byte_at b i + 256 * byte_at b (S i).
Definition le32_at (b : list Z) (i : nat) : Z := le16_at b i + 2 ^ 16 * le16_at b (S (S i)).
Definition be16_at (b : list Z) (i : nat) : Z := 256 * byte_at b i + byte_at b (S i).

(** The two bytes of a 16-bit word as the host and as the network stores it. *)
Definition le16 (z : Z) : list Z := [z mod 256; (z / 256) mod 256].
Definition be16 (z : Z) : list Z := [(z / 256) mod 256; z mod 256].

(** [n] bytes at offset [i]. *)
Definition bytes_at (b : list Z) (i n : nat) : list Z := map (byte_at b) (seq i n).

Definition IFF_UP : Z := 1.
Definition IFF_LOOPBACK : Z := 8.
Definition IFF_NOARP : Z := 128.

(** [flags & mask]. *)
Definition flag (flags mask : Z) : bool := negb (Z.land flags mask =? 0).

Lemma byte_at_app_r a b i : (length a ≤ i)%nat → byte_at (a ++ b) i = byte_at b (i - length a).
Proof. apply app_nth2. Qed.

Lemma bytes_at_app_r a b i n :
  (length a ≤ i)%nat → bytes_at (a ++ b) i n = bytes_at b (i - length a) n.
Proof.
  intros Hi. unfold bytes_at. revert i Hi; induction n as [|n IH]; intros i Hi; simpl; [done|].
  rewrite byte_at_app_r by done. f_equal. rewrite IH by lia. do 2 f_equal. lia.
Qed.

Lemma bytes_at_all a b : bytes_at (a ++ b) 0 (length a) = a.
Proof.
  unfold bytes_at. induction a as [|x a IH]; [done|]. simpl. f_equal.
  rewrite <-seq_shift, map_map. exact IH.
Qed.

(** ** The internet checksum *)

(** The words of [checksum]: pairs of bytes in host order, an odd last byte
    stands alone. *)
Fixpoint words (b : list Z) : list Z :=
  match b with
  | x :: y :: r => (x + 256 * y) :: words r
  | [x] => [x]
  | [] => []
  end.

(** [HA_AGENT_Ping::checksum] on the bytes of the buffer; [sum] is a
    [uint32_t]. *)
Definition sum32 (ws : list Z) : Z := foldl (λ s w, u32 (s + w)) 0 ws.
Definition fold16 (sum : Z) : Z :=
  let sum := u32 (Z.shiftr sum 16 + Z.land sum 0xffff) in
  u32 (sum + Z.shiftr sum 16).
Definition checksum (b : list Z) : Z :=
  match b with
  | [] => 0
  | _ => u16 (Z.lnot (fold16 (sum32 (words b))))
  end.

Definition word_ok (w : Z) : Prop := 0 ≤ w < 2 ^ 16.
Definition total (ws : list Z) : Z := foldr Z.add 0 ws.

Lemma total_range ws : Forall word_ok ws → 0 ≤ total ws ≤ Z.of_nat (length ws) * 65535.
Proof. unfold word_ok. induction 1; simpl; lia. Qed.

(** No carry is lost: the sum of up to 65536 words fits. *)
Lemma sum32_from ws acc :
  Forall word_ok ws → 0 ≤ acc → acc + total ws < 2 ^ 32 →
  foldl (λ s w, u32 (s + w)) acc ws = acc + total ws.
Proof.
  intros Hws. revert acc; induction Hws as [|w ws Hw Hws IH]; intros acc Ha Hb; simpl in *; [lia|].
  pose proof (total_range ws Hws). unfold word_ok in Hw.
  rewrite u32_small by lia. rewrite IH; lia.
Qed.

Lemma sum32_total ws :
  Forall word_ok ws → Z.of_nat (length ws) ≤ 65536 → sum32 ws = total ws.
Proof.
  intros Hw Hl. unfold sum32. pose proof (total_range ws Hw). rewrite sum32_from; [done|done|done|].
  change (2 ^ 32) with 4294967296. lia.
Qed.

(** Folding keeps the sum modulo 65535 and gives zero only for zero. *)
Lemma fold16_mod s :
  0 ≤ s < 2 ^ 32 →
  (fold16 s mod 2 ^ 16) mod 65535 = s mod 65535
  ∧ (0 < s → 0 < fold16 s mod 2 ^ 16 < 2 ^ 16) ∧ (s = 0 → fold16 s = 0).
Proof.
  intros Hs. unfold fold16. rewrite !Z.shiftr_div_pow2 by lia.
  change 0xffff with (Z.ones 16). rewrite Z.land_ones by lia.
  pose proof (Z.div_mod s (2 ^ 16) ltac:(lia)) as Hdm.
  pose proof (Z.mod_pos_bound s (2 ^ 16) ltac:(lia)).
  assert (0 ≤ s / 2 ^ 16 < 2 ^ 16) by (split; [apply Z.div_pos|apply Z.div_lt_upper_bound]; lia).
  set (q := s / 2 ^ 16) in *. set (r := s mod 2 ^ 16) in *.
  rewrite (u32_small (q + r)) by lia.
  set (t := q + r). assert (Ht : 0 ≤ t ≤ 2 * 65535) by lia.
  destruct (Z_lt_dec t (2 ^ 16)) as [Hlt|Hge].
  - rewrite (Z.div_small t) by lia. rewrite Z.add_0_r, u32_small by lia. rewrite (Z.mod_small t (2 ^ 16)) by lia.
    split; [|lia]. replace s with (t + q * 65535) by lia. by rewrite Z.mod_add.
  - assert (t / 2 ^ 16 = 1) as -> by (symmetry; apply (Z.div_unique _ _ _ (t - 2 ^ 16)); lia).
    rewrite u32_small by lia.
    assert ((t + 1) mod 2 ^ 16 = t + 1 - 2 ^ 16) as ->.
    { symmetry. apply (Z.mod_unique _ _ 1); lia. }
    split; [|lia]. replace s with (t + 1 - 2 ^ 16 + (q + 1) * 65535) by lia.
    by rewrite Z.mod_add.
Qed.

(** The checksum as a number. *)
Lemma lnot16 z : 0 ≤ z → u16 (Z.lnot z) = 65535 - z mod 2 ^ 16.
Proof.
  intros Hz. unfold u16, Z.lnot. pose proof (Z.mod_pos_bound z (2 ^ 16) ltac:(lia)).
  pose proof (Z.div_mod z (2 ^ 16) ltac:(lia)).
  symmetry. apply (Z.mod_unique _ _ (- (z / 2 ^ 16) - 1)); lia.
Qed.

Lemma fold16_nonneg s : 0 ≤ fold16 s.
Proof. apply u32_range. Qed.

(** Adding the complement of the folded sum makes the sum fold to 0xffff. *)
Lemma fold16_verifies T :
  0 ≤ T ≤ 65535 * 65535 →
  let ck := u16 (Z.lnot (fold16 T)) in
  word_ok ck ∧ u16 (Z.lnot (fold16 (T + ck))) = 0.
Proof.
  intros HT ck.
  assert (Hck : ck = 65535 - fold16 T mod 2 ^ 16) by apply lnot16, fold16_nonneg.
  clearbody ck. assert (Hok : word_ok ck).
  { unfold word_ok. rewrite Hck. pose proof (Z.mod_pos_bound (fold16 T) (2 ^ 16) ltac:(lia)). lia. }
  split; [done|]. rewrite lnot16 by apply fold16_nonneg.
  destruct (fold16_mod T) as (Hm & Hpos & Hzero); [lia|].
  destruct (fold16_mod (T + ck)) as (Hm' & Hpos' & _); [unfold word_ok in Hok; lia|].
  assert (Hgt : 0 < T + ck).
  { destruct (Z.eq_dec T 0) as [E|]; [|unfold word_ok in Hok; lia].
    rewrite Hck, Hzero, E by done. reflexivity. }
  specialize (Hpos' Hgt).
  assert (Hz : (T + ck) mod 65535 = 0).
  { pose proof (Z.div_mod T 65535 ltac:(lia)) as D1.
    pose proof (Z.div_mod (fold16 T mod 2 ^ 16) 65535 ltac:(lia)) as D2.
    rewrite Hck. rewrite Hm in D2.
    replace (T + _) with ((T / 65535 - fold16 T mod 2 ^ 16 / 65535 + 1) * 65535) by lia.
    by apply Z.mod_mul. }
  rewrite Hz in Hm'. set (f := fold16 (T + ck) mod 2 ^ 16) in *.
  assert (f = 65535); [|lia].
  apply Z.mod_divide in Hm' as [k Hk]; lia.
Qed.

(** ** Probes

    A probe sends requests to an address and says whether some node answered.
    What the split-brain algorithm relies on: it does not start anything and
    does not touch the files and objects of the daemon. *)

Class Prober `{Env} (probe : string → string → MW bool) : Prop := {
  probe_frame : ∀ R `{!QueryFrame R} ip intf, steps R (probe ip intf)
}.
#[export] Hint Extern 2 (steps ?R (?probe _ _)) => apply (probe_frame (probe:=probe) R) : steps.
