(* ===== verification/DevmonMsg.v ===== *)
(** * The messages of the device monitor

    What the device monitor writes to the FIFO of the agent and what the agent reads
    from it: [HA_DEVMON_MsgT] as the bytes [Global::write_buffer] copies, and the
    message [HA_AGENT_RoleMgr::readMsg] makes of its buffer. *)

From S2P Require Import Prelude CString Types World Net.

Open Scope Z_scope.

(** [HA_DEVMON_MsgT]; the member [data] is what the pointer leads to. *)
Record MsgT : Set := mkMsg { msg_type : Z; msg_size : Z; msg_data : DRBD_InfoT }.

(** The sizes of the arrays, of [DRBD_InfoT] and of the bytes of a message. *)
Definition STATE_LEN : nat := 16.
Definition DISKINFO_LEN : nat := 256.
Definition INFO_LEN : nat := 305.
Definition MSG_LEN : nat := 313.

(** A [char] array that was cleared before the string was copied to it. *)
Fixpoint field (n : nat) (s : string) : list Z :=
  match n with
  | O => []
  | S n =>
      match s with
      | EmptyString => 0 :: field n EmptyString
      | String c r => Z.of_N (N_of_ascii c) :: field n r
      end
  end.

(** The string in the first [n] bytes at [i]. *)
Fixpoint string_at (b : list Z) (i n : nat) : string :=
  match n with
  | O => EmptyString
  | S n =>
      let z := byte_at b i in
      if z =? 0 then EmptyString
      else String (ascii_of_N (Z.to_N z)) (string_at b (S i) n)
  end.

Definition le32 (z : Z) : list Z := le16 (z mod 2 ^ 16) ++ le16 (z / 2 ^ 16).

(** The copies of [write_buffer]. *)
Definition encode_info (d : DRBD_InfoT) : list Z :=
  (if isConfigured d then 1 else 0)
  :: field STATE_LEN (cstate d) ++ field STATE_LEN (role d) ++ field STATE_LEN (dstate d)
     ++ field DISKINFO_LEN (diskinfo d).

Definition encode (m : MsgT) : list Z :=
  le32 (msg_type m) ++ le32 (msg_size m) ++ encode_info (msg_data m).

(** The copies of [readMsg]: [b] is what was read to the start of a cleared buffer. *)
Definition decode_info (b : list Z) (i : nat) : DRBD_InfoT :=
  mkDRBD (negb (byte_at b i =? 0))
    (string_at b (i + 1) STATE_LEN)
    (string_at b (i + 1 + STATE_LEN) STATE_LEN)
    (string_at b (i + 1 + 2 * STATE_LEN) STATE_LEN)
    (string_at b (i + 1 + 3 * STATE_LEN) DISKINFO_LEN).

Definition decode (b : list Z) : MsgT :=
  mkMsg (le32_at b 0) (le32_at b 4) (decode_info b 8).

(** ** The round trip *)

(** A string that fits an array of [n] bytes with its NUL. *)
Definition fits (n : nat) (s : string) : bool :=
  all_chars (no NUL) s && (String.length s <? n)%nat.
Definition info_fits (d : DRBD_InfoT) : bool :=
  fits STATE_LEN (cstate d) && fits STATE_LEN (role d) && fits STATE_LEN (dstate d)
  && fits DISKINFO_LEN (diskinfo d).
Definition word32 (z : Z) : Prop := 0 ≤ z < 2 ^ 32.

Lemma length_field n s : length (field n s) = n.
Proof. revert s; induction n as [|n IH]; intros [|c s]; simpl; auto. Qed.

Lemma byte_at_app_l a b i : (i < length a)%nat → byte_at (a ++ b) i = byte_at a i.
Proof. apply app_nth1. Qed.

Lemma code_nonzero c : no NUL c = true → Z.of_N (N_of_ascii c) ≠ 0.
Proof.
  intros Hc H. assert (N_of_ascii c = 0%N) as H0 by lia.
  assert (c = NUL) as -> by (by rewrite <-(ascii_N_embedding c), H0). done.
Qed.

Lemma string_field n s b pre :
  fits n s = true → string_at (pre ++ field n s ++ b) (length pre) n = s.
Proof.
  revert n pre. induction s as [|c s IH]; intros [|n] pre H; unfold fits in H;
    rewrite andb_true_iff, Nat.ltb_lt in H; destruct H as [Hs Hn]; cbn [String.length] in Hn; try lia.
  - cbn [string_at]. rewrite byte_at_app_r, Nat.sub_diag by lia. done.
  - cbn [string_at field]. cbv zeta.
    assert (byte_at (pre ++ (Z.of_N (N_of_ascii c) :: field n s) ++ b) (length pre)
      = Z.of_N (N_of_ascii c)) as -> by (by rewrite byte_at_app_r, Nat.sub_diag by lia).
    cbn [all_chars] in Hs. apply andb_true_iff in Hs as [Hc Hs].
    destruct (Z.eqb_spec (Z.of_N (N_of_ascii c)) 0) as [H0|_]; [by apply code_nonzero in H0|].
    rewrite N2Z.id, ascii_N_embedding. f_equal.
    replace (pre ++ (Z.of_N (N_of_ascii c) :: field n s) ++ b)
      with ((pre ++ [Z.of_N (N_of_ascii c)]) ++ field n s ++ b) by (by rewrite <-app_assoc).
    replace (S (length pre)) with (length (pre ++ [Z.of_N (N_of_ascii c)]))
      by (rewrite length_app; simpl; lia).
    apply IH. unfold fits. rewrite Hs. apply Nat.ltb_lt. lia.
Qed.

Lemma le16_split w : 0 ≤ w < 2 ^ 16 → w mod 256 + 256 * (w / 256 mod 256) = w.
Proof. intros Hw. rewrite (Z.mod_small (w / 256)); Z.div_mod_to_equations; lia. Qed.

Lemma le32_le32_at z a b : word32 z → le32_at (a ++ le32 z ++ b) (length a) = z.
Proof.
  intros Hz. unfold word32 in Hz. unfold le32_at, le16_at. rewrite !(byte_at_app_r a) by lia.
  replace (length a - length a)%nat with 0%nat by lia.
  replace (S (length a) - length a)%nat with 1%nat by lia.
  replace (S (S (length a)) - length a)%nat with 2%nat by lia.
  replace (S (S (S (length a))) - length a)%nat with 3%nat by lia.
  unfold le32, le16, byte_at. cbn [app nth].
  rewrite !le16_split by (Z.div_mod_to_equations; lia). Z.div_mod_to_equations. lia.
Qed.

Lemma length_encode m : length (encode m) = MSG_LEN.
Proof.
  unfold encode, encode_info. rewrite !length_app. cbn [length].
  by rewrite !length_app, !length_field.
Qed.

(** What the monitor writes is what the agent reads, whatever follows in the FIFO. *)
Lemma decode_encode m rest :
  word32 (msg_type m) → word32 (msg_size m) → info_fits (msg_data m) = true →
  decode (encode m ++ rest) = m.
Proof.
  intros Ht Hs Hd. unfold info_fits in Hd. rewrite !andb_true_iff in Hd.
  destruct Hd as [[[Hc Hr] Hl] Hi].
  unfold decode, encode. rewrite <-!app_assoc.
  assert (∀ b, le32_at (le32 (msg_type m) ++ b) 0 = msg_type m) as ->
    by (intros b; exact (le32_le32_at _ [] b Ht)).
  assert (∀ b, le32_at (le32 (msg_type m) ++ le32 (msg_size m) ++ b) 4 = msg_size m) as ->
    by (intros b; exact (le32_le32_at _ (le32 (msg_type m)) b Hs)).
  destruct m as [ty sz [conf cs ro ds di]]. cbn [msg_type msg_size msg_data] in *.
  f_equal. unfold decode_info, encode_info. cbn [isConfigured cstate role dstate diskinfo] in *.
  set (pre := le32 ty ++ le32 sz ++ [if conf then 1 else 0]).
  replace (le32 ty ++ le32 sz ++ ((if conf then 1 else 0) :: field STATE_LEN cs ++ field STATE_LEN ro
      ++ field STATE_LEN ds ++ field DISKINFO_LEN di) ++ rest)
    with (pre ++ field STATE_LEN cs ++ field STATE_LEN ro ++ field STATE_LEN ds
      ++ field DISKINFO_LEN di ++ rest) by (unfold pre; by rewrite <-!app_assoc; cbn; rewrite <-!app_assoc).
  assert (Hpre : length pre = 9%nat) by done.
  assert (Hat : ∀ i n s a b, fits n s = true → i = length a → string_at (a ++ field n s ++ b) i n = s)
    by (intros i n s a b Hf ->; by apply string_field).
  f_equal.
  - by destruct conf.
  - by apply Hat.
  - rewrite (app_assoc pre). apply Hat; [done|]. by rewrite length_app, length_field, Hpre.
  - rewrite (app_assoc pre), (app_assoc (pre ++ _)). apply Hat; [done|].
    by rewrite !length_app, !length_field, Hpre.
  - rewrite (app_assoc pre), (app_assoc (pre ++ _)), (app_assoc ((pre ++ _) ++ _)).
    apply Hat; [done|]. by rewrite !length_app, !length_field, Hpre.
Qed.
