(* ===== verification/MdPipe.v ===== *)
(** * Software RAID daemons: commands and their output

    The agent and the device monitor for software RAID (the [md] directories) run
    scripts with [system] and read their output with [popen], always in the same way: a
    loop on [feof] around [fgets], and [sscanf] on each line.  [feof] becomes true only
    when a read has met the end, so after an output that ends with a line end the loop
    runs once more on the line that is still in the buffer. *)

From S2P Require Import Prelude World Proc CString Types DevmonMsg.

Open Scope Z_scope.

(** ** Constants of both daemons *)

Definition CMD_LEN : nat := 100.
Definition DISK_NAME_LEN : nat := 10.
Definition MAX_ATTEMPTS : nat := 3.
Definition GEP_ONE : Z := 1.
Definition GEP_TWO : Z := 2.
Definition GEP_HWTYPE : string := "/opt/ap/apos/conf/apos_hwtype.sh".
Definition HA_BASE_CMD : string := "/opt/ap/apos/bin/apos_ha_operations".
Definition NODE_ID_FILE : string := "/etc/opensaf/slot_id".

Definition cmd (base opts : string) : string := snprintf CMD_LEN (String.append base opts).

Definition cmd_list_port_disk : string := cmd HA_BASE_CMD " --list-port-disk".
Definition cmd_list_raid_disks : string := cmd HA_BASE_CMD " --list-raid-disks".
Definition cmd_update_diskstatus : string := cmd HA_BASE_CMD " --update-diskstatus".
Definition cmd_node_state : string := cmd HA_BASE_CMD " --node-state".

(** ** The loop on [feof] *)

(** The piece [l], read with a buffer of [n] bytes, ends before the end of the output was
    met. *)
Fixpoint ends_line (l : string) : bool :=
  match l with
  | EmptyString => false
  | String c EmptyString => eqc c LF
  | String _ l => ends_line l
  end.
Definition before_eof (n : nat) (l : string) : bool :=
  ends_line l || (String.length l =? pred n)%nat.

(** The contents of the buffer in each round; [line] is what it held before. *)
Definition feof_lines (n : nat) (line out : string) : list string :=
  let ls := fgets_lines n out in
  match last ls with
  | None => [line]
  | Some l => if before_eof n l then ls ++ [l] else ls
  end.

(** How the loop was left: at the end of the output, because the buffer was empty, or
    by the body. *)
Inductive Left : Set := AtEof | AtNull | AtBody.

(** The buffer of the [i]-th conversion after [sscanf] stored the words [ws]. *)
Definition stored (ws : list string) (i : nat) (old : option string) : option string :=
  match ws !! i with Some w => Some w | None => old end.

Section commands.
Context `{E : Env} {G : Type}.

(** The loop with a body that says whether to leave it. *)
Fixpoint each_line {St : Type} (ls : list string) (body : string → St → M (Proc G) (St * bool))
    (st : St) : M (Proc G) (St * Left) :=
  match ls with
  | [] => mret (st, AtEof)
  | l :: ls =>
      let line := c_str l in
      if streq line EmptyString then mret (st, AtNull) else
      '(st, stop) ← body line st;
      if (stop : bool) then mret (st, AtBody) else each_line ls body st
  end.

(** [sscanf] with conversions [%s] into buffers of the given sizes: the words stored. *)
Fixpoint sscanf (sizes : list nat) (line : string) : M (Proc G) (list string) :=
  match sizes with
  | [] => mret []
  | n :: sizes =>
      let s := skip_space line in
      let w := word s in
      if streq w EmptyString then mret [] else
      w ← strcpy n w;
      ws ← sscanf sizes (drop (String.length w) s);
      mret (w :: ws)
  end.

(** An array of [n] characters that was not initialised, as a string: [None] without a NUL
    in it, when reading it leaves the array. *)
Definition uninit (n : nat) : M (Proc G) (option string) :=
  b ← req (CUninit (Z.of_nat n));
  mret (if bool_decide (0 ∈ firstn n b) then Some (string_at b 0 n) else None).

(** [WIFEXITED] and [WEXITSTATUS]. *)
Definition WIFEXITED (status : Z) : bool := Z.land status 127 =? 0.
Definition WEXITSTATUS (status : Z) : Z := Z.land (Z.shiftr status 8) 255.

(** The command ended with the status 0. *)
Definition succeeded (r : ChildR) : bool :=
  match r with ForkFailed => false | ChildStatus status => WEXITSTATUS status =? 0 end.

(** [launchCommand]: only the exit status is looked at, so a command that was killed by a
    signal counts as a success. *)
Definition launchCommand (command : string) : M (Proc G) bool :=
  r ← req (CExec command 0);
  mret (succeeded r).

(** [pclose] and the test of its result: whether the function goes on. *)
Definition pclose (command : string) : M (Proc G) bool :=
  status ← req (CPclose command);
  mret (negb (WIFEXITED status && negb (WEXITSTATUS status =? 0))).

(** [msec_sleep]. *)
Definition md_msec_sleep (msecs : Z) : M (Proc G) unit := req (CSleep msecs).

(** [setNodeId]: the number in the file, or [None] where it fails. *)
Definition read_node_id : M (Proc G) (option Z) :=
  fp ← req (CReadFile NODE_ID_FILE);
  match fp with
  | None => mret None
  | Some file =>
      let w := word (skip_space file) in
      if streq w EmptyString then _ ← req (CClose NODE_ID_FILE); mret None else
      buff ← strcpy 10 w;
      closed ← req (CClose NODE_ID_FILE);
      mret (if (closed : bool) then Some (atoi buff) else None)
  end.

(** The type of board [setGepId] finds, [old] where it finds none; [None] where it
    fails. *)
Definition read_gep_id (old : Z) : M (Proc G) (option Z) :=
  fp ← req (CPopen GEP_HWTYPE);
  match fp with
  | None => mret None
  | Some out =>
      buff ← uninit 20;
      '(buff, _) ← each_line (feof_lines 24 EmptyString out)
        (λ line buff, ws ← sscanf [20%nat] line; mret (stored ws 0 buff, false)) buff;
      buff ← deref buff;
      let gep := if streq buff "GEP1" then GEP_ONE else old in
      let gep := if streq buff "GEP2" then GEP_TWO else gep in
      ok ← pclose GEP_HWTYPE;
      mret (if (ok : bool) then Some gep else None)
  end.
End commands.

(** ** Lemmas *)

Lemma feof_lines_length n line out :
  (1 < n)%nat → (String.length line < n)%nat →
  Forall (λ l, (String.length l < n)%nat) (feof_lines n line out).
Proof.
  intros Hn Hl. pose proof (fgets_lines_length n out Hn) as Hf. unfold feof_lines.
  destruct (last (fgets_lines n out)) as [l|] eqn:E; [|by constructor].
  apply last_Some in E as [ls' E]. rewrite E in *.
  destruct (before_eof n l); [|done]. apply Forall_app. split; [done|].
  by apply Forall_app in Hf as [_ Hf].
Qed.

(** A single line is seen twice. *)
Lemma feof_lines_one n line l :
  all_chars (no LF) l = true → (S (String.length l) < n)%nat →
  feof_lines n line (String.append l (String LF EmptyString))
  = [String.append l (String LF EmptyString); String.append l (String LF EmptyString)].
Proof.
  intros Hl Hn. unfold feof_lines. rewrite fgets_lines_line by done. cbn [fgets_lines fgets_go last].
  unfold fgets_lines. cbn [fgets_go last app]. unfold before_eof.
  assert (ends_line (String.append l (String LF EmptyString)) = true) as ->; [|done].
  clear. induction l as [|c l IH]; [done|]. rewrite append_cons.
  destruct l; [done|]. exact IH.
Qed.

Section lemmas.
Context `{E : Env} {G : Type}.

Lemma length_skip_space line : (String.length (skip_space line) ≤ String.length line)%nat.
Proof. induction line as [|c l IH]; simpl; [lia|]. destruct (isspace c); simpl; lia. Qed.

(** A word of a line fits where the line does. *)
Lemma sscanf_one n line (s : Proc G) :
  (String.length line < n)%nat →
  sscanf [n] line s
  = (Val (if streq (word (skip_space line)) EmptyString then [] else [word (skip_space line)]), s).
Proof.
  intros Hn. cbn [sscanf]. case_match; [done|].
  pose proof (length_word (skip_space line)). pose proof (length_skip_space line).
  rewrite (bind_Val _ _ _ (word (skip_space line)) s); [done|]. apply strcpy_fits. lia.
Qed.

Lemma does_each_line {St} (R : relation (Proc G)) `{!PreOrder R} ls
    (body : string → St → M (Proc G) (St * bool)) st :
  Forall (λ l, ∀ st, does R (body (c_str l) st)) ls → does R (each_line ls body st).
Proof.
  intros Hls. revert st. induction Hls as [|l ls Hb _ IH]; intros st; cbn [each_line]; solve_does.
Qed.

Lemma does_launch (Φ : Call → Prop) command :
  Φ (CExec command 0) → does (asks Φ) (launchCommand (G:=G) command).
Proof. intros H. unfold launchCommand. solve_does. Qed.

Lemma does_pclose (Φ : Call → Prop) command :
  Φ (CPclose command) → does (asks Φ) (pclose (G:=G) command).
Proof. intros H. unfold pclose. solve_does. Qed.

Lemma does_msec_sleep (Φ : Call → Prop) n :
  Φ (CSleep n) → does (asks Φ) (md_msec_sleep (G:=G) n).
Proof. apply does_req. Qed.
End lemmas.
#[export] Hint Resolve does_launch does_pclose does_msec_sleep : does.

(** ** Frames

    A preorder that every request but the execution of a command respects is respected by the
    code that reads pipes. *)

Definition is_exec (c : Call) : bool := match c with CExec _ _ => true | _ => false end.

Class PipeFrame {G : Type} `{E : Env} (R : relation (Proc G)) : Prop := {
  pipe_preorder :: PreOrder R;
  pipe_req : ∀ c, is_exec c = false → steps R (req c)
}.

#[export] Instance keeps_pipe {G A : Type} `{E : Env} (f : G → A) : PipeFrame (keeps (f ∘ p_mem)).
Proof. split; [apply _|]. intros c _. apply steps_req. Qed.

#[export] Hint Extern 2 (steps ?R (req ?c)) => apply (pipe_req c); reflexivity : steps.
#[export] Hint Extern 0 (PipeFrame _) => apply _ : steps.

Section pipe_frames.
Context {G : Type} `{E : Env} (R : relation (Proc G)) `{!PipeFrame R}.

Lemma each_line_frame {St} ls (body : string → St → M (Proc G) (St * bool)) st :
  (∀ l st, steps R (body l st)) → steps R (each_line ls body st).
Proof. intros Hb. revert st. induction ls as [|l ls IH]; intros st; cbn [each_line]; solve_steps; done. Qed.

Lemma sscanf_frame sizes line : steps R (sscanf sizes line).
Proof. revert line. induction sizes as [|n sizes IH]; intros line; cbn [sscanf]; solve_steps. Qed.

Lemma uninit_frame n : steps R (uninit n).
Proof. unfold uninit. solve_steps. Qed.

Lemma pclose_frame command : steps R (pclose command).
Proof. unfold pclose. solve_steps. Qed.

Lemma sleep_frame n : steps R (md_msec_sleep n).
Proof. unfold md_msec_sleep. solve_steps. Qed.
End pipe_frames.
#[export] Hint Resolve sscanf_frame uninit_frame pclose_frame sleep_frame : steps.
#[export] Hint Extern 1 (steps _ (each_line _ _ _)) => apply each_line_frame; [apply _|intros; solve_steps] : steps.
