(* ===== verification/MdState.v ===== *)
(** * Software RAID agent: state

    The memory of [APGHA_RDEAgent] (src/ha_cnz/haadm_agent_caa/md): what it knows of the two
    ports with their disks, of both nodes, and the flags of its role.  The names of the
    disks of the two nodes are written but never read, and are left out. *)

From S2P Require Import Prelude World Proc CString Types Amf MdPipe.

Open Scope Z_scope.

(** The values of the enumerations of the header [ACS_APGCC_AmfTypes.h], which is not part
    of the sources. *)
Class ApgTypes := {
  ACS_APGCC_SUCCESS : Z;
  ACS_APGCC_FAILURE : Z;
  NODE_ONE : Z;
  NODE_TWO : Z
}.

(** [APGHA_DataDiskT] and [APGHA_ControllerT] of the agent itself. *)
Record DiskT : Set := mkDisk {
  diskname : string;
  dk_healthy : bool;
  dk_registered : bool;
  dk_reserved : bool
}.
Record PortT : Set := mkPort { pt_healthy : bool; pt_disk : DiskT }.

(** [APGHA_NodeT]: for each port, whether the controller and the disk are healthy. *)
Record NodeT : Set := mkNode { n_port1 : bool; n_disk1 : bool; n_port2 : bool; n_disk2 : bool }.

Record MdT : Set := mkMd {
  PortOne : PortT;
  PortTwo : PortT;
  NodeA : NodeT;
  NodeB : NodeT;
  node_id : Z;
  gep_id : Z;
  backPlaneUp : bool;
  IsMIPConfigured : bool;
  IsRAIDConfigured : bool;
  Is_Agent_Stanby : bool;
  Is_State_Assgned : bool;
  diskRenewalThreadFreq : Z;
  renewDiskRegCounter : Z;
  Y_Msecs : Z;
  X_Times : Z;
  logCounter : Z;
  terminateRdeAgent : bool;
  sigterm_received : bool;
  sigint_received : bool;
  update_datadisk_info : bool;
  update_raid_info : bool;
  debugEnabled : bool;
  gracefullDone : bool;
  initiateFailover : bool;
  IsDebug : bool;
  md_amf : AmfT
}.

Definition DEFLT_X_TIMES : Z := 3.
Definition DEFLT_Y_MSECS : Z := 3000.
Definition DEFALT_THREAD_FREQ : Z := 3000.

Definition newPort : PortT := mkPort false (mkDisk EmptyString false false false).
Definition newNode : NodeT := mkNode false false false false.

(** [Initialize_Agent] and the initial values of the static members. *)
Definition newMd : MdT :=
  mkMd newPort newPort newNode newNode 0 0 false false false false false
    DEFALT_THREAD_FREQ 0 DEFLT_Y_MSECS DEFLT_X_TIMES 0
    false false false false false false false false false newAmf.

Definition set_diskname (x : string) (d : DiskT) : DiskT :=
  mkDisk x (dk_healthy d) (dk_registered d) (dk_reserved d).
Definition set_dk_healthy (x : bool) (d : DiskT) : DiskT :=
  mkDisk (diskname d) x (dk_registered d) (dk_reserved d).
Definition set_dk_registered (x : bool) (d : DiskT) : DiskT :=
  mkDisk (diskname d) (dk_healthy d) x (dk_reserved d).
Definition set_dk_reserved (x : bool) (d : DiskT) : DiskT :=
  mkDisk (diskname d) (dk_healthy d) (dk_registered d) x.
Definition set_pt_healthy (x : bool) (p : PortT) : PortT := mkPort x (pt_disk p).
Definition set_pt_disk (f : DiskT → DiskT) (p : PortT) : PortT := mkPort (pt_healthy p) (f (pt_disk p)).

Definition set_PortOne (x : PortT) (m : MdT) : MdT :=
  mkMd x (PortTwo m) (NodeA m) (NodeB m) (node_id m) (gep_id m) (backPlaneUp m)
    (IsMIPConfigured m) (IsRAIDConfigured m) (Is_Agent_Stanby m) (Is_State_Assgned m)
    (diskRenewalThreadFreq m) (renewDiskRegCounter m) (Y_Msecs m) (X_Times m) (logCounter m)
    (terminateRdeAgent m) (sigterm_received m) (sigint_received m) (update_datadisk_info m)
    (update_raid_info m) (debugEnabled m) (gracefullDone m) (initiateFailover m) (IsDebug m)
    (md_amf m).
Definition set_PortTwo (x : PortT) (m : MdT) : MdT :=
  mkMd (PortOne m) x (NodeA m) (NodeB m) (node_id m) (gep_id m) (backPlaneUp m)
    (IsMIPConfigured m) (IsRAIDConfigured m) (Is_Agent_Stanby m) (Is_State_Assgned m)
    (diskRenewalThreadFreq m) (renewDiskRegCounter m) (Y_Msecs m) (X_Times m) (logCounter m)
    (terminateRdeAgent m) (sigterm_received m) (sigint_received m) (update_datadisk_info m)
    (update_raid_info m) (debugEnabled m) (gracefullDone m) (initiateFailover m) (IsDebug m)
    (md_amf m).
Definition set_NodeA (x : NodeT) (m : MdT) : MdT :=
  mkMd (PortOne m) (PortTwo m) x (NodeB m) (node_id m) (gep_id m) (backPlaneUp m)
    (IsMIPConfigured m) (IsRAIDConfigured m) (Is_Agent_Stanby m) (Is_State_Assgned m)
    (diskRenewalThreadFreq m) (renewDiskRegCounter m) (Y_Msecs m) (X_Times m) (logCounter m)
    (terminateRdeAgent m) (sigterm_received m) (sigint_received m) (update_datadisk_info m)
    (update_raid_info m) (debugEnabled m) (gracefullDone m) (initiateFailover m) (IsDebug m)
    (md_amf m).
Definition set_NodeB (x : NodeT) (m : MdT) : MdT :=
  mkMd (PortOne m) (PortTwo m) (NodeA m) x (node_id m) (gep_id m) (backPlaneUp m)
    (IsMIPConfigured m) (IsRAIDConfigured m) (Is_Agent_Stanby m) (Is_State_Assgned m)
    (diskRenewalThreadFreq m) (renewDiskRegCounter m) (Y_Msecs m) (X_Times m) (logCounter m)
    (terminateRdeAgent m) (sigterm_received m) (sigint_received m) (update_datadisk_info m)
    (update_raid_info m) (debugEnabled m) (gracefullDone m) (initiateFailover m) (IsDebug m)
    (md_amf m).
Definition set_node_id (x : Z) (m : MdT) : MdT :=
  mkMd (PortOne m) (PortTwo m) (NodeA m) (NodeB m) x (gep_id m) (backPlaneUp m)
    (IsMIPConfigured m) (IsRAIDConfigured m) (Is_Agent_Stanby m) (Is_State_Assgned m)
    (diskRenewalThreadFreq m) (renewDiskRegCounter m) (Y_Msecs m) (X_Times m) (logCounter m)
    (terminateRdeAgent m) (sigterm_received m) (sigint_received m) (update_datadisk_info m)
    (update_raid_info m) (debugEnabled m) (gracefullDone m) (initiateFailover m) (IsDebug m)
    (md_amf m).
Definition set_gep_id (x : Z) (m : MdT) : MdT :=
  mkMd (PortOne m) (PortTwo m) (NodeA m) (NodeB m) (node_id m) x (backPlaneUp m)
    (IsMIPConfigured m) (IsRAIDConfigured m) (Is_Agent_Stanby m) (Is_State_Assgned m)
    (diskRenewalThreadFreq m) (renewDiskRegCounter m) (Y_Msecs m) (X_Times m) (logCounter m)
    (terminateRdeAgent m) (sigterm_received m) (sigint_received m) (update_datadisk_info m)
    (update_raid_info m) (debugEnabled m) (gracefullDone m) (initiateFailover m) (IsDebug m)
    (md_amf m).
Definition set_backPlaneUp (x : bool) (m : MdT) : MdT :=
  mkMd (PortOne m) (PortTwo m) (NodeA m) (NodeB m) (node_id m) (gep_id m) x (IsMIPConfigured m)
    (IsRAIDConfigured m) (Is_Agent_Stanby m) (Is_State_Assgned m) (diskRenewalThreadFreq m)
    (renewDiskRegCounter m) (Y_Msecs m) (X_Times m) (logCounter m) (terminateRdeAgent m)
    (sigterm_received m) (sigint_received m) (update_datadisk_info m) (update_raid_info m)
    (debugEnabled m) (gracefullDone m) (initiateFailover m) (IsDebug m) (md_amf m).
Definition set_IsMIPConfigured (x : bool) (m : MdT) : MdT :=
  mkMd (PortOne m) (PortTwo m) (NodeA m) (NodeB m) (node_id m) (gep_id m) (backPlaneUp m) x
    (IsRAIDConfigured m) (Is_Agent_Stanby m) (Is_State_Assgned m) (diskRenewalThreadFreq m)
    (renewDiskRegCounter m) (Y_Msecs m) (X_Times m) (logCounter m) (terminateRdeAgent m)
    (sigterm_received m) (sigint_received m) (update_datadisk_info m) (update_raid_info m)
    (debugEnabled m) (gracefullDone m) (initiateFailover m) (IsDebug m) (md_amf m).
Definition set_IsRAIDConfigured (x : bool) (m : MdT) : MdT :=
  mkMd (PortOne m) (PortTwo m) (NodeA m) (NodeB m) (node_id m) (gep_id m) (backPlaneUp m)
    (IsMIPConfigured m) x (Is_Agent_Stanby m) (Is_State_Assgned m) (diskRenewalThreadFreq m)
    (renewDiskRegCounter m) (Y_Msecs m) (X_Times m) (logCounter m) (terminateRdeAgent m)
    (sigterm_received m) (sigint_received m) (update_datadisk_info m) (update_raid_info m)
    (debugEnabled m) (gracefullDone m) (initiateFailover m) (IsDebug m) (md_amf m).
Definition set_Is_Agent_Stanby (x : bool) (m : MdT) : MdT :=
  mkMd (PortOne m) (PortTwo m) (NodeA m) (NodeB m) (node_id m) (gep_id m) (backPlaneUp m)
    (IsMIPConfigured m) (IsRAIDConfigured m) x (Is_State_Assgned m) (diskRenewalThreadFreq m)
    (renewDiskRegCounter m) (Y_Msecs m) (X_Times m) (logCounter m) (terminateRdeAgent m)
    (sigterm_received m) (sigint_received m) (update_datadisk_info m) (update_raid_info m)
    (debugEnabled m) (gracefullDone m) (initiateFailover m) (IsDebug m) (md_amf m).
Definition set_Is_State_Assgned (x : bool) (m : MdT) : MdT :=
  mkMd (PortOne m) (PortTwo m) (NodeA m) (NodeB m) (node_id m) (gep_id m) (backPlaneUp m)
    (IsMIPConfigured m) (IsRAIDConfigured m) (Is_Agent_Stanby m) x (diskRenewalThreadFreq m)
    (renewDiskRegCounter m) (Y_Msecs m) (X_Times m) (logCounter m) (terminateRdeAgent m)
    (sigterm_received m) (sigint_received m) (update_datadisk_info m) (update_raid_info m)
    (debugEnabled m) (gracefullDone m) (initiateFailover m) (IsDebug m) (md_amf m).
Definition set_diskRenewalThreadFreq (x : Z) (m : MdT) : MdT :=
  mkMd (PortOne m) (PortTwo m) (NodeA m) (NodeB m) (node_id m) (gep_id m) (backPlaneUp m)
    (IsMIPConfigured m) (IsRAIDConfigured m) (Is_Agent_Stanby m) (Is_State_Assgned m) x
    (renewDiskRegCounter m) (Y_Msecs m) (X_Times m) (logCounter m) (terminateRdeAgent m)
    (sigterm_received m) (sigint_received m) (update_datadisk_info m) (update_raid_info m)
    (debugEnabled m) (gracefullDone m) (initiateFailover m) (IsDebug m) (md_amf m).
Definition set_renewDiskRegCounter (x : Z) (m : MdT) : MdT :=
  mkMd (PortOne m) (PortTwo m) (NodeA m) (NodeB m) (node_id m) (gep_id m) (backPlaneUp m)
    (IsMIPConfigured m) (IsRAIDConfigured m) (Is_Agent_Stanby m) (Is_State_Assgned m)
    (diskRenewalThreadFreq m) x (Y_Msecs m) (X_Times m) (logCounter m) (terminateRdeAgent m)
    (sigterm_received m) (sigint_received m) (update_datadisk_info m) (update_raid_info m)
    (debugEnabled m) (gracefullDone m) (initiateFailover m) (IsDebug m) (md_amf m).
Definition set_Y_Msecs (x : Z) (m : MdT) : MdT :=
  mkMd (PortOne m) (PortTwo m) (NodeA m) (NodeB m) (node_id m) (gep_id m) (backPlaneUp m)
    (IsMIPConfigured m) (IsRAIDConfigured m) (Is_Agent_Stanby m) (Is_State_Assgned m)
    (diskRenewalThreadFreq m) (renewDiskRegCounter m) x (X_Times m) (logCounter m)
    (terminateRdeAgent m) (sigterm_received m) (sigint_received m) (update_datadisk_info m)
    (update_raid_info m) (debugEnabled m) (gracefullDone m) (initiateFailover m) (IsDebug m)
    (md_amf m).
Definition set_X_Times (x : Z) (m : MdT) : MdT :=
  mkMd (PortOne m) (PortTwo m) (NodeA m) (NodeB m) (node_id m) (gep_id m) (backPlaneUp m)
    (IsMIPConfigured m) (IsRAIDConfigured m) (Is_Agent_Stanby m) (Is_State_Assgned m)
    (diskRenewalThreadFreq m) (renewDiskRegCounter m) (Y_Msecs m) x (logCounter m)
    (terminateRdeAgent m) (sigterm_received m) (sigint_received m) (update_datadisk_info m)
    (update_raid_info m) (debugEnabled m) (gracefullDone m) (initiateFailover m) (IsDebug m)
    (md_amf m).
Definition set_logCounter (x : Z) (m : MdT) : MdT :=
  mkMd (PortOne m) (PortTwo m) (NodeA m) (NodeB m) (node_id m) (gep_id m) (backPlaneUp m)
    (IsMIPConfigured m) (IsRAIDConfigured m) (Is_Agent_Stanby m) (Is_State_Assgned m)
    (diskRenewalThreadFreq m) (renewDiskRegCounter m) (Y_Msecs m) (X_Times m) x
    (terminateRdeAgent m) (sigterm_received m) (sigint_received m) (update_datadisk_info m)
    (update_raid_info m) (debugEnabled m) (gracefullDone m) (initiateFailover m) (IsDebug m)
    (md_amf m).
Definition set_terminateRdeAgent (x : bool) (m : MdT) : MdT :=
  mkMd (PortOne m) (PortTwo m) (NodeA m) (NodeB m) (node_id m) (gep_id m) (backPlaneUp m)
    (IsMIPConfigured m) (IsRAIDConfigured m) (Is_Agent_Stanby m) (Is_State_Assgned m)
    (diskRenewalThreadFreq m) (renewDiskRegCounter m) (Y_Msecs m) (X_Times m) (logCounter m) x
    (sigterm_received m) (sigint_received m) (update_datadisk_info m) (update_raid_info m)
    (debugEnabled m) (gracefullDone m) (initiateFailover m) (IsDebug m) (md_amf m).
Definition set_sigterm_received (x : bool) (m : MdT) : MdT :=
  mkMd (PortOne m) (PortTwo m) (NodeA m) (NodeB m) (node_id m) (gep_id m) (backPlaneUp m)
    (IsMIPConfigured m) (IsRAIDConfigured m) (Is_Agent_Stanby m) (Is_State_Assgned m)
    (diskRenewalThreadFreq m) (renewDiskRegCounter m) (Y_Msecs m) (X_Times m) (logCounter m)
    (terminateRdeAgent m) x (sigint_received m) (update_datadisk_info m) (update_raid_info m)
    (debugEnabled m) (gracefullDone m) (initiateFailover m) (IsDebug m) (md_amf m).
Definition set_sigint_received (x : bool) (m : MdT) : MdT :=
  mkMd (PortOne m) (PortTwo m) (NodeA m) (NodeB m) (node_id m) (gep_id m) (backPlaneUp m)
    (IsMIPConfigured m) (IsRAIDConfigured m) (Is_Agent_Stanby m) (Is_State_Assgned m)
    (diskRenewalThreadFreq m) (renewDiskRegCounter m) (Y_Msecs m) (X_Times m) (logCounter m)
    (terminateRdeAgent m) (sigterm_received m) x (update_datadisk_info m) (update_raid_info m)
    (debugEnabled m) (gracefullDone m) (initiateFailover m) (IsDebug m) (md_amf m).
Definition set_update_datadisk_info (x : bool) (m : MdT) : MdT :=
  mkMd (PortOne m) (PortTwo m) (NodeA m) (NodeB m) (node_id m) (gep_id m) (backPlaneUp m)
    (IsMIPConfigured m) (IsRAIDConfigured m) (Is_Agent_Stanby m) (Is_State_Assgned m)
    (diskRenewalThreadFreq m) (renewDiskRegCounter m) (Y_Msecs m) (X_Times m) (logCounter m)
    (terminateRdeAgent m) (sigterm_received m) (sigint_received m) x (update_raid_info m)
    (debugEnabled m) (gracefullDone m) (initiateFailover m) (IsDebug m) (md_amf m).
Definition set_update_raid_info (x : bool) (m : MdT) : MdT :=
  mkMd (PortOne m) (PortTwo m) (NodeA m) (NodeB m) (node_id m) (gep_id m) (backPlaneUp m)
    (IsMIPConfigured m) (IsRAIDConfigured m) (Is_Agent_Stanby m) (Is_State_Assgned m)
    (diskRenewalThreadFreq m) (renewDiskRegCounter m) (Y_Msecs m) (X_Times m) (logCounter m)
    (terminateRdeAgent m) (sigterm_received m) (sigint_received m) (update_datadisk_info m) x
    (debugEnabled m) (gracefullDone m) (initiateFailover m) (IsDebug m) (md_amf m).
Definition set_debugEnabled (x : bool) (m : MdT) : MdT :=
  mkMd (PortOne m) (PortTwo m) (NodeA m) (NodeB m) (node_id m) (gep_id m) (backPlaneUp m)
    (IsMIPConfigured m) (IsRAIDConfigured m) (Is_Agent_Stanby m) (Is_State_Assgned m)
    (diskRenewalThreadFreq m) (renewDiskRegCounter m) (Y_Msecs m) (X_Times m) (logCounter m)
    (terminateRdeAgent m) (sigterm_received m) (sigint_received m) (update_datadisk_info m)
    (update_raid_info m) x (gracefullDone m) (initiateFailover m) (IsDebug m) (md_amf m).
Definition set_gracefullDone (x : bool) (m : MdT) : MdT :=
  mkMd (PortOne m) (PortTwo m) (NodeA m) (NodeB m) (node_id m) (gep_id m) (backPlaneUp m)
    (IsMIPConfigured m) (IsRAIDConfigured m) (Is_Agent_Stanby m) (Is_State_Assgned m)
    (diskRenewalThreadFreq m) (renewDiskRegCounter m) (Y_Msecs m) (X_Times m) (logCounter m)
    (terminateRdeAgent m) (sigterm_received m) (sigint_received m) (update_datadisk_info m)
    (update_raid_info m) (debugEnabled m) x (initiateFailover m) (IsDebug m) (md_amf m).
Definition set_initiateFailover (x : bool) (m : MdT) : MdT :=
  mkMd (PortOne m) (PortTwo m) (NodeA m) (NodeB m) (node_id m) (gep_id m) (backPlaneUp m)
    (IsMIPConfigured m) (IsRAIDConfigured m) (Is_Agent_Stanby m) (Is_State_Assgned m)
    (diskRenewalThreadFreq m) (renewDiskRegCounter m) (Y_Msecs m) (X_Times m) (logCounter m)
    (terminateRdeAgent m) (sigterm_received m) (sigint_received m) (update_datadisk_info m)
    (update_raid_info m) (debugEnabled m) (gracefullDone m) x (IsDebug m) (md_amf m).
Definition set_IsDebug (x : bool) (m : MdT) : MdT :=
  mkMd (PortOne m) (PortTwo m) (NodeA m) (NodeB m) (node_id m) (gep_id m) (backPlaneUp m)
    (IsMIPConfigured m) (IsRAIDConfigured m) (Is_Agent_Stanby m) (Is_State_Assgned m)
    (diskRenewalThreadFreq m) (renewDiskRegCounter m) (Y_Msecs m) (X_Times m) (logCounter m)
    (terminateRdeAgent m) (sigterm_received m) (sigint_received m) (update_datadisk_info m)
    (update_raid_info m) (debugEnabled m) (gracefullDone m) (initiateFailover m) x (md_amf m).
Definition set_md_amf (x : AmfT) (m : MdT) : MdT :=
  mkMd (PortOne m) (PortTwo m) (NodeA m) (NodeB m) (node_id m) (gep_id m) (backPlaneUp m)
    (IsMIPConfigured m) (IsRAIDConfigured m) (Is_Agent_Stanby m) (Is_State_Assgned m)
    (diskRenewalThreadFreq m) (renewDiskRegCounter m) (Y_Msecs m) (X_Times m) (logCounter m)
    (terminateRdeAgent m) (sigterm_received m) (sigint_received m) (update_datadisk_info m)
    (update_raid_info m) (debugEnabled m) (gracefullDone m) (initiateFailover m) (IsDebug m) x.

(** The two ports, and the functions that are written out for both. *)
Inductive Which : Set := One | Two.

Definition port (w : Which) (m : MdT) : PortT :=
  match w with One => PortOne m | Two => PortTwo m end.
Definition set_port (w : Which) (f : PortT → PortT) (m : MdT) : MdT :=
  match w with One => set_PortOne (f (PortOne m)) m | Two => set_PortTwo (f (PortTwo m)) m end.
Definition on_disk (w : Which) (f : DiskT → DiskT) : MdT → MdT := set_port w (set_pt_disk f).
Definition disk (w : Which) (m : MdT) : DiskT := pt_disk (port w m).
