(* ===== verification/MdTipc.v ===== *)
(** * Software RAID agent: the topology service

    [ACS_APGCC_AgentMsging]: each node binds a TIPC name of its own, and asks the topology
    server whether the name of the other node is published, that is, whether the back
    plane connects the two.  The socket also carries the events of a subscription to the
    node's own name. *)

From S2P Require Import Prelude World Proc CString Types Amf MdPipe MdState.

Open Scope Z_scope.

Definition sizeof_tipc_event : Z := 48.
Definition TIPC_PUBLISHED : Z := 1.
Definition TIPC_WITHDRAWN : Z := 2.
Definition TIPC_SUBSCR_TIMEOUT : Z := 3.

Section tipc.
Context `{E : Env} `{T : ApgTypes}.

(** [_create_tipc_address]: the instance of a node; for any other number the address is
    not initialised. *)
Definition create_tipc_address (node : Z) : M (Proc MdT) Z :=
  b ← req (CUninit 8);
  let garbage := foldr (λ x acc, x + 256 * acc) 0 b in
  let inst := if node =? NODE_ONE then 2010 else garbage in
  mret (if node =? NODE_TWO then 2020 else inst).

(** [tipc_subscribe]. *)
Definition tipc_subscribe (inst : Z) : M (Proc MdT) bool := req (CTipc "send").

(** [tipc_msg_intialize]: that an option or the subscription failed is only logged. *)
Definition tipc_msg_intialize (node : Z) : M (Proc MdT) bool :=
  inst ← create_tipc_address node;
  _ ← req (CTipc "socket");
  ok ← req (CTipc "bind");
  if negb ok then mret false else
  _ ← req (CTipc "setsockopt");
  _ ← tipc_subscribe inst;
  mret true.

(** [tipc_initialize]. *)
Definition tipc_initialize (node : Z) : M (Proc MdT) bool :=
  ok ← req (CTipc "socket");
  if negb ok then mret false else
  ok ← req (CTipc "connect");
  if negb ok then mret false else
  tipc_msg_intialize node.

(** [query_tipc_topserver]: the flag [Is_Published], or [None] where it fails; it is the
    next event on the socket that decides. *)
Definition query_tipc_topserver (node : Z) : M (Proc MdT) (option bool) :=
  inst ← create_tipc_address node;
  ok ← req (CTipc "send");
  if negb ok then mret None else
  evt ← req CTipcEvent;
  mret (Some ((te_len evt =? sizeof_tipc_event) && (te_event evt =? TIPC_PUBLISHED)
              && (te_lower evt =? inst))).

(** [topserver_handler]: the event is read and logged. *)
Definition topserver_handler : M (Proc MdT) bool :=
  evt ← req CTipcEvent;
  mret ((te_event evt =? TIPC_PUBLISHED) || (te_event evt =? TIPC_WITHDRAWN)
        || (te_event evt =? TIPC_SUBSCR_TIMEOUT)).
End tipc.
