(* ===== verification/AgentTipc.v ===== *)
(** * DRBD agent: the topology service

    [HA_AGENT_Tipc]: a node binds a TIPC name of its own and asks the topology server for
    names.  The daemon does not create an object of this class. *)

From S2P Require Import Prelude CString Types World MdTipc.

Open Scope Z_scope.

(** A descriptor: as the constructor leaves it, open, or -1. *)
Inductive Sd : Set := SdZero | SdOpen | SdError.

Record TipcT : Set := mkTipc { sock_sd : Sd; bind_sd : Sd }.
Definition newTipc : TipcT := mkTipc SdZero SdZero.

(** [l_tipc_addr]. *)
Record l_tipc_addr : Set := mkTAddr { t_type : Z; t_instance : Z }.

Section tipc.
Context `{E : Env}.

(** An [unsigned long] that is not initialised. *)
Definition garbage_long : MW Z :=
  b ← call (CUninit 8); mret (u64 (foldr (λ x acc, x + 256 * acc) 0 b)).

(** [create_addr] on an address that is not initialised. *)
Definition create_addr (node_id : Z) : MW l_tipc_addr :=
  ty ← garbage_long;
  inst ← garbage_long;
  let a := mkTAddr ty inst in
  let a := if node_id =? APOS_HA_NODE_ONE then mkTAddr 100 2010 else a in
  mret (if node_id =? APOS_HA_NODE_TWO then mkTAddr 100 2020 else a).

(** [subscribe]. *)
Definition subscribe (t_addr : l_tipc_addr) : MW Z :=
  ok ← call (CTipc "send"); mret (if (ok : bool) then 0 else -1).

Definition socket : MW Sd :=
  ok ← call (CTipc "socket"); mret (if (ok : bool) then SdOpen else SdError).

(** A call that is made while [rCode] is zero. *)
Definition while_ok (rCode : Z) (m : MW bool) : MW Z :=
  if rCode =? 0 then ok ← m; mret (if (ok : bool) then 0 else -1) else mret rCode.

(** [msg_init]. *)
Definition msg_init (t : TipcT) (node_id : Z) : MW (Z * TipcT) :=
  t_addr ← create_addr node_id;
  sd ← socket;
  let rCode := match sd with SdError => -1 | _ => 0 end in
  rCode ← while_ok rCode (call (CTipc "bind"));
  rCode ← while_ok rCode (call (CTipc "setsockopt"));
  rCode ← while_ok rCode (r ← subscribe t_addr; mret (negb (r <? 0)));
  mret (rCode, mkTipc (sock_sd t) sd).

(** [init]. *)
Definition tipc_init (t : TipcT) (node_id : Z) : MW (Z * TipcT) :=
  sd ← socket;
  let t := mkTipc sd (bind_sd t) in
  let rCode := match sd with SdError => -1 | _ => 0 end in
  rCode ← while_ok rCode (call (CTipc "connect"));
  if rCode =? 0 then
    '(r, t) ← msg_init t node_id;
    mret (if r <? 0 then -1 else rCode, t)
  else mret (rCode, t).

(** [query_topsrv]: the code, and [Is_Published] where it is set. *)
Definition query_topsrv (node_id : Z) : MW (Z * option bool) :=
  t_addr ← create_addr node_id;
  ok ← call (CTipc "send");
  if negb ok then mret (-1, None)
  else
    evt ← call CTipcEvent;
    mret (0, Some ((te_len evt =? sizeof_tipc_event) && (te_event evt =? TIPC_PUBLISHED)
                   && (te_lower evt =? t_instance t_addr))).

(** [topsrv_handler]. *)
Definition topsrv_handler : MW Z :=
  evt ← call CTipcEvent;
  mret (if (te_event evt =? TIPC_PUBLISHED) || (te_event evt =? TIPC_WITHDRAWN)
           || (te_event evt =? TIPC_SUBSCR_TIMEOUT) then 0 else -1).

(** ** What a query tells *)

(** The instance of the name of a node. *)
Definition instance_of (node_id : Z) : Z := if node_id =? APOS_HA_NODE_ONE then 2010 else 2020.

Lemma create_addr_instance node_id s :
  node_id = APOS_HA_NODE_ONE ∨ node_id = APOS_HA_NODE_TWO →
  wp (create_addr node_id) (valQ (λ a _, a = mkTAddr 100 (instance_of node_id))) s.
Proof. intros [->| ->]; unfold create_addr, garbage_long; wp_auto; done. Qed.

(** A node is reported as published exactly if the next event on the socket is the
    publication of its name. *)
Lemma query_published node_id s :
  node_id = APOS_HA_NODE_ONE ∨ node_id = APOS_HA_NODE_TWO →
  wp (query_topsrv node_id) (valQ (λ r s',
    r = (-1, None)
    ∨ ∃ evt older, w_trace s' = Ev CTipcEvent evt :: older
        ∧ r = (0, Some (bool_decide (te_len evt = sizeof_tipc_event ∧ te_event evt = TIPC_PUBLISHED
                                     ∧ te_lower evt = instance_of node_id))))) s.
Proof.
  intros Hn. unfold query_topsrv. apply wp_valQ_bind.
  eapply wp_valQ_mono; [by apply create_addr_instance|]. intros a s1 ->. cbn [t_instance].
  wp_auto. destruct (negb _); wp_auto; [by left|]. right. eexists _, _. split; [done|].
  do 2 f_equal. apply Bool.eq_iff_eq_true. rewrite bool_decide_eq_true, !andb_true_iff, !Z.eqb_eq. tauto.
Qed.

(** The subscription of [init] to the node's own name uses the same socket: while its event
    is the next one, the other node is reported as not published, whatever it is. *)
Lemma stale_event_hides_peer own peer s :
  (own = APOS_HA_NODE_ONE ∧ peer = APOS_HA_NODE_TWO ∨ own = APOS_HA_NODE_TWO ∧ peer = APOS_HA_NODE_ONE) →
  (∀ t, te_lower (answer t CTipcEvent) = instance_of own) →
  wp (query_topsrv peer) (valQ (λ r _, r.2 ≠ Some true)) s.
Proof.
  intros Hp He. unfold query_topsrv. apply wp_valQ_bind.
  eapply wp_valQ_mono; [apply create_addr_instance; destruct Hp as [[_ ->]|[_ ->]]; auto|].
  intros a s1 ->. cbn [t_instance]. wp_auto. destruct (negb _); wp_auto; [done|]. subst. rewrite He.
  destruct Hp as [[-> ->]|[-> ->]]; cbn; by rewrite andb_false_r.
Qed.
End tipc.
