(* ===== verification/MdDisk.v ===== *)
(** * Software RAID agent: the data disks

    The part of [APGHA_RDEAgent] that works on the two shared disks: it finds out which are
    reachable, registers the node at them, and reserves them.  A disk that the peer holds is
    taken away from it ([preemptDataDisk]) only when the peer seems dead: a live peer renews
    its registration, which moves the generation counter of the disk. *)

From S2P Require Import Prelude World Proc CString Types Amf MdPipe MdState.

Open Scope Z_scope.

Definition SCSI_BASE_CMD : string := "/opt/ap/apos/bin/apos_ha_scsi_operations".

Definition scsi (opt name : string) : string := cmd SCSI_BASE_CMD (String.append opt name).
Definition cmd_register (name : string) : string := scsi " --register-renew-datadisk " name.
Definition cmd_clear (name : string) : string := scsi " --clear-registrations " name.
Definition cmd_reserve (name : string) : string := scsi "  --reserve-datadisk  " name.
Definition cmd_query (name : string) : string := scsi " --query-generation-key " name.
Definition cmd_release (name : string) : string := scsi " --release-reservations " name.
Definition cmd_unreg (name : string) : string := scsi " --unreg-datadisk " name.
Definition cmd_preempt (name : string) : string := scsi " --preempt-disk  " name.

Definition port_digit (w : Which) : string := match w with One => "1" | Two => "2" end.
Definition cmd_port_status (gep : Z) (w : Which) : string :=
  cmd HA_BASE_CMD (String.append
    (if gep =? GEP_ONE then " --gep-one-port-status " else " --gep-two-port-status ") (port_digit w)).

Abbreviation MM := (M (Proc MdT)).

Section disks.
Context `{E : Env}.

(** ** Controllers and disks *)

(** [launch_popen]: the status of a port, [None] where it fails.  The buffers are not
    initialised. *)
Definition launch_popen (command : string) : MM (option bool) :=
  fp ← req (CPopen command);
  match fp with
  | None => mret None
  | Some out =>
      buff2 ← uninit 20;
      '(buff2, _) ← each_line (feof_lines 79 EmptyString out)
        (λ line buff2, ws ← sscanf [20; 20]%nat line; mret (stored ws 1 buff2, false)) buff2;
      buff2 ← deref buff2;
      ok ← pclose command;
      mret (if (ok : bool) then Some (streq buff2 "healthy") else None)
  end.

Definition check_port (w : Which) : MM unit :=
  gep ← mem gep_id;
  st ← launch_popen (cmd_port_status gep w);
  match st with
  | Some b => upd (set_port w (set_pt_healthy b))
  | None => mret tt
  end.

(** [checkSCSIControllerStatus]. *)
Definition checkSCSIControllerStatus : MM bool :=
  upd (set_port One (set_pt_healthy false) ∘ set_port Two (set_pt_healthy false));;
  gep ← mem gep_id;
  (if (gep =? GEP_ONE) || (gep =? GEP_TWO) then check_port One;; check_port Two else mret tt);;
  h1 ← mem (pt_healthy ∘ PortOne);
  h2 ← mem (pt_healthy ∘ PortTwo);
  if negb h1 && negb h2 then upd (set_initiateFailover true);; mret false
  else mret true.

(** A line of [--list-port-disk]: a disk that is not [null] is healthy.  The buffers of
    [sscanf] keep their contents from line to line. *)
Definition port_line (w : Which) (line : string) (name : option string) : MM (option string) :=
  if strstr line (match w with One => "PORT1:" | Two => "PORT2:" end) then
    ws ← sscanf [10; 10]%nat line;
    let name := stored ws 1 name in
    text ← deref name;
    if streq text "null" then mret name else
    text ← strcpy DISK_NAME_LEN text;
    upd (on_disk w (set_diskname text ∘ set_dk_healthy true));;
    mret name
  else mret name.

(** [checkAvailableDataDisks]. *)
Definition checkAvailableDataDisks : MM bool :=
  upd (on_disk One (set_dk_healthy false) ∘ on_disk Two (set_dk_healthy false));;
  fp ← req (CPopen cmd_list_port_disk);
  match fp with
  | None => mret false
  | Some out =>
      buff2 ← uninit 10;
      buff4 ← uninit 10;
      _ ← each_line (feof_lines 79 EmptyString out)
        (λ line '(buff2, buff4),
           buff2 ← port_line One line buff2;
           buff4 ← port_line Two line buff4;
           mret ((buff2, buff4), false)) (buff2, buff4);
      h1 ← mem (dk_healthy ∘ disk One);
      h2 ← mem (dk_healthy ∘ disk Two);
      if negb h1 && negb h2 then
        upd (set_initiateFailover true);;
        _ ← pclose cmd_list_port_disk;
        mret false
      else pclose cmd_list_port_disk
  end.

(** ** Registration *)

Definition registerDataDisk (name : string) : MM bool := launchCommand (cmd_register name).

Fixpoint register_loop (attempts : nat) (name : string) : MM bool :=
  match attempts with
  | O => mret false
  | S attempts =>
      ok ← registerDataDisk name;
      if (ok : bool) then mret true else
      md_msec_sleep 1000;;
      register_loop attempts name
  end.

(** The registration of one disk; after a clean-up of the registrations of either disk it
    is the first one that is marked as registered. *)
Definition register_port (w : Which) : MM bool :=
  p ← mem (port w);
  if pt_healthy p && dk_healthy (pt_disk p) then
    let name := diskname (pt_disk p) in
    ok ← register_loop MAX_ATTEMPTS name;
    if (ok : bool) then upd (on_disk w (set_dk_registered true));; mret true else
    ok ← launchCommand (cmd_clear name);
    if (ok : bool) then upd (on_disk One (set_dk_registered true));; mret true
    else mret false
  else mret true.

(** [registerReachableDataDisks]. *)
Definition registerReachableDataDisks : MM bool :=
  upd (on_disk One (set_dk_registered false) ∘ on_disk Two (set_dk_registered false));;
  ok ← register_port One;
  if negb ok then mret false else
  ok ← register_port Two;
  if negb ok then mret false else
  r1 ← mem (dk_registered ∘ disk One);
  r2 ← mem (dk_registered ∘ disk Two);
  mret (r1 || r2).

(** ** Reservation *)

Fixpoint reserve_attempts (attempts : nat) (name : string) : MM bool :=
  match attempts with
  | O => mret false
  | S attempts =>
      ok ← launchCommand (cmd_reserve name);
      if (ok : bool) then mret true else
      md_msec_sleep 1000;;
      reserve_attempts attempts name
  end.

Definition reserveDatadisk (name : string) : MM bool := reserve_attempts MAX_ATTEMPTS name.
Definition releaseDataDiskReservation (name : string) : MM bool := launchCommand (cmd_release name).
Definition releaseDataDiskRegistrations (name : string) : MM bool := launchCommand (cmd_unreg name).
Definition preemptDataDisk (name : string) : MM bool := launchCommand (cmd_preempt name).

(** The variables of [checkDiskPRGenerationCounter] that live across its rounds. *)
Record PrT : Set := mkPr {
  pr_line : string;
  pr_buff : string;
  pr_first : option Z;
  pr_spike : bool;
  pr_iterations : Z
}.

Definition newPr : PrT := mkPr EmptyString EmptyString None false 0.

(** The judgement on a key: the state of the next round, or whether the counter has
    changed. *)
Definition pr_judge (X key : Z) (line buff : string) (p : PrT) : PrT + bool :=
  let first := default key (pr_first p) in
  let iterations := u32 (pr_iterations p + 1) in
  if negb (first =? key) then
    if pr_spike p then inr true
    else if 0 =? X then inr false
    else inl (mkPr line buff (Some key) true 0)
  else if iterations =? X then inr false
  else inl (mkPr line buff (Some first) (pr_spike p) iterations).

(** The body of the loop that collects a key. *)
Definition scan_key (line buff : string) : MM (string * bool) :=
  ws ← sscanf [25%nat] line; mret (default buff (head ws), false).

(** The rounds: success, and whether the counter has changed. *)
Fixpoint pr_rounds (n : nat) (X Y : Z) (command : string) (p : PrT) : MM (bool * bool) :=
  match n with
  | O => mret (true, true)
  | S n =>
      fp ← req (CPopen command);
      match fp with
      | None => mret (false, true)
      | Some out =>
          let ls := feof_lines 24 (pr_line p) out in
          '(buff, how) ← each_line ls scan_key (pr_buff p);
          match how with
          | AtNull => mret (false, true)
          | AtEof | AtBody =>
              if streq buff EmptyString then _ ← pclose command; mret (false, true) else
              ok ← pclose command;
              if negb ok then mret (false, true) else
              match pr_judge X (u32 (atoi buff)) (default EmptyString (last ls)) buff p with
              | inr changed => mret (true, changed)
              | inl p => md_msec_sleep (i32 Y);; pr_rounds n X Y command p
              end
          end
      end
  end.

(** [checkDiskPRGenerationCounter]. *)
Definition checkDiskPRGenerationCounter (name : string) : MM (bool * bool) :=
  X ← mem X_Times;
  Y ← mem Y_Msecs;
  pr_rounds (Z.to_nat (u32 (X * 2))) X Y (cmd_query name) newPr.

(** The loop of [dataDiskReservationAlgo] for one disk: the error code and the flag
    [counterChanged] it is left with. *)
Fixpoint reserve_loop (n : nat) (w : Which) (last : bool * bool) : MM (bool * bool) :=
  match n with
  | O => mret last
  | S n =>
      name ← mem (diskname ∘ disk w);
      ok ← reserveDatadisk name;
      if (ok : bool) then upd (on_disk w (set_dk_reserved true));; mret (true, false) else
      '(ok, changed) ← checkDiskPRGenerationCounter name;
      if (ok : bool) && negb changed then mret (true, false) else
      md_msec_sleep 3000;;
      reserve_loop n w (ok, ok && changed)
  end.

Definition reserve_disk (w : Which) : MM (bool * bool) :=
  d ← mem (disk w);
  if dk_healthy d && dk_registered d then reserve_loop (MAX_ATTEMPTS + 4) w (false, false)
  else mret (true, false).

(** The preemption of a disk that is still not reserved. *)
Definition preempt_disk (w : Which) (counterChanged : bool) : MM bool :=
  d ← mem (disk w);
  if dk_healthy d && negb counterChanged && negb (dk_reserved d) then
    ok ← preemptDataDisk (diskname d);
    if (ok : bool) then upd (on_disk w (set_dk_reserved true));; mret true else mret false
  else mret true.

(** What is done with the first disk when the second cannot be had. *)
Definition give_up_first : MM unit :=
  d ← mem (disk One);
  if dk_reserved d then
    upd (on_disk One (set_dk_reserved false));;
    _ ← releaseDataDiskReservation (diskname d);
    mret tt
  else mret tt.

(** [dataDiskReservationAlgo]. *)
Definition dataDiskReservationAlgo : MM bool :=
  '(ok, changed) ← reserve_disk One;
  if negb ok || changed then mret false else
  ok ← preempt_disk One changed;
  if negb ok then mret false else
  '(ok, changed) ← reserve_disk Two;
  if negb ok || changed then give_up_first;; mret false else
  ok ← preempt_disk Two changed;
  if negb ok then give_up_first;; mret false else
  r1 ← mem (dk_reserved ∘ disk One);
  r2 ← mem (dk_reserved ∘ disk Two);
  mret (r1 || r2).
End disks.
