(* ===== verification/MdReserve.v ===== *)
(** * Software RAID agent: taking the disks

    Theorems on the reservation of the data disks: what the watch on the generation counter
    finds out, that a disk whose peer is alive is left alone, and the path on which it is
    not. *)

From S2P Require Import Prelude World Proc CString Types Amf MdPipe MdState MdDisk.

Open Scope Z_scope.

(** ** The generation counter *)

(** The counter of a disk as the sequence [ks] of the keys its queries show.  It has settled
    when the first [X] keys agree, or when a single change among them is followed by [X]
    keys that agree with the changed one. *)
Definition constant (ks : nat → Z) (from n : nat) : Prop :=
  ∀ i, (i < n)%nat → ks (from + i)%nat = ks from.

Definition settled (X : nat) (ks : nat → Z) : Prop :=
  constant ks 0 X
  ∨ ∃ j, (0 < j < X)%nat ∧ constant ks 0 j ∧ ks j ≠ ks 0%nat ∧ constant ks j (S X).

(** The keys from the [n]-th query on. *)
Definition later (n : nat) (ks : nat → Z) (i : nat) : Z := ks (n + i)%nat.

(** The rounds of [pr_rounds] on the keys alone: [first] is the key they are compared with,
    [it] how many agreed. *)
Fixpoint watch (n : nat) (X : Z) (ks : nat → Z) (first : option Z) (spike : bool) (it : Z) : bool :=
  match n with
  | O => true
  | S n =>
      let key := ks 0%nat in
      let first := default key first in
      if negb (first =? key) then
        if spike then true else watch n X (later 1 ks) (Some key) true 0
      else if it + 1 =? X then false
      else watch n X (later 1 ks) (Some first) spike (it + 1)
  end.

Lemma watch_ext n X ks ks' first spike it :
  (∀ i, ks i = ks' i) → watch n X ks first spike it = watch n X ks' first spike it.
Proof.
  revert ks ks' first spike it. induction n as [|n IH]; intros ks ks' first spike it H; [done|].
  assert (H1 : ∀ i, later 1 ks i = later 1 ks' i) by (intros i; apply (H (S i))).
  cbn [watch]. rewrite <-(H 0%nat). by rewrite !(IH _ _ _ _ _ H1).
Qed.

Lemma constant_S ks n : constant ks 0 (S n) ↔ ∀ i, (i < n)%nat → later 1 ks i = ks 0%nat.
Proof.
  unfold constant, later. split; intros H i Hi; [by apply (H (S i)); lia|].
  destruct i as [|i]; [done|]. by apply (H i); lia.
Qed.

(** After a change the watch ends well exactly if the rest agrees. *)
Lemma watch_spike n X ks k it :
  0 ≤ it < X → X - it ≤ Z.of_nat n →
  watch n X ks (Some k) true it = false
  ↔ ∀ i, (i < Z.to_nat (X - it))%nat → ks i = k.
Proof.
  revert ks it. induction n as [|n IH]; intros ks it Hit Hn; [lia|]. cbn [watch default from_option id].
  destruct (Z.eqb_spec k (ks 0%nat)) as [Hk|Hk]; cbn [negb].
  - destruct (Z.eqb_spec (it + 1) X) as [HX|HX].
    + split; [|done]. intros _ i Hi. assert (i = 0%nat) as -> by lia. done.
    + rewrite IH by lia. split; intros H i Hi.
      * destruct i as [|i]; [done|]. apply (H i). lia.
      * unfold later. apply H. lia.
  - split; [done|]. intros H. specialize (H 0%nat ltac:(lia)). congruence.
Qed.

(** Before a change. *)
Lemma watch_calm n X ks k it :
  0 ≤ it < X → 2 * X - it ≤ Z.of_nat n →
  watch n X ks (Some k) false it = false
  ↔ (∀ i, (i < Z.to_nat (X - it))%nat → ks i = k)
    ∨ ∃ j, (j < Z.to_nat (X - it))%nat ∧ (∀ i, (i < j)%nat → ks i = k) ∧ ks j ≠ k
           ∧ constant ks j (S (Z.to_nat X)).
Proof.
  revert ks it. induction n as [|n IH]; intros ks it Hit Hn; [lia|]. cbn [watch default from_option id].
  destruct (Z.eqb_spec k (ks 0%nat)) as [Hk|Hk]; cbn [negb].
  - destruct (Z.eqb_spec (it + 1) X) as [HX|HX].
    + split; [|done]. intros _. left. intros i Hi. assert (i = 0%nat) as -> by lia. done.
    + rewrite IH by lia. unfold later, constant. cbn [plus]. split.
      * intros [H|(j & Hj & H & Hc & Hs)].
        { left. intros [|i] Hi; [done|]. apply H. lia. }
        right. exists (S j). split_and!; [lia|..|done|done]. intros [|i] Hi; [done|]. apply H. lia.
      * intros [H|(j & Hj & H & Hc & Hs)].
        { left. intros i Hi. apply H. lia. }
        right. destruct j as [|j]; [congruence|]. exists j. split_and!; [lia|..|done|done].
        intros i Hi. apply H. lia.
  - rewrite watch_spike by lia. rewrite Z.sub_0_r. split.
    + intros H. right. exists 0%nat. split_and!; [lia|intros; lia|congruence|]. by apply constant_S.
    + intros [H|(j & Hj & H & Hc & Hs)].
      * specialize (H 0%nat ltac:(lia)). congruence.
      * destruct j as [|j]; [by apply constant_S|]. specialize (H 0%nat ltac:(lia)). congruence.
Qed.

Lemma watch_settled X ks :
  0 < X → watch (Z.to_nat (2 * X)) X ks None false 0 = false ↔ settled (Z.to_nat X) ks.
Proof.
  intros HX.
  assert (watch (Z.to_nat (2 * X)) X ks None false 0
          = watch (Z.to_nat (2 * X)) X ks (Some (ks 0%nat)) false 0) as ->
    by (destruct (Z.to_nat (2 * X)); done).
  rewrite watch_calm, Z.sub_0_r by lia. unfold settled, constant. cbn [plus]. split.
  - intros [H|(j & Hj & H & Hc & Hs)]; [by left|]. right. exists j. split_and!; [|lia|done..].
    destruct j; [congruence|lia].
  - intros [H|(j & Hj & H & Hc & Hs)]; [by left|]. right. exists j. split_and!; [lia|done..].
Qed.

(** ** The queries of a disk *)

Definition is_query (name : string) (e : Event) : bool :=
  match request e with CPopen c => streq c (cmd_query name) | _ => false end.

(** How often a disk was queried. *)
Definition asked (name : string) (t : Trace) : nat := length (List.filter (is_query name) t).

(** The disk answers its queries with the keys [ks], one in a line. *)
Definition shows `{E : Env} (name : string) (ks : nat → Z) : Prop :=
  (∀ i, 0 ≤ ks i < 2 ^ 32)
  ∧ (∀ t, answer t (CPopen (cmd_query name))
          = Some (String.append (dec (ks (asked name t))) (String LF EmptyString)))
  ∧ ∀ t, answer t (CPclose (cmd_query name)) = 0.

Section counter.
Context `{E : Env}.

Lemma scan_keys k old buff (s : Proc MdT) :
  0 ≤ k < 2 ^ 32 →
  each_line (feof_lines 24 old (String.append (dec k) (String LF EmptyString))) scan_key buff s
  = (Val (dec k, AtEof), s).
Proof.
  intros Hk. pose proof (dec_length 10 k ltac:(lia) ltac:(lia)) as Hl.
  rewrite feof_lines_one by (lia || (apply dec_all; apply digit_plain)).
  set (line := String.append (dec k) (String LF EmptyString)).
  assert (Hc : c_str line = line).
  { apply c_str_id. unfold line. rewrite all_chars_append, dec_all; [done|apply digit_plain]. }
  destruct (dec_head k) as (c & r & Hd & _).
  assert (Hb : ∀ b, scan_key line b s = (Val (dec k, false), s)).
  { intros b. unfold scan_key. erewrite bind_Val; [|apply sscanf_one].
    - unfold line. rewrite word_dec. by rewrite Hd.
    - unfold line. rewrite length_append. simpl. lia. }
  assert (Hne : streq line EmptyString = false) by (unfold line; by rewrite Hd).
  cbn [each_line]. rewrite Hc, Hne. erewrite bind_Val by apply Hb. cbn beta iota.
  erewrite bind_Val by apply Hb. done.
Qed.

(** The rounds follow the keys. *)
Lemma pr_rounds_watch n X Y name ks p (s : Proc MdT) :
  shows name ks → 0 ≤ pr_iterations p < X → X < 2 ^ 32 →
  wp (pr_rounds n X Y (cmd_query name) p)
    (valQ (λ r _, r = (true, watch n X (later (asked name (p_trace s)) ks)
                               (pr_first p) (pr_spike p) (pr_iterations p)))) s.
Proof.
  intros (Hks & Hp & Hc). revert p s. induction n as [|n IH]; intros p s Hit HX; [done|].
  set (t := p_trace s). set (k := ks (asked name t)).
  cbn [pr_rounds]. apply wp_valQ_bind, (wp_req (CPopen (cmd_query name))). intros r ->.
  rewrite (Hp (p_trace s)). fold t k. cbn [valQ]. cbv zeta.
  apply wp_valQ_bind. eapply wp_known; [apply scan_keys, Hks|]. cbn [valQ].
  destruct (dec_head k) as (c & w & Hd & _).
  assert (streq (dec k) EmptyString = false) as -> by (by rewrite Hd).
  apply wp_valQ_bind. unfold pclose. apply wp_valQ_bind, (wp_req (CPclose (cmd_query name))).
  intros r ->. cbn [p_trace valQ]. rewrite Hc. apply wp_ret. cbn -[pr_judge watch pr_rounds].
  assert (Hkey : u32 (atoi (dec k)) = k) by (apply u32_atoi_dec, Hks).
  rewrite Hkey. unfold pr_judge. cbn [watch]. rewrite u32_small by lia.
  replace (later (asked name t) ks 0%nat) with k by (unfold later; by rewrite Nat.add_0_r).
  assert (Hgo : ∀ p', 0 ≤ pr_iterations p' < X → wp (md_msec_sleep (i32 Y);; pr_rounds n X Y (cmd_query name) p')
    (valQ (λ r _, r = (true, watch n X (later 1 (later (asked name t) ks))
       (pr_first p') (pr_spike p') (pr_iterations p'))))
    (mkProc (Ev (CPclose (cmd_query name)) 0
      :: Ev (CPopen (cmd_query name)) (Some (String.append (dec k) (String LF EmptyString))) :: t)
      (p_fs s) (p_mem s))).
  { intros p' Hp'. apply wp_valQ_bind, (wp_req (CSleep (i32 Y))). intros [] _. cbn [valQ].
    eapply wp_valQ_mono; [apply IH; done|]. cbn [p_trace]. intros a _ ->. f_equal.
    apply watch_ext. intros i. unfold later, asked. cbn [List.filter is_query request].
    rewrite streq_refl. cbn [length]. f_equal. lia. }
  destruct (default k (pr_first p) =? k); cbn [negb].
  - destruct (pr_iterations p + 1 =? X) eqn:EX; [done|]. apply Z.eqb_neq in EX.
    apply Hgo. cbn. lia.
  - destruct (pr_spike p); [done|]. destruct (Z.eqb_spec 0 X); [lia|]. apply Hgo. cbn. lia.
Qed.

Lemma counter_watched name ks X (s : Proc MdT) :
  shows name ks → X_Times (p_mem s) = X → 0 < X < 2 ^ 31 →
  wp (checkDiskPRGenerationCounter name)
    (valQ (λ r _, r = (true, watch (Z.to_nat (2 * X)) X (later (asked name (p_trace s)) ks)
                               None false 0))) s.
Proof.
  intros Hs HX HXb. unfold checkDiskPRGenerationCounter. pw_auto. rewrite HX.
  rewrite u32_small, Z.mul_comm by lia.
  apply (pr_rounds_watch _ _ _ _ _ newPr); [done|cbn; lia|lia].
Qed.
End counter.

(** ** Frames *)

(** The request does not take the disk [name] away. *)
Definition spares (name : string) (c : Call) : Prop := c ≠ CExec (cmd_preempt name) 0.

Lemma spares_reserve name name' : spares name (CExec (cmd_reserve name') 0).
Proof. discriminate. Qed.

Lemma spares_release name name' : spares name (CExec (cmd_release name') 0).
Proof. discriminate. Qed.

Lemma CExec_inj a b : CExec a 0 = CExec b 0 → a = b.
Proof. congruence. Qed.

Lemma append_inj_l p a b : String.append p a = String.append p b → a = b.
Proof. induction p as [|c p IH]; [done|]. rewrite !append_cons. intros [= H]. auto. Qed.

(** The names of disks are short enough for the commands to differ. *)
Lemma spares_preempt name name' :
  (String.length name < DISK_NAME_LEN)%nat → (String.length name' < DISK_NAME_LEN)%nat →
  name' ≠ name → spares name (CExec (cmd_preempt name') 0).
Proof.
  unfold DISK_NAME_LEN. intros H1 H2 Hne Hc. apply Hne.
  pose proof (CExec_inj _ _ Hc) as H.
  unfold cmd_preempt, scsi, cmd in H. rewrite !snprintf_fits in H
    by (rewrite !length_append; unfold SCSI_BASE_CMD, CMD_LEN; simpl; lia).
  by do 2 apply append_inj_l in H.
Qed.

#[export] Hint Resolve spares_reserve spares_release spares_preempt : does.
#[export] Hint Extern 0 (spares _ _) => discriminate : does.

Section frames.
Context `{E : Env} (kept : string).

Lemma does_scan_key line buff :
  (String.length line < 25)%nat → does (asks (spares kept)) (scan_key line buff).
Proof.
  intros Hl s. apply wp_valQ_bind. eapply wp_known; [by apply sscanf_one|]. cbn [valQ].
  apply wp_ret. cbn. reflexivity.
Qed.

Lemma pr_judge_line X key line buff p p' :
  pr_judge X key line buff p = inl p' → pr_line p' = line.
Proof. unfold pr_judge. intros H. by split_matches. Qed.

(** The buffers hold what is read, whatever the query prints. *)
Lemma does_pr_rounds n X Y command p :
  (String.length (pr_line p) < 24)%nat → does (asks (spares kept)) (pr_rounds n X Y command p).
Proof.
  revert p. induction n as [|n IH]; intros p Hp; cbn [pr_rounds]; [solve_does|].
  apply does_bind; [apply _|solve_does|]. intros [out|]; [|solve_does].
  pose proof (feof_lines_length 24 (pr_line p) out ltac:(lia) Hp) as Hls. cbv zeta.
  apply does_bind; [apply _| |].
  { apply does_each_line; [apply _|]. eapply Forall_impl; [exact Hls|].
    intros l Hl st. apply does_scan_key. pose proof (length_c_str l). simpl in *. lia. }
  assert (Hlast : (String.length (default EmptyString (last (feof_lines 24 (pr_line p) out))) < 24)%nat).
  { destruct (last _) as [l|] eqn:El; simpl; [|lia].
    apply last_Some in El as [l' El]. rewrite El in Hls.
    apply Forall_app in Hls as [_ Hls]. by inv Hls. }
  intros [buff how]. destruct (pr_judge _ _ _ _ _) as [p'|] eqn:EJ; solve_does.
  all: apply IH; apply pr_judge_line in EJ; by rewrite EJ.
Qed.

Lemma does_reserve name : does (asks (spares kept)) (reserveDatadisk name).
Proof.
  unfold reserveDatadisk. generalize MAX_ATTEMPTS. intros n.
  induction n as [|n IH]; cbn [reserve_attempts]; solve_does.
Qed.

Lemma does_check name : does (asks (spares kept)) (checkDiskPRGenerationCounter name).
Proof. unfold checkDiskPRGenerationCounter. solve_does. apply does_pr_rounds. cbn. lia. Qed.
End frames.
#[export] Hint Resolve does_reserve does_check : does.

(** ** A peer that is alive *)

(** The peer holds the disk [w] of the node [m]: reservations are refused, and as the peer
    renews its registration the counter does not settle in any window. *)
Record alive `{E : Env} (w : Which) (m : MdT) (ks : nat → Z) : Prop := {
  al_ready : dk_healthy (disk w m) = true ∧ dk_registered (disk w m) = true;
  al_refused : ∀ t, succeeded (answer t (CExec (cmd_reserve (diskname (disk w m))) 0)) = false;
  al_shows : shows (diskname (disk w m)) ks;
  al_moves : ∀ n, ¬ settled (Z.to_nat (X_Times m)) (later n ks);
  al_X : 0 < X_Times m < 2 ^ 31
}.

(** What happens to the flag of the disk [w] while the disk [kept] is spared. *)
Definition takes (w : Which) (kept : string) : relation (Proc MdT) := λ s s',
  (∃ b, p_mem s' = on_disk w (set_dk_reserved b) (p_mem s)) ∧ traced (spares kept) s s'.

Lemma on_disk_same w m : on_disk w (set_dk_reserved (dk_reserved (disk w m))) m = m.
Proof. by destruct w, m as [[? []] [? []]]. Qed.

#[export] Instance takes_preorder w kept : PreOrder (takes w kept).
Proof.
  split.
  - intros s. split; [eexists; symmetry; apply on_disk_same|done].
  - intros s1 s2 s3 ((b1 & M1) & T1) ((b2 & M2) & T2). split; [|by etrans].
    exists b2. rewrite M2, M1. by destruct w, (p_mem s1) as [[? []] [? []]].
Qed.

Lemma asks_takes w kept s s' : asks (spares kept) s s' → takes w kept s s'.
Proof.
  intros (Hm & _ & Hn). split; [|done]. eexists. rewrite Hm. symmetry. apply on_disk_same.
Qed.

Lemma takes_same w w' kept s s' : takes w kept s s' → p_mem s' = p_mem s → takes w' kept s s'.
Proof.
  intros (_ & Hn) Hm. split; [|done]. eexists. rewrite Hm. symmetry. apply on_disk_same.
Qed.

Lemma does_takes {A} w kept (m : MM A) : does (asks (spares kept)) m → does (takes w kept) m.
Proof. intros H. eapply does_mono; [exact H|]. apply asks_takes. Qed.

Lemma does_set_reserved w kept b : does (takes w kept) (upd (on_disk w (set_dk_reserved b))).
Proof. intros s. apply wp_modify. split; [by eexists|by exists []]. Qed.
#[export] Hint Resolve does_set_reserved : does.
#[export] Hint Extern 2 (does (takes _ _) _) => apply does_takes : does.

Section reservation.
Context `{E : Env}.

Lemma alive_takes w w' kept s s' ks :
  takes w' kept s s' → w ≠ w' → alive w (p_mem s) ks → alive w (p_mem s') ks.
Proof.
  intros ((b & ->) & _) Hw [? ? ? ? ?]. by destruct w, w'; constructor.
Qed.

Lemma does_reserve_loop n w kept r : does (takes w kept) (reserve_loop n w r).
Proof. revert r. induction n as [|n IH]; intros r; cbn [reserve_loop]; solve_does. Qed.

Lemma does_reserve_disk w kept : does (takes w kept) (reserve_disk w).
Proof. unfold reserve_disk. solve_does. apply does_reserve_loop. Qed.

Lemma reserve_refused name s :
  (∀ t, succeeded (answer t (CExec (cmd_reserve name) 0)) = false) →
  wp (reserveDatadisk name) (valQ (λ ok _, ok = false)) s.
Proof.
  intros Hr. unfold reserveDatadisk. revert s. generalize MAX_ATTEMPTS. intros n.
  induction n as [|n IH]; intros s; cbn [reserve_attempts]; [by apply wp_ret|].
  unfold launchCommand. pw_auto. subst. rewrite Hr. unfold md_msec_sleep. pw_auto. apply IH.
Qed.

(** While the peer is alive every attempt finds the counter moving. *)
Lemma reserve_loop_alive n w ks r s :
  alive w (p_mem s) ks → r = (true, true) ∨ (0 < n)%nat →
  wp (reserve_loop n w r) (valQ (λ r s', r = (true, true) ∧ p_mem s' = p_mem s)) s.
Proof.
  revert r s. induction n as [|n IH]; intros r s Ha Hr.
  { apply wp_ret. destruct Hr as [->|Hr]; [done|lia]. }
  cbn [reserve_loop]. pw_auto. cbn [compose].
  eapply wp_valQ_mono.
  { apply wp_valQ_and; [apply reserve_refused, (al_refused _ _ _ Ha)|apply (does_reserve EmptyString)]. }
  intros ok s1 (-> & Hm1 & _). cbn.
  apply wp_valQ_bind. eapply wp_valQ_mono.
  { apply wp_valQ_and; [|apply (does_check EmptyString)].
    apply (counter_watched _ _ _ _ (al_shows _ _ _ Ha) eq_refl). rewrite Hm1. apply (al_X _ _ _ Ha). }
  intros r2 s2 (-> & Hm2 & _).
  destruct (watch _ _ _ _ _ _) eqn:Ew.
  - cbn. unfold md_msec_sleep. pw_auto. eapply wp_valQ_mono.
    { apply IH; [|by left]. cbn. by rewrite Hm2, Hm1. }
    intros r3 s3 [-> Hm3]. split; [done|]. rewrite Hm3. cbn. by rewrite Hm2, Hm1.
  - exfalso. rewrite Hm1 in Ew. eapply (al_moves _ _ _ Ha), watch_settled, Ew. apply (al_X _ _ _ Ha).
Qed.

Lemma reserve_disk_alive w ks kept s :
  alive w (p_mem s) ks →
  wp (reserve_disk w)
    (valQ (λ r s', (r = (true, true) ∧ p_mem s' = p_mem s) ∧ takes w kept s s')) s.
Proof.
  intros Ha. apply wp_valQ_and; [|apply does_reserve_disk].
  unfold reserve_disk. pw_auto. destruct (al_ready _ _ _ Ha) as [-> ->]. cbn [andb].
  apply (reserve_loop_alive _ _ ks); [done|right; unfold MAX_ATTEMPTS; lia].
Qed.

(** A disk whose reservation does not succeed keeps its flag. *)
Lemma reserve_disk_flag w s :
  wp (reserve_disk w)
    (valQ (λ r s', r = (true, false) ∨ p_mem s' = p_mem s)) s.
Proof.
  unfold reserve_disk. pw_auto. case_match; [clear H|by pw_auto; left].
  generalize (MAX_ATTEMPTS + 4)%nat (false, false). intros n.
  revert s. induction n as [|n IH]; intros s r; [by right|].
  cbn [reserve_loop]. pw_auto. cbn [compose].
  eapply wp_valQ_mono; [apply (does_reserve EmptyString)|]. intros [] s1 (Hm1 & _); [by pw_auto; left|].
  apply wp_valQ_bind. eapply wp_valQ_mono; [apply (does_check EmptyString)|].
  intros [ok changed] s2 (Hm2 & _). destruct (ok && negb changed); [by pw_auto; left|].
  unfold md_msec_sleep. pw_auto. eapply wp_valQ_mono; [apply IH|]. cbn.
  intros r' s3 [->|Hm3]; [by left|right]. congruence.
Qed.

(** A preemption that fails leaves the flag, one that succeeds sets it. *)
Lemma preempt_disk_flag w kept c s :
  spares kept (CExec (cmd_preempt (diskname (disk w (p_mem s)))) 0) →
  wp (preempt_disk w c)
    (valQ (λ ok s', takes w kept s s' ∧ (ok = true ∨ dk_reserved (disk w (p_mem s')) = false))) s.
Proof.
  intros Hk. unfold preempt_disk. pw_auto. case_match eqn:Hc; [|by pw_auto; split; [|left]].
  apply andb_true_iff in Hc as [_ Hf%negb_true_iff]. unfold preemptDataDisk.
  apply wp_valQ_bind. eapply wp_valQ_mono; [apply (does_launch (spares kept)), Hk|]. intros ok s1 Ha.
  pose proof Ha as (Hm & _). apply (asks_takes w) in Ha. destruct ok.
  - apply wp_valQ_bind. eapply wp_valQ_mono; [apply (does_set_reserved w kept)|].
    intros [] s2 H2. apply wp_ret. split; [by etrans|by left].
  - apply wp_ret. split; [done|right]. by rewrite Hm.
Qed.

Lemma give_up_first_flag kept s :
  wp give_up_first (valQ (λ _ s', takes One kept s s' ∧ dk_reserved (disk One (p_mem s')) = false)) s.
Proof.
  unfold give_up_first. apply wp_valQ_and.
  - revert s. change (does (takes One kept) give_up_first). unfold give_up_first. solve_does.
  - pw_auto. destruct (dk_reserved _) eqn:Hf; [|by pw_auto].
    pw_auto. unfold releaseDataDiskReservation, launchCommand. by pw_auto.
Qed.

(** What the theorem asks of the end of the algorithm. *)
Definition gave_up (kept : string) (s : Proc MdT) (ok : bool) (s' : Proc MdT) : Prop :=
  ok = false ∧ (∀ w, dk_reserved (disk w (p_mem s')) = false)
  ∧ ∃ new, p_trace s' = new ++ p_trace s ∧ ¬ did (CExec (cmd_preempt kept) 0) new.

Lemma takes_gave_up w kept s s' :
  (∀ w, dk_reserved (disk w (p_mem s)) = false) → takes w kept s s' →
  dk_reserved (disk w (p_mem s')) = false → gave_up kept s false s'.
Proof.
  intros Hf ((b & Hm) & new & Ht & Hn) Hw. split_and!; [done|..].
  - intros w'. pose proof (Hf w') as Hw'. revert Hw Hw'. rewrite Hm. by destruct w, w'.
  - exists new. split; [done|]. intros [r Hr]. rewrite Forall_forall in Hn. by apply (Hn _ Hr).
Qed.

Lemma live_peer_one ks kept s :
  alive One (p_mem s) ks → (∀ w, dk_reserved (disk w (p_mem s)) = false) →
  wp dataDiskReservationAlgo (valQ (gave_up kept s)) s.
Proof.
  intros Ha Hf. apply wp_valQ_bind.
  eapply wp_valQ_mono; [apply (reserve_disk_alive One ks kept), Ha|].
  intros r s1 ([-> Hm] & Ht). cbn [negb orb]. apply wp_ret.
  apply (takes_gave_up One); [done..|]. by rewrite Hm.
Qed.

Lemma live_peer_two ks s :
  let kept := diskname (disk Two (p_mem s)) in
  alive Two (p_mem s) ks → (∀ w, dk_reserved (disk w (p_mem s)) = false) →
  spares kept (CExec (cmd_preempt (diskname (disk One (p_mem s)))) 0) →
  wp dataDiskReservationAlgo (valQ (gave_up kept s)) s.
Proof.
  intros kept Ha Hf Hk. apply wp_valQ_bind.
  eapply wp_valQ_mono; [apply wp_valQ_and; [apply reserve_disk_flag|apply (does_reserve_disk One kept)]|].
  intros [ok changed] s1 [Hr T1]. destruct (negb ok || changed) eqn:Hc.
  { apply wp_ret, (takes_gave_up One); [done..|].
    destruct Hr as [[= -> ->]| ->]; [done|apply Hf]. }
  apply wp_valQ_bind. eapply wp_valQ_mono; [apply (preempt_disk_flag One kept)|].
  { destruct T1 as ((b & ->) & _). exact Hk. }
  intros ok2 s2 [T2 Hok]. assert (T12 : takes One kept s s2) by (by etrans).
  destruct ok2; [|destruct Hok; [done|]; by apply wp_ret, (takes_gave_up One)].
  apply wp_valQ_bind.
  eapply wp_valQ_mono; [apply (reserve_disk_alive Two ks kept); by eapply alive_takes|].
  intros r s3 ([-> Hm] & T3). cbn [negb orb]. apply wp_valQ_bind.
  eapply wp_valQ_mono; [apply (give_up_first_flag kept)|]. intros [] s4 [T4 H4].
  apply wp_ret, (takes_gave_up One); [done| |done].
  etrans; [exact T12|]. etrans; [by eapply takes_same|exact T4].
Qed.

(** C6: A disk that the peer holds and whose counter moves is never taken away from it: when
    the reservation of the disk [w] is refused and no window of queries shows a settled
    counter, the algorithm fails, no command to preempt the disk is run whatever happens
    with the other disk, and the node ends without a reservation. *)
Theorem live_peer_keeps_disk w ks s :
  alive w (p_mem s) ks →
  (∀ w, (String.length (diskname (disk w (p_mem s))) < DISK_NAME_LEN)%nat) →
  diskname (disk One (p_mem s)) ≠ diskname (disk Two (p_mem s)) →
  (∀ w, dk_reserved (disk w (p_mem s)) = false) →
  wp dataDiskReservationAlgo (valQ (gave_up (diskname (disk w (p_mem s))) s)) s.
Proof.
  intros Ha Hlen Hne Hf. destruct w; [by eapply live_peer_one|].
  eapply live_peer_two; [done..|]. by apply spares_preempt.
Qed.

(** C15: The watch on a disk finds out what it is for: on a disk that answers its queries with
    the keys [ks], it succeeds and reports no change exactly if the first [X] keys agree, or
    a single change among them is followed by [X] more keys that agree with the changed
    one; twice [X] queries are enough. *)
Theorem pr_counter_spec name ks s :
  shows name ks → 0 < X_Times (p_mem s) < 2 ^ 31 →
  ∃ changed s', checkDiskPRGenerationCounter name s = (Val (true, changed), s')
    ∧ (changed = false
       ↔ settled (Z.to_nat (X_Times (p_mem s))) (later (asked name (p_trace s)) ks)).
Proof.
  intros Hs HX.
  destruct (wp_valQ_run _ _ _ (counter_watched _ _ _ _ Hs eq_refl HX)) as (r & s' & Hrun & ->).
  eexists _, s'. split; [exact Hrun|]. apply watch_settled. lia.
Qed.
End reservation.

(** ** A disk that could not be registered *)

Section unregistered.
Context `{E : Env}.

Lemma launch_run command (s : Proc MdT) :
  launchCommand command s
  = (Val (succeeded (answer (p_trace s) (CExec command 0))),
     mkProc (Ev (CExec command 0) (answer (p_trace s) (CExec command 0)) :: p_trace s)
       (p_fs s) (p_mem s)).
Proof. done. Qed.

Lemma does_register_loop Φ n name :
  Φ (CExec (cmd_register name) 0) → Φ (CSleep 1000) → does (asks Φ) (register_loop n name).
Proof.
  intros H1 H2. induction n as [|n IH]; cbn [register_loop]; unfold registerDataDisk; solve_does.
Qed.

Lemma register_run n name b s :
  (∀ t, succeeded (answer t (CExec (cmd_register name) 0)) = b) →
  wp (register_loop (S n) name) (valQ (λ ok _, ok = b)) s.
Proof.
  intros Hb. revert s. induction n as [|n IH]; intros s; cbn [register_loop]; unfold registerDataDisk;
    (apply wp_valQ_bind; eapply wp_known; [apply launch_run|]; cbn [valQ]; rewrite Hb;
     destruct b; [by apply wp_ret|]; apply wp_valQ_bind, (wp_req (CSleep 1000)); intros [] _; cbn [valQ]).
  - by apply wp_ret.
  - apply IH.
Qed.

(** A request that neither reserves nor queries the disk [name]. *)
Definition unchecked (name : string) (c : Call) : Prop :=
  c ≠ CExec (cmd_reserve name) 0 ∧ c ≠ CPopen (cmd_query name).
#[local] Hint Extern 0 (unchecked _ _) => split; discriminate : does.

(** The registration of one disk, by the answers of the environment. *)
Lemma register_port_run w name ok cleared s :
  pt_healthy (port w (p_mem s)) = true → dk_healthy (disk w (p_mem s)) = true →
  (∀ t, succeeded (answer t (CExec (cmd_register (diskname (disk w (p_mem s)))) 0)) = ok) →
  (∀ t, ok || succeeded (answer t (CExec (cmd_clear (diskname (disk w (p_mem s)))) 0)) = ok || cleared) →
  wp (register_port w) (valQ (λ r s', r = ok || cleared ∧ traced (unchecked name) s s'
    ∧ p_mem s' = (if ok then on_disk w (set_dk_registered true)
                  else if cleared then on_disk One (set_dk_registered true) else id) (p_mem s))) s.
Proof.
  intros Hp Hd Hr Hc. unfold register_port. pw_auto. unfold disk in *. rewrite Hp, Hd. cbn [andb].
  apply wp_valQ_bind. eapply wp_valQ_mono; [apply wp_valQ_and; [by apply (register_run 2)
    |apply (does_register_loop (unchecked name)); split; discriminate]|].
  intros r s1 (-> & Hm & _ & T1). destruct ok.
  { pw_auto. split_and!; [done|exact T1|]. by rewrite Hm. }
  apply wp_valQ_bind. eapply wp_known; [apply launch_run|]. cbn [valQ]. cbn [orb] in Hc. rewrite Hc.
  assert (T2 : traced (unchecked name) s (launchCommand (cmd_clear (diskname (pt_disk (port w (p_mem s))))) s1).2).
  { etrans; [exact T1|]. eexists [_]. split; [done|]. repeat constructor; discriminate. }
  destruct cleared; pw_auto; (split_and!; [done|exact T2|]); cbn; by rewrite Hm.
Qed.

Lemma registered_first s :
  let n1 := diskname (disk One (p_mem s)) in
  let n2 := diskname (disk Two (p_mem s)) in
  (∀ w, pt_healthy (port w (p_mem s)) = true ∧ dk_healthy (disk w (p_mem s)) = true) →
  (∀ t, succeeded (answer t (CExec (cmd_register n1) 0)) = true) →
  (∀ t, succeeded (answer t (CExec (cmd_register n2) 0)) = false) →
  (∀ t, succeeded (answer t (CExec (cmd_clear n2) 0)) = true) →
  wp registerReachableDataDisks
    (valQ (λ ok s', ok = true ∧ traced (unchecked n2) s s'
       ∧ p_mem s' = on_disk One (set_dk_registered true)
                      (on_disk Two (set_dk_registered false) (p_mem s)))) s.
Proof.
  intros n1 n2 Hh H1 H2 Hc. destruct (Hh One) as [Hp1 Hd1]. destruct (Hh Two) as [Hp2 Hd2].
  unfold registerReachableDataDisks. apply wp_valQ_bind, wp_modify. cbn [valQ].
  apply wp_valQ_bind. eapply wp_valQ_mono; [by apply (register_port_run One n2 true true)|].
  intros r s1 (-> & T1 & M1). cbn [orb negb] in *.
  apply wp_valQ_bind. eapply wp_valQ_mono; [apply (register_port_run Two n2 false true); by rewrite M1|].
  intros r s2 (-> & T2 & M2). cbn [orb negb] in *. pw_auto.
  split_and!.
  - rewrite M2, M1. done.
  - by etrans.
  - rewrite M2, M1. by destruct (p_mem s) as [[? []] [? []]].
Qed.

Lemma preempt_disk_run w s :
  dk_healthy (disk w (p_mem s)) = true → dk_reserved (disk w (p_mem s)) = false →
  wp (preempt_disk w false) (valQ (λ _ s', ∃ r,
    p_trace s' = Ev (CExec (cmd_preempt (diskname (disk w (p_mem s)))) 0) r :: p_trace s)) s.
Proof.
  intros Hh Hv. unfold preempt_disk. pw_auto. unfold compose. rewrite Hh, Hv. cbn [andb negb].
  unfold preemptDataDisk. apply wp_valQ_bind. eapply wp_known; [apply launch_run|]. cbn [valQ].
  case_match; pw_auto; by eexists.
Qed.

Lemma preempted_second s :
  let n1 := diskname (disk One (p_mem s)) in
  let n2 := diskname (disk Two (p_mem s)) in
  dk_healthy (disk One (p_mem s)) = true → dk_registered (disk One (p_mem s)) = true →
  dk_healthy (disk Two (p_mem s)) = true → dk_registered (disk Two (p_mem s)) = false →
  dk_reserved (disk Two (p_mem s)) = false → cmd_reserve n1 ≠ cmd_reserve n2 →
  (∀ t, succeeded (answer t (CExec (cmd_reserve n1) 0)) = true) →
  wp dataDiskReservationAlgo
    (valQ (λ _ s', ∃ new, p_trace s' = new ++ p_trace s
       ∧ did (CExec (cmd_preempt n2) 0) new ∧ Forall (λ e, unchecked n2 (request e)) new)) s.
Proof.
  intros n1 n2 Hh1 Hr1 Hh2 Hr2 Hv2 Hne Hv.
  assert (Hres : reserve_disk One s = (Val (true, false),
    mkProc (Ev (CExec (cmd_reserve n1) 0) (answer (p_trace s) (CExec (cmd_reserve n1) 0)) :: p_trace s)
      (p_fs s) (on_disk One (set_dk_reserved true) (p_mem s)))).
  { unfold reserve_disk. erewrite bind_Val by reflexivity. cbn [compose]. rewrite Hh1, Hr1.
    change (MAX_ATTEMPTS + 4)%nat with 7%nat. cbn [andb reserve_loop].
    erewrite bind_Val by reflexivity.
    unfold reserveDatadisk, MAX_ATTEMPTS. cbn [reserve_attempts compose].
    erewrite bind_Val.
    2: { erewrite bind_Val by apply launch_run. fold n1. by rewrite Hv. }
    done. }
  set (s1 := mkProc _ _ _) in Hres.
  apply wp_valQ_bind. eapply wp_known; [exact Hres|]. cbn [valQ negb orb].
  apply wp_valQ_bind. eapply wp_known with (o := Val true) (s' := s1).
  { unfold preempt_disk. erewrite bind_Val by reflexivity. cbn. by rewrite andb_false_r. }
  cbn [valQ negb]. apply wp_valQ_bind. eapply wp_known with (o := Val (true, false)) (s' := s1).
  { unfold reserve_disk. erewrite bind_Val by reflexivity. cbn. unfold disk in *. cbn in *.
    by rewrite Hr2, andb_false_r. }
  cbn [valQ negb orb].
  apply wp_valQ_bind. eapply wp_valQ_mono; [by apply preempt_disk_run|].
  intros ok s2 [r Ht]. eapply wp_valQ_mono.
  { assert (does (traced (unchecked n2)) (if negb ok then give_up_first;; mret false else
      r1 ← mem (dk_reserved ∘ disk One); r2 ← mem (dk_reserved ∘ disk Two); mret (r1 || r2))) as Hd.
    { unfold give_up_first, releaseDataDiskReservation. solve_does. }
    apply Hd. }
  intros a s3 (new & Hn & Hf). eexists (new ++ [_; _]). split_and!.
  - rewrite Hn, Ht. cbn [p_trace s1]. by rewrite <-app_assoc.
  - exists r. apply elem_of_app. right. left.
  - apply Forall_app. split; [done|]. repeat constructor; try discriminate. by intros H%CExec_inj.
Qed.

(** C25: A disk that cannot be registered but can be cleared is taken without the check: when
    the registration of the second disk is refused and the clean-up of its registrations
    succeeds, it is the first disk that is marked as registered, so the algorithm skips the
    reservation of the second disk and the watch on its counter and goes straight to the
    preemption, however alive the peer is. *)
Theorem unregistered_preempted s :
  let n1 := diskname (disk One (p_mem s)) in
  let n2 := diskname (disk Two (p_mem s)) in
  (∀ w, pt_healthy (port w (p_mem s)) = true ∧ dk_healthy (disk w (p_mem s)) = true) →
  dk_reserved (disk Two (p_mem s)) = false →
  cmd_reserve n1 ≠ cmd_reserve n2 →
  (∀ t, succeeded (answer t (CExec (cmd_register n1) 0)) = true) →
  (∀ t, succeeded (answer t (CExec (cmd_register n2) 0)) = false) →
  (∀ t, succeeded (answer t (CExec (cmd_clear n2) 0)) = true) →
  (∀ t, succeeded (answer t (CExec (cmd_reserve n1) 0)) = true) →
  wp (ok ← registerReachableDataDisks; if negb ok then mret false else dataDiskReservationAlgo)
    (valQ (λ _ s', ∃ new, p_trace s' = new ++ p_trace s
       ∧ did (CExec (cmd_preempt n2) 0) new ∧ Forall (λ e, unchecked n2 (request e)) new)) s.
Proof.
  intros n1 n2 Hh Hr Hne H1 H2 Hc Hv.
  apply wp_valQ_bind. eapply wp_valQ_mono; [by apply registered_first|].
  intros ok s1 (-> & (n0 & T1 & F1) & Hm). cbn [negb].
  destruct (Hh One) as [_ Hd1]. destruct (Hh Two) as [_ Hd2].
  eapply wp_valQ_mono; [apply (preempted_second s1); by rewrite Hm|].
  rewrite Hm. intros _ s2 (new & T2 & Hp & F2). exists (new ++ n0). split_and!.
  - by rewrite T2, T1, app_assoc.
  - by apply did_app; left.
  - by apply Forall_app.
Qed.
End unregistered.

(** ** An example: a peer that registers between any two queries of the disk [sdb] *)

Definition turns (i : nat) : Z := Z.of_nat i mod 2.

Lemma turns_move X n : (1 < X)%nat → ¬ settled X (later n turns).
Proof.
  intros HX Hs.
  assert (∃ j, later n turns (j + 1) = later n turns j) as [j Hj].
  { destruct Hs as [H|(j & _ & _ & _ & H)]; [exists 0%nat|exists j]; apply H; lia. }
  unfold later, turns in Hj.
  replace (Z.of_nat (n + (j + 1))) with (Z.of_nat (n + j) + 1) in Hj by lia.
  pose proof (Z.mod_pos_bound (Z.of_nat (n + j)) 2 ltac:(lia)).
  rewrite Z.add_mod in Hj by lia.
  assert (Z.of_nat (n + j) mod 2 = 0 ∨ Z.of_nat (n + j) mod 2 = 1) as [H0|H0] by lia;
    rewrite H0 in Hj; discriminate.
Qed.

Definition keyed_env (ks : nat → Z) : Env := {| answer := λ t c,
  match c as c return resp c with
  | CExec command 0 => if streq command (cmd_reserve "sdb") then ChildStatus 256 else ChildStatus 0
  | CPopen command =>
      if streq command (cmd_query "sdb")
      then Some (String.append (dec (ks (asked "sdb" t))) (String LF EmptyString))
      else dflt (CPopen command)
  | c => dflt c
  end |}.

Definition live_env : Env := keyed_env turns.

Definition md_ready : MdT :=
  set_port One (λ _, mkPort true (mkDisk "sda" true true false))
    (set_port Two (λ _, mkPort true (mkDisk "sdb" true true false)) newMd).

Lemma keyed_shows ks : (∀ i, 0 ≤ ks i < 2 ^ 32) → shows (E:=keyed_env ks) "sdb" ks.
Proof. by split. Qed.

Lemma live_shows : shows (E:=live_env) "sdb" turns.
Proof.
  apply keyed_shows. intros i. unfold turns. pose proof (Z.mod_pos_bound (Z.of_nat i) 2). lia.
Qed.

Lemma live_alive : alive (E:=live_env) Two md_ready turns.
Proof.
  split; [done|done|apply live_shows|intros n; apply turns_move; vm_compute; lia|done].
Qed.

Lemma live_peer_keeps_disk_witness :
  alive (E:=live_env) Two md_ready turns
  ∧ wp (dataDiskReservationAlgo (E:=live_env)) (valQ (gave_up "sdb" (mkProc [] ∅ md_ready)))
      (mkProc [] ∅ md_ready).
Proof.
  split; [apply live_alive|].
  apply (live_peer_keeps_disk (E:=live_env) Two turns (mkProc [] ∅ md_ready));
    [apply live_alive|intros []; cbn; unfold DISK_NAME_LEN; lia|discriminate|by intros []].
Defined.

Lemma pr_counter_spec_witness :
  shows (E:=live_env) "sdb" turns
  ∧ ∃ changed s', checkDiskPRGenerationCounter (E:=live_env) "sdb" (mkProc [] ∅ md_ready)
      = (Val (true, changed), s') ∧ (changed = false ↔ settled 3 (later 0 turns)).
Proof.
  split; [apply live_shows|].
  apply (pr_counter_spec (E:=live_env) "sdb" turns (mkProc [] ∅ md_ready)); [apply live_shows|done].
Defined.

(** A second disk that refuses registrations. *)
Definition refusing_env : Env := {| answer := λ _ c,
  match c as c return resp c with
  | CExec command 0 => if streq command (cmd_register "sdb") then ChildStatus 256 else ChildStatus 0
  | c => dflt c
  end |}.

Lemma unregistered_preempted_witness :
  let s := mkProc [] ∅ md_ready in
  wp (ok ← registerReachableDataDisks (E:=refusing_env);
      if negb ok then mret false else dataDiskReservationAlgo (E:=refusing_env))
    (valQ (λ _ s', ∃ new, p_trace s' = new ++ p_trace s
       ∧ did (CExec (cmd_preempt "sdb") 0) new ∧ Forall (λ e, unchecked "sdb" (request e)) new)) s.
Proof.
  intros s. apply (unregistered_preempted (E:=refusing_env) s);
    [by intros []|done|discriminate|done..].
Defined.
