(* ===== verification/MdRole.v ===== *)
(** * Software RAID agent: roles

    The part of [APGHA_RDEAgent] that takes and gives up a role: mounting the mirror and
    configuring the moving addresses, the status of both nodes, the decision whether the
    node may become active, the recovery actions, and the jobs AMF calls. *)

From stdpp Require Import pretty.
From S2P Require Import Prelude World Proc CString Types Amf MdPipe MdState MdTipc MdDisk.

Open Scope Z_scope.

Definition APOS_BASE_CMD : string := "/opt/ap/apos/bin/apos_operations".
Definition DISK_MGMT_CMD : string := "/usr/bin/raidmgmt".
Definition STORAGE_FIND_PATH : string := "cat /usr/share/pso/storage-paths/config".

Definition cmd_mount : string := cmd DISK_MGMT_CMD " --assemble --mount --force".
Definition cmd_umount : string := cmd DISK_MGMT_CMD " --disable --unmount".
Definition cmd_mips (OnStart : bool) : string :=
  cmd APOS_BASE_CMD (if OnStart then " -s" else " -f passive").
Definition cmd_mips_off : string := cmd APOS_BASE_CMD " -f active".
Definition cmd_cleanup : string := cmd APOS_BASE_CMD " --cleanup".
Definition cmd_reboot_node : string := cmd HA_BASE_CMD " --reboot-node".

(** ** The decision whether a standby node may become active

    [A] and [B] are the tables of the first and the second node, [rCode] the verdict so
    far; the three functions are the sections of [IsActiveStateTransitionAllowed]. *)

Section decision.
Context (one two : bool).

Definition allowed_up (A B : NodeT) (rCode : bool) : bool :=
  let rCode :=
    if n_port1 A && n_disk1 A && (negb (n_port2 A) || negb (n_disk2 A))
       && (negb (n_port1 B) || negb (n_port2 B)) && n_disk2 B && n_port2 B then false else rCode in
  let rCode :=
    if (negb (n_port1 A) || negb (n_disk1 A)) && n_port2 A && n_disk2 A
       && n_port1 B && n_disk2 B && (negb (n_port2 B) || negb (n_disk2 B)) then false else rCode in
  let healthy (N : NodeT) (rCode : bool) :=
    let rCode := if (n_port1 N && negb (n_disk1 N)) || (n_port2 N && n_disk2 N) then true else rCode in
    let rCode := if (n_port1 N && n_disk1 N) || (n_port2 N && negb (n_disk2 N)) then true else rCode in
    if (n_port1 N && n_disk1 N) || (n_port2 N && n_disk2 N) then true else rCode in
  let rCode := if one then healthy A rCode else rCode in
  if two then healthy B rCode else rCode.

Definition allowed_down (A B : NodeT) (rCode : bool) : bool :=
  let dead (N : NodeT) :=
    (negb (n_port1 N) || negb (n_disk1 N)) && (negb (n_port2 N) || negb (n_disk2 N)) in
  let rCode := if one && dead A then false else rCode in
  if two && dead B then false else rCode.

Definition allowed_last (A B : NodeT) (rCode : bool) : bool :=
  let rCode := if one && negb (n_port1 A) && negb (n_port2 A) then false else rCode in
  let rCode :=
    if one && n_port1 A && negb (n_disk1 A) && n_port2 B && negb (n_disk2 B) then false else rCode in
  let rCode := if two && negb (n_port1 B) && negb (n_port2 B) then false else rCode in
  if two && n_port1 B && negb (n_disk1 B) && n_port2 B && negb (n_disk2 B) then false else rCode.
End decision.

#[export] Instance md_obj `{E : Env} : AmfObj (Proc MdT) := {|
  host_ask := req;
  host_amf := md_amf ∘ p_mem;
  host_set := λ f s, mkProc (p_trace s) (p_fs s) (set_md_amf (f (md_amf (p_mem s))) (p_mem s));
  host_name := "apos_ha_rdeagentd"
|}.

Section roles.
Context `{E : Env} `{T : ApgTypes}.

(** ** Giving up the role *)

Definition release_reservation (w : Which) : MM bool :=
  d ← mem (disk w);
  if dk_healthy d && dk_reserved d then
    ok ← releaseDataDiskReservation (diskname d);
    if negb ok then mret false else
    upd (on_disk w (set_dk_reserved false));;
    mret true
  else mret true.

(** [releaseBothDatadiskReservations]. *)
Definition releaseBothDatadiskReservations : MM bool :=
  ok ← release_reservation One;
  if negb ok then mret false else release_reservation Two.

(** [umountRAIDandDeactivateMIPs]: both flags are left set. *)
Definition umountRAIDandDeactivateMIPs : MM bool :=
  mips ← mem IsMIPConfigured;
  r1 ← (if (mips : bool) then launchCommand cmd_mips_off else mret true);
  raid ← mem IsRAIDConfigured;
  r2 ← (if (raid : bool) then
          _ ← launchCommand cmd_cleanup;
          md_msec_sleep 3000;;
          launchCommand cmd_umount
        else mret true);
  mret (r1 && r2).

(** [handleRdeAgentGracefullDownJobs]. *)
Definition handleRdeAgentGracefullDownJobs : MM bool :=
  assigned ← mem Is_State_Assgned;
  if negb assigned then mret true else
  standby ← mem Is_Agent_Stanby;
  if (standby : bool) then mret true else
  done ← mem gracefullDone;
  if (done : bool) then mret true else
  ok ← releaseBothDatadiskReservations;
  if negb ok then mret false else
  ok ← umountRAIDandDeactivateMIPs;
  if negb ok then mret false else
  upd (set_gracefullDone true);;
  mret true.

(** [reboot_local_node]. *)
Definition reboot_local_node : MM unit :=
  _ ← finalize;
  _ ← launchCommand cmd_reboot_node;
  mret tt.

(** [InitiateFailover]. *)
Definition InitiateFailover (recommendedRecovery : Recovery) : MM unit :=
  done ← mem gracefullDone;
  r ← (if negb done then
         ok ← handleRdeAgentGracefullDownJobs;
         mret (if (ok : bool) then recommendedRecovery else NODE_FAILOVER)
       else mret recommendedRecovery);
  ok ← req (CReport r);
  if (ok : bool) then mret tt else reboot_local_node.

(** ** The status of both nodes *)

(** The text of a number below ten; the nodes are numbered from one. *)
Definition disk_status_file (node : Z) : string :=
  concat_str ["/ha/nodes/"%string; pretty node; "/disk_status"%string].

(** The lines of the status file: a line of [PORT2] is not scanned, its status is taken from
    the words of the last line of [PORT1].  [words] are the buffers. *)
Definition status_line (buff : string) (st : NodeT * (option string * option string)) :
    MM (NodeT * (option string * option string)) :=
  let '(N, (buff2, buff4)) := st in
  '(N, (buff2, buff4)) ←
    (if strstr buff "PORT1:" then
       ws ← sscanf [20; 20; 20; 20]%nat buff;
       let buff2 := stored ws 1 buff2 in
       let buff4 := stored ws 3 buff4 in
       s2 ← deref buff2;
       s4 ← deref buff4;
       _ ← (if streq s4 "null" then mret s4 else strcpy (S DISK_NAME_LEN) s4);
       mret (mkNode (streq s2 "healthy") (negb (streq s4 "null")) (n_port2 N) (n_disk2 N), (buff2, buff4))
     else mret (N, (buff2, buff4)));
  if strstr buff "PORT2:" then
    s2 ← deref buff2;
    s4 ← deref buff4;
    _ ← (if streq s4 "null" then mret s4 else strcpy (S DISK_NAME_LEN) s4);
    mret (mkNode (n_port1 N) (n_disk1 N) (streq s2 "healthy") (negb (streq s4 "null")), (buff2, buff4))
  else mret (N, (buff2, buff4)).

Fixpoint status_lines (ls : list string) (st : NodeT * (option string * option string)) :
    MM (NodeT * (option string * option string)) :=
  match ls with
  | [] => mret st
  | l :: ls => st ← status_line (c_str l) st; status_lines ls st
  end.

(** [updatePortStatus]: the table of a node, [None] where it fails.  The path of the file is
    put together in a buffer of 20 bytes. *)
Definition updatePortStatus (N : NodeT) (node : Z) : MM (option NodeT) :=
  fp ← req (CPopen STORAGE_FIND_PATH);
  match fp with
  | None => mret None
  | Some out =>
      buff5 ← uninit 20;
      '(buff5, _) ← each_line (feof_lines 24 EmptyString out)
        (λ line buff5, ws ← sscanf [20%nat] line; mret (stored ws 0 buff5, false)) buff5;
      base ← deref buff5;
      path ← strcpy 20 (String.append base (snprintf CMD_LEN (disk_status_file node)));
      fp ← req (CReadFile path);
      match fp with
      | None => _ ← req (CClose STORAGE_FIND_PATH); mret None
      | Some file =>
          buff2 ← uninit 20;
          buff4 ← uninit 20;
          '(N, _) ← status_lines (fgets_lines 80 file) (N, (buff2, buff4));
          _ ← req (CClose STORAGE_FIND_PATH);
          _ ← req (CClose path);
          mret (Some N)
      end
  end.

Definition own_status (m : MdT) : NodeT :=
  mkNode (pt_healthy (PortOne m)) (dk_healthy (disk One m))
    (pt_healthy (PortTwo m)) (dk_healthy (disk Two m)).

(** [updateBothNodeDisknControllerstatus]: the table of the other node is read under the
    number of this one. *)
Definition updateBothNodeDisknControllerstatus : MM bool :=
  node ← mem node_id;
  own ← mem own_status;
  ok ← (if node =? NODE_ONE then
          upd (set_NodeA own);;
          old ← mem NodeB;
          N ← updatePortStatus old NODE_ONE;
          match N with Some N => upd (set_NodeB N);; mret true | None => mret false end
        else mret true);
  if negb ok then mret false else
  if node =? NODE_TWO then
    upd (set_NodeB own);;
    old ← mem NodeA;
    N ← updatePortStatus old NODE_TWO;
    match N with Some N => upd (set_NodeA N);; mret true | None => mret false end
  else mret true.

(** [IsActiveStateTransitionAllowed]. *)
Definition IsActiveStateTransitionAllowed : MM bool :=
  node ← mem node_id;
  let one := node =? NODE_ONE in
  let two := node =? NODE_TWO in
  let rnode := if two then NODE_ONE else if one then NODE_TWO else 0 in
  up ← query_tipc_topserver rnode;
  match up with
  | None => mret false
  | Some up =>
      upd (set_backPlaneUp up);;
      rCode ← (if (up : bool) then
                 ok ← updateBothNodeDisknControllerstatus;
                 A ← mem NodeA;
                 B ← mem NodeB;
                 mret (allowed_up one two A B ok)
               else
                 A ← mem NodeA;
                 B ← mem NodeB;
                 mret (allowed_down one two A B true));
      A ← mem NodeA;
      B ← mem NodeB;
      mret (allowed_last one two A B rCode)
  end.

(** ** Taking the role *)

(** [mountRAIDandActivateMIPs]: the result of the second command is compared with the
    number 1. *)
Definition mountRAIDandActivateMIPs (OnStart : bool) : MM bool :=
  raid ← mem IsRAIDConfigured;
  ok ← (if (raid : bool) then mret true else
        ok ← launchCommand cmd_mount;
        if (ok : bool) then upd (set_IsRAIDConfigured true);; mret true
        else InitiateFailover COMPONENT_FAILOVER;; mret false);
  if negb ok then mret false else
  mips ← mem IsMIPConfigured;
  if (mips : bool) then mret true else
  ok ← launchCommand (cmd_mips OnStart);
  let errorCode := if (ok : bool) then ACS_APGCC_SUCCESS else ACS_APGCC_FAILURE in
  if errorCode =? 1 then mret false else
  upd (set_IsMIPConfigured true);;
  mret true.

(** A line of [--list-raid-disks]. *)
Definition raid_disk (w : Which) (line : string) : MM unit :=
  ws ← sscanf [50; 50; 50; 50]%nat line;
  let buff4 := default EmptyString (ws !! 3%nat) in
  if streq buff4 "active" || streq buff4 "spare" then
    name ← strcpy DISK_NAME_LEN (default EmptyString (ws !! 1%nat));
    upd (on_disk w (set_diskname name ∘ set_dk_healthy true))
  else mret tt.

Definition raid_line (line : string) : MM unit :=
  if strstr line "DISK1:" then raid_disk One line
  else if strstr line "DISK2:" then raid_disk Two line
  else mret tt.

(** The check of a disk against the array: a disk outside of it is released, one in it is
    reserved. *)
Definition sanity (w : Which) : MM unit :=
  d ← mem (disk w);
  (if negb (dk_healthy d) && dk_reserved d then
     _ ← releaseDataDiskReservation (diskname d);
     upd (on_disk w (set_dk_reserved false))
   else mret tt);;
  d ← mem (disk w);
  if dk_healthy d && negb (dk_reserved d) then
    ok ← reserveDatadisk (diskname d);
    if (ok : bool) then upd (on_disk w (set_dk_reserved true)) else mret tt
  else mret tt.

(** [updateDatadisksWithRaidDisks]. *)
Definition updateDatadisksWithRaidDisks : MM bool :=
  upd (on_disk One (set_dk_healthy false) ∘ on_disk Two (set_dk_healthy false));;
  fp ← req (CPopen cmd_list_raid_disks);
  match fp with
  | None => mret false
  | Some out =>
      _ ← each_line (feof_lines 79 EmptyString out) (λ line _, raid_line line;; mret (tt, false)) tt;
      h1 ← mem (dk_healthy ∘ disk One);
      h2 ← mem (dk_healthy ∘ disk Two);
      if negb h1 && negb h2 then
        InitiateFailover COMPONENT_FAILOVER;;
        _ ← pclose cmd_list_raid_disks;
        mret false
      else
        sanity One;;
        sanity Two;;
        r1 ← mem (dk_reserved ∘ disk One);
        r2 ← mem (dk_reserved ∘ disk Two);
        if negb r1 && negb r2 then
          InitiateFailover COMPONENT_FAILOVER;;
          _ ← pclose cmd_list_raid_disks;
          mret false
        else pclose cmd_list_raid_disks
  end.

Definition become_active : MM unit :=
  upd (set_Is_State_Assgned true ∘ set_gracefullDone false ∘ set_IsRAIDConfigured false
       ∘ set_IsMIPConfigured false ∘ set_Is_Agent_Stanby false).

(** [performStateTransitionToActiveJobs]. *)
Definition md_active_jobs (previousHAState : HAState) : MM bool :=
  if bool_decide (previousHAState = HA_ACTIVE) then mret true else
  become_active;;
  ok ← registerReachableDataDisks;
  if negb ok then mret false else
  fo ← mem initiateFailover;
  if bool_decide (previousHAState = HA_UNDEFINED) && fo then
    InitiateFailover NODE_FAILOVER;; mret false
  else
  let OnStart := bool_decide (previousHAState = HA_UNDEFINED) in
  ok ← (if bool_decide (previousHAState = HA_STANDBY) then IsActiveStateTransitionAllowed
        else mret true);
  if negb ok then InitiateFailover NODE_FAILOVER;; mret false else
  ok ← dataDiskReservationAlgo;
  if negb ok then InitiateFailover NODE_FAILOVER;; mret false else
  ok ← mountRAIDandActivateMIPs OnStart;
  raid ← mem IsRAIDConfigured;
  mips ← mem IsMIPConfigured;
  if negb ok && (negb raid || negb mips) then mret false else
  ok ← updateDatadisksWithRaidDisks;
  if negb ok then InitiateFailover COMPONENT_FAILOVER;; mret false else
  ok ← updateBothNodeDisknControllerstatus;
  if negb ok then InitiateFailover COMPONENT_FAILOVER;; mret false else
  mret true.

(** [performStateTransitionToPassiveJobs]. *)
Definition md_passive_jobs (previousHAState : HAState) : MM bool :=
  upd (set_Is_Agent_Stanby true ∘ set_Is_State_Assgned true);;
  if bool_decide (previousHAState = HA_STANDBY) then mret true else
  fo ← mem initiateFailover;
  if bool_decide (previousHAState = HA_UNDEFINED) && fo then
    InitiateFailover NODE_FAILFAST;; mret false
  else
  ok ← registerReachableDataDisks;
  if negb ok then mret false else
  updateBothNodeDisknControllerstatus.

(** [performStateTransitionToQueisingJobs] and [performStateTransitionToQuiescedJobs]; [same]
    is the state itself. *)
Definition md_quiesce_jobs (same previousHAState : HAState) : MM bool :=
  if bool_decide (previousHAState = same) then mret true else
  if bool_decide (previousHAState = HA_ACTIVE) then
    done ← mem gracefullDone;
    if (done : bool) then mret true else handleRdeAgentGracefullDownJobs
  else mret false.

(** [performComponentTerminateJobs], [performComponentRemoveJobs] and
    [performApplicationShutdownJobs]. *)
Definition md_down_jobs : MM bool :=
  done ← mem gracefullDone;
  if (done : bool) then mret true else handleRdeAgentGracefullDownJobs.

Definition md_terminate_jobs : MM bool :=
  upd (set_terminateRdeAgent true);;
  st ← amf a_state;
  if bool_decide (st = HA_STANDBY) then mret true else md_down_jobs.

Definition md_remove_jobs : MM bool :=
  st ← amf a_state;
  if bool_decide (st = HA_STANDBY) then mret true else md_down_jobs.

(** [sel_obj_ind]. *)
Definition sel_obj_ind (obj : string) : MM bool := req (CFileOp (String.append "write " obj)).

Definition md_shutdown_jobs : MM bool :=
  st ← amf a_state;
  if bool_decide (st = HA_STANDBY) then _ ← sel_obj_ind "term"; mret true else
  done ← mem gracefullDone;
  if (done : bool) then mret true else
  ok ← handleRdeAgentGracefullDownJobs;
  if negb ok then mret false else
  _ ← sel_obj_ind "term";
  mret true.

Definition md_job (j : Job) : MM bool :=
  match j with
  | JobActive prev => md_active_jobs prev
  | JobPassive prev => md_passive_jobs prev
  | JobQuiesing prev => md_quiesce_jobs HA_QUIESCING prev
  | JobQuiesced prev => md_quiesce_jobs HA_QUIESCED prev
  | JobTerminate => md_terminate_jobs
  | JobRemove => md_remove_jobs
  | JobShutdown => md_shutdown_jobs
  | JobHealth => mret true
  end.

#[export] Instance md_host : Host (Proc MdT) := {| host_job := md_job |}.

(** ** Registrations *)

(** One disk of [releaseBothDatadiskRegistrations]. *)
Fixpoint unregister_loop (attempts : nat) (w : Which) : MM unit :=
  match attempts with
  | O => mret tt
  | S attempts =>
      d ← mem (disk w);
      ok ← releaseDataDiskRegistrations (diskname d);
      if (ok : bool) then upd (on_disk w (set_dk_registered false)) else
      (if dk_healthy d && dk_reserved d then
         _ ← releaseDataDiskReservation (diskname d);
         upd (on_disk w (set_dk_reserved false))
       else mret tt);;
      md_msec_sleep 1000;;
      unregister_loop attempts w
  end.

Definition unregister (w : Which) : MM unit :=
  d ← mem (disk w);
  if dk_registered d then unregister_loop 4 w else mret tt.

(** [releaseBothDatadiskRegistrations]. *)
Definition releaseBothDatadiskRegistrations : MM bool :=
  unregister One;;
  unregister Two;;
  r1 ← mem (dk_registered ∘ disk One);
  r2 ← mem (dk_registered ∘ disk Two);
  mret (negb (r1 && r2)).

(** [renewDatadiskRegistrations]. *)
Definition renewDatadiskRegistrations : MM bool :=
  upd (λ m, set_logCounter (i32 (logCounter m + 1)) m);;
  ok ← registerReachableDataDisks;
  if negb ok then InitiateFailover NODE_FAILOVER;; mret false else
  upd (λ m, if 30 <=? logCounter m then set_logCounter 0 m else m);;
  mret true.

(** [updateDeviceStatus]. *)
Definition update_raid_status : MM bool :=
  ok ← updateDatadisksWithRaidDisks;
  if (ok : bool) then updateBothNodeDisknControllerstatus else mret false.

Definition update_disk_status : MM bool :=
  r1 ← checkSCSIControllerStatus;
  r2 ← checkAvailableDataDisks;
  upd (set_logCounter 0);;
  r3 ← renewDatadiskRegistrations;
  r4 ← updateBothNodeDisknControllerstatus;
  mret (r1 && r2 && r3 && r4).

Definition updateDeviceStatus : MM bool :=
  disks ← mem update_datadisk_info;
  errorCode ← (if (disks : bool) then upd (set_update_datadisk_info false);; update_disk_status
               else mret true);
  raid ← mem update_raid_info;
  if negb raid then mret errorCode else
  upd (set_update_raid_info false);;
  debug ← mem IsDebug;
  mounted ← mem IsRAIDConfigured;
  if negb debug then
    st ← amf a_state;
    if bool_decide (st = HA_ACTIVE) then
      (if (mounted : bool) then update_raid_status else updateBothNodeDisknControllerstatus)
    else mret true
  else
    standby ← mem Is_Agent_Stanby;
    if negb standby && mounted then update_raid_status else mret true.
End roles.
