(* ===== verification/MdMain.v ===== *)
(** * Software RAID agent: the program

    The rest of [APGHA_RDEAgent] and [apos_ha_rdeagent_main.cpp]: the configuration file, the
    selection objects by which signal handlers wake the main loop, the timer, and the loop
    itself. *)

From S2P Require Import Prelude World Proc CString Types Config Amf MdPipe MdState MdTipc MdDisk MdRole.

Open Scope Z_scope.

Definition RDAGNT_CONF_FILE : string := "/opt/ap/apos/conf/apos_ha_rdeagent.conf".

(** ** Configuration *)

(** The digits [s] starts with. *)
Fixpoint leading_digits (s : string) : string :=
  match s with
  | String c r => if is_digit c then String c (leading_digits r) else EmptyString
  | EmptyString => EmptyString
  end.

(** [gettoken]: the digits after the first [tok] are moved over it; the line that is left
    and the token. *)
Definition gettoken (line : string) (tok : ascii) : option (string * string) :=
  match strchr line tok with
  | None => None
  | Some (pre, rest) => let d := leading_digits rest in Some (String.append pre d, d)
  end.

(** [atoll], as [strtol10] on a 64-bit machine. *)
Definition atoll (s : string) : Z := strtol10 s.

Section main.
Context `{E : Env} `{T : ApgTypes}.

(** One test of [readConfig]; the token is used without a test. *)
Definition config_option (key : string) (set : string → MdT → MdT) (ch : string) : MM string :=
  if strstr ch (String.append key "=") then
    '(ch, tmp) ← deref (gettoken ch "=");
    upd (set tmp);;
    mret ch
  else mret ch.

Definition config_line (buff : string) : MM unit :=
  let ch := skip_blanks (c_str buff) in
  if starts ch "#" || starts ch LF then mret tt else
  let ch := match strchr ch "#" with
            | Some (p, _) => String.append p (String LF EmptyString)
            | None => ch
            end in
  ch ← config_option "RDAGNT_X_TIMES" (λ tmp, set_X_Times (u32 (Z.max DEFLT_X_TIMES (atoi tmp)))) ch;
  ch ← config_option "RDAGNT_Y_MSECS" (λ tmp, set_Y_Msecs (u64 (Z.max DEFLT_Y_MSECS (atoll tmp)))) ch;
  _ ← config_option "RDAGNT_DISK_RENEWAL_THREAD_FREQUENCY"
        (λ tmp, set_diskRenewalThreadFreq (u64 (Z.max DEFALT_THREAD_FREQ (atoll tmp)) / 1000)) ch;
  mret tt.

Fixpoint config_lines (ls : list string) : MM unit :=
  match ls with
  | [] => mret tt
  | l :: ls => config_line l;; config_lines ls
  end.

(** [readConfig]. *)
Definition md_readConfig : MM bool :=
  fp ← req (CReadFile RDAGNT_CONF_FILE);
  match fp with
  | None => mret false
  | Some file => config_lines (fgets_lines 100 file);; req (CClose RDAGNT_CONF_FILE)
  end.

(** [setNodeId] and [setGepId]. *)
Definition setNodeId : MM bool :=
  n ← read_node_id;
  match n with Some n => upd (set_node_id n);; mret true | None => mret false end.

Definition setGepId : MM bool :=
  old ← mem gep_id;
  g ← read_gep_id old;
  match g with Some g => upd (set_gep_id g);; mret true | None => mret false end.

Definition updateDiskStatusFile : MM bool := launchCommand cmd_update_diskstatus.

(** [InitializeRdeAgentEngine]. *)
Definition InitializeRdeAgentEngine : MM bool :=
  ok ← md_readConfig;
  if negb ok then mret false else
  ok ← setNodeId;
  if negb ok then mret false else
  ok ← setGepId;
  if negb ok then mret false else
  ok ← updateDiskStatusFile;
  if negb ok then mret false else
  node ← mem node_id;
  ok ← tipc_initialize node;
  if negb ok then mret false else
  ok ← checkSCSIControllerStatus;
  if negb ok then mret false else
  checkAvailableDataDisks.

(** ** Jobs without AMF *)

(** [ActiveJobsDebug]: unlike under AMF, a failure is not followed by a recovery action,
    and a failed configuration of the addresses is passed over. *)
Definition ActiveJobsDebug : MM bool :=
  become_active;;
  ok ← registerReachableDataDisks;
  if negb ok then mret false else
  ok ← dataDiskReservationAlgo;
  if negb ok then mret false else
  ok ← mountRAIDandActivateMIPs true;
  raid ← mem IsRAIDConfigured;
  if negb ok && negb raid then mret false else
  ok ← updateDatadisksWithRaidDisks;
  if negb ok then mret false else
  updateBothNodeDisknControllerstatus.

Definition StandbyJobsDebug : MM bool :=
  upd (set_Is_Agent_Stanby true ∘ set_Is_State_Assgned true);;
  ok ← registerReachableDataDisks;
  if negb ok then mret false else
  updateBothNodeDisknControllerstatus.

Definition ShutdownJobsDebug : MM bool := md_down_jobs.

(** [ExecuteDebug]: what [--node-state] printed last decides. *)
Definition ExecuteDebug : MM bool :=
  fp ← req (CPopen cmd_node_state);
  match fp with
  | None => mret false
  | Some out =>
      let ls := feof_lines 79 EmptyString out in
      '(line, how) ← each_line ls (λ l _, mret (l, false)) EmptyString;
      let line := match how with AtNull => EmptyString | AtEof | AtBody => line end in
      if strstr line "ACTIVE" then
        ok ← ActiveJobsDebug;
        if (ok : bool) then mret true else _ ← pclose cmd_node_state; mret false
      else if strstr line "STANDBY" then StandbyJobsDebug
      else mret false
  end.

(** ** Signals and selection objects *)

(** [sel_obj_create] and [sel_obj_destroy]. *)
Definition sel_obj_create (obj : string) : MM bool := req (CFileOp (String.append "socketpair " obj)).
Definition sel_obj_destroy (obj : string) : MM unit :=
  _ ← req (CClose (String.append "raise " obj));
  _ ← req (CClose (String.append "rmv " obj));
  mret tt.

(** [sel_obj_rmv_ind]: the indications that were removed, -1 for an error; [fuel] bounds the
    calls of [recv]. *)
Fixpoint rmv_loop (fuel : nat) (obj : string) (one_at_a_time : bool) (total : Z) : MM (option Z) :=
  match fuel with
  | O => nofuel
  | S fuel =>
      r ← req (CRecvInd obj);
      match r with
      | IndGot n => if one_at_a_time then mret (Some 1) else rmv_loop fuel obj one_at_a_time (total + n)
      | IndAgain => mret (Some total)
      | IndIntr => rmv_loop fuel obj one_at_a_time total
      | IndFail => mret None
      end
  end.

Fixpoint rmv_block (fuel : nat) (obj : string) : MM Z :=
  match fuel with
  | O => nofuel
  | S fuel =>
      r ← req (CRecvInd obj);
      match r with
      | IndGot n => mret n
      | IndIntr => rmv_block fuel obj
      | IndAgain | IndFail => _ ← req (CClose (String.append "rmv " obj)); mret (-1)
      end
  end.

Definition sel_obj_rmv_ind (fuel : nat) (obj : string) (nonblock one_at_a_time : bool) : MM Z :=
  r ← rmv_loop fuel obj one_at_a_time 0;
  match r with
  | None => mret (-1)
  | Some total =>
      if negb (total =? 0) || nonblock then mret total else rmv_block fuel obj
  end.

(** The handlers. *)
Definition md_handler (sig : MdSignal) : MM unit :=
  match sig with
  | SigUsr1 => upd (λ m, set_debugEnabled (negb (debugEnabled m)) m)
  | SigHup => _ ← sel_obj_ind "sighup"; mret tt
  | SigTerm => upd (set_sigterm_received true);; _ ← sel_obj_ind "term"; mret tt
  | SigInt => upd (set_sigint_received true);; _ ← sel_obj_ind "sigint"; mret tt
  | SigAlrm => _ ← sel_obj_ind "iTimer"; mret tt
  | SigUpdateDisk => upd (set_update_datadisk_info true);; _ ← sel_obj_ind "sigrt"; mret tt
  | SigUpdateRaid => upd (set_update_raid_info true);; _ ← sel_obj_ind "sigrt"; mret tt
  end.

Fixpoint md_handlers (sigs : list MdSignal) : MM unit :=
  match sigs with
  | [] => mret tt
  | sig :: sigs => md_handler sig;; md_handlers sigs
  end.

(** [iTimerInit]: a period of two seconds. *)
Definition iTimerInit : MM bool :=
  ok ← sel_obj_create "iTimer";
  if negb ok then mret false else
  _ ← req (CRegister "SIGALRM");
  req (CTimer "setitimer" 2).

(** [iTimerTimeoutHandler]. *)
Definition renew_due : MM bool :=
  upd (λ m, set_renewDiskRegCounter (u64 (renewDiskRegCounter m + 2)) m);;
  c ← mem renewDiskRegCounter;
  f ← mem diskRenewalThreadFreq;
  if f <=? c then upd (set_renewDiskRegCounter 0);; renewDatadiskRegistrations else mret true.

Definition iTimerTimeoutHandler (fuel : nat) : MM bool :=
  _ ← sel_obj_rmv_ind fuel "iTimer" true true;
  debug ← mem IsDebug;
  if negb debug then
    st ← amf a_state;
    if bool_decide (st = HA_ACTIVE) then renew_due else mret true
  else
    standby ← mem Is_Agent_Stanby;
    if negb standby then renew_due else mret true.

(** ** The main loop *)

(** One round after [poll] has returned; whether the loop goes on. *)
Definition poll_amf (p : PollMdR) : MM bool :=
  debug ← mem IsDebug;
  if negb debug && pm_amf p then
    ok ← dispatch_amf;
    if negb ok then mret false else
    t ← mem terminateRdeAgent;
    mret (negb t)
  else mret true.

Definition poll_rt (fuel : nat) (p : PollMdR) : MM bool :=
  if pm_rt p then _ ← sel_obj_rmv_ind fuel "sigrt" true true; updateDeviceStatus else mret true.

Definition poll_hup (fuel : nat) (p : PollMdR) : MM unit :=
  if pm_hup p then
    _ ← sel_obj_rmv_ind fuel "sighup" true true;
    _ ← md_readConfig;
    mret tt
  else mret tt.

(** [SIGTERM] and [SIGINT]: the loop is left after the jobs. *)
Definition poll_end (fuel : nat) (obj : string) (ready : bool) (received : MdT → bool) : MM bool :=
  if ready then
    _ ← sel_obj_rmv_ind fuel obj true true;
    r ← mem received;
    _ ← (if (r : bool) then handleRdeAgentGracefullDownJobs else mret true);
    mret false
  else mret true.

Definition poll_round (fuel : nat) (p : PollMdR) : MM bool :=
  go ← poll_amf p;
  if negb go then mret false else
  go ← poll_rt fuel p;
  if negb go then mret false else
  poll_hup fuel p;;
  go ← poll_end fuel "term" (pm_term p) sigterm_received;
  if negb go then mret false else
  go ← poll_end fuel "sigint" (pm_int p) sigint_received;
  if negb go then mret false else
  go ← (if pm_timer p then iTimerTimeoutHandler fuel else mret true);
  if negb go then mret false else
  _ ← (if pm_tipc p then topserver_handler else mret true);
  mret true.

Fixpoint poll_loop (fuel : nat) : MM unit :=
  match fuel with
  | O => nofuel
  | S fuel =>
      p ← req CPollMd;
      md_handlers (pm_signals p);;
      if pm_ret p =? -1 then (if pm_intr p then poll_loop fuel else mret tt)
      else
        go ← poll_round fuel p;
        if (go : bool) then poll_loop fuel else mret tt
  end.

Definition sel_objs : list string := ["term"; "sigrt"; "sighup"; "sigint"]%string.
Definition md_signals : list string :=
  ["SIGUSR1"; "SIGTERM"; "SIGINT"; "SIGHUP"; "SIG_UPDATE_DISK"; "SIG_UPDATE_RAID"]%string.

Fixpoint all_of (f : string → MM bool) (l : list string) : MM bool :=
  match l with
  | [] => mret true
  | x :: l => ok ← f x; if negb ok then mret false else all_of f l
  end.

(** [agent_poll]. *)
Definition agent_poll (fuel : nat) : MM bool :=
  ok ← all_of sel_obj_create sel_objs;
  if negb ok then mret false else
  ok ← all_of (λ s, req (CRegister s)) md_signals;
  if negb ok then mret false else
  ok ← InitializeRdeAgentEngine;
  if negb ok then mret false else
  debug ← mem IsDebug;
  ok ← (if negb debug then coreMWInitialize else mret true);
  if negb ok then mret false else
  ok ← iTimerInit;
  if negb ok then mret false else
  ok ← (if (debug : bool) then ExecuteDebug else mret true);
  if negb ok then mret false else
  poll_loop fuel;;
  term ← mem sigterm_received;
  (if negb debug && negb term then _ ← AmfFinalize; mret tt else mret tt);;
  sel_obj_destroy "sigrt";;
  sel_obj_destroy "sighup";;
  sel_obj_destroy "iTimer";;
  sel_obj_destroy "term";;
  sel_obj_destroy "sigint";;
  mret true.

(** [ACE_TMAIN]: [new] throws when it has no memory. *)
Definition md_main (fuel : nat) (args : list string) : MM Z :=
  n ← req (CNew "APGHA_RDEAgent");
  if negb n then exit 134 else
  (match args with
   | [a] => if streq a "-d" then upd (set_IsDebug true) else daemonize
   | _ => daemonize
   end);;
  _ ← agent_poll fuel;
  mret 0.
End main.
