(* ===== verification/MdSafety.v ===== *)
(** * Software RAID agent: safety

    Theorems on the whole agent: that in every run of the program the mirror is mounted and
    the moving addresses are configured only after a disk was taken, what the decision to
    become active comes down to, and the buffer the status of the other node is read
    with. *)

From S2P Require Import Prelude World Proc CString Types Config Amf MdPipe MdState MdTipc MdDisk MdReserve MdRole MdMain.

Open Scope Z_scope.

(** ** Taking before mounting *)

(** A disk was reserved or preempted. *)
Definition took (e : Event) : Prop :=
  ∃ name r, succeeded r = true
    ∧ (e = Ev (CExec (cmd_reserve name) 0) r ∨ e = Ev (CExec (cmd_preempt name) 0) r).

(** The mirror is mounted or the addresses are configured. *)
Definition is_mount (c : Call) : bool :=
  match c with
  | CExec c _ => streq c cmd_mount || streq c (cmd_mips true) || streq c (cmd_mips false)
  | _ => false
  end.

(** In the history every such command comes after a disk was taken. *)
Fixpoint guarded (t : Trace) : Prop :=
  match t with
  | [] => True
  | e :: t => (is_mount (request e) = true → Exists took t) ∧ guarded t
  end.

Definition held (m : MdT) : bool := dk_reserved (disk One m) || dk_reserved (disk Two m).

(** The invariant: a flag is set only after a disk was taken. *)
Definition mdI (s : Proc MdT) : Prop :=
  guarded (p_trace s) ∧ (held (p_mem s) = true → Exists took (p_trace s)).

(** What a function does that mounts nothing: it keeps the invariant, and the history
    grows. *)
Definition keepsI (s s' : Proc MdT) : Prop := (mdI s → mdI s') ∧ traced (λ _, True) s s'.

#[export] Instance keepsI_preorder : PreOrder keepsI.
Proof.
  split; unfold keepsI; [by intros s|].
  intros s1 s2 s3 [H1 T1] [H2 T2]. split; [tauto|by etrans].
Qed.

(** What any function may do once a disk was taken. *)
Definition freely (s s' : Proc MdT) : Prop :=
  (mdI s → Exists took (p_trace s) → mdI s') ∧ traced (λ _, True) s s'.

Lemma traced_took (s s' : Proc MdT) :
  traced (λ _, True) s s' → Exists took (p_trace s) → Exists took (p_trace s').
Proof. intros (new & -> & _) H. apply Exists_app. by right. Qed.

#[export] Instance freely_preorder : PreOrder freely.
Proof.
  split; unfold freely; [by intros s|].
  intros s1 s2 s3 [H1 T1] [H2 T2]. split; [|by etrans].
  intros Hs Ht. apply H2; [auto|]. by eapply traced_took.
Qed.

Lemma keepsI_freely s s' : keepsI s s' → freely s s'.
Proof. intros [HI T]. split; auto. Qed.

Section frames.
Context `{E : Env}.

Lemma mdI_req c s r :
  (is_mount c = true → Exists took (p_trace s)) → mdI s →
  mdI (mkProc (Ev c r :: p_trace s) (p_fs s) (p_mem s)).
Proof. intros Hc [Hg Hh]. split; [by split|]. intros H. right. auto. Qed.

Lemma safe_req c : is_mount c = false → steps keepsI (req c).
Proof.
  intros Hc s. unfold req. cbn [snd]. split.
  - apply mdI_req. congruence.
  - eexists [_]. split; [done|]. by constructor.
Qed.

Lemma safe_upd f : (∀ m, held (f m) = true → held m = true) → steps keepsI (upd f).
Proof.
  intros Hf s. split; [|by exists []]. intros [Hg Hh]. split; [done|]. intros H. apply Hh, Hf, H.
Qed.

Lemma free_req c : steps freely (req c).
Proof.
  intros s. unfold req. cbn [snd]. split; [intros Hs Ht; by apply mdI_req|].
  eexists [_]. split; [done|]. by constructor.
Qed.

Lemma free_upd f : steps freely (upd f).
Proof. intros s. split; [|by exists []]. intros [Hg Hh] Ht. by split. Qed.

Lemma free_mem {A} (f : MdT → A) : steps freely (mem f).
Proof. intros s. reflexivity. Qed.

Lemma free_safe {A} (m : MM A) : steps keepsI m → steps freely m.
Proof. intros H s. by apply keepsI_freely. Qed.

(** A disk is taken by [m], and only then a flag is set. *)
Lemma safe_take {A} (m : MM bool) (k : bool → MM A) :
  steps keepsI m → (∀ s s', m s = (Val true, s') → Exists took (p_trace s')) →
  steps freely (k true) → steps keepsI (k false) →
  steps keepsI (m ≫= k).
Proof.
  intros Hm Htook Ht Hf s. specialize (Hm s). unfold mbind, M_bind.
  destruct (m s) as [[[]| | |] s1] eqn:Em; cbn [snd] in *; try done.
  - destruct Hm as [HI T1]. destruct (Ht s1) as [HI2 T2]. split; [|by etrans]. eauto.
  - etrans; [exact Hm|apply Hf].
Qed.

Lemma safe_mem {A} (f : MdT → A) : steps keepsI (mem f).
Proof. intros s. reflexivity. Qed.

Lemma safe_launch command :
  is_mount (CExec command 0) = false → steps keepsI (launchCommand command).
Proof. intros H. apply steps_bind; [apply _|by apply (safe_req (CExec command 0))|]. intros r. apply steps_ret, _. Qed.
End frames.

#[export] Hint Resolve safe_mem free_mem free_upd : steps.
#[export] Hint Extern 1 (steps freely (req ?c)) => apply (free_req c) : steps.
#[export] Hint Extern 5 (steps freely _) => apply free_safe : steps.
#[export] Hint Extern 1 (steps keepsI (req ?c)) => apply (safe_req c); reflexivity : steps.
#[export] Hint Extern 1 (steps keepsI (launchCommand ?c)) => apply (safe_launch c); reflexivity : steps.
#[export] Hint Extern 1 (steps keepsI (upd ?f)) =>
  apply (safe_upd f); intros [[? []] [? []]]; repeat match goal with w : Which |- _ => destruct w end;
  repeat match goal with |- context [if ?c then _ else _] => destruct c end; unfold held; cbn; rewrite ?orb_true_iff;
  first [tauto|intros [?|?]; first [discriminate|by left|by right]] : steps.

#[export] Instance md_amf_frame `{E : Env} : AmfFrame keepsI.
Proof.
  split.
  - intros c Hc. apply safe_req. by destruct c.
  - intros f s. split; [|by exists []]. intros [Hg Hh]. by split.
Qed.

#[export] Instance keepsI_pipe `{E : Env} : PipeFrame keepsI.
Proof. split; [apply _|]. intros c Hc. apply safe_req. by destruct c. Qed.

(** ** The disks *)

Section disks.
Context `{E : Env} `{T : ApgTypes}.

Lemma safe_controllers : steps keepsI checkSCSIControllerStatus.
Proof. unfold checkSCSIControllerStatus, check_port, launch_popen. solve_steps. Qed.

Lemma safe_disks : steps keepsI checkAvailableDataDisks.
Proof. unfold checkAvailableDataDisks, port_line. solve_steps. Qed.

Lemma safe_register : steps keepsI registerReachableDataDisks.
Proof.
  assert (∀ n name, steps keepsI (register_loop n name)) as Hl.
  { intros n name. induction n as [|n IH]; cbn [register_loop]; unfold registerDataDisk; solve_steps. }
  assert (∀ w, steps keepsI (register_port w)) as Hp.
  { intros []; unfold register_port; solve_steps; apply Hl. }
  unfold registerReachableDataDisks. solve_steps; apply Hp.
Qed.

Lemma safe_reserve name : steps keepsI (reserveDatadisk name).
Proof.
  unfold reserveDatadisk. generalize MAX_ATTEMPTS. intros n.
  induction n as [|n IH]; cbn [reserve_attempts]; solve_steps.
Qed.

(** A reservation that succeeds is in the history. *)
Lemma reserve_took name s s' :
  reserveDatadisk name s = (Val true, s') → Exists took (p_trace s').
Proof.
  unfold reserveDatadisk. generalize MAX_ATTEMPTS. intros n. revert s.
  induction n as [|n IH]; intros s; cbn [reserve_attempts]; [done|].
  intros (ok & s1 & Hl & Hk)%bind_Val_inv. unfold launchCommand in Hl.
  cbn in Hl. injection Hl as Hok Hs1. destruct ok.
  - injection Hk as <-. subst s1. left. eexists name, _. split; [exact Hok|by left].
  - apply bind_Val_inv in Hk as ([] & s2 & _ & Hk). eauto.
Qed.

Lemma launch_took command (s s' : Proc MdT) :
  (∃ name, command = cmd_preempt name) →
  launchCommand command s = (Val true, s') → Exists took (p_trace s').
Proof.
  intros [name ->]. unfold launchCommand. cbn. intros [= Hok <-]. left.
  eexists name, _. split; [exact Hok|by right].
Qed.

Lemma safe_counter name : steps keepsI (checkDiskPRGenerationCounter name).
Proof.
  assert (∀ n X Y command p, steps keepsI (pr_rounds n X Y command p)) as Hr.
  { intros n X Y command. induction n as [|n IH]; intros p; cbn [pr_rounds]; unfold scan_key;
      solve_steps; apply IH. }
  unfold checkDiskPRGenerationCounter. solve_steps; apply Hr.
Qed.

Lemma safe_reserve_loop n w r : steps keepsI (reserve_loop n w r).
Proof.
  revert r. induction n as [|n IH]; intros r; cbn [reserve_loop]; [solve_steps|].
  apply steps_bind; [apply _|solve_steps|]. intros name.
  apply safe_take; [apply safe_reserve|apply reserve_took|solve_steps..].
  apply safe_counter.
Qed.

Lemma safe_preempt w c : steps keepsI (preempt_disk w c).
Proof.
  unfold preempt_disk. apply steps_bind; [apply _|solve_steps|]. intros d.
  destruct (_ && _ && _); [|solve_steps]. unfold preemptDataDisk.
  apply safe_take; [solve_steps|intros s s'; apply launch_took; eauto|solve_steps..].
Qed.

Lemma safe_algo : steps keepsI dataDiskReservationAlgo.
Proof.
  unfold dataDiskReservationAlgo, reserve_disk, give_up_first, releaseDataDiskReservation. solve_steps.
  all: first [apply safe_reserve_loop|apply safe_preempt].
Qed.

(** It succeeds only with a disk. *)
Lemma algo_held s s' : dataDiskReservationAlgo s = (Val true, s') → held (p_mem s') = true.
Proof.
  intros H. enough (after dataDiskReservationAlgo (λ ok s', ok = true → held (p_mem s') = true) s)
    as Ha by (by apply (Ha true s')).
  assert (Hf : ∀ s, after (give_up_first;; mret false) (λ ok s', ok = true → held (p_mem s') = true) s)
    by (intros s0; apply after_bind; intros [] s1 _; by apply after_ret).
  apply after_bind. intros [ok1 c1] s1 _. destruct (negb ok1 || c1); [by apply after_ret|].
  apply after_bind. intros ok2 s2 _. destruct ok2; cbn [negb]; [|by apply after_ret].
  apply after_bind. intros [ok3 c3] s3 _. destruct (negb ok3 || c3); [apply Hf|].
  apply after_bind. intros ok4 s4 _. destruct ok4; cbn [negb]; [|apply Hf].
  apply after_bind, after_gets, after_bind, after_gets, after_ret. done.
Qed.
End disks.
#[export] Hint Resolve safe_controllers safe_disks safe_register safe_reserve safe_algo : steps.

(** ** The roles *)

Section roles.
Context `{E : Env} `{T : ApgTypes}.

Lemma safe_graceful : steps keepsI handleRdeAgentGracefullDownJobs.
Proof.
  unfold handleRdeAgentGracefullDownJobs, releaseBothDatadiskReservations, release_reservation,
    umountRAIDandDeactivateMIPs, releaseDataDiskReservation. solve_steps.
Qed.
#[local] Hint Resolve safe_graceful : steps.

Lemma safe_failover r : steps keepsI (InitiateFailover r).
Proof. unfold InitiateFailover, reboot_local_node. solve_steps. Qed.
#[local] Hint Resolve safe_failover : steps.

Lemma port_status_frame R `{!PipeFrame R} N node : steps R (updatePortStatus N node).
Proof.
  assert (∀ ls st, steps R (status_lines ls st)) as Hl.
  { induction ls as [|l ls IH]; intros st; cbn [status_lines]; unfold status_line; solve_steps; apply IH. }
  unfold updatePortStatus. solve_steps; apply Hl.
Qed.
#[local] Hint Resolve port_status_frame : steps.

Lemma safe_both_status : steps keepsI updateBothNodeDisknControllerstatus.
Proof. unfold updateBothNodeDisknControllerstatus. solve_steps. Qed.
#[local] Hint Resolve safe_both_status : steps.

Lemma safe_allowed : steps keepsI IsActiveStateTransitionAllowed.
Proof. unfold IsActiveStateTransitionAllowed, query_tipc_topserver, create_tipc_address. solve_steps. Qed.

Lemma safe_sanity w : steps keepsI (sanity w).
Proof.
  unfold sanity, releaseDataDiskReservation.
  apply steps_bind; [apply _|solve_steps|intros d].
  apply steps_bind; [apply _|solve_steps|intros _].
  apply steps_bind; [apply _|solve_steps|intros d'].
  destruct (_ && _); [|solve_steps].
  apply safe_take; [apply safe_reserve|apply reserve_took|solve_steps..].
Qed.
#[local] Hint Resolve safe_sanity : steps.

Lemma safe_raid_disks : steps keepsI updateDatadisksWithRaidDisks.
Proof. unfold updateDatadisksWithRaidDisks, raid_line, raid_disk. solve_steps. Qed.
#[local] Hint Resolve safe_raid_disks : steps.

(** Mounting asks for a disk. *)
Lemma free_mount OnStart : steps freely (mountRAIDandActivateMIPs OnStart).
Proof. unfold mountRAIDandActivateMIPs, launchCommand. solve_steps. Qed.

(** What may follow when the algorithm succeeds. *)
Lemma safe_after_algo {A} (k : bool → MM A) :
  steps freely (k true) → steps keepsI (k false) →
  steps keepsI (dataDiskReservationAlgo ≫= k).
Proof.
  intros Ht Hf s. pose proof (safe_algo s) as Hm. unfold mbind, M_bind.
  destruct (dataDiskReservationAlgo s) as [[[]| | |] s1] eqn:Em; cbn [snd] in *; try done.
  - destruct Hm as [HI T1]. destruct (Ht s1) as [HI2 T2]. split; [|by etrans].
    intros Hs. apply HI2; [auto|]. apply (HI Hs). by eapply algo_held.
  - etrans; [exact Hm|apply Hf].
Qed.

Lemma safe_active prev : steps keepsI (md_active_jobs prev).
Proof.
  unfold md_active_jobs, become_active. destruct (bool_decide (prev = HA_ACTIVE)); [solve_steps|].
  apply steps_bind; [apply _|solve_steps|intros _].
  apply steps_bind; [apply _|solve_steps|intros ok]. destruct (negb ok); [solve_steps|].
  apply steps_bind; [apply _|solve_steps|intros fo]. destruct (_ && fo); [solve_steps|]. cbv zeta.
  apply steps_bind; [apply _|solve_steps; apply safe_allowed|intros ok']. destruct (negb ok'); [solve_steps|].
  apply safe_after_algo; [|cbn [negb]; solve_steps]. cbn [negb].
  apply steps_bind; [apply _|apply free_mount|intros mounted]. solve_steps.
Qed.

Lemma safe_active_debug : steps keepsI ActiveJobsDebug.
Proof.
  unfold ActiveJobsDebug, become_active. apply steps_bind; [apply _|solve_steps|intros _].
  apply steps_bind; [apply _|solve_steps|intros ok]. destruct (negb ok); [solve_steps|].
  apply safe_after_algo; [|cbn [negb]; solve_steps]. cbn [negb].
  apply steps_bind; [apply _|apply free_mount|intros mounted]. solve_steps.
Qed.
#[local] Hint Resolve safe_active safe_active_debug : steps.

Lemma safe_job j : steps keepsI (md_job j).
Proof.
  destruct j; cbn [md_job]; [apply safe_active|..];
    unfold md_passive_jobs, md_quiesce_jobs, md_terminate_jobs, md_remove_jobs, md_down_jobs,
      md_shutdown_jobs, sel_obj_ind; solve_steps.
Qed.

Lemma safe_dispatch : steps keepsI dispatch_amf.
Proof. apply dispatch_frame; [apply _..|]. apply safe_job. Qed.
#[local] Hint Resolve safe_dispatch : steps.

Lemma safe_renew : steps keepsI renewDatadiskRegistrations.
Proof. unfold renewDatadiskRegistrations. solve_steps. Qed.
#[local] Hint Resolve safe_renew : steps.

Lemma safe_device_status : steps keepsI updateDeviceStatus.
Proof. unfold updateDeviceStatus, update_disk_status, update_raid_status. solve_steps. Qed.
#[local] Hint Resolve safe_device_status : steps.

(** ** The program *)

Lemma safe_config : steps keepsI md_readConfig.
Proof.
  assert (∀ ls, steps keepsI (config_lines ls)) as Hl.
  { induction ls as [|l ls IH]; cbn [config_lines]; [solve_steps|].
    apply steps_bind; [apply _| |intros _; exact IH]. unfold config_line, config_option. solve_steps. }
  unfold md_readConfig. solve_steps; apply Hl.
Qed.
#[local] Hint Resolve safe_config : steps.

Lemma safe_init : steps keepsI InitializeRdeAgentEngine.
Proof.
  unfold InitializeRdeAgentEngine, setNodeId, read_node_id, setGepId, read_gep_id, updateDiskStatusFile,
    tipc_initialize, tipc_msg_intialize, tipc_subscribe, create_tipc_address. solve_steps.
Qed.

Lemma safe_debug : steps keepsI ExecuteDebug.
Proof. unfold ExecuteDebug, StandbyJobsDebug. solve_steps. Qed.

Lemma safe_rmv fuel obj a b : steps keepsI (sel_obj_rmv_ind fuel obj a b).
Proof.
  assert (∀ n t, steps keepsI (rmv_loop n obj b t)) as H1.
  { induction n as [|n IH]; intros t; cbn [rmv_loop]; solve_steps; apply IH. }
  assert (∀ n, steps keepsI (rmv_block n obj)) as H2.
  { induction n as [|n IH]; cbn [rmv_block]; solve_steps. }
  unfold sel_obj_rmv_ind. solve_steps.
Qed.
#[local] Hint Resolve safe_init safe_debug safe_rmv : steps.

Lemma safe_round fuel p : steps keepsI (poll_round fuel p).
Proof.
  unfold poll_round, poll_amf, poll_rt, poll_hup, poll_end, iTimerTimeoutHandler, renew_due,
    topserver_handler. solve_steps.
Qed.

Lemma safe_handlers sigs : steps keepsI (md_handlers sigs).
Proof.
  induction sigs as [|sig sigs IH]; cbn [md_handlers]; [solve_steps|].
  apply steps_bind; [apply _| |intros _; exact IH].
  destruct sig; unfold md_handler, sel_obj_ind; solve_steps.
Qed.
#[local] Hint Resolve safe_round safe_handlers : steps.

Lemma safe_loop fuel : steps keepsI (poll_loop fuel).
Proof. induction fuel as [|fuel IH]; cbn [poll_loop]; solve_steps. Qed.

Lemma safe_all f l : (∀ x, steps keepsI (f x)) → steps keepsI (all_of f l).
Proof. intros Hf. induction l as [|x l IH]; cbn [all_of]; solve_steps; apply Hf. Qed.
#[local] Hint Resolve safe_loop : steps.

Lemma safe_poll fuel : steps keepsI (agent_poll fuel).
Proof.
  unfold agent_poll, iTimerInit, sel_obj_destroy, sel_obj_create. solve_steps.
  all: apply safe_all; intros; solve_steps.
Qed.

Lemma safe_main fuel args : steps keepsI (md_main fuel args).
Proof. unfold md_main. solve_steps; apply safe_poll. Qed.

(** C5: In every run of the agent, whatever the environment answers and however the run
    ends, each command that mounts the mirror or configures the moving addresses comes after
    a disk was reserved or preempted with success. *)
Theorem mount_after_take fuel args fs :
  guarded (p_trace (md_main fuel args (mkProc [] fs newMd)).2).
Proof. by apply (safe_main fuel args (mkProc [] fs newMd)). Qed.
End roles.

(** ** The decision to become active *)

(** What it comes down to for the first node, [A], and the second, [B]: with the peer in
    sight a controller has to work, without it a controller with its disk; and a pair of
    working controllers without disks forbids it, where for the first node one of the two
    is the peer's. *)
Definition in_reach (N : NodeT) : bool := n_port1 N || n_port2 N.
Definition with_disk (N : NodeT) : bool := (n_port1 N && n_disk1 N) || (n_port2 N && n_disk2 N).
Definition bare (first second : NodeT) : bool :=
  n_port1 first && negb (n_disk1 first) && n_port2 second && negb (n_disk2 second).

Definition decision (one up : bool) (A B : NodeT) : bool :=
  let N := if one then A else B in
  (if up then in_reach N else with_disk N) && negb (bare N B).

Lemma allowed_decision one A B ok :
  allowed_last one (negb one) A B (allowed_up one (negb one) A B ok) = decision one true A B
  ∧ allowed_last one (negb one) A B (allowed_down one (negb one) A B true) = decision one false A B.
Proof.
  destruct A as [[] [] [] []], B as [[] [] [] []], one, ok; vm_compute; done.
Qed.

Section decided.
Context `{E : Env} `{T : ApgTypes}.

End decided.

(** ** The status of the other node *)

(** The run returns or leaves the defined behaviour. *)
Definition no_exit {S A} (m : M S A) : Prop :=
  ∀ s, match (m s).1 with Val _ | Undef => True | Exited _ | NoFuel => False end.

Lemma no_exit_bind {S A B} (m : M S A) (k : A → M S B) :
  no_exit m → (∀ a, no_exit (k a)) → no_exit (m ≫= k).
Proof.
  intros Hm Hk s. specialize (Hm s). unfold mbind, M_bind.
  destruct (m s) as [[a| | |] s1]; cbn in *; try done. apply Hk.
Qed.

(** A run that only could return cannot: it is undefined. *)
Lemma no_exit_undef {S A} (m : M S A) s :
  no_exit m → after m (λ _ _, False) s → (m s).1 = Undef.
Proof.
  intros Hm Ha. specialize (Hm s). destruct (m s) as [[a| | |] s'] eqn:Em; cbn in *; try done.
  by destruct (Ha a s' Em).
Qed.

Section overflow.
Context `{E : Env} `{T : ApgTypes}.

Lemma no_exit_strcpy {S} n s : no_exit (strcpy n s : M S string).
Proof. intros st. unfold strcpy. destruct (_ <? n)%nat; exact I. Qed.

Lemma no_exit_sscanf sizes line : no_exit (sscanf (G:=MdT) sizes line).
Proof.
  revert line. induction sizes as [|n sizes IH]; intros line; cbn [sscanf]; [by intros s|].
  case_match; [by intros s|]. apply no_exit_bind; [apply no_exit_strcpy|]. intros w.
  apply no_exit_bind; [apply IH|]. by intros ? s.
Qed.

Lemma no_exit_each_line {St} ls (body : string → St → MM (St * bool)) st :
  (∀ l st, no_exit (body l st)) → no_exit (each_line ls body st).
Proof.
  intros Hb. revert st. induction ls as [|l ls IH]; intros st; cbn [each_line]; [by intros s|].
  case_match; [by intros s|]. apply no_exit_bind; [apply Hb|].
  intros [st' []]; [by intros s|apply IH].
Qed.

Lemma disk_status_length node :
  (20 ≤ String.length (snprintf CMD_LEN (disk_status_file node)))%nat.
Proof.
  unfold snprintf, disk_status_file, concat_str. rewrite length_take_min. cbn [foldr].
  rewrite !length_append. cbn [String.length]. unfold CMD_LEN. lia.
Qed.

Lemma port_status_no_exit N node : no_exit (updatePortStatus N node).
Proof.
  unfold updatePortStatus. apply no_exit_bind; [by intros s|]. intros [out|]; [|by intros s].
  apply no_exit_bind; [by intros s|]. intros buff.
  apply no_exit_bind.
  { apply no_exit_each_line. intros l st. apply no_exit_bind; [apply no_exit_sscanf|by intros ? s]. }
  intros [base how]. apply no_exit_bind; [by destruct base; intros ?|]. intros base'.
  intros s. unfold mbind, M_bind, strcpy.
  pose proof (disk_status_length node).
  destruct (Nat.ltb_spec (String.length (String.append base' (snprintf CMD_LEN (disk_status_file node)))) 20);
    [|done]. rewrite length_append in *. lia.
Qed.

Lemma register_node : steps (keeps (node_id ∘ p_mem)) registerReachableDataDisks.
Proof.
  assert (∀ n name, steps (keeps (node_id ∘ p_mem)) (register_loop n name)) as Hl.
  { intros n name. induction n as [|n IH]; cbn [register_loop]; unfold registerDataDisk, launchCommand;
      solve_steps. }
  assert (∀ w, steps (keeps (node_id ∘ p_mem)) (register_port w)) as Hp.
  { intros []; unfold register_port, launchCommand; solve_steps; apply Hl. }
  unfold registerReachableDataDisks. solve_steps; apply Hp.
Qed.

(** C26: The path of the status file never fits: [updatePortStatus] appends it to a buffer of
    20 bytes, so once the storage path can be asked for, the function leaves the defined
    behaviour for every node and every answer; a node that is to become standby never
    reports success. *)
Theorem status_path_overflows prev N node s :
  (∀ t, is_Some (answer t (CPopen STORAGE_FIND_PATH))) →
  NODE_ONE ≠ NODE_TWO → node_id (p_mem s) = NODE_ONE ∨ node_id (p_mem s) = NODE_TWO →
  prev ≠ HA_STANDBY →
  (updatePortStatus N node s).1 = Undef ∧ (md_passive_jobs prev s).1 ≠ Val true.
Proof.
  intros Hp Hne Hnode Hprev.
  assert (Hnever : ∀ N node s, after (updatePortStatus N node) (λ _ _, False) s).
  { intros N' node' s'. apply after_bind, after_wp, (wp_req (CPopen STORAGE_FIND_PATH)). intros r ->.
    destruct (Hp (p_trace s')) as [out ->]. cbn [valQ].
    apply after_bind. intros buff s1 _. apply after_bind. intros [base how] s2 _.
    apply after_bind. intros base' s3 _. apply after_bind. intros path s4 Hs.
    exfalso. unfold strcpy in Hs. pose proof (disk_status_length node').
    destruct (Nat.ltb_spec (String.length (String.append base' (snprintf CMD_LEN (disk_status_file node')))) 20);
      [|done]. rewrite length_append in *. lia. }
  split; [by apply no_exit_undef; [apply port_status_no_exit|apply Hnever]|].
  enough (after (md_passive_jobs prev) (λ ok _, ok = false) s) as Ha.
  { intros Hv. destruct (md_passive_jobs prev s) as [o s'] eqn:Em. cbn in Hv. subst o.
    by specialize (Ha true s' Em). }
  apply after_bind, after_modify. rewrite (bool_decide_eq_false_2 _ Hprev).
  apply after_bind, after_gets. destruct (_ && _).
  { apply after_bind. intros [] s1 _. by apply after_ret. }
  apply after_bind. intros ok s1 Hr. destruct ok; cbn [negb]; [|by apply after_ret].
  apply (steps_run (keeps (node_id ∘ p_mem))) in Hr; [|apply register_node].
  assert (Hn : node_id (p_mem s1) = node_id (p_mem s)) by exact Hr.
  apply after_bind, after_gets. unfold compose. rewrite Hn. apply after_bind, after_gets.
  destruct Hnode as [-> | ->]; rewrite ?Z.eqb_refl.
  - apply after_bind. apply after_bind. intros [] s2 _. apply after_bind, after_gets.
    apply after_bind. intros r s3 Hu. by destruct (Hnever _ _ _ _ _ Hu).
  - assert ((NODE_TWO =? NODE_ONE) = false) as -> by (by apply Z.eqb_neq).
    apply after_bind, after_ret. cbn [negb].
    apply after_bind. intros [] s2 _. apply after_bind, after_gets.
    apply after_bind. intros r s3 Hu. by destruct (Hnever _ _ _ _ _ Hu).
Qed.
End overflow.

(** ** Examples *)

Definition apg_types : ApgTypes :=
  {| ACS_APGCC_SUCCESS := 1; ACS_APGCC_FAILURE := 0; NODE_ONE := 1; NODE_TWO := 2 |}.

(** The peer is in sight, its status cannot be read. *)
Definition sight_env : Env := {| answer := λ _ c,
  match c as c return resp c with
  | CPopen command => if streq command STORAGE_FIND_PATH then None else Some EmptyString
  | CTipcEvent => mkTipcEv sizeof_tipc_event TIPC_PUBLISHED 2020
  | c => dflt c
  end |}.

Definition node_one : Proc MdT := mkProc [] ∅ (set_node_id 1 md_ready).


Lemma status_path_overflows_witness :
  (updatePortStatus (E:=calm) newNode 1 node_one).1 = Undef
  ∧ (md_passive_jobs (E:=calm) (T:=apg_types) HA_UNDEFINED node_one).1 ≠ Val true.
Proof.
  apply (status_path_overflows (E:=calm) (T:=apg_types) HA_UNDEFINED newNode 1 node_one);
    [intros t; by eexists|done|by left|done].
Defined.
