(* ===== verification/MdRenew.v ===== *)
(** * Software RAID agents: renewal against watch

    The active agent renews its registrations from a timer, the other agent watches the
    counter of the disk.  Here is how often a registration is renewed, and that a watch whose
    window is no shorter than that period never takes a live peer for dead. *)

From S2P Require Import Prelude World Proc CString Types Config Amf MdPipe MdState MdDisk MdReserve MdRole MdMain MdSafety.

Open Scope Z_scope.

(** ** The watch on a peer that renews in time *)

(** The counter as a function of the time in milliseconds: between two points that are a
    period apart it has moved.  (It has 32 bits, so it may be back where it was after
    [2^32] renewals.) *)
Definition renews (P : Z) (K : Z → Z) : Prop :=
  ∀ x y, P ≤ y - x ≤ 2 ^ 31 * P → K x ≠ K y.

(** The queries are at least [lo] and at most [hi] milliseconds apart. *)
Definition paced (lo hi : Z) (τ : nat → Z) : Prop := ∀ i, lo ≤ τ (S i) - τ i ≤ hi.

Lemma paced_window lo hi τ i n :
  0 ≤ lo → paced lo hi τ → Z.of_nat n * lo ≤ τ (i + n)%nat - τ i ≤ Z.of_nat n * hi.
Proof.
  intros Hlo Hp. induction n as [|n IH]; [rewrite Nat.add_0_r; lia|].
  rewrite Nat.add_succ_r. specialize (Hp (i + n)%nat). lia.
Qed.

Lemma renews_moves X P lo hi K τ n :
  (1 < X)%nat → 0 ≤ lo → paced lo hi τ → renews P K →
  P ≤ (Z.of_nat X - 1) * lo → Z.of_nat X * hi ≤ 2 ^ 31 * P →
  ¬ settled X (later n (λ i, K (τ i))).
Proof.
  intros HX Hlo Hp Hr HP Hhi Hs.
  assert (0 ≤ hi) as Hh by (specialize (Hp 0%nat); lia).
  assert (∃ j d, (X - 1 ≤ d ≤ X)%nat ∧ K (τ (n + j + d)%nat) = K (τ (n + j)%nat)) as (j & d & Hd & Hk).
  { unfold later in Hs. destruct Hs as [H|(j & _ & _ & _ & H)].
    - exists 0%nat, (X - 1)%nat. split; [lia|]. specialize (H (X - 1)%nat ltac:(lia)).
      cbn in H. rewrite !Nat.add_0_r in *. exact H.
    - exists j, X. split; [lia|]. specialize (H X ltac:(lia)). cbn beta in H. by rewrite Nat.add_assoc in H. }
  symmetry in Hk. revert Hk. apply Hr.
  pose proof (paced_window lo hi τ (n + j) d Hlo Hp) as Hw.
  assert ((Z.of_nat X - 1) * lo ≤ Z.of_nat d * lo) by (apply Z.mul_le_mono_nonneg_r; lia).
  assert (Z.of_nat d * hi ≤ Z.of_nat X * hi) by (apply Z.mul_le_mono_nonneg_r; lia).
  lia.
Qed.

Section watch.
Context `{E : Env}.

(** C16: A peer that renews its registration in time is recognised: if the counter moves in
    every period [P] and [P] is no longer than the [X - 1] pauses of the watch, the watch
    reports a change at whatever point it starts. *)
Theorem live_peer_detected name P lo hi K τ s :
  shows name (λ i, K (τ i)) → 1 < X_Times (p_mem s) < 2 ^ 31 → 0 ≤ lo → paced lo hi τ →
  renews P K → P ≤ (X_Times (p_mem s) - 1) * lo → X_Times (p_mem s) * hi ≤ 2 ^ 31 * P →
  ∃ s', checkDiskPRGenerationCounter name s = (Val (true, true), s').
Proof.
  intros Hs HX Hlo Hp Hr HP Hhi.
  destruct (wp_valQ_run _ _ _ (counter_watched _ _ (X_Times (p_mem s)) _ Hs eq_refl ltac:(lia))) as (r & s' & Hrun & ->).
  exists s'. rewrite Hrun. destruct (watch _ _ _ _ _ _) eqn:Ew; [done|exfalso].
  apply watch_settled in Ew; [|lia]. revert Ew.
  apply (renews_moves _ P lo hi); [lia|done..| |]; by rewrite Z2Nat.id by lia.
Qed.
End watch.

(** The delivered configuration: a renewal every four seconds against three queries that are
    three seconds apart. *)
Definition steady_K (x : Z) : Z := (x / 4000) mod 2 ^ 32.
Definition steady_τ (i : nat) : Z := 3000 * Z.of_nat i.

Lemma steady_renews : renews 4000 steady_K.
Proof.
  intros x y Hxy H. unfold steady_K in H.
  pose proof (Z.div_mod x 4000 ltac:(lia)). pose proof (Z.mod_pos_bound x 4000 ltac:(lia)).
  pose proof (Z.div_mod y 4000 ltac:(lia)). pose proof (Z.mod_pos_bound y 4000 ltac:(lia)).
  assert ((y / 4000 - x / 4000) mod 2 ^ 32 = 0) as Hd
    by (rewrite Zminus_mod, H, Z.sub_diag; done).
  rewrite Z.mod_small in Hd by lia. lia.
Qed.

Lemma live_peer_detected_witness :
  let s := mkProc [] ∅ md_ready in
  ∃ s', checkDiskPRGenerationCounter (E:=keyed_env (λ i, steady_K (steady_τ i))) "sdb" s
        = (Val (true, true), s').
Proof.
  intros s.
  apply (live_peer_detected (E:=keyed_env (λ i, steady_K (steady_τ i))) "sdb" 4000 3000 4000 steady_K steady_τ s).
  - apply keyed_shows. intros i. apply Z.mod_pos_bound. lia.
  - done.
  - lia.
  - intros i. unfold steady_τ. lia.
  - apply steady_renews.
  - done.
  - done.
Defined.

(** ** The period of the renewals *)

Section ticks.
Context `{E : Env} `{T : ApgTypes}.

(** The timer fires [n] times while the agent is active. *)
Fixpoint ticks (n : nat) : MM bool :=
  match n with
  | O => mret true
  | S n => _ ← ticks n; renew_due
  end.

Definition counting (n : nat) (s : Proc MdT) : Proc MdT :=
  mkProc (p_trace s) (p_fs s) (set_renewDiskRegCounter (2 * Z.of_nat n) (p_mem s)).

Lemma ticks_early n s :
  renewDiskRegCounter (p_mem s) = 0 → 2 * Z.of_nat n < diskRenewalThreadFreq (p_mem s) < 2 ^ 63 →
  ticks n s = (Val true, counting n s).
Proof.
  intros H0. induction n as [|n IH]; intros Hn.
  { unfold counting. destruct s as [t fs m]. destruct m. cbn in *. by subst. }
  cbn [ticks]. erewrite bind_Val by (apply IH; lia).
  unfold renew_due, upd, mem, modify, gets, mbind, M_bind. cbn [p_mem p_trace p_fs counting compose].
  cbn -[Z.mul Z.add Z.of_nat u64 Z.leb].
  rewrite u64_small by lia.
  destruct (Z.leb_spec (diskRenewalThreadFreq (p_mem s)) (2 * Z.of_nat n + 2)); [lia|].
  unfold counting. cbn [p_trace p_fs p_mem]. replace (2 * Z.of_nat (S n)) with (2 * Z.of_nat n + 2) by lia.
  by destruct (p_mem s).
Qed.

(** The first request of a run, in front of which nothing is requested. *)
Definition asks_first {A} (c : Call) (m : MM A) (s : Proc MdT) : Prop :=
  ∃ r new, p_trace (m s).2 = new ++ Ev c r :: p_trace s.

Definition grows : relation (Proc MdT) := traced (λ _, True).

#[local] Instance grows_preorder : PreOrder grows.
Proof. apply traced_preorder. Qed.

Lemma grows_req c : steps grows (req c).
Proof. intros s. eexists [_]. split; [done|]. by constructor. Qed.

Lemma grows_upd f : steps grows (upd f).
Proof. intros s. by exists []. Qed.
#[local] Hint Resolve grows_upd : steps.
#[local] Hint Extern 1 (steps grows (req ?c)) => apply (grows_req c) : steps.
#[local] Hint Extern 1 (steps grows (mem _)) => apply steps_gets, _ : steps.

#[local] Instance grows_amf : AmfFrame grows.
Proof. split; [intros c _; apply grows_req|]. intros f s. by exists []. Qed.

Lemma asks_first_bind {A B} c (m : MM A) (k : A → MM B) s :
  asks_first c m s → (∀ a, steps grows (k a)) → asks_first c (m ≫= k) s.
Proof.
  intros (r & new & Hm) Hk. unfold asks_first, mbind, M_bind.
  destruct (m s) as [[a| | |] s1]; cbn [snd] in *; eauto.
  destruct (Hk a s1) as (new2 & Ht & _). exists r, (new2 ++ new). by rewrite Ht, Hm, app_assoc.
Qed.

Lemma asks_first_skip {A B} c (m : MM A) (k : A → MM B) s a s1 :
  m s = (Val a, s1) → p_trace s1 = p_trace s → asks_first c (k a) s1 → asks_first c (m ≫= k) s.
Proof. intros Hm Ht (r & new & Hk). exists r, new. by rewrite (bind_Val _ _ _ _ _ Hm), Hk, Ht. Qed.

Lemma grows_register_disk name : steps grows (registerDataDisk name).
Proof. unfold registerDataDisk, launchCommand. solve_steps. Qed.
#[local] Hint Resolve grows_register_disk : steps.

Lemma grows_register_loop n name : steps grows (register_loop n name).
Proof.
  induction n as [|n IH]; cbn [register_loop]; unfold md_msec_sleep; solve_steps.
Qed.
#[local] Hint Resolve grows_register_loop : steps.

Lemma grows_register_port w : steps grows (register_port w).
Proof. unfold register_port, launchCommand. solve_steps. Qed.
#[local] Hint Resolve grows_register_port : steps.

Lemma renew_asks s :
  pt_healthy (port One (p_mem s)) = true → dk_healthy (disk One (p_mem s)) = true →
  asks_first (CExec (cmd_register (diskname (disk One (p_mem s)))) 0) renewDatadiskRegistrations s.
Proof.
  intros Hp Hd. eapply asks_first_skip; [reflexivity|done|].
  apply asks_first_bind.
  - eapply asks_first_skip; [reflexivity|done|]. apply asks_first_bind.
    + eapply asks_first_skip; [reflexivity|done|]. cbn. unfold disk in Hd. cbn in Hp, Hd.
      rewrite Hp, Hd. cbn [andb]. apply asks_first_bind.
      * apply asks_first_bind; [|intros []; unfold md_msec_sleep; solve_steps].
        apply asks_first_bind; [|intros; solve_steps]. by eexists _, [].
      * intros []; unfold launchCommand; solve_steps.
    + intros []; cbn [negb]; solve_steps.
  - intros []; cbn [negb]; unfold InitiateFailover, handleRdeAgentGracefullDownJobs,
      releaseBothDatadiskReservations, release_reservation, releaseDataDiskReservation,
      umountRAIDandDeactivateMIPs, reboot_local_node, md_msec_sleep, launchCommand; solve_steps.
Qed.

(** How often the active agent renews its registrations: with [f] the value of
    [diskRenewalThreadFreq], nothing is requested until the timer has fired [f] halves
    times, and then the first disk is registered again.  The timer has a period of two
    seconds, so [f] is a number of seconds; its default is 3000, which is meant to be
    milliseconds. *)
Theorem renewal_period s :
  let f := diskRenewalThreadFreq (p_mem s) in
  renewDiskRegCounter (p_mem s) = 0 → 0 < f < 2 ^ 63 →
  pt_healthy (port One (p_mem s)) = true → dk_healthy (disk One (p_mem s)) = true →
  (∀ n, 2 * Z.of_nat n < f → p_trace (ticks n s).2 = p_trace s)
  ∧ ∃ r new, p_trace (ticks (Z.to_nat ((f + 1) / 2)) s).2
             = new ++ Ev (CExec (cmd_register (diskname (disk One (p_mem s)))) 0) r :: p_trace s.
Proof.
  intros f H0 Hf Hp Hd. split; [intros n Hn; rewrite ticks_early by (done || (fold f; lia)); done|].
  pose proof (Z.div_mod (f + 1) 2 ltac:(lia)). pose proof (Z.mod_pos_bound (f + 1) 2 ltac:(lia)).
  destruct (Z.to_nat ((f + 1) / 2)) as [|n] eqn:En; [lia|].
  assert (Hn : f ≤ 2 * Z.of_nat n + 2 ∧ 2 * Z.of_nat n < f) by lia.
  change (asks_first (CExec (cmd_register (diskname (disk One (p_mem s)))) 0) (ticks (S n)) s).
  cbn [ticks]. eapply asks_first_skip; [apply ticks_early; [done|fold f; lia]|done|].
  unfold renew_due. do 3 (eapply asks_first_skip; [reflexivity|done|]). cbn -[u64 Z.add Z.mul Z.leb asks_first].
  rewrite u64_small by lia. fold f. destruct (Z.leb_spec f (2 * Z.of_nat n + 2)); [|lia].
  eapply asks_first_skip; [reflexivity|done|].
  match goal with |- asks_first _ _ ?s1 => exact (renew_asks s1 Hp Hd) end.
Qed.
End ticks.

(** With the default nothing is requested for 1499 periods of the timer. *)
Lemma renewal_period_witness :
  let s := mkProc [] ∅ md_ready in
  diskRenewalThreadFreq (p_mem s) = 3000
  ∧ (∀ n, 2 * Z.of_nat n < diskRenewalThreadFreq (p_mem s) →
       p_trace (ticks (E:=calm) n s).2 = p_trace s).
Proof.
  intros s. split; [done|].
  apply (renewal_period (E:=calm) s); done.
Defined.
