(* ===== verification/MdDevmon.v ===== *)
(** * Software RAID device monitor

    [DevMonClass] and [devmonClass] (src/ha_cnz/haadm_devmon_caa/md): a thread that looks at
    the controllers, the disks and the mirror every few seconds and signals the agent when
    something has changed.  The messages of its queue are kept in the state; what arrives
    while the thread waits at an empty queue is an answer of the environment. *)

From S2P Require Import Prelude World Proc CString Types Amf MdPipe MdState MdDisk.

Open Scope Z_scope.

Definition AGENT_PID_FILE : string := "/var/run/apg/apos_ha_rdeagentd.pid".
Definition cmd_rebuild : string := cmd "/usr/bin/raidmgmt" " -r".
Definition SIGRTMIN : Z := 34.
Definition SIG_DISK : Z := SIGRTMIN + 1.
Definition SIG_RAID : Z := SIGRTMIN + 2.
Definition MD_SHUTDOWN : Z := 111.
Definition MD_TIMEOUT : Z := 110.

(** [APGHA_ControllerT]: the controller, the name and the health of its disk, and whether
    the disk is in the array. *)
Record MPortT : Set := mkMPort {
  mp_healthy : bool;
  mp_name : string;
  mp_disk : bool;
  mp_raid : bool
}.

(** The members of [DevMonClass], those of its thread object with the queue, and the
    static [shutDownRcvd]. *)
Record MonT : Set := mkMon {
  mn_one : MPortT;
  mn_two : MPortT;
  mn_gep : Z;
  mn_node : Z;
  mn_pid : Z;
  mn_raidPopulated : bool;
  mn_obj : bool;
  mn_passiveToActive : bool;
  mn_debug : bool;
  mn_active : bool;
  mn_runner : bool;
  mn_queue : list Z;
  mn_shutDownRcvd : bool;
  mn_amf : AmfT
}.

Definition set_mp_healthy (x : bool) (p : MPortT) : MPortT :=
  mkMPort x (mp_name p) (mp_disk p) (mp_raid p).
Definition set_mp_name (x : string) (p : MPortT) : MPortT :=
  mkMPort (mp_healthy p) x (mp_disk p) (mp_raid p).
Definition set_mp_disk (x : bool) (p : MPortT) : MPortT :=
  mkMPort (mp_healthy p) (mp_name p) x (mp_raid p).
Definition set_mp_raid (x : bool) (p : MPortT) : MPortT :=
  mkMPort (mp_healthy p) (mp_name p) (mp_disk p) x.

Definition set_mn_one (x : MPortT) (m : MonT) : MonT :=
  mkMon x (mn_two m) (mn_gep m) (mn_node m) (mn_pid m) (mn_raidPopulated m) (mn_obj m)
    (mn_passiveToActive m) (mn_debug m) (mn_active m) (mn_runner m) (mn_queue m)
    (mn_shutDownRcvd m) (mn_amf m).
Definition set_mn_two (x : MPortT) (m : MonT) : MonT :=
  mkMon (mn_one m) x (mn_gep m) (mn_node m) (mn_pid m) (mn_raidPopulated m) (mn_obj m)
    (mn_passiveToActive m) (mn_debug m) (mn_active m) (mn_runner m) (mn_queue m)
    (mn_shutDownRcvd m) (mn_amf m).
Definition set_mn_gep (x : Z) (m : MonT) : MonT :=
  mkMon (mn_one m) (mn_two m) x (mn_node m) (mn_pid m) (mn_raidPopulated m) (mn_obj m)
    (mn_passiveToActive m) (mn_debug m) (mn_active m) (mn_runner m) (mn_queue m)
    (mn_shutDownRcvd m) (mn_amf m).
Definition set_mn_node (x : Z) (m : MonT) : MonT :=
  mkMon (mn_one m) (mn_two m) (mn_gep m) x (mn_pid m) (mn_raidPopulated m) (mn_obj m)
    (mn_passiveToActive m) (mn_debug m) (mn_active m) (mn_runner m) (mn_queue m)
    (mn_shutDownRcvd m) (mn_amf m).
Definition set_mn_pid (x : Z) (m : MonT) : MonT :=
  mkMon (mn_one m) (mn_two m) (mn_gep m) (mn_node m) x (mn_raidPopulated m) (mn_obj m)
    (mn_passiveToActive m) (mn_debug m) (mn_active m) (mn_runner m) (mn_queue m)
    (mn_shutDownRcvd m) (mn_amf m).
Definition set_mn_raidPopulated (x : bool) (m : MonT) : MonT :=
  mkMon (mn_one m) (mn_two m) (mn_gep m) (mn_node m) (mn_pid m) x (mn_obj m)
    (mn_passiveToActive m) (mn_debug m) (mn_active m) (mn_runner m) (mn_queue m)
    (mn_shutDownRcvd m) (mn_amf m).
Definition set_mn_obj (x : bool) (m : MonT) : MonT :=
  mkMon (mn_one m) (mn_two m) (mn_gep m) (mn_node m) (mn_pid m) (mn_raidPopulated m) x
    (mn_passiveToActive m) (mn_debug m) (mn_active m) (mn_runner m) (mn_queue m)
    (mn_shutDownRcvd m) (mn_amf m).
Definition set_mn_passiveToActive (x : bool) (m : MonT) : MonT :=
  mkMon (mn_one m) (mn_two m) (mn_gep m) (mn_node m) (mn_pid m) (mn_raidPopulated m) (mn_obj m)
    x (mn_debug m) (mn_active m) (mn_runner m) (mn_queue m) (mn_shutDownRcvd m) (mn_amf m).
Definition set_mn_debug (x : bool) (m : MonT) : MonT :=
  mkMon (mn_one m) (mn_two m) (mn_gep m) (mn_node m) (mn_pid m) (mn_raidPopulated m) (mn_obj m)
    (mn_passiveToActive m) x (mn_active m) (mn_runner m) (mn_queue m) (mn_shutDownRcvd m)
    (mn_amf m).
Definition set_mn_active (x : bool) (m : MonT) : MonT :=
  mkMon (mn_one m) (mn_two m) (mn_gep m) (mn_node m) (mn_pid m) (mn_raidPopulated m) (mn_obj m)
    (mn_passiveToActive m) (mn_debug m) x (mn_runner m) (mn_queue m) (mn_shutDownRcvd m)
    (mn_amf m).
Definition set_mn_runner (x : bool) (m : MonT) : MonT :=
  mkMon (mn_one m) (mn_two m) (mn_gep m) (mn_node m) (mn_pid m) (mn_raidPopulated m) (mn_obj m)
    (mn_passiveToActive m) (mn_debug m) (mn_active m) x (mn_queue m) (mn_shutDownRcvd m)
    (mn_amf m).
Definition set_mn_queue (x : list Z) (m : MonT) : MonT :=
  mkMon (mn_one m) (mn_two m) (mn_gep m) (mn_node m) (mn_pid m) (mn_raidPopulated m) (mn_obj m)
    (mn_passiveToActive m) (mn_debug m) (mn_active m) (mn_runner m) x (mn_shutDownRcvd m)
    (mn_amf m).
Definition set_mn_shutDownRcvd (x : bool) (m : MonT) : MonT :=
  mkMon (mn_one m) (mn_two m) (mn_gep m) (mn_node m) (mn_pid m) (mn_raidPopulated m) (mn_obj m)
    (mn_passiveToActive m) (mn_debug m) (mn_active m) (mn_runner m) (mn_queue m) x (mn_amf m).
Definition set_mn_amf (x : AmfT) (m : MonT) : MonT :=
  mkMon (mn_one m) (mn_two m) (mn_gep m) (mn_node m) (mn_pid m) (mn_raidPopulated m) (mn_obj m)
    (mn_passiveToActive m) (mn_debug m) (mn_active m) (mn_runner m) (mn_queue m)
    (mn_shutDownRcvd m) x.

Definition mport (w : Which) (m : MonT) : MPortT := match w with One => mn_one m | Two => mn_two m end.
Definition on_mport (w : Which) (f : MPortT → MPortT) (m : MonT) : MonT :=
  match w with One => set_mn_one (f (mn_one m)) m | Two => set_mn_two (f (mn_two m)) m end.

Abbreviation MN := (M (Proc MonT)).

Section monitor.
Context `{E : Env}.

(** The constructor with [InitializeDevmon]: whether the disks are in the array, and the
    flag that ends the loop of [activate], are not initialised. *)
Definition mon_new (debug : bool) : MN unit :=
  b ← req (CUninit 3);
  let flag i := negb (nth i b 0 =? 0) in
  upd (λ _, mkMon (mkMPort false EmptyString false (flag 0%nat)) (mkMPort false EmptyString false (flag 1%nat))
              0 0 0 false false false debug false false [] false
              (mkAmf HA_UNDEFINED (flag 2%nat) None false)).

(** ** Controllers, disks and the mirror *)

(** [launch_popen]. *)
Definition mon_launch_popen (command : string) : MN (option bool) :=
  fp ← req (CPopen command);
  match fp with
  | None => mret None
  | Some out =>
      '(buff2, _) ← each_line (feof_lines 79 EmptyString out)
        (λ line buff2, ws ← sscanf [20; 20]%nat line; mret (default buff2 (ws !! 1%nat), false)) EmptyString;
      ok ← pclose command;
      mret (if (ok : bool) then Some (streq buff2 "healthy") else None)
  end.

(** One port of [checkSCSIControllerStatus]: whether its status changed, [None] where the
    query fails. *)
Definition mon_check_port (populate : bool) (w : Which) : MN (option bool) :=
  gep ← mem mn_gep;
  st ← mon_launch_popen (cmd_port_status gep w);
  match st with
  | None => mret None
  | Some b =>
      old ← mem (mp_healthy ∘ mport w);
      upd (on_mport w (set_mp_healthy b));;
      mret (Some (negb populate && xorb old b))
  end.

(** [checkSCSIControllerStatus]: [statusChange], or [None] where it fails. *)
Definition mon_checkSCSI (populate : bool) : MN (option bool) :=
  gep ← mem mn_gep;
  if (gep =? GEP_ONE) || (gep =? GEP_TWO) then
    c1 ← mon_check_port populate One;
    match c1 with
    | None => mret None
    | Some c1 =>
        c2 ← mon_check_port populate Two;
        mret (match c2 with Some c2 => Some (c1 || c2) | None => None end)
    end
  else mret (Some false).

(** A line of [--list-port-disk] for one port: whether a change was found, after which the
    function returns. *)
Definition mon_port_line (populate : bool) (w : Which) (line : string) : MN bool :=
  if strstr line (match w with One => "PORT1:" | Two => "PORT2:" end) then
    ws ← sscanf [10; 10]%nat line;
    let name := default EmptyString (ws !! 1%nat) in
    let present := negb (streq name "null") in
    if populate then
      (if present then upd (on_mport w (set_mp_name name ∘ set_mp_disk true)) else mret tt);;
      mret false
    else
      old ← mem (mp_name ∘ mport w);
      if streq old name then mret false else
      upd (on_mport w (set_mp_name name ∘ set_mp_disk present));;
      mret true
  else mret false.

(** [checkAvailableDataDisks]. *)
Definition mon_checkDisks (populate : bool) : MN (option bool) :=
  fp ← req (CPopen cmd_list_port_disk);
  match fp with
  | None => mret None
  | Some out =>
      '(_, how) ← each_line (feof_lines 79 EmptyString out)
        (λ line (_ : unit),
           c ← mon_port_line populate One line;
           if (c : bool) then mret (tt, true) else
           c ← mon_port_line populate Two line;
           mret (tt, c)) tt;
      ok ← pclose cmd_list_port_disk;
      mret (match how with
            | AtBody => Some true
            | AtEof | AtNull => if (ok : bool) then Some false else None
            end)
  end.

(** [updateDatadiskStatus]. *)
Definition mon_updateDatadiskStatus : MN bool := launchCommand cmd_update_diskstatus.

(** A disk that is present but not in the array. *)
Definition outside (p : MPortT) : bool := negb (mp_raid p) && mp_disk p.

Definition signal_agent (sig : Z) : MN unit :=
  pid ← mem mn_pid;
  _ ← req (CKill pid sig);
  mret tt.

(** [monitorControllersAndDatadisks]. *)
Definition monitorControllersAndDatadisks (populate : bool) : MN bool :=
  c ← mon_checkSCSI populate;
  match c with
  | None => mret false
  | Some c =>
      ok ← (if (c : bool) then
              ok ← mon_updateDatadiskStatus;
              if (ok : bool) then signal_agent SIG_DISK;; mret true else mret false
            else mret true);
      if negb ok then mret false else
      c ← mon_checkDisks populate;
      match c with
      | None => mret false
      | Some false => mret true
      | Some true =>
          ok ← mon_updateDatadiskStatus;
          if negb ok then mret false else
          p1 ← mem mn_one;
          p2 ← mem mn_two;
          active ← mem mn_active;
          (if (outside p1 || outside p2) && active then _ ← req (CExec cmd_rebuild 0); mret tt
           else mret tt);;
          signal_agent SIG_DISK;;
          mret true
      end
  end.

(** A line of [--list-raid-disks]: the name and the health of the two disks in the array. *)
Definition mon_raid_line (line : string) (st : (string * bool) * (string * bool)) :
    MN ((string * bool) * (string * bool)) :=
  let scan :=
    ws ← sscanf [50; 50; 50; 50]%nat line;
    let buff4 := default EmptyString (ws !! 3%nat) in
    mret (default EmptyString (ws !! 1%nat), streq buff4 "active" || streq buff4 "spare") in
  if strstr line "DISK1:" then d ← scan; mret (d, st.2)
  else if strstr line "DISK2:" then d ← scan; mret (st.1, d)
  else mret st.

(** The test of the result of [system]: [WEXITSTATUS] is also taken of -1. *)
Definition rebuild : MN bool :=
  r ← req (CExec cmd_rebuild 0);
  mret (match r with ForkFailed => false | ChildStatus st => WEXITSTATUS st =? 0 end).

Definition populate_raid (w : Which) (d : string * bool) : MN unit :=
  p ← mem (mport w);
  if mp_disk p && streq d.1 (mp_name p) then upd (on_mport w (set_mp_raid d.2)) else mret tt.

(** [monitorRAID]. *)
Definition monitorRAID (populate : bool) : MN bool :=
  fp ← req (CPopen cmd_list_raid_disks);
  match fp with
  | None => mret false
  | Some out =>
      '(d1, d2, _) ← each_line (feof_lines 79 EmptyString out)
        (λ line st, st ← mon_raid_line line st; mret (st, false))
        ((EmptyString, false), (EmptyString, false));
      ok ← pclose cmd_list_raid_disks;
      if negb ok then mret false else
      if populate then populate_raid One d1;; populate_raid Two d2;; mret true else
      p1 ← mem mn_one;
      p2 ← mem mn_two;
      if negb (xorb (mp_raid p1) d1.2 || xorb (mp_raid p2) d2.2) then mret true else
      ok ← (if (negb d1.2 && mp_disk p1) || (negb d2.2 && mp_disk p2) then
              ok ← rebuild;
              if (ok : bool) then signal_agent SIG_RAID;; md_msec_sleep 1000;; mret true else mret false
            else mret true);
      if negb ok then mret false else
      upd (on_mport One (set_mp_raid d1.2) ∘ on_mport Two (set_mp_raid d2.2));;
      mret true
  end.

(** ** Initialisation *)

(** [getHaAgentPid] and [getAgentDebugPid]. *)
Definition getHaAgentPid : MN bool :=
  fp ← req (CReadFile AGENT_PID_FILE);
  match fp with
  | None => mret false
  | Some file =>
      let w := word (skip_space file) in
      if streq w EmptyString then _ ← req (CClose AGENT_PID_FILE); mret false else
      buff1 ← strcpy 10 w;
      upd (set_mn_pid (atoi buff1));;
      req (CClose AGENT_PID_FILE)
  end.

Definition last_line (command : string) : MN (option string) :=
  fp ← req (CPopen command);
  match fp with
  | None => mret None
  | Some out =>
      '(line, how) ← each_line (feof_lines 79 EmptyString out) (λ l _, mret (l, false)) EmptyString;
      mret (Some (match how with AtNull => EmptyString | AtEof | AtBody => line end))
  end.

Definition getAgentDebugPid : MN bool :=
  o ← last_line "pidof apos_ha_rdeagentd";
  match o with
  | None => mret false
  | Some line => upd (set_mn_pid (atoi line));; _ ← pclose "pidof apos_ha_rdeagentd"; mret true
  end.

(** [populateRAIDInfo]. *)
Definition populateRAIDInfo : MN bool :=
  done ← mem mn_raidPopulated;
  if (done : bool) then mret true else
  ok ← monitorRAID true;
  if negb ok then mret false else
  upd (set_mn_raidPopulated true);;
  mret true.

(** [Initialize]. *)
Definition mon_Initialize : MN bool :=
  n ← read_node_id;
  match n with
  | None => mret false
  | Some n =>
      upd (set_mn_node n);;
      old ← mem mn_gep;
      g ← read_gep_id old;
      match g with
      | None => mret false
      | Some g =>
          upd (set_mn_gep g);;
          ok ← mon_updateDatadiskStatus;
          if negb ok then mret false else
          ok ← monitorControllersAndDatadisks true;
          if negb ok then mret false else
          debug ← mem mn_debug;
          ok ← (if (debug : bool) then getAgentDebugPid else getHaAgentPid);
          if negb ok then mret false else
          active ← mem mn_active;
          (if (active : bool) then _ ← populateRAIDInfo; mret tt else mret tt);;
          mret true
      end
  end.

(** [Is_Node_Active]. *)
Definition Is_Node_Active : MN bool :=
  o ← last_line cmd_node_state;
  match o with
  | None => mret false
  | Some line =>
      if strstr line "ACTIVE" then upd (set_mn_active true);; mret true
      else if strstr line "STANDBY" then upd (set_mn_active false);; mret true
      else mret false
  end.

(** ** The thread *)

(** One round of monitoring, in [svc] and in [svc_run]. *)
Definition mon_round : MN unit :=
  _ ← monitorControllersAndDatadisks false;
  active ← mem mn_active;
  _ ← (if (active : bool) then monitorRAID false else mret true);
  mret tt.

(** [getq]: [None] when it fails. *)
Definition mon_getq : MN (option Z) :=
  q ← mem mn_queue;
  match q with
  | ty :: q => upd (set_mn_queue q);; mret (Some ty)
  | [] => req (CGetq "devmon")
  end.

(** [putq]. *)
Definition mon_putq (ty : Z) : MN bool :=
  ok ← req (CPutq "devmon" ty);
  if (ok : bool) then upd (λ m, set_mn_queue (mn_queue m ++ [ty]) m);; mret true else mret false.

(** The loop of [svc]; [fuel] bounds the messages. *)
Fixpoint mon_loop (fuel : nat) : MN unit :=
  match fuel with
  | O => nofuel
  | S fuel =>
      mb ← mon_getq;
      match mb with
      | None => mret tt
      | Some ty =>
          if ty =? MD_SHUTDOWN then upd (set_mn_shutDownRcvd false)
          else if ty =? MD_TIMEOUT then
            sd ← mem mn_shutDownRcvd;
            if (sd : bool) then upd (set_mn_shutDownRcvd false) else
            mon_round;;
            mon_loop fuel
          else mon_loop fuel
      end
  end.

(** [svc]. *)
Definition mon_svc (fuel : nat) : MN Z :=
  ok ← mon_Initialize;
  if negb ok then mret (-1) else
  mon_loop fuel;;
  mret 0.

(** [handle_timeout]. *)
Definition mon_timeout : MN Z :=
  mb ← req (CNew "ACE_Message_Block");
  (if (mb : bool) then _ ← mon_putq MD_TIMEOUT; mret tt else mret tt);;
  gep ← mem mn_gep;
  ok ← req (CTimer "devmon" (if gep =? GEP_ONE then 10 else 5));
  mret (if (ok : bool) then 0 else -1).

(** [close], the hook that runs when the thread ends. *)
Definition mon_closed : MN unit :=
  r ← mem mn_runner;
  if (r : bool) then req (CWait "reactor");; upd (set_mn_runner false) else mret tt.

(** [active] and [passive]. *)
Definition mon_start : MN Z :=
  n ← req (CNew "APOS_HA_ReactorRunner");
  upd (set_mn_runner n);;
  if negb n then mret (-1) else
  ok ← req (CActivate "reactor");
  if negb ok then mret (-1) else
  ok ← req (CActivate "devmon");
  if negb ok then mret (-1) else
  ok ← req (CTimer "devmon" 2);
  mret (if (ok : bool) then 0 else -1).

(** [stop]. *)
Definition mon_stop : MN unit :=
  mb ← req (CNew "ACE_Message_Block");
  if (mb : bool) then
    ok ← mon_putq MD_SHUTDOWN;
    if (ok : bool) then upd (set_mn_shutDownRcvd true) else mret tt
  else mret tt.

(** [delete m_myClassObj]: the queue goes with the object. *)
Definition mon_delete : MN unit := upd (set_mn_obj false ∘ set_mn_queue [] ∘ set_mn_runner false).

Definition mon_create : MN bool :=
  n ← req (CNew "devmonClass");
  upd (set_mn_obj n);;
  mret n.

(** ** Jobs *)

(** [shutdownApp]. *)
Definition mon_shutdownApp : MN bool :=
  upd (set_mn_active false);;
  o ← mem mn_obj;
  (if (o : bool) then mon_stop;; req (CWait "devmon");; mon_delete else mret tt);;
  mret true.

(** The start of the thread, after which a failure deletes the object. *)
Definition mon_run (rCode : bool) : MN bool :=
  r ← mon_start;
  if r <? 0 then mon_delete;; mret rCode else mret true.

(** [activateApp]. *)
Definition mon_activateApp : MN bool :=
  upd (set_mn_active true);;
  o ← mem mn_obj;
  rCode ← (if (o : bool) then
             pa ← mem mn_passiveToActive;
             if (pa : bool) then
               mon_stop;;
               req (CWait "devmon");;
               upd (set_mn_passiveToActive false);;
               mret false
             else mret true
           else _ ← mon_create; mret false);
  o ← mem mn_obj;
  if (o : bool) then mon_run rCode else mret rCode.

(** [passifyApp]. *)
Definition mon_passifyApp : MN bool :=
  upd (set_mn_passiveToActive true ∘ set_mn_active false);;
  o ← mem mn_obj;
  if (o : bool) then mret true else
  n ← mon_create;
  if (n : bool) then mon_run false else mret false.

Definition mon_job (j : Job) : MN bool :=
  match j with
  | JobActive _ => mon_activateApp
  | JobPassive _ => mon_passifyApp
  | JobQuiesing _ | JobQuiesced _ | JobTerminate | JobRemove | JobShutdown => mon_shutdownApp
  | JobHealth => mret true
  end.

#[export] Instance mon_amf_obj : AmfObj (Proc MonT) := {|
  host_ask := req;
  host_amf := mn_amf ∘ p_mem;
  host_set := λ f s, mkProc (p_trace s) (p_fs s) (set_mn_amf (f (mn_amf (p_mem s))) (p_mem s));
  host_name := "apos_ha_devmond"
|}.
#[export] Instance mon_host : Host (Proc MonT) := {| host_job := mon_job |}.

(** ** The program *)

(** [svc_run], which never returns. *)
Fixpoint svc_run (fuel : nat) : MN unit :=
  match fuel with
  | O => nofuel
  | S fuel => mon_round;; md_msec_sleep 2000;; svc_run fuel
  end.

Definition mon_main (fuel : nat) (args : list string) : MN Z :=
  match args with
  | [] =>
      n ← req (CNew "DevMonClass");
      if negb n then mret (-2) else
      daemonize;;
      mon_new false;;
      e ← activate_ha fuel;
      mret (match e with HA_FAILURE => -1 | HA_FAILURE_CLOSE => -2 | HA_SUCCESS => 0 end)
  | a :: args =>
      if streq a "-d" && bool_decide (args = []) then
        n ← req (CNew "DevMonClass");
        if negb n then mret (-1) else
        mon_new false;;
        ok ← Is_Node_Active;
        if negb ok then mret (-2) else
        ok ← mon_Initialize;
        if negb ok then mret (-2) else
        svc_run fuel;;
        mret 0
      else mret 0
  end.
End monitor.

(** ** A round that finds a change *)

(** The output of a query of a controller. *)
Definition port_text (healthy : bool) : string :=
  if healthy then "PORT: healthy
" else "PORT: faulty
".

Section rounds.
Context `{E : Env}.

(** The controllers answer [b1] and [b2]. *)
Definition ports_show (b1 b2 : bool) : Prop :=
  ∀ gep w, gep = GEP_ONE ∨ gep = GEP_TWO →
  (∀ t, answer t (CPopen (cmd_port_status gep w))
        = Some (port_text (match w with One => b1 | Two => b2 end)))
  ∧ (∀ t, answer t (CPclose (cmd_port_status gep w)) = 0).

Lemma scan_port_text b (s : Proc MonT) :
  each_line (feof_lines 79 EmptyString (port_text b))
    (λ line buff2, ws ← sscanf [20; 20]%nat line; mret (default buff2 (ws !! 1%nat), false)) EmptyString s
  = (Val ((if b then "healthy" else "faulty")%string, AtEof), s).
Proof. by destruct b. Qed.

(** The requests of a query. *)
Definition query_events (command : string) (b : bool) : Trace :=
  [Ev (CPclose command) 0; Ev (CPopen command) (Some (port_text b))].

Lemma req_run c (s : Proc MonT) r :
  answer (p_trace s) c = r → req c s = (Val r, mkProc (Ev c r :: p_trace s) (p_fs s) (p_mem s)).
Proof. by intros <-. Qed.

Lemma mon_launch_run command b s :
  (∀ t, answer t (CPopen command) = Some (port_text b)) → (∀ t, answer t (CPclose command) = 0) →
  mon_launch_popen command s
  = (Val (Some b), mkProc (query_events command b ++ p_trace s) (p_fs s) (p_mem s)).
Proof.
  intros Hp Hc. unfold mon_launch_popen.
  erewrite bind_Val by apply (req_run (CPopen command) _ _ (Hp _)). cbv iota beta.
  erewrite bind_Val by apply scan_port_text. unfold pclose. cbv iota beta.
  erewrite bind_Val.
  2: { erewrite bind_Val by apply (req_run (CPclose command) _ _ (Hc _)). reflexivity. }
  by destruct b.
Qed.

Lemma mon_check_port_run b1 b2 w s :
  ports_show b1 b2 → mn_gep (p_mem s) = GEP_ONE ∨ mn_gep (p_mem s) = GEP_TWO →
  let b := match w with One => b1 | Two => b2 end in
  mon_check_port false w s
  = (Val (Some (xorb (mp_healthy (mport w (p_mem s))) b)),
     mkProc (query_events (cmd_port_status (mn_gep (p_mem s)) w) b ++ p_trace s) (p_fs s)
       (on_mport w (set_mp_healthy b) (p_mem s))).
Proof.
  intros Hs Hg b. destruct (Hs (mn_gep (p_mem s)) w Hg) as [Hp Hc].
  unfold mon_check_port. erewrite bind_Val by reflexivity. unfold compose.
  erewrite bind_Val by (apply (mon_launch_run _ b); done). done.
Qed.

(** The state after the controllers answered. *)
Definition recorded (b1 b2 : bool) (m : MonT) : MonT :=
  on_mport Two (set_mp_healthy b2) (on_mport One (set_mp_healthy b1) m).

(** The signals among the events. *)
Definition is_kill (c : Call) : bool := match c with CKill _ _ => true | _ => false end.
Definition kills (t : Trace) : list Call := List.filter is_kill (map request t).

Lemma mon_checkSCSI_run b1 b2 s :
  ports_show b1 b2 → mn_gep (p_mem s) = GEP_ONE ∨ mn_gep (p_mem s) = GEP_TWO →
  let m := p_mem s in
  mon_checkSCSI false s
  = (Val (Some (xorb (mp_healthy (mn_one m)) b1 || xorb (mp_healthy (mn_two m)) b2)),
     mkProc (query_events (cmd_port_status (mn_gep m) Two) b2
             ++ query_events (cmd_port_status (mn_gep m) One) b1 ++ p_trace s) (p_fs s) (recorded b1 b2 m)).
Proof.
  intros Hs Hg m. unfold mon_checkSCSI. erewrite bind_Val by reflexivity. unfold compose.
  assert ((mn_gep (p_mem s) =? GEP_ONE) || (mn_gep (p_mem s) =? GEP_TWO) = true) as ->
    by (destruct Hg as [-> | ->]; done).
  erewrite bind_Val by by apply (mon_check_port_run b1 b2 One). cbv iota.
  erewrite bind_Val by by apply (mon_check_port_run b1 b2 Two). done.
Qed.

Lemma mon_checkDisks_run s :
  (∀ t, answer t (CPopen cmd_list_port_disk) = Some EmptyString) →
  (∀ t, answer t (CPclose cmd_list_port_disk) = 0) →
  mon_checkDisks false s
  = (Val (Some false),
     mkProc ([Ev (CPclose cmd_list_port_disk) 0; Ev (CPopen cmd_list_port_disk) (Some EmptyString)]
             ++ p_trace s) (p_fs s) (p_mem s)).
Proof.
  intros Hl Hc. unfold mon_checkDisks.
  erewrite bind_Val by apply (req_run (CPopen cmd_list_port_disk) _ _ (Hl _)). cbv iota beta.
  erewrite bind_Val by reflexivity. cbv iota beta. unfold pclose. erewrite bind_Val.
  2: { erewrite bind_Val by apply (req_run (CPclose cmd_list_port_disk) _ _ (Hc _)). reflexivity. }
  done.
Qed.

(** A round of the monitor, by what the controllers answer: the answers are recorded in
    any case, and the agent is signalled, once, exactly if one of them is new and the
    update of the status file succeeds.  So a change in a round whose update fails is never
    reported: the next round compares with what was recorded. *)
Theorem controller_round b1 b2 updated s :
  ports_show b1 b2 → mn_gep (p_mem s) = GEP_ONE ∨ mn_gep (p_mem s) = GEP_TWO →
  (∀ t, succeeded (answer t (CExec cmd_update_diskstatus 0)) = updated) →
  (∀ t, answer t (CPopen cmd_list_port_disk) = Some EmptyString) →
  (∀ t, answer t (CPclose cmd_list_port_disk) = 0) →
  let m := p_mem s in
  let changed := xorb (mp_healthy (mn_one m)) b1 || xorb (mp_healthy (mn_two m)) b2 in
  ∃ new, monitorControllersAndDatadisks false s
         = (Val (negb changed || updated), mkProc (new ++ p_trace s) (p_fs s) (recorded b1 b2 m))
    ∧ kills new = if changed && updated then [CKill (mn_pid m) SIG_DISK] else [].
Proof.
  intros Hs Hg Hu Hl Hc m changed.
  unfold monitorControllersAndDatadisks.
  erewrite bind_Val by by apply mon_checkSCSI_run. fold m changed. cbv iota beta.
  destruct changed; cbn [negb orb andb].
  - unfold mon_updateDatadiskStatus, signal_agent, launchCommand.
    set (s1 := mkProc _ _ _). set (r := answer (p_trace s1) (CExec cmd_update_diskstatus 0)).
    assert (Hr : succeeded r = updated) by apply Hu.
    destruct updated.
    + erewrite bind_Val.
      2: { erewrite bind_Val.
        2: { erewrite bind_Val by by apply (req_run (CExec cmd_update_diskstatus 0)). fold r. rewrite Hr. reflexivity. }
        cbv iota. erewrite bind_Val; [reflexivity|]. reflexivity. }
      cbn [negb]. erewrite bind_Val by by apply mon_checkDisks_run.
      eexists ([_; _; _; _] ++ query_events _ _ ++ query_events _ _). split; reflexivity.
    + erewrite bind_Val.
      2: { erewrite bind_Val.
        2: { erewrite bind_Val by by apply (req_run (CExec cmd_update_diskstatus 0)). fold r. rewrite Hr. reflexivity. }
        reflexivity. }
      eexists ([_] ++ query_events _ _ ++ query_events _ _). split; reflexivity.
  - erewrite bind_Val by reflexivity. cbn [negb]. erewrite bind_Val by by apply mon_checkDisks_run.
    eexists ([_; _] ++ query_events _ _ ++ query_events _ _). split; reflexivity.
Qed.
End rounds.

(** Both controllers have come up, and the update fails. *)
Definition lost_env : Env := {| answer := λ _ c,
  match c as c return resp c with
  | CPopen command => Some (if streq command cmd_list_port_disk then EmptyString else port_text true)
  | CExec _ _ => ChildStatus 256
  | c => dflt c
  end |}.

Definition mon_faulty : MonT :=
  mkMon (mkMPort false EmptyString false false) (mkMPort false EmptyString false false)
    GEP_ONE 1 100 true true false false true true [] false newAmf.

Lemma controller_round_witness :
  let s := mkProc [] ∅ mon_faulty in
  ∃ new, monitorControllersAndDatadisks (E:=lost_env) false s
         = (Val false, mkProc (new ++ []) ∅ (recorded true true mon_faulty))
    ∧ kills new = [].
Proof.
  intros s. apply (controller_round (E:=lost_env) true true false s).
  - intros gep w Hg. split; [|done]. intros t. by destruct w, Hg as [-> | ->].
  - by left.
  - done.
  - done.
  - done.
Defined.
