(* ===== verification/Ping.v ===== *)
(** * Probing with ICMP echo

    [HA_AGENT_Ping], which a virtual node uses to look for an active peer.  The
    object is initialised at the start of [ping] and reset at its end, so its
    members are parameters here.  [fuel] bounds the number of packets received
    while waiting for one reply. *)

From S2P Require Import Prelude CString Types World LogTrace Config Utils Net.

Open Scope Z_scope.

Definition ICMP_MINLEN : Z := 8.
Definition DEFDATALEN : Z := 64 - ICMP_MINLEN.
Definition ICMP_ECHO : Z := 8.
Definition ICMP_ECHOREPLY : Z := 0.
(** [sizeof(struct ip)]. *)
Definition hlen : nat := 20.

(** The first [n] bytes of an array with unknown contents. *)
Definition garbage (n : nat) (l : list Z) : list Z :=
  map (λ z, z mod 256) (firstn n (l ++ repeat 0 n)).

(** The packet [send_ping] builds in [outpack]; the data after the header is not
    initialised.  Identifier and sequence number are 16-bit members. *)
Definition icmp_body (ck pid seq : Z) (data : list Z) : list Z :=
  [ICMP_ECHO; 0] ++ le16 ck ++ le16 (u16 pid) ++ le16 (u16 seq) ++ data.
Definition icmp_packet (pid seq : Z) (data : list Z) : list Z :=
  icmp_body (checksum (icmp_body 0 pid seq data)) pid seq data.

Section ping.
Context `{E : Env}.

(** One packet of the wait loop: is it the reply to our request. *)
Definition is_reply (rx : RecvT) (pingSeqNum pid : Z) : bool :=
  let packet := rx_bytes rx in
  negb (rx_len rx <? 0)
  && negb (rx_len rx <? Z.of_nat hlen + ICMP_MINLEN)
  && (byte_at packet hlen =? ICMP_ECHOREPLY)
  && (le16_at packet (hlen + 6) =? pingSeqNum)
  && (le16_at packet (hlen + 4) =? pid).

(** The wait loop of [send_ping]: [tv] is the timeout of the next [select] and
    [start] the time the request was sent, both in microseconds. *)
Fixpoint wait_reply (fuel : nat) (ysecs pingSeqNum start tv : Z) : MW Z :=
  match fuel with
  | O => nofuel
  | S fuel =>
      retval ← call (CSelect tv);
      if retval =? -1 then mret (-1)
      else if retval =? 0 then mret (-1)
      else
        rx ← call CRecvfrom;
        pid ← call CGetpid;
        if is_reply rx pingSeqNum pid then mret 0 else
        now ← call CTime;
        let diff_usec := u32 (ysecs * APOS_HA_ONEMILLISEC_IN_MICRO) - (now - start) in
        if diff_usec <? 0 then mret (-1)
        else wait_reply fuel ysecs pingSeqNum start diff_usec
  end.

(** [send_ping]. *)
Definition send_ping (fuel : nat) (ysecs pingSeqNum : Z) : MW Z :=
  ok ← call (CNew "packet");
  if negb ok then mret (-1) else
  data ← call (CUninit DEFDATALEN);
  pid ← call CGetpid;
  let outpack := icmp_packet pid pingSeqNum (garbage (Z.to_nat DEFDATALEN) data) in
  bytesSent ← call (CSendto outpack);
  if negb (bytesSent =? DEFDATALEN + ICMP_MINLEN) then mret (-1) else
  start ← call CTime;
  wait_reply fuel ysecs pingSeqNum start (ysecs * APOS_HA_ONEMILLISEC_IN_MICRO).

(** [mipInterface]. *)
Definition mipInterface (intf : string) : MW Z :=
  flags ← call (CIfFlags (snprintf 16 intf));
  mret (if flag flags IFF_UP then 0 else -1).

(** [set_destaddr]. *)
Definition set_destaddr (ipAddr : string) : MW (option (list Z)) := call (CGetaddrinfo ipAddr).

(** [init]: the option length 4 cuts the name of the interface.  The result also
    says whether the socket is open. *)
Definition Ping_init (ipAddr intf : string) : MW (Z * bool * ConfigT) :=
  cfg ← getConfig;
  sk ← call (CSocket "AF_INET");
  if negb sk then mret (-1, false, cfg) else
  up ← mipInterface intf;
  if negb (up =? 0) then mret (-1, true, cfg) else
  bound ← call (CSockopt "SO_BINDTODEVICE" (take 4 intf));
  if negb bound then mret (-1, true, cfg) else
  dst ← set_destaddr ipAddr;
  mret (match dst with Some _ => 0 | None => -1 end, true, cfg).

(** The loop of [ping] over [send]; [n] is [xtimes - counter], and the sequence
    number equals [counter]. *)
Fixpoint ping_loop (send : Z → MW Z) (ysecs xtimes : Z) (n : nat) (counter pingSuccessCount : Z) :
    MW bool :=
  match n with
  | O => mret false
  | S n =>
      r ← send counter;
      if r =? 0 then
        let pingSuccessCount := pingSuccessCount + 1 in
        if (1 <? pingSuccessCount) || ((pingSuccessCount =? 1) && (counter =? xtimes - 1))
        then mret true
        else
          (if counter <? xtimes - 1 then Utils_ (msec_sleep ysecs) else mret tt);;
          ping_loop send ysecs xtimes n (counter + 1) pingSuccessCount
      else ping_loop send ysecs xtimes n (counter + 1) pingSuccessCount
  end.

(** [ping]. *)
Definition ping (fuel : nat) (ipAddr intf : string) : MW bool :=
  '(r, opened, cfg) ← Ping_init ipAddr intf;
  rCode ←
    (if r =? 0 then
       ping_loop (send_ping fuel (ysecs cfg)) (ysecs cfg) (xtimes cfg) (Z.to_nat (xtimes cfg)) 0 0
     else mret false);
  (if (opened : bool) then _ ← call (CClose "m_skfd"); mret tt else mret tt);;
  mret rCode.
End ping.

(** ** Properties *)

Lemma le16_word z : word_ok z → le16_at (le16 z) 0 = z.
Proof.
  unfold word_ok, le16_at, byte_at. simpl. intros Hz.
  pose proof (Z.div_mod z 256 ltac:(lia)).
  rewrite (Z.mod_small (z / 256)); [lia|].
  split; [apply Z.div_pos|apply Z.div_lt_upper_bound]; lia.
Qed.

Lemma words_body ck pid seq data :
  word_ok ck →
  words (icmp_body ck pid seq data)
  = ICMP_ECHO :: ck :: u16 pid :: u16 seq :: words data.
Proof.
  intros Hck. unfold icmp_body, le16. cbn [app words].
  pose proof (le16_word ck Hck) as H1. pose proof (le16_word _ (u16_range pid)) as H2.
  pose proof (le16_word _ (u16_range seq)) as H3. unfold le16_at, byte_at, le16 in *. simpl in *.
  by rewrite H1, H2, H3.
Qed.

Lemma words_ok b : Forall (λ z, 0 ≤ z < 256) b → Forall word_ok (words b).
Proof.
  unfold word_ok. revert b. fix IH 1. intros [|x [|y b]] H; simpl.
  - constructor.
  - inversion_clear H. constructor; [lia|constructor].
  - inversion_clear H as [|? ? Hx H']. inversion_clear H' as [|? ? Hy H''].
    constructor; [lia|]. by apply IH.
Qed.

Lemma length_words b : (length (words b) ≤ length b)%nat.
Proof. revert b. fix IH 1. intros [|x [|y b]]; simpl; [lia..|]. specialize (IH b). lia. Qed.

Lemma garbage_ok n l : length (garbage n l) = n ∧ Forall (λ z, 0 ≤ z < 256) (garbage n l).
Proof.
  unfold garbage. split.
  - rewrite length_map, length_firstn, length_app, repeat_length. lia.
  - apply Forall_map, Forall_true. intros z. by apply Z.mod_pos_bound.
Qed.

(** Every echo request has 64 bytes, and the checksum in it is right: the
    checksum of the packet with the checksum field filled in is zero, whatever
    the uninitialised data is. *)
Theorem icmp_packet_checksum pid seq l :
  let data := garbage (Z.to_nat DEFDATALEN) l in
  length (icmp_packet pid seq data) = 64%nat ∧ checksum (icmp_packet pid seq data) = 0.
Proof.
  intros data. destruct (garbage_ok (Z.to_nat DEFDATALEN) l) as [Hlen Hok]. fold data in Hlen, Hok.
  split; [unfold icmp_packet, icmp_body; simpl; by rewrite Hlen|].
  pose proof (words_ok data Hok) as Hws. pose proof (length_words data) as Hlw. rewrite Hlen in Hlw.
  change (Z.to_nat DEFDATALEN) with 56%nat in Hlw.
  unfold icmp_packet. set (ck := checksum (icmp_body 0 pid seq data)).
  set (T := ICMP_ECHO + (u16 pid + (u16 seq + total (words data)))).
  pose proof (u16_range pid) as Hp. pose proof (u16_range seq) as Hs.
  pose proof (total_range (words data) Hws) as Ht.
  assert (Hsum : ∀ c, word_ok c →
    checksum (icmp_body c pid seq data) = u16 (Z.lnot (fold16 (T + c)))).
  { intros c Hc. unfold checksum. change (icmp_body c pid seq data) with
      (ICMP_ECHO :: tl (icmp_body c pid seq data)) at 1. cbv iota.
    rewrite words_body by done. rewrite sum32_total.
    - do 3 f_equal. unfold T. change (total (ICMP_ECHO :: ?l)) with (ICMP_ECHO + total l).
      change (total (c :: ?l)) with (c + total l).
      change (total (u16 pid :: ?l)) with (u16 pid + total l).
      change (total (u16 seq :: ?l)) with (u16 seq + total l). lia.
    - repeat (apply Forall_cons; split); unfold word_ok, ICMP_ECHO in *; lia || done.
    - simpl. lia. }
  assert (Hck : ck = u16 (Z.lnot (fold16 T))).
  { unfold ck. rewrite Hsum by (unfold word_ok; lia). by rewrite Z.add_0_r. }
  destruct (fold16_verifies T) as [Hcok Hzero]; [unfold T, ICMP_ECHO; lia|].
  rewrite <-Hck in Hcok, Hzero. by rewrite Hsum.
Qed.

Section ping_frames.
Context `{E : Env} {R : relation World} `{!QueryFrame R}.

Lemma wait_reply_frame fuel y q st tv : steps R (wait_reply fuel y q st tv).
Proof. revert tv; induction fuel as [|fuel IH]; intros tv; cbn [wait_reply]; solve_steps. Qed.
Hint Resolve wait_reply_frame : steps.

Lemma send_ping_frame fuel y q : steps R (send_ping fuel y q).
Proof. unfold send_ping. solve_steps. Qed.
Hint Resolve send_ping_frame : steps.

Lemma ping_loop_frame send y x n c p :
  (∀ q, steps R (send q)) → steps R (ping_loop send y x n c p).
Proof.
  intros Hs. revert c p; induction n as [|n IH]; intros c p; cbn [ping_loop]; solve_steps.
Qed.
Hint Resolve ping_loop_frame : steps.

Lemma ping_frame fuel ip intf : steps R (ping fuel ip intf).
Proof. unfold ping, Ping_init, mipInterface, set_destaddr. solve_steps. Qed.
End ping_frames.

#[export] Instance ping_prober `{E : Env} fuel : Prober (ping fuel).
Proof. constructor. intros R HR ip intf. apply ping_frame. Qed.

Section ping_props.
Context `{E : Env}.

(** A positive answer of the wait loop comes from a packet that is the reply. *)
Lemma wait_reply_sound fuel y q st tv s :
  wp (wait_reply fuel y q st tv) (λ o s', o = Val 0 →
    ∃ rx pid new, Ev CRecvfrom rx ∈ new ∧ w_trace s' = new ++ w_trace s
      ∧ (∃ t, pid = answer t CGetpid) ∧ is_reply rx q pid = true) s.
Proof.
  revert tv s; induction fuel as [|fuel IH]; intros tv s; cbn [wait_reply]; [done|].
  wp_auto. destruct (r =? -1); [by wp_auto|]. destruct (r =? 0); [by wp_auto|]. wp_auto.
  destruct (is_reply r0 q r1) eqn:Hrep.
  - wp_auto. intros _. exists r0, r1. eexists [_; _; _]. split; [|split; [done|eauto]].
    right. left.
  - wp_auto. destruct (_ <? 0); [by wp_auto|]. eapply wp_mono; [apply IH|].
    intros o s' Ho Hv. destruct (Ho Hv) as (rx & pid & new & Hin & Ht & Hpid & Hr).
    simpl in Ht. exists rx, pid. eexists (new ++ [_; _; _; _]).
    split; [apply elem_of_app; by left|]. split; [by rewrite Ht, <-app_assoc|done].
Qed.

(** [send_ping] reports success only on an echo reply that carries the
    sequence number and the process id of the request. *)
Theorem send_ping_sound fuel y q s :
  wp (send_ping fuel y q) (λ o s', o = Val 0 →
    ∃ rx pid new, w_trace s' = new ++ w_trace s ∧ Ev CRecvfrom rx ∈ new
      ∧ (∃ t, pid = answer t CGetpid)
      ∧ byte_at (rx_bytes rx) hlen = ICMP_ECHOREPLY
      ∧ le16_at (rx_bytes rx) (hlen + 6) = q ∧ le16_at (rx_bytes rx) (hlen + 4) = pid) s.
Proof.
  unfold send_ping. wp_auto. destruct r; cbn [negb]; [|by wp_auto]. wp_auto.
  destruct (negb _); [by wp_auto|]. wp_auto.
  eapply wp_mono; [apply wait_reply_sound|]. intros o s' Ho Hv.
  destruct (Ho Hv) as (rx & pid & new & Hin & Ht & Hpid & Hr). simpl in Ht.
  unfold is_reply in Hr. rewrite !andb_true_iff, !Z.eqb_eq in Hr.
  exists rx, pid. eexists (new ++ [_; _; _; _; _]). split; [by rewrite Ht, <-app_assoc|].
  split; [apply elem_of_app; by left|]. naive_solver.
Qed.

Definition byte_ok (z : Z) : Prop := 0 ≤ z < 256.

(** The bytes a network delivers. *)
Definition bytes_env : Prop := ∀ t, Forall byte_ok (rx_bytes (answer t CRecvfrom)).

Lemma le16_at_range b i : Forall byte_ok b → 0 ≤ le16_at b i < 2 ^ 16.
Proof.
  intros Hb. assert (Hat : ∀ j, byte_ok (byte_at b j)).
  { intros j. unfold byte_at. destruct (nth_in_or_default j b 0) as [Hin| ->]; [|done].
    by apply (proj1 (Forall_forall _ _) Hb), list_elem_of_In. }
  unfold le16_at. pose proof (Hat i). pose proof (Hat (S i)). unfold byte_ok in *. lia.
Qed.

Lemma wait_reply_large_pid fuel y q st tv s :
  bytes_env → (∀ t, 2 ^ 16 ≤ answer t CGetpid) → (wait_reply fuel y q st tv s).1 ≠ Val 0.
Proof.
  intros Hb Hpid. revert tv s; induction fuel as [|fuel IH]; intros tv s; cbn [wait_reply]; [done|].
  rewrite (bind_call (CSelect tv)). destruct (_ =? -1); [done|]. destruct (_ =? 0); [done|].
  rewrite (bind_call CRecvfrom), (bind_call CGetpid). unfold is_reply.
  pose proof (le16_at_range _ (hlen + 4) (Hb (w_trace (push (Ev (CSelect tv) (answer (w_trace s) (CSelect tv))) s)))) as Hr.
  set (rx := answer _ CRecvfrom) in *. set (pid := answer _ CGetpid) in *.
  specialize (Hpid (w_trace (push (Ev CRecvfrom rx) (push (Ev (CSelect tv) (answer (w_trace s) (CSelect tv))) s)))).
  fold pid in Hpid. destruct (Z.eqb_spec (le16_at (rx_bytes rx) (hlen + 4)) pid); [lia|].
  rewrite andb_false_r. rewrite (bind_call CTime). destruct (_ <? 0); [done|]. apply IH.
Qed.

(** A process id that does not fit in 16 bits is never recognised: the reply
    carries the low 16 bits and the code compares them with the whole id, so
    [ping] finds no peer, whatever the network answers. *)
Lemma ping_large_pid fuel ip intf s :
  bytes_env → (∀ t, 2 ^ 16 ≤ answer t CGetpid) → (ping fuel ip intf s).1 ≠ Val true.
Proof.
  intros Hb Hpid.
  assert (Hsend : ∀ y q s, (send_ping fuel y q s).1 ≠ Val 0).
  { intros y q s0. unfold send_ping. rewrite (bind_call (CNew "packet")).
    destruct (negb _); [done|]. rewrite (bind_call (CUninit DEFDATALEN)), (bind_call CGetpid).
    cbv zeta. rewrite (bind_call (CSendto _)). destruct (negb _); [done|].
    rewrite (bind_call CTime). by apply wait_reply_large_pid. }
  assert (Hloop : ∀ y x n c p s, (ping_loop (send_ping fuel y) y x n c p s).1 ≠ Val true).
  { intros y x n. induction n as [|n IH]; intros c p s0; cbn [ping_loop]; [done|].
    specialize (Hsend y c s0). unfold mbind at 1, M_bind.
    destruct (send_ping fuel y c s0) as [[r| | |] s1]; try done.
    destruct (Z.eqb_spec r 0); [by subst|]. apply IH. }
  unfold ping. unfold mbind at 1, M_bind. destruct (Ping_init ip intf s) as [[[[r op] cfg]| | |] s1]; try done.
  destruct (r =? 0); [|by destruct op].
  unfold mbind at 1, M_bind.
  specialize (Hloop (ysecs cfg) (xtimes cfg) (Z.to_nat (xtimes cfg)) 0 0 s1).
  destruct (ping_loop _ _ _ _ _ _ s1) as [[[]| | |] s2]; try done. by destruct op.
Qed.

(** ** Which addresses count as reachable *)

Definition successes (rs : list bool) : Z := Z.of_nat (length (filter (λ b, b = true) rs)).

(** The rule of the code on the results that are left, after [p] successes. *)
Fixpoint reach (p : Z) (rs : list bool) : bool :=
  match rs with
  | [] => false
  | b :: rs =>
      if b then (1 <? p + 1) || ((p + 1 =? 1) && bool_decide (rs = [])) || reach (p + 1) rs
      else reach p rs
  end.

Lemma successes_cons b rs : successes (b :: rs) = (if b then 1 else 0) + successes rs.
Proof. unfold successes. rewrite filter_cons. destruct b; simpl; lia. Qed.

Lemma successes_nonneg rs : 0 ≤ successes rs.
Proof. unfold successes. lia. Qed.

Lemma reach_spec p rs :
  0 ≤ p ≤ 1 → reach p rs = true ↔ 2 ≤ p + successes rs ∧ successes rs ≠ 0 ∨ last rs = Some true.
Proof.
  revert p; induction rs as [|b rs IH]; intros p Hp; [cbn; naive_solver lia|].
  cbn [reach]. rewrite successes_cons. pose proof (successes_nonneg rs).
  assert (Hl : last (b :: rs) = Some true ↔ last rs = Some true ∨ rs = [] ∧ b = true).
  { rewrite last_cons. destruct (last rs) eqn:El; [|apply last_None in El; subst]; naive_solver. }
  rewrite Hl. destruct b.
  - rewrite !orb_true_iff, andb_true_iff, Z.ltb_lt, Z.eqb_eq, bool_decide_eq_true.
    destruct (Z.eq_dec p 1) as [->|]; [lia|]. rewrite IH by lia. naive_solver lia.
  - rewrite IH by done. naive_solver.
Qed.

Lemma ping_loop_reach send y u rs c p s :
  m_utilObj (w_glob s) = Some u →
  (∀ i s', (i < length rs)%nat →
     send (c + Z.of_nat i) s' = (Val (if nth i rs false then 0 else -1), s')) →
  wp (ping_loop send y (c + Z.of_nat (length rs)) (length rs) c p) (valQ (λ b _, b = reach p rs)) s.
Proof.
  intros Hu. revert c p s Hu; induction rs as [|b rs IH]; intros c p s Hu Hsend;
    cbn [ping_loop length reach]; [by apply wp_ret|].
  apply wp_valQ_bind, run_wp. intros o s1 Hrun.
  pose proof (Hsend 0%nat s ltac:(simpl; lia)) as H0. rewrite Z.add_0_r in H0.
  rewrite H0 in Hrun. simplify_eq. cbn [valQ nth].
  assert (Hrest : ∀ p' s', m_utilObj (w_glob s') = Some u →
    wp (ping_loop send y (c + Z.of_nat (S (length rs))) (length rs) (c + 1) p')
      (valQ (λ b _, b = reach p' rs)) s').
  { intros p' s' Hu'. replace (c + Z.of_nat (S (length rs))) with (c + 1 + Z.of_nat (length rs)) by lia.
    apply IH; [done|]. intros i s2 Hi. pose proof (Hsend (S i) s2 ltac:(simpl; lia)) as Hs.
    replace (c + Z.of_nat (S i)) with (c + 1 + Z.of_nat i) in Hs by lia. done. }
  destruct b; cbn [Z.eqb]; [|by apply Hrest].
  replace (c =? c + Z.of_nat (S (length rs)) - 1) with (bool_decide (rs = [])).
  2: { apply eq_true_iff_eq. rewrite bool_decide_eq_true, Z.eqb_eq.
       destruct rs; simpl; split; intros; try done; lia. }
  destruct ((1 <? p + 1) || _) eqn:Hstop; [by apply wp_ret|]. cbn [orb].
  apply wp_valQ_bind. destruct (c <? _); [|apply wp_ret; by apply Hrest].
  unfold Utils_, Utils, msec_sleep. wp_auto. rewrite Hu. wp_auto. by apply Hrest.
Qed.

(** How often an address must answer: with [xtimes] requests whose results
    are [rs], it counts as reachable exactly when two of them succeed or the last
    one does. *)
Theorem ping_rule send y u rs s :
  m_utilObj (w_glob s) = Some u →
  (∀ i s', (i < length rs)%nat →
     send (Z.of_nat i) s' = (Val (if nth i rs false then 0 else -1), s')) →
  ∃ b s', ping_loop send y (Z.of_nat (length rs)) (length rs) 0 0 s = (Val b, s')
    ∧ (b = true ↔ 2 ≤ successes rs ∨ last rs = Some true).
Proof.
  intros Hu Hsend.
  destruct (wp_valQ_run _ _ _ (ping_loop_reach send y u rs 0 0 s Hu Hsend)) as (b & s' & Hrun & ->).
  exists (reach 0 rs), s'. split; [done|]. rewrite reach_spec by lia.
  pose proof (successes_nonneg rs). naive_solver lia.
Qed.
End ping_props.

(** ** Examples *)

Definition ping_env (pid : Z) : Env :=
  {| answer := λ _ c, match c with
                      | CGetpid => pid
                      | CIfFlags _ => 1
                      | CGetaddrinfo _ => Some [10; 0; 0; 1]
                      | CSelect _ => 1
                      | CRecvfrom => mkRecv 84 0 0 (repeat 0 24 ++ le16 (u16 pid) ++ le16 0)
                      | c => dflt c
                      end |}.

Lemma ping_large_pid_witness :
  (ping (E:=ping_env 70000) 1 "10.0.0.1" "eth3" newWorld).1 ≠ Val true
  ∧ (send_ping (E:=ping_env 100) 1 1000 0 newWorld).1 = Val 0.
Proof.
  split; [|by vm_compute].
  apply (ping_large_pid (E:=ping_env 70000) 1).
  - intros t. apply Forall_forall. intros z Hz. vm_compute in Hz. unfold byte_ok.
    repeat (apply elem_of_cons in Hz as [->|Hz]; [lia|]). by apply elem_of_nil in Hz.
  - intros t. simpl. lia.
Defined.

Lemma ping_rule_witness :
  ∃ b s', ping_loop (E:=calm) (λ i, mret (if nth (Z.to_nat i) [true; false; true] false then 0 else -1))
      1000 3 3 0 0 (set_glob (set_utilObj (Some newUtils)) newWorld) = (Val b, s')
    ∧ (b = true ↔ 2 ≤ successes [true; false; true] ∨ last [true; false; true] = Some true).
Proof.
  apply (ping_rule (E:=calm) (λ i, mret (if nth (Z.to_nat i) [true; false; true] false then 0 else -1))
    1000 newUtils [true; false; true]); [done|].
  intros i s' _. by rewrite Nat2Z.id.
Defined.
