(* ===== verification/Arping.v ===== *)
(** * Probing with ARP

    [HA_AGENT_Arping], which a native node uses to look for an active peer.  The
    members of the object are set by [init] and cleared at the end of [arping];
    they are the record [ArpT] here.  [fuel] bounds the number of packets
    [recv_resp] looks at. *)

From S2P Require Import Prelude CString Types World LogTrace Config Utils Net.

Open Scope Z_scope.

Definition ARPHRD_ETHER : Z := 1.
Definition ARPHRD_FDDI : Z := 774.
Definition ARPOP_REQUEST : Z := 1.
Definition ARPOP_REPLY : Z := 2.
Definition ETH_P_IP : Z := 0x800.
Definition PACKET_HOST : Z := 0.
Definition PACKET_BROADCAST : Z := 1.
Definition PACKET_MULTICAST : Z := 2.
Definition AF_INET : Z := 2.
(** [sizeof(struct arphdr)]. *)
Definition ARPHDR : nat := 8.

(** [m_curr.sll_addr] (with [sll_halen] its length), [m_src], [m_dst]. *)
Record ArpT : Set := mkArp { a_hwaddr : list Z; a_src : list Z; a_dst : list Z }.

Definition a_halen (a : ArpT) : nat := length (a_hwaddr a).

(** The request: header, our addresses, the broadcast address and the target. *)
Definition arp_packet (op : Z) (hw1 ip1 hw2 ip2 : list Z) : list Z :=
  be16 ARPHRD_ETHER ++ be16 ETH_P_IP ++ [Z.of_nat (length hw1); 4] ++ be16 op
  ++ hw1 ++ ip1 ++ hw2 ++ ip2.

(** What [recv_resp] decides about one packet. *)
Inductive Verdict : Set := Accept | Ignore | Reject.

Definition eqb_bytes (a b : list Z) : bool := bool_decide (a = b).

Definition judge (a : ArpT) (rx : RecvT) : Verdict :=
  let packet := rx_bytes rx in
  let hln := a_halen a in
  if rx_len rx <=? 0 then Reject
  else if negb ((rx_pkttype rx =? PACKET_HOST) || (rx_pkttype rx =? PACKET_BROADCAST)
                || (rx_pkttype rx =? PACKET_MULTICAST)) then Reject
  else if negb (be16_at packet 6 =? ARPOP_REPLY) then Ignore
  else if negb (be16_at packet 0 =? u16 (rx_hatype rx))
          && (negb (rx_hatype rx =? ARPHRD_FDDI) || negb (be16_at packet 0 =? ARPHRD_ETHER))
  then Reject
  else if negb (be16_at packet 2 =? ETH_P_IP) || negb (byte_at packet 5 =? 4)
          || negb (byte_at packet 4 =? Z.of_nat hln)
          || (rx_len rx <? Z.of_nat ARPHDR + 2 * (4 + byte_at packet 4))
  then Reject
  else if negb (eqb_bytes (a_dst a) (bytes_at packet (ARPHDR + hln) 4)) then Ignore
  else if negb (eqb_bytes (a_src a) (bytes_at packet (ARPHDR + hln + 4 + hln) 4))
          || negb (eqb_bytes (bytes_at packet (ARPHDR + hln + 4) hln) (a_hwaddr a))
  then Ignore
  else Accept.

Section arping.
Context `{E : Env} {R : relation World} `{!QueryFrame R}.

(** [mipInterface]. *)
Definition mipInterface_arp (intf : string) : MW Z :=
  flags ← call (CIfFlags (snprintf 16 intf));
  mret (if negb (flag flags IFF_UP) then -1
        else if flag flags (IFF_NOARP + IFF_LOOPBACK) then -1 else 0).

(** [set_srcaddr]. *)
Definition set_srcaddr (intf : string) : MW (option (list Z)) :=
  probe_fd ← call (CSocket "AF_INET probe");
  res ←
    (if negb probe_fd then mret None else
     _ ← call (CSockopt "SO_BINDTODEVICE" (take 4 intf));
     ok ← call (CSockopt "SO_DONTROUTE" EmptyString);
     if negb ok then mret None else
     ok ← call CConnect;
     if negb ok then mret None else
     name ← call (CGetsockname "probe");
     match name with
     | None => mret None
     | Some (family, addr) => mret (if family =? AF_INET then Some addr else None)
     end);
  _ ← call (CClose "probe_fd");
  mret res.

(** [init]: the object, and whether the socket is open. *)
Definition Arping_init (ipAddr intf : string) : MW (option ArpT * bool * ConfigT) :=
  cfg ← getConfig;
  sk ← call (CSocket "AF_PACKET");
  if negb sk then mret (None, false, cfg) else
  up ← mipInterface_arp intf;
  if negb (up =? 0) then mret (None, true, cfg) else
  dst ← call (CGetaddrinfo ipAddr);
  match dst with
  | None => mret (None, true, cfg)
  | Some dst =>
      src ← set_srcaddr intf;
      match src with
      | None => mret (None, true, cfg)
      | Some src =>
          _ ← call (CFileOp "bind");
          name ← call (CGetsockname "m_skfd");
          match name with
          | None => mret (None, true, cfg)
          | Some (_, hwaddr) =>
              mret (if (length hwaddr =? 0)%nat then None else Some (mkArp hwaddr src dst), true, cfg)
          end
      end
  end.

(** [send_req]. *)
Definition send_req (a : ArpT) : MW Z :=
  let buf := arp_packet ARPOP_REQUEST (a_hwaddr a) (a_src a)
               (repeat 255 (a_halen a)) (a_dst a) in
  err ← call (CSendto buf);
  mret (if err =? Z.of_nat (length buf) then 0 else -1).

(** [recv_resp]: it ends at the first packet that is not ignored, or when the
    time is up. *)
Fixpoint recv_resp (fuel : nat) (a : ArpT) (tmout : Z) : MW Z :=
  match fuel with
  | O => nofuel
  | S fuel =>
      ret ← call (CSelect tmout);
      if ret <=? 0 then mret (-1) else
      rx ← call CRecvfrom;
      match judge a rx with
      | Accept => mret 0
      | Reject => mret (-1)
      | Ignore => recv_resp fuel a tmout
      end
  end.

(** The loop of [arping]; [n] is [xtimes - cntr]. *)
Fixpoint arping_loop (fuel n : nat) (a : ArpT) (tmout : Z) : MW bool :=
  match n with
  | O => mret false
  | S n =>
      sent ← send_req a;
      if sent =? 0 then
        r ← recv_resp fuel a tmout;
        if r =? 0 then mret true else arping_loop fuel n a tmout
      else arping_loop fuel n a tmout
  end.

(** [arping]. *)
Definition arping (fuel : nat) (ipAddr intf : string) : MW bool :=
  '(a, opened, cfg) ← Arping_init ipAddr intf;
  rCode ←
    match a with
    | None => mret false
    | Some a => arping_loop fuel (Z.to_nat (xtimes cfg)) a (ysecs cfg * APOS_HA_ONEMILLISEC_IN_MICRO)
    end;
  (if (opened : bool) then _ ← call (CClose "m_skfd"); mret tt else mret tt);;
  mret rCode.

Lemma recv_resp_frame fuel a t : steps R (recv_resp fuel a t).
Proof. induction fuel as [|fuel IH]; cbn [recv_resp]; solve_steps. Qed.
Hint Resolve recv_resp_frame : steps.

Lemma arping_loop_frame fuel n a t : steps R (arping_loop fuel n a t).
Proof. induction n as [|n IH]; cbn [arping_loop]; unfold send_req; solve_steps. Qed.
Hint Resolve arping_loop_frame : steps.

Lemma set_srcaddr_frame intf : steps R (set_srcaddr intf).
Proof. unfold set_srcaddr. solve_steps. Qed.
Hint Resolve set_srcaddr_frame : steps.

Lemma arping_frame fuel ip intf : steps R (arping fuel ip intf).
Proof. unfold arping, Arping_init, mipInterface_arp. solve_steps. Qed.
End arping.

#[export] Instance arping_prober `{E : Env} fuel : Prober (arping fuel).
Proof. constructor. intros R HR ip intf. apply arping_frame. Qed.

(** ** Properties *)

Definition arp_ok (a : ArpT) : Prop :=
  length (a_src a) = 4%nat ∧ length (a_dst a) = 4%nat ∧ (0 < a_halen a ≤ 8)%nat.

(** A packet that is accepted is an ARP reply to us from the target. *)
Lemma judge_accept a rx :
  judge a rx = Accept →
  0 < rx_len rx ∧ be16_at (rx_bytes rx) 6 = ARPOP_REPLY
  ∧ bytes_at (rx_bytes rx) (ARPHDR + a_halen a) 4 = a_dst a
  ∧ bytes_at (rx_bytes rx) (ARPHDR + a_halen a + 4 + a_halen a) 4 = a_src a
  ∧ bytes_at (rx_bytes rx) (ARPHDR + a_halen a + 4) (a_halen a) = a_hwaddr a
  ∧ Z.of_nat (ARPHDR + 2 * (4 + a_halen a)) ≤ rx_len rx.
Proof.
  unfold judge, eqb_bytes. intros H.
  repeat match type of H with
  | (if ?b then _ else _) = _ => destruct b eqn:?; [discriminate H|]
  end.
  rewrite ?orb_false_iff, ?negb_false_iff, ?bool_decide_eq_true, ?Z.eqb_eq, ?Z.leb_gt, ?Z.ltb_ge in *.
  destruct_and?. split_and!; try done. lia.
Qed.

(** The reply of the target, padded by the network. *)
Definition arp_reply (a : ArpT) (peer : list Z) (pad : list Z) : list Z :=
  arp_packet ARPOP_REPLY peer (a_dst a) (a_hwaddr a) (a_src a) ++ pad.

Lemma judge_reply a peer pad hatype :
  arp_ok a → length peer = a_halen a → u16 hatype = ARPHRD_ETHER →
  judge a (mkRecv (Z.of_nat (length (arp_reply a peer pad))) PACKET_HOST hatype (arp_reply a peer pad))
  = Accept.
Proof.
  intros (Hs & Hd & Hh & Hh8) Hp Hty. unfold judge. cbn [rx_len rx_pkttype rx_hatype rx_bytes].
  set (tail := peer ++ a_dst a ++ a_hwaddr a ++ a_src a ++ pad).
  assert (Heq : arp_reply a peer pad = [0; 1; 8; 0; Z.of_nat (length peer); 4; 0; 2] ++ tail).
  { unfold arp_reply, arp_packet, tail. rewrite <-!app_assoc. reflexivity. }
  assert (Hlen : length (arp_reply a peer pad)
    = (ARPHDR + 2 * (4 + a_halen a) + length pad)%nat).
  { rewrite Heq. unfold tail. rewrite !length_app, Hs, Hd, Hp. unfold a_halen. simpl. lia. }
  assert (Hat : ∀ i n, bytes_at (arp_reply a peer pad) (ARPHDR + i) n = bytes_at tail i n).
  { intros i n. rewrite Heq, bytes_at_app_r by (simpl; unfold ARPHDR; lia). f_equal. simpl. lia. }
  assert (Hseg : ∀ (x y z : list Z) i n, length x = i → length y = n → bytes_at (x ++ y ++ z) i n = y).
  { intros x y z i n Hx Hy. rewrite bytes_at_app_r by lia. rewrite <-Hx, Nat.sub_diag, <-Hy.
    apply bytes_at_all. }
  assert (B1 : bytes_at (arp_reply a peer pad) (ARPHDR + a_halen a) 4 = a_dst a).
  { rewrite Hat. by apply Hseg. }
  assert (B2 : bytes_at (arp_reply a peer pad) (ARPHDR + a_halen a + 4 + a_halen a) 4 = a_src a).
  { replace (ARPHDR + a_halen a + 4 + a_halen a)%nat with (ARPHDR + (a_halen a + 4 + a_halen a))%nat by lia.
    rewrite Hat. unfold tail. rewrite !app_assoc, <-(app_assoc _ (a_src a)). apply Hseg; [|done].
    rewrite !length_app, Hp, Hd. done. }
  assert (B3 : bytes_at (arp_reply a peer pad) (ARPHDR + a_halen a + 4) (a_halen a) = a_hwaddr a).
  { replace (ARPHDR + a_halen a + 4)%nat with (ARPHDR + (a_halen a + 4))%nat by lia.
    rewrite Hat. unfold tail. rewrite app_assoc. apply Hseg; [|done]. rewrite length_app, Hp, Hd. done. }
  rewrite B1, B2, B3. unfold eqb_bytes. rewrite !bool_decide_true by done.
  rewrite Hlen. clear Hseg Hat B1 B2 B3. rewrite Heq.
  change (be16_at (?x ++ tail) 6) with 2. change (be16_at (?x ++ tail) 2) with 2048.
  change (byte_at (?x ++ tail) 5) with 4. change (be16_at (?x ++ tail) 0) with 1.
  change (byte_at (?x ++ tail) 4) with (Z.of_nat (length peer)).
  rewrite Hty, Hp. cbn [Z.eqb negb orb andb PACKET_HOST ARPOP_REPLY ETH_P_IP ARPHRD_ETHER Pos.eqb].
  rewrite Z.eqb_refl. cbn [negb orb].
  destruct (Z.leb_spec (Z.of_nat (ARPHDR + 2 * (4 + a_halen a) + length pad)) 0); [unfold ARPHDR in *; lia|].
  destruct (Z.ltb_spec (Z.of_nat (ARPHDR + 2 * (4 + a_halen a) + length pad))
    (Z.of_nat ARPHDR + 2 * (4 + Z.of_nat (a_halen a)))); [lia|]. done.
Qed.

Section arping_props.
Context `{E : Env}.

(** The request of [send_req]. *)
Definition arp_request (a : ArpT) : list Z :=
  arp_packet ARPOP_REQUEST (a_hwaddr a) (a_src a) (repeat 255 (a_halen a)) (a_dst a).

(** A packet came in that [recv_resp] accepts. *)
Definition replied (a : ArpT) (t : Trace) : Prop :=
  ∃ rx later asked, t = later ++ Ev CRecvfrom rx :: asked ∧ judge a rx = Accept.

(** It came in after the whole request had been sent. *)
Definition answered (a : ArpT) (t : Trace) : Prop :=
  ∃ rx later asked, t = later ++ Ev CRecvfrom rx :: asked ∧ judge a rx = Accept
    ∧ Ev (CSendto (arp_request a)) (Z.of_nat (length (arp_request a))) ∈ asked.

(** The addresses of the object are those the system gave for the target, for the
    probe socket and for the packet socket. *)
Definition learned (ip : string) (a : ArpT) (t : Trace) : Prop :=
  Ev (CGetaddrinfo ip) (Some (a_dst a)) ∈ t
  ∧ Ev (CGetsockname "probe") (Some (AF_INET, a_src a)) ∈ t
  ∧ ∃ family, Ev (CGetsockname "m_skfd") (Some (family, a_hwaddr a)) ∈ t.

Lemma replied_later a n1 n2 : replied a n2 → replied a (n2 ++ n1).
Proof. intros (rx & l & k & -> & ?). exists rx, l, (k ++ n1). by rewrite <-app_assoc. Qed.

Lemma answered_later a n1 n2 : answered a n2 → answered a (n2 ++ n1).
Proof.
  intros (rx & l & k & -> & ? & ?). exists rx, l, (k ++ n1). split; [by rewrite <-app_assoc|].
  split; [done|]. apply elem_of_app. by left.
Qed.

Lemma learned_later ip a n1 n2 : learned ip a n2 → learned ip a (n2 ++ n1).
Proof. intros (? & ? & f & ?). split_and!; [| |exists f]; apply elem_of_app; by left. Qed.

Lemma learned_before ip a n1 n2 : learned ip a n1 → learned ip a (n2 ++ n1).
Proof. intros (? & ? & f & ?). split_and!; [| |exists f]; apply elem_of_app; by right. Qed.

Lemma recv_resp_sound fuel a t s :
  wp (recv_resp fuel a t) (λ o s', since s s' (λ new, o = Val 0 → replied a new)) s.
Proof.
  revert s; induction fuel as [|fuel IH]; intros s; cbn [recv_resp].
  { by apply since_refl. }
  wp_auto. destruct (r <=? 0); [wp_auto; by eexists [_]|]. wp_auto.
  destruct (judge a r0) eqn:Hj; [wp_auto| |wp_auto; by eexists [_; _]].
  - eexists [_; _]. split; [done|]. intros _. by exists r0, [], [Ev (CSelect t) r].
  - eapply wp_mono; [apply IH|]. intros o s' (new & Hn & Ho).
    exists (new ++ [Ev CRecvfrom r0; Ev (CSelect t) r]). split; [by rewrite Hn, <-app_assoc|].
    intros Hv. by apply replied_later, Ho.
Qed.

Lemma arping_loop_sound fuel n a t s :
  wp (arping_loop fuel n a t) (λ o s', since s s' (λ new, o = Val true → answered a new)) s.
Proof.
  revert s; induction n as [|n IH]; intros s; cbn [arping_loop].
  { apply wp_ret. by apply since_refl. }
  assert (Hagain : ∀ s1, since s s1 (λ _, True) → wp (arping_loop fuel n a t)
    (λ o s', since s s' (λ new, o = Val true → answered a new)) s1).
  { intros s1 H1. eapply wp_mono; [apply IH|]. intros o s' H2.
    eapply since_trans; [exact H1|exact H2|]. intros n1 n2 _ H Ho. by apply answered_later, H. }
  unfold send_req. cbv zeta. fold (arp_request a). wp_auto.
  destruct (Z.eqb_spec r (Z.of_nat (length (arp_request a)))) as [->|]; cbn [Z.eqb].
  2: { apply Hagain. by eexists [_]. }
  apply wp_bind. eapply wp_mono; [apply recv_resp_sound|].
  intros o s1 (n1 & H1 & Ho).
  assert (Hs1 : since s s1 (λ new, o = Val 0 → answered a new)).
  { eexists (n1 ++ [_]). split; [by rewrite H1, <-app_assoc|].
    intros (rx & l & k & -> & Hj)%Ho. eexists rx, l, (k ++ [_]).
    split; [by rewrite <-app_assoc|]. split; [done|]. apply elem_of_app. right. left. }
  destruct o as [v| | |]; cbn [thenQ]; [|destruct Hs1 as (new & Hs1 & _); by exists new..].
  destruct (Z.eqb_spec v 0) as [->|].
  - apply wp_ret. destruct Hs1 as (new & ? & Ha). exists new. auto.
  - apply Hagain. destruct Hs1 as (new & ? & _). by exists new.
Qed.

Lemma set_srcaddr_learned intf s :
  wp (set_srcaddr intf) (λ o s', since s s' (λ new, ∀ src, o = Val (Some src) →
    Ev (CGetsockname "probe") (Some (AF_INET, src)) ∈ new)) s.
Proof.
  unfold set_srcaddr. wp_auto. destruct r; cbn [negb]; wp_auto; [|by eexists [_; _]].
  destruct r0; cbn [negb]; wp_auto; [|by eexists [_; _; _; _]].
  destruct r0; cbn [negb]; wp_auto; [|by eexists [_; _; _; _; _]].
  destruct r0 as [[family addr]|]; wp_auto; [|by eexists [_; _; _; _; _; _]].
  eexists [_; _; _; _; _; _]. split; [done|]. intros src.
  destruct (Z.eqb_spec family AF_INET) as [->|]; [|done]. intros [= ->]. right. left.
Qed.

Lemma Arping_init_learned ip intf s :
  wp (Arping_init ip intf) (λ o s1, since s s1 (λ new, ∀ a op cfg,
    o = Val (Some a, op, cfg) → learned ip a new)) s.
Proof.
  unfold Arping_init. apply wp_bind, run_wp. intros o s1 Hcfg.
  destruct (steps_run grew _ _ _ _ (getConfig_frame grew) Hcfg) as [n0 H0].
  destruct o as [cfg| | |]; cbn [thenQ]; [|by exists n0..].
  apply (wp_mono _ (λ o s', since s1 s' (λ new, ∀ a op cfg,
    o = Val (Some a, op, cfg) → learned ip a new))).
  2: { intros o s' (n1 & H1 & Hl). exists (n1 ++ n0). split; [by rewrite H1, H0, app_assoc|].
       intros a op c Ho. eapply learned_later, Hl, Ho. }
  unfold mipInterface_arp.
  wp_auto. destruct (negb r); [wp_auto; by eexists [_]|]. wp_auto.
  destruct (negb _); [wp_auto; by eexists [_; _]|]. wp_auto.
  destruct r1 as [dst|]; [|wp_auto; by eexists [_; _; _]].
  apply wp_bind. eapply wp_mono; [apply set_srcaddr_learned|]. intros o s2 (n2 & E2 & Hsrc).
  destruct o as [[src|]| | |]; cbn [thenQ]; [|wp_auto|..];
    try by (eexists (n2 ++ [_; _; _]); rewrite E2, <-app_assoc).
  specialize (Hsrc src eq_refl).
  wp_auto. destruct r2 as [[h hw]|]; wp_auto.
  2: { eexists ([_; _] ++ n2 ++ [_; _; _]). split; [|done]. cbn. by rewrite E2, <-app_assoc. }
  eexists ([_; _] ++ n2 ++ [_; _; _]). split; [cbn; by rewrite E2, <-app_assoc|].
  intros a0 op c [= Ha _ _]. destruct (length hw =? 0)%nat; [done|]. injection Ha as <-.
  split_and!; cbn [a_dst a_src a_hwaddr]; [| |exists h]; set_solver.
Qed.

(** C27: An address counts as answered only when, after the request for it was sent
    whole, an ARP reply came in whose sender is that address and whose target is this
    node: the hardware and protocol addresses the request named, which the system
    gave for the sockets of this very probe. *)
Theorem arping_sound fuel ip intf s :
  wp (arping fuel ip intf) (λ o s', since s s' (λ new, o = Val true →
    ∃ a rx later asked, new = later ++ Ev CRecvfrom rx :: asked
      ∧ learned ip a asked
      ∧ Ev (CSendto (arp_request a)) (Z.of_nat (length (arp_request a))) ∈ asked
      ∧ be16_at (rx_bytes rx) 6 = ARPOP_REPLY
      ∧ bytes_at (rx_bytes rx) (ARPHDR + a_halen a) 4 = a_dst a
      ∧ bytes_at (rx_bytes rx) (ARPHDR + a_halen a + 4 + a_halen a) 4 = a_src a
      ∧ bytes_at (rx_bytes rx) (ARPHDR + a_halen a + 4) (a_halen a) = a_hwaddr a
      ∧ Z.of_nat (ARPHDR + 2 * (4 + a_halen a)) ≤ rx_len rx)) s.
Proof.
  unfold arping. apply wp_bind. eapply wp_mono; [apply Arping_init_learned|].
  intros [[[a opened] cfg]| | |] s1 (n1 & E1 & H1); cbn [thenQ]; [|by exists n1..].
  apply wp_bind. destruct a as [a|].
  2: { apply wp_ret. cbn [thenQ]. destruct opened; wp_auto; [|by exists n1].
       eexists (_ :: n1). split; [cbn; by rewrite E1|done]. }
  specialize (H1 _ _ _ eq_refl). eapply wp_mono; [apply arping_loop_sound|].
  intros o s2 (n2 & E2 & Ho).
  assert (E12 : w_trace s2 = (n2 ++ n1) ++ w_trace s) by (by rewrite E2, E1, app_assoc).
  destruct o as [b| | |]; cbn [thenQ]; [|by exists (n2 ++ n1)..].
  assert (Hgoal : ∀ s3 n3, w_trace s3 = n3 ++ w_trace s2 → since s s3 (λ new, b = true →
    ∃ rx later asked, new = later ++ Ev CRecvfrom rx :: asked ∧ judge a rx = Accept ∧ learned ip a asked
      ∧ Ev (CSendto (arp_request a)) (Z.of_nat (length (arp_request a))) ∈ asked)).
  { intros s3 n3 E3. exists (n3 ++ n2 ++ n1). split; [by rewrite E3, E12, !app_assoc|]. intros ->.
    destruct (Ho eq_refl) as (rx & l & k & -> & Hj & Hs). exists rx, (n3 ++ l), (k ++ n1).
    split; [by rewrite <-!app_assoc|]. split; [done|]. split; [by apply learned_before|].
    apply elem_of_app. by left. }
  destruct opened; wp_auto.
  1: match goal with |- since _ ?s3 _ => destruct (Hgoal s3 [Ev (CClose "m_skfd") r]) as (new & En & Hn); [done|] end.
  2: destruct (Hgoal s2 []) as (new & En & Hn); [done|].
  all: exists new; split; [exact En|]; intros [= ->];
    destruct (Hn eq_refl) as (rx & l & k & -> & Hj & ? & ?);
    apply judge_accept in Hj as (_ & ? & ? & ? & ? & ?); exists a, rx, l, k; auto 10.
Qed.

(** A reply of the queried address is always recognised: with the request
    sent and its reply the first packet, the address counts as answered, whatever
    bytes the network pads the reply with. *)
Theorem arping_complete fuel n a t s peer pad hatype :
  arp_ok a → length peer = a_halen a → u16 hatype = ARPHRD_ETHER →
  (∀ t' p, answer t' (CSendto p) = Z.of_nat (length p)) → (∀ t', 0 < answer t' (CSelect t)) →
  (∀ t', answer t' CRecvfrom
     = mkRecv (Z.of_nat (length (arp_reply a peer pad))) PACKET_HOST hatype (arp_reply a peer pad)) →
  ∃ s', arping_loop (S fuel) (S n) a t s = (Val true, s').
Proof.
  intros Ha Hp Hty Hsend Hsel Hrx. cbn [arping_loop recv_resp]. unfold send_req.
  eexists. erewrite bind_Val.
  2: { rewrite (bind_call (CSendto _)), Hsend, Z.eqb_refl. reflexivity. }
  cbn [Z.eqb]. erewrite bind_Val.
  2: { rewrite (bind_call (CSelect t)).
       match goal with |- context [answer ?tr (CSelect t) <=? 0] =>
         pose proof (Hsel tr); destruct (Z.leb_spec (answer tr (CSelect t)) 0); [lia|] end.
       rewrite (bind_call CRecvfrom), Hrx, judge_reply by done. reflexivity. }
  reflexivity.
Qed.
End arping_props.

(** ** Examples *)

Definition arp_self : ArpT := mkArp [2; 0; 0; 0; 0; 1] [10; 0; 0; 1] [10; 0; 0; 9].

Definition arp_env : Env :=
  {| answer := λ _ c, match c with
                      | CSelect _ => 1
                      | CRecvfrom => mkRecv 28 PACKET_HOST 1 (arp_reply arp_self [2; 0; 0; 0; 0; 9] [])
                      | c => dflt c
                      end |}.

Lemma arping_complete_witness :
  ∃ s', arping_loop (E:=arp_env) 1 1 arp_self 1000 newWorld = (Val true, s').
Proof.
  apply (arping_complete (E:=arp_env) 0 0 arp_self 1000 newWorld [2; 0; 0; 0; 0; 9] [] 1);
    unfold arp_ok, a_halen; simpl; done || lia || (intros; simpl; lia).
Defined.
