(* ===== verification/Ndisc.v ===== *)
(** * Probing with neighbour discovery

    [HA_AGENT_ndisc], the probe for IPv6 addresses.  As in the other probes the
    members are set at the start of [ndisc], so they are parameters here; unlike
    them it leaves the socket open when there is no answer.  [fuel] bounds the
    packets received while waiting for one advertisement. *)

From S2P Require Import Prelude CString Types World LogTrace Config Utils Net.

Open Scope Z_scope.

Definition ND_NEIGHBOR_SOLICIT : Z := 135.
Definition ND_NEIGHBOR_ADVERT : Z := 136.
Definition ND_OPT_SOURCE_LINKADDR : Z := 1.
Definition ND_OPT_TARGET_LINKADDR : Z := 2.
(** [sizeof(struct nd_neighbor_advert)] and the offset of its target. *)
Definition NA_LEN : nat := 24.
Definition NA_TARGET : nat := 8.
Definition IFNAMSIZ : nat := 16.

(** The target: its address and the index of the interface. *)
Record TgtT : Set := mkTgt { t_addr : list Z; t_scope : Z }.

Definition u8 (z : Z) : Z := z mod 256.

(** The solicitation of [buildsol]: with the option only if the hardware address is
    known. *)
Definition solicit (tgt : TgtT) (mac : option (list Z)) : list Z :=
  [ND_NEIGHBOR_SOLICIT; 0; 0; 0; 0; 0; 0; 0] ++ t_addr tgt
  ++ match mac with Some m => [ND_OPT_SOURCE_LINKADDR; 1] ++ m | None => [] end.

(** What [parseadv] says, and that [printmacaddress] fits its 256 bytes. *)
Inductive AdvR : Set := NoAdv | Adv | AdvOverflow.

(** [printmacaddress]: in each round [sprintf] writes two digits, a colon and the NUL, the
    last of them to [buff[index + 3]]; so does the assignment after the last byte. *)
Definition MACBUF : nat := 256.

Fixpoint print_mac (len index : nat) : AdvR :=
  match len with
  | O => Adv
  | S len =>
      if (index + 3 <? MACBUF)%nat then
        match len with O => Adv | S _ => print_mac len (index + 3) end
      else AdvOverflow
  end.

Definition printmacaddress (len : nat) : AdvR := print_mac len 0.

(** The loop over the options: [ptr] is the offset and [len] what is left. *)
Fixpoint parse_options (fuel : nat) (buf : list Z) (ptr len : nat) : AdvR :=
  match fuel with
  | O => NoAdv
  | S fuel =>
      if (len <? 8)%nat then NoAdv else
      let optlen := Z.to_nat (8 * u8 (byte_at buf (S ptr))) in
      if (optlen =? 0)%nat then NoAdv
      else if (len <? optlen)%nat then NoAdv
      else if negb (u8 (byte_at buf ptr) =? ND_OPT_TARGET_LINKADDR)
      then parse_options fuel buf (ptr + optlen) (len - optlen)
      else printmacaddress (optlen - 2)
  end.

(** [parseadv]: every option takes eight bytes or more. *)
Definition parseadv (tgt : TgtT) (buf : list Z) (len : nat) : AdvR :=
  if (len <? NA_LEN)%nat then NoAdv
  else if negb (u8 (byte_at buf 0) =? ND_NEIGHBOR_ADVERT) then NoAdv
  else if negb (u8 (byte_at buf 1) =? 0) then NoAdv
  else if negb (bool_decide (bytes_at buf NA_TARGET 16 = t_addr tgt)) then NoAdv
  else parse_options len buf NA_LEN (len - NA_LEN).

(** [recvfromLL]: a packet with another hop limit than 255 is passed over. *)
Definition hop_ok (rx : Recv6T) : bool :=
  match rx6_hops rx with Some h => h =? 255 | None => true end.

(** A packet of the receive loop: whether it counts. *)
Definition judge_adv (tgt : TgtT) (rx : Recv6T) : AdvR :=
  if (rx6_len rx =? -1) || negb (hop_ok rx) then NoAdv
  else if negb (rx6_scope rx =? 0) && negb (rx6_scope rx =? t_scope tgt) then NoAdv
  else parseadv tgt (rx6_bytes rx) (Z.to_nat (rx6_len rx)).

(** The time [poll] is given, from the clock in nanoseconds; [ysecs] is converted to
    [int] by [div]. *)
Definition deadline (now ysecs : Z) : Z * Z :=
  (now / 10 ^ 9 + Z.quot (i32 ysecs) 1000, now mod 10 ^ 9 + Z.rem (i32 ysecs) 1000 * 1000000).
Definition wait_ms (endt : Z * Z) (now : Z) : Z :=
  if endt.1 <? now / 10 ^ 9 then 0
  else i32 (Z.max 0 ((endt.1 - now / 10 ^ 9) * 1000 + i32 (Z.quot (endt.2 - now mod 10 ^ 9) 1000000))).

Section ndisc.
Context `{E : Env} {R : relation World} `{!QueryFrame R}.

(** [is_ifup]. *)
Definition is_ifup (intf : string) : MW Z :=
  _ ← call (CIfIndex (snprintf IFNAMSIZ intf));
  flags ← call (CIfFlags (snprintf IFNAMSIZ intf));
  mret (if flag flags IFF_UP then 0 else -1).

(** [sethoplimit]. *)
Definition sethoplimit : MW Z :=
  ok ← call (CSockopt "IPV6_MULTICAST_HOPS" "255");
  if negb ok then mret (-1) else
  ok ← call (CSockopt "IPV6_UNICAST_HOPS" "255");
  mret (if (ok : bool) then 0 else -1).

(** [getipv6byname]. *)
Definition getipv6byname (name intf : string) : MW (option TgtT) :=
  addr ← call (CGetaddrinfo name);
  match addr with
  | None => mret None
  | Some addr =>
      val ← call (CIfIndex intf);
      mret (if val =? 0 then None else Some (mkTgt addr (u32 val)))
  end.

(** [init]. *)
Definition ndisc_init (name intf : string) : MW (option TgtT * ConfigT) :=
  cfg ← getConfig;
  sk ← call (CSocket "PF_INET6");
  if negb sk then mret (None, cfg) else
  _ ← call (CSockopt "ICMP6_FILTER" "ND_NEIGHBOR_ADVERT");
  _ ← call (CSockopt "SO_DONTROUTE" EmptyString);
  _ ← sethoplimit;
  _ ← call (CSockopt "IPV6_RECVHOPLIMIT" EmptyString);
  tgt ← getipv6byname name intf;
  match tgt with
  | None => _ ← call (CClose "m_skfd"); mret (None, cfg)
  | Some tgt =>
      up ← is_ifup intf;
      if up =? 0 then mret (Some tgt, cfg)
      else _ ← call (CClose "m_skfd"); mret (None, cfg)
  end.

(** [getmacaddress]. *)
Definition getmacaddress (intf : string) : MW (option (list Z)) :=
  if (IFNAMSIZ <=? String.length intf)%nat then mret None else
  fd ← call (CSocket "AF_INET6");
  if negb fd then mret None else
  mac ← call (CIfHwaddr intf);
  _ ← call (CClose "fd");
  mret mac.

(** [send_req]: the packet goes to the solicited-node address of the target. *)
Definition ndisc_send (tgt : TgtT) (intf : string) : MW Z :=
  mac ← getmacaddress intf;
  let packet := solicit tgt mac in
  n ← call (CSendto packet);
  mret (if n =? Z.of_nat (length packet) then 0 else -1).

(** The receive loop of [recv_resp]: it goes on until the time is up. *)
Fixpoint recv_loop (fuel : nat) (tgt : TgtT) (endt : Z * Z) (responses : Z) : MW Z :=
  match fuel with
  | O => nofuel
  | S fuel =>
      now ← call CMono;
      val ← call (CPoll (wait_ms endt now));
      if val <=? 0 then mret responses else
      rx ← call CRecvmsg;
      match judge_adv tgt rx with
      | NoAdv => recv_loop fuel tgt endt responses
      | Adv => recv_loop fuel tgt endt (if responses <? 2 ^ 31 - 1 then responses + 1 else responses)
      | AdvOverflow => undef
      end
  end.

Definition ndisc_recv (fuel : nat) (tgt : TgtT) (ysecs : Z) : MW Z :=
  now ← call CMono;
  recv_loop fuel tgt (deadline now ysecs) 0.

(** The loop of [ndisc]: whether an advertisement came. *)
Fixpoint ndisc_loop (fuel n : nat) (tgt : TgtT) (intf : string) (ysecs : Z) : MW bool :=
  match n with
  | O => mret false
  | S n =>
      sent ← ndisc_send tgt intf;
      if negb (sent =? 0) then ndisc_loop fuel n tgt intf ysecs else
      value ← ndisc_recv fuel tgt ysecs;
      if 0 <? value then mret true else ndisc_loop fuel n tgt intf ysecs
  end.

(** [ndisc]. *)
Definition ndisc (fuel : nat) (ipaddress intf : string) : MW bool :=
  '(tgt, cfg) ← ndisc_init ipaddress intf;
  match tgt with
  | None => mret false
  | Some tgt =>
      found ← ndisc_loop fuel (Z.to_nat (xtimes cfg)) tgt intf (ysecs cfg);
      if (found : bool) then _ ← call (CClose "m_skfd"); mret true else mret false
  end.

Lemma recv_loop_frame fuel tgt endt n : steps R (recv_loop fuel tgt endt n).
Proof. revert n; induction fuel as [|fuel IH]; intros n; cbn [recv_loop]; solve_steps. Qed.
Hint Resolve recv_loop_frame : steps.

Lemma ndisc_loop_frame fuel n tgt intf y : steps R (ndisc_loop fuel n tgt intf y).
Proof.
  induction n as [|n IH]; cbn [ndisc_loop]; unfold ndisc_send, getmacaddress, ndisc_recv; solve_steps.
Qed.
Hint Resolve ndisc_loop_frame : steps.

Lemma is_ifup_frame intf : steps R (is_ifup intf).
Proof. unfold is_ifup. solve_steps. Qed.
Hint Resolve is_ifup_frame : steps.

Lemma ndisc_frame fuel ip intf : steps R (ndisc fuel ip intf).
Proof. unfold ndisc, ndisc_init, getipv6byname, sethoplimit. solve_steps. Qed.
End ndisc.

#[export] Instance ndisc_prober `{E : Env} fuel : Prober (ndisc fuel).
Proof. constructor. intros R HR ip intf. apply ndisc_frame. Qed.

(** ** Properties *)

(** An advertisement of the target, received on the link and through its interface. *)
Definition advert_of (tgt : TgtT) (rx : Recv6T) : Prop :=
  (∀ h, rx6_hops rx = Some h → h = 255)
  ∧ (rx6_scope rx = 0 ∨ rx6_scope rx = t_scope tgt)
  ∧ Z.of_nat NA_LEN ≤ rx6_len rx
  ∧ u8 (byte_at (rx6_bytes rx) 0) = ND_NEIGHBOR_ADVERT
  ∧ u8 (byte_at (rx6_bytes rx) 1) = 0
  ∧ bytes_at (rx6_bytes rx) NA_TARGET 16 = t_addr tgt.

Lemma judge_adv_sound tgt rx : judge_adv tgt rx = Adv → advert_of tgt rx.
Proof.
  unfold judge_adv, parseadv, advert_of, hop_ok. intros H.
  repeat match type of H with
  | (if ?b then _ else _) = _ => destruct b eqn:?; [discriminate H|]
  end.
  rewrite ?orb_false_iff, ?andb_false_iff, ?negb_false_iff, ?bool_decide_eq_true, ?Z.eqb_eq, ?Nat.ltb_ge in *.
  destruct_and?. split_and!; try done.
  - intros h Hh. rewrite Hh in *. by apply Z.eqb_eq.
  - unfold NA_LEN in *. lia.
Qed.

Section ndisc_props.
Context `{E : Env}.

(** What a run that counts an advertisement has seen. *)
Definition saw (tgt : TgtT) (s' : World) : Prop :=
  ∃ rx, Ev CRecvmsg rx ∈ w_trace s' ∧ judge_adv tgt rx = Adv.

Lemma saw_grew tgt s s' : grew s s' → saw tgt s → saw tgt s'.
Proof. intros [new Hn] (rx & Hin & Hj). exists rx. rewrite Hn. split; [by apply elem_of_app; right|done]. Qed.

Lemma recv_loop_sound fuel tgt endt n s :
  (0 < n → saw tgt s) →
  wp (recv_loop fuel tgt endt n) (λ o s', ∀ v, o = Val v → 0 < v → saw tgt s') s.
Proof.
  revert n s; induction fuel as [|fuel IH]; intros n s Hn; cbn [recv_loop]; [by intros|].
  wp_auto. destruct (r0 <=? 0).
  { wp_auto. intros v [= ->] Hv. eapply saw_grew; [|by apply Hn]. by eexists [_; _]. }
  wp_auto. destruct (judge_adv tgt r1) eqn:Hj.
  - apply IH. intros Hv. eapply saw_grew; [|by apply Hn]. by eexists [_; _; _].
  - apply IH. intros _. exists r1. split; [left|done].
  - by intros v.
Qed.

Lemma ndisc_loop_sound fuel n tgt intf y s :
  wp (ndisc_loop fuel n tgt intf y) (λ o s', o = Val true → saw tgt s') s.
Proof.
  revert s; induction n as [|n IH]; intros s; cbn [ndisc_loop]; [by apply wp_ret|].
  apply wp_bind, run_wp. intros o s1 _. destruct o as [v| | |]; cbn [thenQ]; try done.
  destruct (negb (v =? 0)); [apply IH|]. unfold ndisc_recv. apply wp_bind. wp_auto.
  eapply wp_mono; [apply recv_loop_sound; lia|]. intros o s2 Ho. destruct o as [w| | |]; cbn [thenQ]; try done.
  destruct (Z.ltb_spec 0 w); [|apply IH]. apply wp_ret. intros _. by apply (Ho w).
Qed.

Lemma ndisc_init_tgt ip intf s :
  wp (ndisc_init ip intf) (λ o s1, ∀ tgt cfg,
    o = Val (Some tgt, cfg) → Ev (CGetaddrinfo ip) (Some (t_addr tgt)) ∈ w_trace s1) s.
Proof.
  unfold ndisc_init. apply wp_bind, run_wp. intros o s1 _. destruct o; cbn [thenQ]; try done.
  wp_auto. destruct (negb r); [by wp_auto; intros|]. do 2 (apply wp_bind, wp_call; intros ? _; cbn [thenQ]).
  apply wp_bind, run_wp. intros o s2 _. destruct o; cbn [thenQ]; try done.
  unfold getipv6byname. wp_auto. destruct r3 as [addr|]; wp_auto; [|by intros].
  destruct (r3 =? 0); [by wp_auto; intros|]. unfold is_ifup. wp_auto.
  destruct (flag _ _); wp_auto; [|by intros]. intros tgt cfg [= <- _]. cbn. do 3 right. left.
Qed.

(** A neighbour counts as present only after an advertisement of the very address
    that was probed came in, from the link itself (a hop limit of 255) and through the
    interface of the probe. *)
Theorem ndisc_sound fuel ip intf s :
  wp (ndisc fuel ip intf) (λ o s', o = Val true →
    ∃ tgt rx, Ev CRecvmsg rx ∈ w_trace s' ∧ Ev (CGetaddrinfo ip) (Some (t_addr tgt)) ∈ w_trace s'
      ∧ advert_of tgt rx) s.
Proof.
  unfold ndisc. apply wp_bind. eapply wp_mono; [apply ndisc_init_tgt|].
  intros [[[tgt|] cfg]| | |] s1 H1; cbn [thenQ]; try done.
  specialize (H1 _ _ eq_refl). apply wp_bind, run_wp. intros o s2 Hrun.
  pose proof (wp_run _ _ _ _ _ (ndisc_loop_sound _ _ _ _ _ _) Hrun) as Hs.
  destruct o as [b| | |]; cbn [thenQ]; try done. destruct b; [|done].
  destruct (Hs eq_refl) as (rx & Hin & Hj). wp_auto. intros _. exists tgt, rx.
  split; [by right|]. split; [right|by apply judge_adv_sound].
  eapply quiet_keeps; [apply ndisc_loop_frame|exact Hrun|done].
Qed.
End ndisc_props.

(** ** Advertisements with options *)

(** An option: its type and the bytes after the two of its header, which fill it up to
    a multiple of eight. *)
Record OptT : Set := mkOpt { op_type : Z; op_body : list Z }.

Definition opt_units (o : OptT) : nat := (length (op_body o) + 2) / 8.
Definition opt_ok (o : OptT) : Prop :=
  0 ≤ op_type o < 256 ∧ (length (op_body o) + 2 = 8 * opt_units o)%nat ∧ (1 ≤ opt_units o ≤ 255)%nat.
Definition enc_opt (o : OptT) : list Z := op_type o :: Z.of_nat (opt_units o) :: op_body o.
Definition enc_opts (os : list OptT) : list Z := concat (enc_opt <$> os).

(** The bytes of an advertisement; [hdr] is the checksum, the flags and the reserved
    bytes, and [tail] what is left after the last option. *)
Definition advert (tgt : TgtT) (hdr : list Z) (os : list OptT) (tail : list Z) : list Z :=
  ([ND_NEIGHBOR_ADVERT; 0] ++ hdr ++ t_addr tgt) ++ enc_opts os ++ tail.

Definition first_target (os : list OptT) : option OptT :=
  List.find (λ o, op_type o =? ND_OPT_TARGET_LINKADDR) os.

Lemma length_enc_opt o : opt_ok o → length (enc_opt o) = (8 * opt_units o)%nat.
Proof. intros (_ & H & _). unfold enc_opt. cbn [length]. lia. Qed.

(** The last byte written for an address of [len] bytes is [buff[3 * len]]. *)
Lemma print_mac_fits len index :
  (0 < len)%nat → print_mac len index = if (index + 3 * len <? MACBUF)%nat then Adv else AdvOverflow.
Proof.
  revert index; induction len as [|len IH]; intros index Hl; [lia|]. cbn [print_mac].
  destruct len as [|len]; [by rewrite Nat.mul_1_r|].
  destruct (Nat.ltb_spec (index + 3) MACBUF).
  - rewrite IH by lia. by replace (index + 3 + 3 * S len)%nat with (index + 3 * S (S len))%nat by lia.
  - destruct (Nat.ltb_spec (index + 3 * S (S len)) MACBUF); [lia|done].
Qed.

Lemma printmacaddress_fits len :
  printmacaddress len = if (3 * len <? MACBUF)%nat then Adv else AdvOverflow.
Proof. destruct len as [|len]; [done|]. apply (print_mac_fits (S len) 0). lia. Qed.

(** The loop stops at the first target link-layer option, and always within the bytes
    that are left. *)
Lemma parse_options_spec os tail pre fuel :
  Forall opt_ok os → (length tail < 8)%nat → (length os < fuel)%nat →
  parse_options fuel (pre ++ enc_opts os ++ tail) (length pre) (length (enc_opts os ++ tail))
  = match first_target os with Some o => printmacaddress (length (op_body o)) | None => NoAdv end.
Proof.
  intros Hos Ht. revert pre fuel; induction Hos as [|o os Ho Hos IH]; intros pre [|fuel] Hf;
    cbn [length] in Hf; try lia; cbn [parse_options].
  - cbn [enc_opts fmap list_fmap concat app]. by destruct (Nat.ltb_spec (length tail) 8); [|lia].
  - unfold enc_opts. cbn [fmap list_fmap concat first_target List.find]. fold (enc_opts os).
    pose proof (length_enc_opt o Ho) as Hlen. destruct Ho as (Hty & Hbody & Hu).
    rewrite !length_app, Hlen, <-!Nat.add_assoc, <-!app_assoc.
    destruct (Nat.ltb_spec (8 * opt_units o + (length (enc_opts os) + length tail)) 8); [lia|].
    assert (Hb : ∀ i, (i < 2)%nat →
      byte_at (pre ++ enc_opt o ++ enc_opts os ++ tail) (i + length pre) = byte_at (enc_opt o) i).
    { intros i Hi. rewrite byte_at_app_r by lia. replace (i + length pre - length pre)%nat with i by lia.
      unfold byte_at, enc_opt. by destruct i as [|[|]]; [| |lia]. }
    rewrite (Hb 0%nat ltac:(lia) : byte_at _ (length pre) = _),
      (Hb 1%nat ltac:(lia) : byte_at _ (S (length pre)) = _).
    change (byte_at (enc_opt o) 1) with (Z.of_nat (opt_units o)).
    change (byte_at (enc_opt o) 0) with (op_type o). unfold u8. rewrite !Z.mod_small by lia.
    replace (Z.to_nat (8 * Z.of_nat (opt_units o))) with (8 * opt_units o)%nat by lia.
    destruct (Nat.eqb_spec (8 * opt_units o) 0); [lia|].
    destruct (Nat.ltb_spec (8 * opt_units o + (length (enc_opts os) + length tail)) (8 * opt_units o)); [lia|].
    destruct (op_type o =? ND_OPT_TARGET_LINKADDR) eqn:E; cbn [negb].
    { by replace (8 * opt_units o - 2)%nat with (length (op_body o)) by lia. }
    fold (first_target os). rewrite <-(IH (pre ++ enc_opt o) fuel) by lia. rewrite <-app_assoc. f_equal.
    + rewrite length_app, Hlen. lia.
    + rewrite length_app. lia.
Qed.

(** [parseadv] finds the link-layer option of an advertisement whatever options come
    before it. *)
Lemma parseadv_advert tgt hdr os tail :
  length (t_addr tgt) = 16%nat → length hdr = 6%nat → Forall opt_ok os → (length tail < 8)%nat →
  parseadv tgt (advert tgt hdr os tail) (length (advert tgt hdr os tail))
  = match first_target os with Some o => printmacaddress (length (op_body o)) | None => NoAdv end.
Proof.
  intros Ha Hh Hos Ht. unfold parseadv, advert.
  set (pre := [ND_NEIGHBOR_ADVERT; 0] ++ hdr ++ t_addr tgt).
  assert (Hpre : length pre = NA_LEN) by (unfold pre; rewrite !length_app, Ha, Hh; done).
  rewrite length_app, Hpre.
  destruct (Nat.ltb_spec (NA_LEN + length (enc_opts os ++ tail)) NA_LEN); [lia|].
  change (u8 (byte_at (pre ++ enc_opts os ++ tail) 0)) with ND_NEIGHBOR_ADVERT.
  change (u8 (byte_at (pre ++ enc_opts os ++ tail) 1)) with 0. cbn [Z.eqb negb ND_NEIGHBOR_ADVERT Pos.eqb].
  assert (bytes_at (pre ++ enc_opts os ++ tail) NA_TARGET 16 = t_addr tgt) as ->.
  { unfold pre. rewrite <-!app_assoc. rewrite (app_assoc _ hdr).
    rewrite bytes_at_app_r by (rewrite length_app, Hh; done). rewrite length_app, Hh. cbn [Nat.sub length Nat.add NA_TARGET].
    rewrite <-Ha. apply bytes_at_all. }
  rewrite bool_decide_true by done. cbn [negb].
  replace (NA_LEN + length (enc_opts os ++ tail) - NA_LEN)%nat with (length (enc_opts os ++ tail)) by lia.
  rewrite <-Hpre. apply parse_options_spec; [done|done|].
  assert (length os ≤ length (enc_opts os))%nat.
  { clear -Hos. induction Hos as [|o os Ho _ IH]; [done|]. unfold enc_opts. cbn [fmap list_fmap concat length].
    rewrite length_app, length_enc_opt by done. fold (enc_opts os). destruct Ho as (_ & _ & ?). lia. }
  rewrite length_app. unfold NA_LEN in *. lia.
Qed.

(** C40: A neighbour can make the probe write outside its buffer: an advertisement of
    the probed address whose link-layer option has eleven units of eight bytes or more,
    after any other options, overruns the 256 bytes in which the address is printed. *)
Theorem advert_overflow `{E : Env} fuel tgt hdr os o tail scope y s :
  length (t_addr tgt) = 16%nat → length hdr = 6%nat → Forall opt_ok os → (length tail < 8)%nat →
  first_target os = Some o → (11 ≤ opt_units o)%nat → scope = 0 ∨ scope = t_scope tgt →
  (∀ t ms, 0 < answer t (CPoll ms)) →
  (∀ t, answer t CRecvmsg = mkRecv6 (Z.of_nat (length (advert tgt hdr os tail))) (Some 255) scope
                              (advert tgt hdr os tail)) →
  (ndisc_recv (S fuel) tgt y s).1 = Undef.
Proof.
  intros Ha Hh Hos Ht Hf Hu Hsc Hpoll Hrx.
  change (wp (ndisc_recv (S fuel) tgt y) (λ o _, o = Undef) s). unfold ndisc_recv. cbn [recv_loop].
  wp_auto. assert (0 < r1) by (subst r1; apply Hpoll). destruct (Z.leb_spec r1 0); [lia|].
  apply wp_bind, (wp_call CRecvmsg). intros rx ->. cbn [thenQ]. rewrite (Hrx _ : answer _ CRecvmsg = _). unfold judge_adv, hop_ok.
  cbn [rx6_len rx6_hops rx6_scope rx6_bytes]. rewrite Nat2Z.id, parseadv_advert, Hf by done.
  destruct (Z.eqb_spec (Z.of_nat (length (advert tgt hdr os tail))) (-1)); [lia|].
  assert (negb (scope =? 0) && negb (scope =? t_scope tgt) = false) as ->.
  { destruct Hsc as [->| ->]; [done|]. rewrite Z.eqb_refl. by rewrite andb_false_r. }
  rewrite printmacaddress_fits. destruct (Nat.ltb_spec (3 * length (op_body o)) MACBUF) as [Hlt|_]; [|done].
  unfold MACBUF in Hlt.
  assert (Ho : opt_ok o).
  { apply List.find_some in Hf as [Hin _]. rewrite Forall_forall in Hos. apply Hos. by apply list_elem_of_In. }
  destruct Ho as (_ & Hb & _). lia.
Qed.

(** ** Examples *)

Definition ex_tgt : TgtT := mkTgt (repeat 0 15 ++ [1]) 2.
Definition ex_opts : list OptT := [mkOpt 14 (repeat 0 6); mkOpt 2 (repeat 0 86)].
Definition nd_env : Env := {| answer := λ _ c, match c with
  | CPoll _ => 1
  | CRecvmsg => mkRecv6 (Z.of_nat (length (advert ex_tgt (repeat 0 6) ex_opts []))) (Some 255) 2
                  (advert ex_tgt (repeat 0 6) ex_opts [])
  | c => dflt c
  end |}.

Lemma advert_overflow_witness : (ndisc_recv (E:=nd_env) 1 ex_tgt 1000 newWorld).1 = Undef.
Proof.
  apply (advert_overflow (E:=nd_env) 0 ex_tgt (repeat 0 6) ex_opts (mkOpt 2 (repeat 0 86)) [] 2).
  - reflexivity.
  - reflexivity.
  - repeat constructor; vm_compute; congruence.
  - cbn. lia.
  - reflexivity.
  - vm_compute. lia.
  - by right.
  - intros t ms. cbn. lia.
  - intros t. reflexivity.
Defined.
