(* ===== verification/Failover.v ===== *)
(** * Fail-over

    The recovery actions of [Global] ([nodefailOver], [nodefailFast],
    [compRestart], [reboot]) with the parts of [HA_AGENT_RoleMgr] they call back
    into ([shutDown_all], [StopJobs]).  [shutDown_all] calls [nodefailOver] when
    the stop commands fail, and [nodefailOver] calls [shutDown_all]: [fuel]
    bounds the depth of that recursion. *)

From S2P Require Import Prelude CString Types World LogTrace Config Utils DrbdMgr.

Open Scope Z_scope.

(** Assignments to the members of [HA_AGENT_RoleMgr]. *)
Definition set_regHndlr (b : bool) (r : RoleMgrT) : RoleMgrT :=
  mkRoleMgr b (m_arpObj r) (m_pingObj r) (m_ndiscObj r) (m_drbdObj r) (m_fileObj r) (m_immObj r)
    (m_DMObj r) (m_reactorRunner r) (m_handle r) (m_startJobsDone r) (m_isVirtual r).
Definition set_arpObj (b : bool) (r : RoleMgrT) : RoleMgrT :=
  mkRoleMgr (m_regHndlr r) b (m_pingObj r) (m_ndiscObj r) (m_drbdObj r) (m_fileObj r) (m_immObj r)
    (m_DMObj r) (m_reactorRunner r) (m_handle r) (m_startJobsDone r) (m_isVirtual r).
Definition set_pingObj (b : bool) (r : RoleMgrT) : RoleMgrT :=
  mkRoleMgr (m_regHndlr r) (m_arpObj r) b (m_ndiscObj r) (m_drbdObj r) (m_fileObj r) (m_immObj r)
    (m_DMObj r) (m_reactorRunner r) (m_handle r) (m_startJobsDone r) (m_isVirtual r).
Definition set_ndiscObj (b : bool) (r : RoleMgrT) : RoleMgrT :=
  mkRoleMgr (m_regHndlr r) (m_arpObj r) (m_pingObj r) b (m_drbdObj r) (m_fileObj r) (m_immObj r)
    (m_DMObj r) (m_reactorRunner r) (m_handle r) (m_startJobsDone r) (m_isVirtual r).
Definition set_drbdObj (d : option DRBDMgrT) (r : RoleMgrT) : RoleMgrT :=
  mkRoleMgr (m_regHndlr r) (m_arpObj r) (m_pingObj r) (m_ndiscObj r) d (m_fileObj r) (m_immObj r)
    (m_DMObj r) (m_reactorRunner r) (m_handle r) (m_startJobsDone r) (m_isVirtual r).
Definition set_fileObj (b : bool) (r : RoleMgrT) : RoleMgrT :=
  mkRoleMgr (m_regHndlr r) (m_arpObj r) (m_pingObj r) (m_ndiscObj r) (m_drbdObj r) b (m_immObj r)
    (m_DMObj r) (m_reactorRunner r) (m_handle r) (m_startJobsDone r) (m_isVirtual r).
Definition set_immObj (b : bool) (r : RoleMgrT) : RoleMgrT :=
  mkRoleMgr (m_regHndlr r) (m_arpObj r) (m_pingObj r) (m_ndiscObj r) (m_drbdObj r) (m_fileObj r) b
    (m_DMObj r) (m_reactorRunner r) (m_handle r) (m_startJobsDone r) (m_isVirtual r).
Definition set_DMObj (d : option DRBDMonT) (r : RoleMgrT) : RoleMgrT :=
  mkRoleMgr (m_regHndlr r) (m_arpObj r) (m_pingObj r) (m_ndiscObj r) (m_drbdObj r) (m_fileObj r)
    (m_immObj r) d (m_reactorRunner r) (m_handle r) (m_startJobsDone r) (m_isVirtual r).
Definition set_reactorRunner (b : bool) (r : RoleMgrT) : RoleMgrT :=
  mkRoleMgr (m_regHndlr r) (m_arpObj r) (m_pingObj r) (m_ndiscObj r) (m_drbdObj r) (m_fileObj r)
    (m_immObj r) (m_DMObj r) b (m_handle r) (m_startJobsDone r) (m_isVirtual r).
Definition set_handle (h : Z) (r : RoleMgrT) : RoleMgrT :=
  mkRoleMgr (m_regHndlr r) (m_arpObj r) (m_pingObj r) (m_ndiscObj r) (m_drbdObj r) (m_fileObj r)
    (m_immObj r) (m_DMObj r) (m_reactorRunner r) h (m_startJobsDone r) (m_isVirtual r).
Definition set_startJobsDone (b : bool) (r : RoleMgrT) : RoleMgrT :=
  mkRoleMgr (m_regHndlr r) (m_arpObj r) (m_pingObj r) (m_ndiscObj r) (m_drbdObj r) (m_fileObj r)
    (m_immObj r) (m_DMObj r) (m_reactorRunner r) (m_handle r) b (m_isVirtual r).
Definition set_isVirtual (b : bool) (r : RoleMgrT) : RoleMgrT :=
  mkRoleMgr (m_regHndlr r) (m_arpObj r) (m_pingObj r) (m_ndiscObj r) (m_drbdObj r) (m_fileObj r)
    (m_immObj r) (m_DMObj r) (m_reactorRunner r) (m_handle r) (m_startJobsDone r) b.

Section failover.
Context `{E : Env}.

(** The role manager is the object [m_rMgrObj] of [Global]: reading a member of
    [this] and assigning to it. *)
Definition this : MW RoleMgrT := o ← global m_rMgrObj; deref o.
Definition set_this (f : RoleMgrT → RoleMgrT) : MW unit :=
  assign (λ g, set_rMgrObj (f <$> m_rMgrObj g) g).

(** A method of [m_drbdObj]. *)
Definition on_drbd {A} (f : DRBDMgrT → MW (A * DRBDMgrT)) : MW A :=
  rm ← this;
  d ← deref (m_drbdObj rm);
  '(r, d) ← f d;
  set_this (set_drbdObj (Some d));;
  mret r.

(** [HA_AGENT_RoleMgr::StartJobs] and [StopJobs]. *)
Definition StartJobs : MW Z :=
  r ← on_drbd drbdStartJobs;
  if r <? 0 then mret (-1) else set_this (set_startJobsDone true);; mret 0.

Definition StopJobs : MW Z :=
  r ← on_drbd drbdStopJobs;
  mret (if r <? 0 then -1 else 0).

(** [m_utilObj->msec_sleep(m_cngObj->getConfig().rebootTmout)]. *)
Definition sleep_reboot : MW unit :=
  m_utilObj_ (c ← m_cngObj_getConfig; msec_sleep (rebootTmout c)).

(** [Global::reboot]. *)
Definition reboot : MW unit :=
  res ← call CRebootCmd;
  let failed := match res with ForkFailed => true | ChildStatus st => negb (st =? 0) end in
  (if failed then sleep_reboot else mret tt);;
  exit EXIT_FAILURE.

(** [componentReportError] of the HA object. *)
Definition componentReportError (r : Recovery) : MW bool := call (CReport r).

(** What [nodefailOver] and [nodefailFast] do after the shutdown. *)
Definition recover (r : Recovery) : MW unit :=
  ha ← global m_haObj;
  (if (ha : bool) then
     ok ← componentReportError r;
     if (ok : bool) then sleep_reboot else mret tt
   else mret tt);;
  reboot.

(** [HA_AGENT_RoleMgr::shutDown_all], over the [nodefailOver] it calls. *)
Definition shutDown_all_ (nodefailOver : MW unit) : MW unit :=
  rm ← this;
  (if m_startJobsDone rm then
     r ← StopJobs;
     if r <? 0 then
       ha ← global m_haMode;
       (if (ha : bool) then nodefailOver else mret tt);;
       exit EXIT_FAILURE
     else mret tt
   else mret tt);;
  assign (set_tasksDone false);;
  set_this (set_startJobsDone false).

(** The shutdown only runs where there is a role manager. *)
Definition shutdown_if_any (sd : MW unit) : MW unit :=
  o ← global m_rMgrObj;
  match o with Some _ => sd | None => mret tt end.

(** [Global::nodefailOver]. *)
Fixpoint nodefailOver (fuel : nat) : MW unit :=
  match fuel with
  | O => nofuel
  | S fuel =>
      shutdown_if_any (shutDown_all_ (nodefailOver fuel));;
      recover NODE_FAILOVER
  end.

Definition shutDown_all (fuel : nat) : MW unit := shutDown_all_ (nodefailOver fuel).

(** [Global::nodefailFast]. *)
Definition nodefailFast (fuel : nat) : MW unit :=
  shutdown_if_any (shutDown_all fuel);;
  recover NODE_FAILFAST.

(** [Global::compRestart]. *)
Definition compRestart (fuel : nat) : MW unit :=
  shutdown_if_any (shutDown_all fuel);;
  assign (set_compRestart true).

(** [HA_AGENT_Utils::forceExit]. *)
Definition forceExit (fuel : nat) : MW unit :=
  ha ← global m_haMode;
  (if (ha : bool) then nodefailOver fuel else mret tt);;
  exit EXIT_FAILURE.

(** The idiom of the daemon on a fatal fault: fail over in HA mode, exit
    otherwise (and if the fail-over returned). *)
Definition fail_over_or_exit {A} (fuel : nat) : MW A :=
  ha ← global m_haMode;
  (if (ha : bool) then nodefailOver fuel else mret tt);;
  exit EXIT_FAILURE.

(** [Global::deactivate], with [reset]. *)
Definition reset (g : GlobalT) : GlobalT :=
  mkGlobal false false false false HA_UNDEFINED
    (m_rMgrObj g) (m_utilObj g) (m_pwrOffObj g) (m_cngObj g) (m_haObj g).
Definition deactivate : MW unit :=
  assign (set_cngObj None);;
  assign (set_utilObj None);;
  assign (set_pwrOffObj None);;
  assign (set_rMgrObj None);;
  assign reset.

(** [Global::getHAState]. *)
Definition getHAState : MW HAState :=
  ha ← global m_haObj;
  if (ha : bool) then gets (ha_state ∘ w_ha) else mret HA_UNDEFINED.
End failover.

(** ** Properties *)

Lemma this_frame `{E : Env} R `{!QueryFrame R} : steps R this.
Proof. unfold this. solve_steps. Qed.
#[export] Hint Resolve this_frame : steps.

Section failover_frames.
Context `{E : Env} {R : relation World} `{!CoreFrame R}.

Lemma StopJobs_frame : steps R StopJobs.
Proof. unfold StopJobs, on_drbd, this, set_this. solve_steps. Qed.
Hint Resolve StopJobs_frame : steps.

Lemma sleep_reboot_frame : steps R sleep_reboot.
Proof. unfold sleep_reboot, m_cngObj_getConfig, m_utilObj_. solve_steps. Qed.
Hint Resolve sleep_reboot_frame : steps.

Lemma recover_frame r : steps R (recover r).
Proof. unfold recover, reboot, componentReportError. solve_steps. Qed.
Hint Resolve recover_frame : steps.

Lemma shutDown_all__frame m : steps R m → steps R (shutDown_all_ m).
Proof. intros Hm. unfold shutDown_all_, this, set_this. solve_steps. Qed.
Hint Resolve shutDown_all__frame : steps.

Lemma nodefailOver_frame fuel : steps R (nodefailOver fuel).
Proof. induction fuel; cbn [nodefailOver]; unfold shutdown_if_any; solve_steps. Qed.
Hint Resolve nodefailOver_frame : steps.

Lemma shutDown_all_frame fuel : steps R (shutDown_all fuel).
Proof. unfold shutDown_all. solve_steps. Qed.
Hint Resolve shutDown_all_frame : steps.

Lemma compRestart_frame fuel : steps R (compRestart fuel).
Proof. unfold compRestart, shutdown_if_any. solve_steps. Qed.

Lemma fail_over_or_exit_frame {A} fuel : steps R (fail_over_or_exit fuel : MW A).
Proof. unfold fail_over_or_exit. solve_steps. Qed.
End failover_frames.

#[export] Hint Resolve StopJobs_frame nodefailOver_frame shutDown_all_frame compRestart_frame
  fail_over_or_exit_frame : steps.

(** No run of [m] returns to its caller. *)
Definition no_return {A} (m : MW A) : Prop := ∀ s a, (m s).1 ≠ Val a.

Lemma no_return_bind {A B} (m : MW A) (k : A → MW B) :
  (∀ a, no_return (k a)) → no_return (m ≫= k).
Proof.
  intros Hk s b. unfold mbind, M_bind. destruct (m s) as [[a|c| |] s']; try done. apply Hk.
Qed.

Lemma no_return_run {A} (m : MW A) s a s' : no_return m → m s = (Val a, s') → False.
Proof. intros Hm H. apply (Hm s a). by rewrite H. Qed.

Section failover_props.
Context `{E : Env}.

Lemma recover_no_return r : no_return (recover r).
Proof. do 2 (apply no_return_bind; intros ?). unfold reboot. do 2 (apply no_return_bind; intros ?). done. Qed.

(** A fail-over never returns to its caller. *)
Lemma nodefailOver_no_return fuel : no_return (nodefailOver fuel).
Proof.
  destruct fuel as [|fuel]; [done|]. cbn [nodefailOver].
  apply no_return_bind. intros _. apply recover_no_return.
Qed.

Lemma fail_over_or_exit_no_return {A} fuel : no_return (fail_over_or_exit fuel : MW A).
Proof. do 2 (apply no_return_bind; intros ?). done. Qed.

(** ** A fail-over that ends *)

(** The objects a fail-over uses. *)
Record ready (s : World) (u : UtilsT) (c : ConfigT) : Prop := {
  ready_util : m_utilObj (w_glob s) = Some u;
  ready_cng : m_cngObj (w_glob s) = Some c
}.

Lemma sleep_reboot_spec s u c :
  ready s u c → ∃ x, sleep_reboot s = (Val tt, push (Ev (CSleep (rebootTmout c)) x) s).
Proof.
  intros [Hu Hc]. unfold sleep_reboot, m_utilObj_, m_cngObj_getConfig, msec_sleep, call.
  exists (answer (w_trace s) (CSleep (rebootTmout c))).
  unfold global, gets, mbind, M_bind. simpl. rewrite Hu. simpl. rewrite Hc. simpl.
  by destruct (answer (w_trace s) (CSleep (rebootTmout c))).
Qed.

Lemma reboot_spec s u c :
  ready s u c → wp reboot (λ o s', o = Exited EXIT_FAILURE ∧ since s s' (did CRebootCmd)) s.
Proof.
  intros Hr. unfold reboot. wp_auto.
  destruct (match r with ForkFailed => true | ChildStatus st => negb (st =? 0) end); wp_auto.
  - destruct (sleep_reboot_spec (push (Ev CRebootCmd r) s) u c) as [x Hx]; [by destruct Hr|].
    unfold wp. rewrite Hx. split; [done|]. eexists [_; _]. split; [done|]. apply did_cons. right.
    apply did_cons. by left.
  - apply wp_exit. split; [done|]. apply since_push, did_cons. by left.
Qed.

(** The recovery is requested from AMF where there is an HA object, then the node
    is rebooted, and the process exits with [EXIT_FAILURE]. *)
Lemma recover_spec r s u c :
  ready s u c →
  wp (recover r) (λ o s', o = Exited EXIT_FAILURE ∧
    since s s' (λ new, did CRebootCmd new ∧ (m_haObj (w_glob s) = true → did (CReport r) new))) s.
Proof.
  intros Hr.
  assert (Hboot : ∀ s1, ready s1 u c → since s s1 (λ new, m_haObj (w_glob s) = true → did (CReport r) new) →
    wp reboot (λ o s', o = Exited EXIT_FAILURE ∧
      since s s' (λ new, did CRebootCmd new ∧ (m_haObj (w_glob s) = true → did (CReport r) new))) s1).
  { intros s1 Hr1 Hs. eapply wp_mono; [by eapply reboot_spec|]. intros o s2 [-> H2]. split; [done|].
    eapply since_trans; [exact Hs|exact H2|]. intros n1 n2 H1 H3. rewrite !did_app. naive_solver. }
  unfold recover, componentReportError. wp_auto. destruct (m_haObj (w_glob s)) eqn:Hha; wp_auto.
  2: { apply Hboot; [done|]. by apply since_refl. }
  destruct r0; wp_auto.
  - destruct (sleep_reboot_spec (push (Ev (CReport r) true) s) u c) as [x Hx]; [by destruct Hr|].
    unfold wp. rewrite Hx. cbn [fst snd thenQ]. apply Hboot; [by destruct Hr|].
    eexists [_; _]. split; [done|]. rewrite !did_cons. auto.
  - apply Hboot; [by destruct Hr|]. apply since_push. rewrite did_cons. auto.
Qed.

(** A role manager whose start jobs are done, and a system in which every command
    ends with [st]. *)
Record started (s : World) (u : UtilsT) (c : ConfigT) (rm : RoleMgrT) : Prop := {
  started_ready : ready s u c;
  started_rm : m_rMgrObj (w_glob s) = Some rm;
  started_done : m_startJobsDone rm = true;
  started_drbd : is_Some (m_drbdObj rm)
}.

Definition all_exec (st : Z) : Prop := ∀ t cmd a, answer t (CExec cmd a) = ChildStatus st.

Lemma exec_cmd_all st cmd s :
  all_exec st → utils_ready s →
  wp (exec_cmd cmd) (valQ (λ r s', r = (if st =? 0 then 0 else -1) ∧ ∃ a, s' =
    push (Ev (CExec (snprintf APOS_HA_CMD_LEN cmd) a) (ChildStatus st)) s)) s.
Proof.
  intros Hall Hu. apply wp_Utils_; [done|]. unfold _execlp. wp_auto. rewrite Hall in H. subst r.
  wp_auto. eauto.
Qed.

(** The commands of [drbdStopJobs] only add to the history. *)
Lemma drbdStopJobs_all st d s :
  all_exec st → utils_ready s →
  wp (drbdStopJobs d) (valQ (λ rd s', rd.1 = (if st =? 0 then 0 else -1) ∧ w_glob s' = w_glob s
    ∧ since s s' (λ new, ∀ c, did c new → ∃ cmd a, c = CExec cmd a))) s.
Proof.
  intros Hall Hu.
  assert (Hd1 : ∀ cmd a (r : resp (CExec cmd a)) c n, (∀ c, did c n → ∃ cmd a, c = CExec cmd a) →
    did c (Ev (CExec cmd a) r :: n) → ∃ cmd a, c = CExec cmd a).
  { intros cmd a r c n Hn. rewrite did_cons. intros [->|Hc]; eauto. }
  assert (Hd0 : ∀ c, did c [] → ∃ cmd a, c = CExec cmd a) by (intros c Hc; by apply did_nil in Hc).
  unfold drbdStopJobs, disable, usetMipAddrs, aposJobs. cbn [m_aposOpts set_aposOpts].
  wp_auto. eapply wp_valQ_mono; [by apply exec_cmd_all|]. intros r s1 [-> [a1 ->]].
  destruct (st =? 0) eqn:Hst; wp_auto.
  2: { split; [done|]. split; [done|]. apply since_push. intros c. by apply Hd1. }
  do 3 (eapply wp_valQ_mono; [by apply exec_cmd_all|]; intros ? ? [-> [? ->]];
    rewrite ?Hst; wp_auto).
  split; [done|]. split; [done|]. eexists [_; _; _; _]. split; [done|].
  by intros c; apply Hd1; intros c1; apply Hd1; intros c2; apply Hd1; intros c3; apply Hd1.
Qed.

Lemma StopJobs_all st s u c rm :
  all_exec st → started s u c rm →
  wp StopJobs (valQ (λ r s', r = (if st =? 0 then 0 else -1) ∧ (∃ rm', started s' u c rm')
    ∧ m_haMode (w_glob s') = m_haMode (w_glob s) ∧ m_haObj (w_glob s') = m_haObj (w_glob s)
    ∧ since s s' (λ new, ∀ c, did c new → ∃ cmd a, c = CExec cmd a))) s.
Proof.
  intros Hall [[Hu Hc] Hrm Hdone [d Hd]]. unfold StopJobs, on_drbd, this, set_this. wp_auto.
  rewrite Hrm. wp_auto. rewrite Hd. wp_auto.
  eapply wp_valQ_mono; [apply (drbdStopJobs_all st); [done|by exists u]|].
  intros [r d'] s1 (Hr & Hg & Hnew). cbn [fst] in Hr. subst r. wp_auto.
  split; [by destruct (st =? 0)|]. cbn [w_glob set_glob set_rMgrObj m_haMode m_haObj]. rewrite Hg.
  split; [|done]. exists (set_drbdObj (Some d') rm).
  split; [split| | |]; simpl; rewrite ?Hg, ?Hrm; eauto.
Qed.

(** C22: When the stop commands succeed, a fail-over stops the node, requests the
    fail-over from AMF (where the daemon has registered), reboots, and ends the
    process with [EXIT_FAILURE]; one level of recursion is enough. *)
Theorem nodefailOver_reboots fuel s u c rm :
  all_exec 0 → started s u c rm →
  wp (nodefailOver (S fuel)) (λ o s', o = Exited EXIT_FAILURE ∧
    since s s' (λ new, did CRebootCmd new
      ∧ (m_haObj (w_glob s) = true → did (CReport NODE_FAILOVER) new))) s.
Proof.
  intros Hall Hs. pose proof Hs as [_ Hrm Hdone _].
  cbn [nodefailOver]. unfold shutdown_if_any, shutDown_all_, this. wp_auto. rewrite Hrm. wp_auto.
  rewrite Hrm. wp_auto. rewrite Hdone. wp_auto.
  apply run_wp. intros o s1 Hrun.
  pose proof (wp_run _ _ _ _ _ (StopJobs_all 0 s u c rm Hall Hs) Hrun) as H1.
  destruct o as [r| | |]; try done. destruct H1 as (-> & (rm1 & [[Hu1 Hc1] Hrm1 _ _]) & _ & Hha & H1).
  cbn [thenQ]. change (0 =? 0) with true. wp_auto. unfold set_this. wp_auto.
  eapply wp_mono; [apply (recover_spec _ _ u c); by split|]. intros o s2 [-> H2]. split; [done|].
  cbn in H2. rewrite Hha in H2.
  eapply since_trans; [exact H1|exact H2|]. intros n1 n2 _ [Hb Hrep]. rewrite !did_app. naive_solver.
Qed.

(** C23: When the stop commands keep failing in HA mode, a fail-over neither
    requests the recovery nor reboots: [shutDown_all] answers the failure with
    another fail-over, without end. *)
Theorem nodefailOver_diverges fuel st s u c rm :
  all_exec st → st ≠ 0 → started s u c rm → m_haMode (w_glob s) = true →
  wp (nodefailOver fuel) (λ o s', o = NoFuel ∧
    since s s' (λ new, ¬ did CRebootCmd new ∧ ¬ did (CReport NODE_FAILOVER) new)) s.
Proof.
  intros Hall Hst. revert s rm. induction fuel as [|fuel IH]; intros s rm Hs Hha; cbn [nodefailOver].
  { split; [done|]. apply since_refl. split; apply did_nil. }
  pose proof Hs as [_ Hrm Hdone _]. unfold shutdown_if_any, shutDown_all_, this. wp_auto.
  rewrite Hrm. wp_auto. rewrite Hrm. wp_auto. rewrite Hdone. wp_auto.
  apply run_wp. intros o s1 Hrun.
  pose proof (wp_run _ _ _ _ _ (StopJobs_all st s u c rm Hall Hs) Hrun) as H1.
  destruct o as [r| | |]; try done. destruct H1 as (-> & (rm1 & Hs1) & Hm1 & _ & H1).
  cbn [thenQ]. rewrite (proj2 (Z.eqb_neq st 0) Hst). wp_auto. rewrite Hm1, Hha. wp_auto.
  eapply wp_mono; [apply (IH _ rm1 Hs1); by rewrite Hm1|]. intros o s2 [-> H2]. cbn [thenQ]. split; [done|].
  eapply since_trans; [exact H1|exact H2|]. intros n1 n2 Hn1 [Hb Hrep]. rewrite !did_app.
  split; (intros [?|Hd]; [done|]); destruct (Hn1 _ Hd) as (? & ? & [=]).
Qed.
End failover_props.

(** A daemon that has been started. *)
Definition exConfig : ConfigT := dfltConfig None.
Definition exRoleMgr : RoleMgrT :=
  mkRoleMgr true true true true (Some (mkDRBDMgr None false)) true true None true 5 true false.
Definition exGlobal : GlobalT :=
  mkGlobal false true true false HA_ACTIVE (Some exRoleMgr) (Some newUtils) None (Some exConfig) true.
Definition exWorld : World := mkWorld [] exGlobal false None None (mkLog false 0) newHa.

Definition failing (st : Z) : Env :=
  {| answer := λ _ c, match c with CExec _ _ => ChildStatus st | c => dflt c end |}.

Lemma exStarted : started exWorld newUtils exConfig exRoleMgr.
Proof. split; [split| | |]; done. Qed.

Lemma nodefailOver_reboots_witness :
  all_exec (E:=calm) 0 ∧ started exWorld newUtils exConfig exRoleMgr ∧
  wp (nodefailOver (E:=calm) 1) (λ o s', o = Exited EXIT_FAILURE ∧
    since exWorld s' (λ new, did CRebootCmd new
      ∧ (m_haObj (w_glob exWorld) = true → did (CReport NODE_FAILOVER) new))) exWorld.
Proof.
  split; [done|]. split; [exact exStarted|].
  apply (nodefailOver_reboots (E:=calm) 0 exWorld newUtils exConfig exRoleMgr);
    [done|exact exStarted].
Defined.

Lemma nodefailOver_diverges_witness :
  all_exec (E:=failing 1) 1 ∧ started exWorld newUtils exConfig exRoleMgr ∧
  wp (nodefailOver (E:=failing 1) 100) (λ o s', o = NoFuel ∧
    since exWorld s' (λ new, ¬ did CRebootCmd new ∧ ¬ did (CReport NODE_FAILOVER) new)) exWorld.
Proof.
  split; [done|]. split; [exact exStarted|].
  apply (nodefailOver_diverges (E:=failing 1) 100 1 exWorld newUtils exConfig exRoleMgr);
    [done|done|exact exStarted|done].
Defined.
