(* ===== verification/DrbdMon.v ===== *)
(** * DRBD monitor

    [HA_AGENT_DRBDMon]: the thread that looks at the state of DRBD on every tick
    of a timer, saves the connection state in the persistent file, and fails the
    node over when DRBD is not there.  Both the active and the standby part of the
    daemon have such an object, which its thread, the timer and the owner share: the
    functions are written over a reference to it. *)

From S2P Require Import Prelude CString Types World LogTrace Config Utils PowerOff DrbdMgr Failover.

Open Scope Z_scope.

Definition set_dm_reactor (b : bool) (d : DRBDMonT) : DRBDMonT :=
  mkDRBDMon (dm_reactorRunner d) b (m_timerid d) (m_rebuildInProgress d).
Definition set_dm_runner (b : bool) (d : DRBDMonT) : DRBDMonT :=
  mkDRBDMon b (dm_reactor d) (m_timerid d) (m_rebuildInProgress d).
Definition set_timerid (t : Z) (d : DRBDMonT) : DRBDMonT :=
  mkDRBDMon (dm_reactorRunner d) (dm_reactor d) t (m_rebuildInProgress d).

(** [setRebuildInProgress]: each call turns the flag over. *)
Definition setRebuildInProgress (d : DRBDMonT) : DRBDMonT :=
  mkDRBDMon (dm_reactorRunner d) (dm_reactor d) (m_timerid d) (negb (m_rebuildInProgress d)).

(** A place that holds a monitor: reading the object (the pointer may be null) and
    assigning to its members. *)
Record DMRef `{Env} := mkDMRef {
  dm_get : MW DRBDMonT;
  dm_put : (DRBDMonT → DRBDMonT) → MW unit
}.

(** What the monitor relies on: the accesses stay within the shared memory. *)
Class DMPlace `{Env} (o : DMRef) : Prop := {
  dm_get_frame : ∀ R `{!CoreFrame R}, steps R (dm_get o);
  dm_put_frame : ∀ R `{!CoreFrame R} f, steps R (dm_put o f)
}.
#[export] Hint Resolve dm_get_frame dm_put_frame : steps.
#[export] Hint Extern 0 (DMPlace _) => apply _ : steps.

(** The monitor of the role manager. *)
Definition rm_monitor `{E : Env} : DMRef := {|
  dm_get := rm ← this; deref (m_DMObj rm);
  dm_put f := set_this (λ r, set_DMObj (f <$> m_DMObj r) r)
|}.

#[export] Instance rm_monitor_place `{E : Env} : DMPlace rm_monitor.
Proof. split; intros; unfold rm_monitor, this, set_this; simpl; solve_steps. Qed.

(** The states in which a standby node is connected or being synchronised. *)
Definition linked (cs : string) : bool :=
  streq cs "Connected" || streq cs "SyncTarget" || streq cs "PausedSyncT"
  || streq cs "StartingSyncT".

Definition MAX_ATTEMPTS : Z := 3.

Section drbdmon.
Context `{E : Env}.

(** [open]. *)
Definition drbdmon_open : MW Z :=
  ok ← call (CActivate "drbdmon");
  mret (if (ok : bool) then 0 else -1).

(** The loop that reconnects a standby node that is [StandAlone]; [n] bounds the
    rounds, and the result is [Counter]. *)
Fixpoint reconnect (n : nat) (Counter : Z) : MW Z :=
  if Counter =? MAX_ATTEMPTS then mret Counter else
  match n with
  | O => nofuel
  | S n =>
      r ← activate;
      if r =? 0 then mret Counter else
      Utils_ (msec_sleep 1000);;
      reconnect n (u32 (Counter + 1))
  end.

(** [superviseDRBD]: the state of the peer is only asked for when that of the
    node could not be read. *)
Definition superviseDRBD (fuel : nat) : MW Z :=
  '(r, info) ← PWROff_ (λ _, drbdinfo);
  '(ok, peer) ←
    (if r =? 0 then mret (true, DRBD_zero) else
     '(r, peer) ← PWROff_ (λ _, peerdrbdinfo);
     mret (r =? 0, peer));
  if negb ok then mret (-1) else
  if negb (isConfigured info) then fail_over_or_exit fuel else
  ha ← getHAState;
  if bool_decide (ha = HA_STANDBY) && negb (linked (cstate info))
     && streq (role peer) "Unknown" && streq (dstate peer) "DUnknown" then
    Utils_ (msec_sleep 60000);;
    fail_over_or_exit fuel
  else
  ha ← getHAState;
  if bool_decide (ha = HA_STANDBY) && streq (cstate info) "StandAlone"
     && streq (role info) "Secondary" then
    Counter ← reconnect 2 1;
    (if MAX_ATTEMPTS <? Counter then
       mode ← global m_haMode;
       if (mode : bool) then nodefailOver fuel;; exit EXIT_FAILURE else mret tt
     else mret tt);;
    mret 0
  else
    pInfo ← PWROff_ get_persis_info;
    (if negb (streq (cstate info) "WFConnection") then
       cs ← strcpy STATE (cstate info);
       PWROff_ (λ p, write_persis_info p (mkPInfo cs (p_rebootCount pInfo)))
     else mret tt);;
    mret 0.

Context (o : DMRef).

(** The timer is scheduled in whole seconds, on [m_reactor]. *)
Definition schedule_timer : MW Z :=
  cfg ← getConfig;
  d ← dm_get o;
  (if dm_reactor d then mret tt else undef);;
  ok ← call (CTimer "schedule" (drbdSupervisionIntvl cfg / APOS_HA_ONESEC_IN_MILLI));
  dm_put o (set_timerid (if (ok : bool) then 0 else -1));;
  mret (if (ok : bool) then 0 else -1).

(** [init]. *)
Definition drbdmon_init : MW Z :=
  r ← call (CNew "ACE_Reactor");
  dm_put o (set_dm_reactor r);;
  if negb r then mret (-1) else
  n ← call (CNew "APOS_HA_ReactorRunner");
  dm_put o (set_dm_runner n);;
  if negb n then mret (-1) else
  ok ← call (CActivate "drbdmon reactor");
  if negb ok then mret (-1) else
  schedule_timer.

(** The loop of [svc]: [fuel] bounds the messages. *)
Fixpoint drbdmon_loop (fuel : nat) : MW unit :=
  match fuel with
  | O => nofuel
  | S n =>
      mb ← call (CGetq "drbdmon");
      match mb with
      | None => mret tt
      | Some ty =>
          if ty =? DRBDMON_CLOSE then mret tt
          else if ty =? DRBDMON_TIMEOUT then
            d ← dm_get o;
            (if m_rebuildInProgress d then mret tt else _ ← superviseDRBD fuel; mret tt);;
            drbdmon_loop n
          else mret tt
      end
  end.

(** [svc]. *)
Definition drbdmon_svc (fuel : nat) : MW Z :=
  r ← drbdmon_init;
  if r <? 0 then
    mode ← global m_haMode;
    (if (mode : bool) then compRestart fuel else mret tt);;
    exit EXIT_FAILURE
  else
    drbdmon_loop fuel;;
    mret 0.

(** [close]: the reactor is used unchecked. *)
Definition drbdmon_close : MW Z :=
  d ← dm_get o;
  (if dm_reactor d then mret tt else undef);;
  _ ← call (CTimer "cancel" (m_timerid d));
  mb ← call (CNew "ACE_Message_Block");
  if negb mb then mret (-1) else
  ok ← call (CPutq "drbdmon" DRBDMON_CLOSE);
  mret (if (ok : bool) then 0 else -1).

(** [close(u_long)]. *)
Definition drbdmon_closed : MW Z :=
  d ← dm_get o;
  (if dm_reactorRunner d then
     _ ← call (CRemove "drbdmon reactor");
     dm_put o (set_dm_runner false)
   else mret tt);;
  dm_put o (set_dm_reactor false);;
  mret 0.

(** [handle_timeout]. *)
Definition handle_timeout : MW Z :=
  mb ← call (CNew "ACE_Message_Block");
  (if (mb : bool) then _ ← call (CPutq "drbdmon" DRBDMON_TIMEOUT); mret tt else mret tt);;
  schedule_timer.
End drbdmon.

(** ** Properties *)

Section drbdmon_frames.
Context `{E : Env} {R : relation World} `{!Frame R} (o : DMRef) `{!DMPlace o}.

Lemma drbdmon_open_frame : steps R drbdmon_open.
Proof. unfold drbdmon_open. solve_steps. Qed.

Lemma schedule_timer_frame : steps R (schedule_timer o).
Proof. unfold schedule_timer. solve_steps. Qed.
Hint Resolve schedule_timer_frame : steps.

Lemma drbdmon_init_frame : steps R (drbdmon_init o).
Proof. unfold drbdmon_init. solve_steps. Qed.
Hint Resolve drbdmon_init_frame : steps.

Lemma reconnect_frame n c : steps R (reconnect n c).
Proof. revert c. induction n as [|n IH]; intros c; cbn [reconnect]; solve_steps. Qed.
Hint Resolve reconnect_frame : steps.

Lemma superviseDRBD_frame fuel : steps R (superviseDRBD fuel).
Proof. unfold superviseDRBD, getHAState. solve_steps. Qed.
Hint Resolve superviseDRBD_frame : steps.

Lemma drbdmon_loop_frame fuel : steps R (drbdmon_loop o fuel).
Proof. induction fuel as [|fuel IH]; cbn [drbdmon_loop]; solve_steps. Qed.
Hint Resolve drbdmon_loop_frame : steps.

Lemma drbdmon_svc_frame fuel : steps R (drbdmon_svc o fuel).
Proof. unfold drbdmon_svc. solve_steps. Qed.

Lemma drbdmon_close_frame : steps R (drbdmon_close o).
Proof. unfold drbdmon_close. solve_steps. Qed.

Lemma handle_timeout_frame : steps R (handle_timeout o).
Proof. unfold handle_timeout. solve_steps. Qed.
End drbdmon_frames.

#[export] Hint Resolve drbdmon_open_frame drbdmon_init_frame superviseDRBD_frame
  drbdmon_svc_frame drbdmon_close_frame handle_timeout_frame : steps.

Section drbdmon_props.
Context `{E : Env}.

(** [PWROff()] with the object in place. *)
Lemma PWROff__run {A} (f : PWROffT → MW A) p s :
  m_pwrOffObj (w_glob s) = Some p → PWROff_ f s = f p s.
Proof. intros Hp. unfold PWROff_, PWROff, global, gets, mbind, M_bind. simpl. by rewrite Hp. Qed.

(** The loop ends within its two rounds, and never beyond [MAX_ATTEMPTS]. *)
Lemma reconnect_spec s :
  utils_ready s →
  wp (reconnect 2 1) (valQ (λ c s', c ≤ MAX_ATTEMPTS ∧ mem_of s' = mem_of s)) s.
Proof.
  assert (Hact : ∀ s1, utils_ready s1 → wp activate (valQ (λ _ s', mem_of s' = mem_of s1)) s1).
  { intros s1 H1. eapply wp_valQ_mono; [by apply exec_cmd_spec|]. by intros r s2 (e & b & -> & _). }
  assert (Hsl : ∀ s1, utils_ready s1 →
    wp (Utils_ (msec_sleep 1000)) (valQ (λ _ s', mem_of s' = mem_of s1)) s1).
  { intros s1 H1. apply wp_Utils_; [done|]. unfold msec_sleep. by wp_auto. }
  assert (Hk : ∀ s1 s2 : World, mem_of s2 = mem_of s1 → utils_ready s1 → utils_ready s2).
  { intros s1 s2 [= Hg _ _ _ _]. unfold utils_ready. by rewrite Hg. }
  intros Hs. cbn [reconnect].
  change (1 =? MAX_ATTEMPTS) with false. change (u32 (1 + 1) =? MAX_ATTEMPTS) with false.
  change (u32 (u32 (1 + 1) + 1) =? MAX_ATTEMPTS) with true.
  wp_auto. eapply wp_valQ_mono; [by apply Hact|]. intros r s1 E1. assert (utils_ready s1) by exact (Hk s s1 ltac:(done) ltac:(done)).
  destruct (r =? 0); wp_auto; [done|].
  eapply wp_valQ_mono; [by apply Hsl|]. intros ? s2 E2. assert (utils_ready s2) by exact (Hk s1 s2 ltac:(done) ltac:(done)).
  wp_auto. eapply wp_valQ_mono; [by apply Hact|]. intros r3 s3 E3. assert (utils_ready s3) by exact (Hk s2 s3 ltac:(done) ltac:(done)).
  destruct (r3 =? 0); wp_auto; [split; [done|congruence]|].
  eapply wp_valQ_mono; [by apply Hsl|]. intros ? s4 E4. wp_auto. split; [done|congruence].
Qed.

Lemma get_persis_info_run p s :
  w_psst s = Some p → (String.length (p_cstate p) < STATE)%nat →
  get_persis_info (mkPWROff Mapped) s = (Val p, s).
Proof.
  intros Hp Hl. unfold get_persis_info, gets, mbind, M_bind. cbn. rewrite Hp. cbn.
  rewrite (strcpy_fits _ _ s Hl). by destruct p.
Qed.

(** A standby node that has lost its connection. *)
Definition alone (ha : HAState) (i : DRBD_InfoT) : bool :=
  bool_decide (ha = HA_STANDBY) && streq (cstate i) "StandAlone" && streq (role i) "Secondary".

Definition ha_of (s : World) : HAState :=
  if m_haObj (w_glob s) then ha_state (w_ha s) else HA_UNDEFINED.

Lemma getHAState_run s : getHAState s = (Val (ha_of s), s).
Proof.
  unfold getHAState, ha_of, global, gets, mbind, M_bind. simpl. by destruct (m_haObj (w_glob s)).
Qed.

(** As long as the local DRBD answers, a supervision round returns normally
    whatever the state of the peer: it saves the connection state next to the
    reboot count, except when DRBD is waiting for a connection and when a
    standby node is alone, and never fails over. *)
Theorem superviseDRBD_saves fuel s s1 info p :
  m_pwrOffObj (w_glob s) = Some (mkPWROff Mapped) → utils_ready s →
  w_psst s = Some p → (String.length (p_cstate p) < STATE)%nat →
  drbdinfo s = (Val (0, info), s1) →
  wp (superviseDRBD fuel) (valQ (λ r s', r = 0 ∧ w_glob s' = w_glob s ∧
    w_psst s' = Some (if alone (ha_of s) info || streq (cstate info) "WFConnection" then p
                      else mkPInfo (cstate info) (p_rebootCount p)))) s.
Proof.
  intros Hp Hu Hps Hlen Hinfo.
  pose proof (proj1 drbdinfo_asks s Hu) as Hmem. rewrite Hinfo in Hmem.
  injection Hmem as Hg _ _ Hq Hh.
  destruct (wp_run _ _ _ _ _ (drbdinfo_spec s) Hinfo _ _ eq_refl) as ((Hfit & _ & _) & Hconf & _).
  assert (Hha : ha_of s1 = ha_of s) by (unfold ha_of; by rewrite Hg, Hh).
  unfold superviseDRBD. apply wp_valQ_bind. unfold wp at 1. rewrite (PWROff__run _ _ _ Hp), Hinfo.
  cbn [fst snd valQ]. change (0 =? 0) with true. wp_auto. rewrite (proj2 Hconf eq_refl).
  cbn [negb]. wp_auto. unfold wp at 1. rewrite getHAState_run. cbn [fst snd valQ role dstate DRBD_zero].
  rewrite andb_false_r. cbn [andb]. wp_auto. unfold wp at 1. rewrite getHAState_run.
  cbn [fst snd valQ]. rewrite Hha. fold (alone (ha_of s) info).
  destruct (alone (ha_of s) info); cbn [orb].
  - wp_auto. eapply wp_valQ_mono; [apply reconnect_spec; unfold utils_ready; by rewrite Hg|].
    intros c s2 [Hc [= Hg2 _ _ Hq2 _]]. destruct (Z.ltb_spec MAX_ATTEMPTS c); [lia|]. wp_auto.
    split; [done|]. split; congruence.
  - wp_auto. unfold wp at 1. rewrite (PWROff__run _ (mkPWROff Mapped)) by congruence.
    rewrite (get_persis_info_run p) by congruence. cbn [fst snd valQ].
    destruct (streq (cstate info) "WFConnection"); cbn [negb]; wp_auto.
    { split; [done|]. split; congruence. }
    unfold wp at 1. rewrite (strcpy_fits _ _ s1 Hfit). cbn [fst snd valQ]. unfold wp at 1.
    rewrite (PWROff__run _ (mkPWROff Mapped)) by congruence.
    unfold write_persis_info. cbn [m_map p_cstate p_rebootCount].
    rewrite (bind_Val _ _ _ _ _ (strcpy_fits _ _ s1 Hfit)). by cbn.
Qed.

(** When the local DRBD does not answer, the round asks for the peer's state:
    if that is known the daemon fails over or exits, and does not return; if it is
    not known either, the round ends with an error and changes nothing. *)
Theorem superviseDRBD_lost fuel s s1 s2 r info r' peer :
  is_Some (m_pwrOffObj (w_glob s)) → utils_ready s →
  drbdinfo s = (Val (r, info), s1) → r ≠ 0 → peerdrbdinfo s1 = (Val (r', peer), s2) →
  if r' =? 0 then ∀ a, (superviseDRBD fuel s).1 ≠ Val a
  else superviseDRBD fuel s = (Val (-1), s2) ∧ mem_of s2 = mem_of s.
Proof.
  intros [p Hp] Hu Hinfo Hr Hpeer.
  pose proof (proj1 drbdinfo_asks s Hu) as Hm1. rewrite Hinfo in Hm1.
  injection Hm1 as Hg Hl Hf Hq Hh. cbn [snd] in *.
  pose proof (proj2 drbdinfo_asks s1) as Hm2. rewrite Hpeer, Hg in Hm2. specialize (Hm2 Hu).
  destruct (wp_run _ _ _ _ _ (drbdinfo_spec s) Hinfo _ _ eq_refl) as (_ & Hconf & _).
  unfold superviseDRBD. rewrite <-(PWROff__run (λ _, drbdinfo) p s Hp) in Hinfo.
  rewrite (bind_Val _ _ _ _ _ Hinfo). rewrite (proj2 (Z.eqb_neq r 0) Hr).
  rewrite <-(PWROff__run (λ _, peerdrbdinfo) p s1) in Hpeer by congruence.
  assert (Hmid : ('(r, peer) ← PWROff_ (λ _, peerdrbdinfo); mret (r =? 0, peer)) s1
    = (Val (r' =? 0, peer), s2)) by (by rewrite (bind_Val _ _ _ _ _ Hpeer)).
  rewrite (bind_Val _ _ _ _ _ Hmid). destruct (r' =? 0); cbn [negb].
  - destruct (isConfigured info); [by destruct Hr, Hconf; auto|].
    intros a. apply fail_over_or_exit_no_return.
  - split; [done|]. unfold keeps in Hm2. cbn [snd] in Hm2. rewrite Hm2. unfold mem_of. congruence.
Qed.
End drbdmon_props.

(** A node whose DRBD answers every query with [SyncSource], one whose DRBD does
    not answer, and one that only knows its peer. *)
Definition exMonitored : World :=
  mkWorld [] (mkGlobal false true true false HA_ACTIVE (Some exRoleMgr) (Some newUtils)
                (Some (mkPWROff Mapped)) (Some exConfig) true)
    false None (Some (mkPInfo "Connected" 2)) (mkLog false 0) newHa.

Definition drbd_says (text : option string) : Env :=
  {| answer := λ _ c, match c with CPopen _ => text | c => dflt c end |}.

Lemma superviseDRBD_saves_witness :
  let E := drbd_says (Some (String.append "SyncSource" (String "010" EmptyString))) in
  w_psst (superviseDRBD (E:=E) 0 exMonitored).2 = Some (mkPInfo "SyncSource" 2).
Proof.
  intros E.
  assert (H : wp (superviseDRBD (E:=E) 0) (valQ (λ r s', r = 0 ∧ w_glob s' = w_glob exMonitored ∧
    w_psst s' = Some (mkPInfo "SyncSource" 2))) exMonitored).
  { apply (superviseDRBD_saves (E:=E) 0 exMonitored (drbdinfo (E:=E) exMonitored).2
      (mkDRBD true "SyncSource" "SyncSource" "SyncSource" EmptyString) (mkPInfo "Connected" 2));
      [done|by eexists|done|vm_compute; lia|vm_compute; reflexivity]. }
  unfold wp in H. destruct (superviseDRBD 0 exMonitored) as [[r| | |] s'];
    [apply H|destruct H|destruct H|destruct H].
Defined.

Lemma superviseDRBD_lost_witness :
  let E := drbd_says None in
  (superviseDRBD (E:=E) 0 exMonitored).1 = Val (-1).
Proof.
  intros E.
  pose proof (superviseDRBD_lost (E:=E) 0 exMonitored (drbdinfo (E:=E) exMonitored).2
    (peerdrbdinfo (E:=E) (drbdinfo (E:=E) exMonitored).2).2
    (-1) (mkDRBD false EmptyString EmptyString EmptyString EmptyString)
    (-1) (mkDRBD false EmptyString EmptyString EmptyString EmptyString)) as H.
  destruct H as [H _]; [by eexists|by eexists|vm_compute; reflexivity|lia|vm_compute; reflexivity|].
  rewrite H. reflexivity.
Defined.
