(* ===== verification/RoleMgr.v ===== *)
(** * Role manager

    [HA_AGENT_RoleMgr]: the thread of the active node.  It creates the objects it
    uses, checks the health of the disk, makes sure that no other node is active,
    starts the services, and then waits for the order to stop.  The probe of a MIP
    is used through the interface [Prober]. *)

From stdpp Require Import pretty.
From S2P Require Import Prelude CString Types World LogTrace Config Utils PowerOff LockFile ImmOm DrbdMgr Net DevmonMsg Ping Arping Failover DrbdMon.

Open Scope Z_scope.

(** The connection states of a node whose disk is being overwritten by the peer. *)
Definition sync_target (cs : string) : bool :=
  streq cs "StartingSyncT" || streq cs "SyncTarget" || streq cs "PausedSyncT".

Definition set_count (n : Z) (p : PersistantInfoT) : PersistantInfoT := mkPInfo (p_cstate p) n.

Section rolemgr.
Context `{E : Env}.

(** [Global::roleMgr]. *)
Definition roleMgr : MW (option RoleMgrT) :=
  o ← global m_rMgrObj;
  match o with
  | Some r => mret (Some r)
  | None =>
      ok ← call (CNew "HA_AGENT_RoleMgr");
      if (ok : bool) then
        assign (set_rMgrObj (Some newRoleMgr));;
        mret (Some newRoleMgr)
      else mret None
  end.

(** A call through a pointer to an object without state. *)
Definition present (p : RoleMgrT → bool) : MW unit :=
  rm ← this;
  if p rm then mret tt else undef.

(** [p_open] and [p_close]; of the descriptor only its validity matters. *)
Definition p_open : MW Z :=
  r ← call CMkfifo;
  let made := match r with MkOk | MkExists => true | MkNoent | MkError => false end in
  if negb made then mret (-1) else
  fd ← call COpenFifo;
  if (fd : bool) then set_this (set_handle 0);; mret 0 else mret (-1).

Definition p_close : MW Z :=
  ok ← call (CClose "m_handle");
  if (ok : bool) then set_this (set_handle ACE_INVALID_HANDLE);; mret 0 else mret (-1).

(** [initRoleMgr]: what is tested after the allocation of [m_fileObj] is
    [m_immObj]. *)
Definition initRoleMgr : MW Z :=
  r ← p_open;
  if r <? 0 then mret (-1) else
  n ← call (CNew "APOS_HA_ReactorRunner");
  set_this (set_reactorRunner n);;
  if negb n then mret (-1) else
  o ← call (CActivate "main reactor");
  if negb o then mret (-1) else
  st ← call (CRegister "READ_MASK");
  if negb st then mret (-1) else
  set_this (set_regHndlr true);;
  d ← call (CNew "HA_AGENT_DRBDMgr");
  set_this (set_drbdObj (if (d : bool) then Some newDRBDMgr else None));;
  if negb d then mret (-1) else
  i ← call (CNew "HA_AGENT_ImmOm");
  set_this (set_immObj i);;
  if negb i then mret (-1) else
  v ← isVirtualNode;
  set_this (set_isVirtual v);;
  p ← call (CNew (if (v : bool) then "HA_AGENT_Ping" else "HA_AGENT_Arping"));
  set_this (if (v : bool) then set_pingObj p else set_arpObj p);;
  if negb p then mret (-1) else
  nd ← call (CNew "HA_AGENT_ndisc");
  set_this (set_ndiscObj nd);;
  if negb nd then mret (-1) else
  f ← call (CNew "HA_AGENT_LFile");
  set_this (set_fileObj f);;
  rm ← this;
  mret (if m_immObj rm then 0 else -1).

(** [open]. *)
Definition rolemgr_open : MW Z :=
  st ← call (CRegister "SIGALRM");
  if negb st then mret (-1) else
  ok ← call (CActivate "rolemgr");
  mret (if (ok : bool) then 0 else -1).

(** A method of [m_drbdObj] that does not change the object. *)
Definition m_drbdObj_ {A} (m : MW A) : MW A :=
  rm ← this;
  _ ← deref (m_drbdObj rm);
  m.

(** [healthCheck]. *)
Definition healthCheck (fuel : nat) : MW Z :=
  pInfo ← PWROff_ get_persis_info;
  if sync_target (p_cstate pInfo) then
    cfg ← getConfig;
    _ ← (if rebootCount cfg <=? p_rebootCount pInfo
         then o ← Utils; u ← deref o; APEvent u
         else Utils_ createRCF);
    PWROff_ (λ p, write_persis_info p (set_count (u32 (p_rebootCount pInfo + 1)) pInfo));;
    fail_over_or_exit fuel
  else
    (if 0 <? p_rebootCount pInfo
     then PWROff_ (λ p, write_persis_info p (set_count 0 pInfo)) else mret tt);;
    r ← m_drbdObj_ (drbdHealth true);
    _ ← Utils_ removeRCF;
    mret (if r <? 0 then -1 else 0).

(** Slot [i] of an array of the MIP table. *)
Definition slot (a : option (list (option string))) (i : nat) : MW string :=
  l ← deref a;
  o ← deref (l !! i);
  deref o.

(** The body of the [for] loop of [splitBrainAlgo] over the two probes. *)
Definition probe_mip (ping_ arping_ : string → string → MW bool) (c : ConfigT) (i : nat) : MW bool :=
  intf ← slot (interface (mipInfo c)) i;
  rm ← this;
  if m_isVirtual rm then
    if negb (streq intf "eth1") then
      present m_pingObj;;
      ip ← slot (ipAddress (mipInfo c)) i;
      ping_ ip intf
    else mret false
  else
    present m_arpObj;;
    ip ← slot (ipAddress (mipInfo c)) i;
    arping_ ip intf.

(** The loop: [n] rounds are left at most. *)
Fixpoint probe_loop (ping_ arping_ : string → string → MW bool) (n cntr : nat) : MW bool :=
  c ← getConfig;
  if Z.of_nat cntr <? size (mipInfo c) then
    match n with
    | O => nofuel
    | S n =>
        hit ← probe_mip ping_ arping_ c cntr;
        if (hit : bool) then mret true else probe_loop ping_ arping_ n (S cntr)
    end
  else mret false.

(** [splitBrainAlgo]. *)
Definition splitBrainAlgo_ (ping_ arping_ : string → string → MW bool) (fuel : nat) : MW Z :=
  present m_immObj;;
  locked ← peerNodeLockd;
  arping ←
    (if (locked : bool) then mret false else
     ha ← global m_haMode;
     if (ha : bool) then
       old ← global m_oldhaState;
       if bool_decide (old = HA_UNDEFINED) then
         present m_fileObj;;
         ex ← LFileExist;
         mret (ex : bool)
       else mret true
     else mret true);
  (if (arping : bool) then
     c ← getConfig;
     detected ← probe_loop ping_ arping_ (Z.to_nat (size (mipInfo c))) 0;
     if (detected : bool) then
       present m_fileObj;;
       _ ← LFile;
       fail_over_or_exit fuel
     else mret tt
   else mret tt);;
  present m_fileObj;;
  ex ← LFileExist;
  (if (ex : bool) then _ ← RMLFile; mret tt else mret tt);;
  mret 0.
End rolemgr.

Section rolemgr_thread.
Context `{E : Env}.

Definition splitBrainAlgo (fuel : nat) : MW Z := splitBrainAlgo_ (ping fuel) (arping fuel) fuel.

(** What [svc] does before the messages: true when no fault was detected. *)
Definition start_up (fuel : nat) : MW bool :=
  r ← initRoleMgr;
  if r <? 0 then mret false else
  r ← healthCheck fuel;
  if r <? 0 then mret false else
  r ← splitBrainAlgo fuel;
  if r <? 0 then mret false else
  r ← StartJobs;
  if r <? 0 then mret false else
  d ← call (CNew "HA_AGENT_DRBDMon");
  set_this (set_DMObj (if (d : bool) then Some newDRBDMon else None));;
  if negb d then mret false else
  r ← drbdmon_open;
  mret (r =? 0).

(** [svc]: every message ends the loop, as a failure of [getq] does. *)
Definition rolemgr_svc (fuel : nat) : MW Z :=
  ok ← start_up fuel;
  (if (ok : bool) then mret tt else
   ha ← global m_haMode;
   if (ha : bool) then compRestart fuel else exit EXIT_FAILURE);;
  assign (set_tasksDone true);;
  _ ← call (CGetq "rolemgr");
  shutDown_all fuel;;
  mret 0.

(** [handle_signal]. *)
Definition rolemgr_signal (fuel : nat) (signum : Z) : MW Z :=
  if signum =? SIGALRM then
    o ← Utils;
    match o with
    | Some _ => Utils_ (forceExit fuel);; mret 0
    | None => mret 0
    end
  else mret 0.

(** [close(u_long)], which runs when the thread has ended. *)
Definition rolemgr_closed : MW Z :=
  ordered ← global m_shutdownOrdered;
  if negb ordered then exit EXIT_FAILURE else
  _ ← call (CRemove "SIGALRM");
  set_this (λ r, set_drbdObj None (set_arpObj false (set_pingObj false
    (set_ndiscObj false (set_immObj false (set_fileObj false r))))));;
  rm ← this;
  (match m_DMObj rm with
   | Some _ =>
       _ ← drbdmon_close rm_monitor;
       call (CWait "drbdmon");;
       set_this (set_DMObj None)
   | None => mret tt
   end);;
  (if m_reactorRunner rm then
     _ ← call (CRemove "main reactor");
     call (CWait "main reactor");;
     set_this (set_reactorRunner false)
   else mret tt);;
  _ ← p_close;
  mret 0.

(** [handle_close]: it only takes the handler from the reactor. *)
Definition handle_close : MW Z :=
  rm ← this;
  (if m_regHndlr rm then
     ok ← call (CRemove "READ_MASK");
     if (ok : bool) then set_this (set_regHndlr false) else mret tt
   else mret tt);;
  mret 0.

(** [close]. *)
Definition rolemgr_close : MW Z :=
  mb ← call (CNew "ACE_Message_Block");
  _ ← handle_close;
  if negb mb then mret (-1) else
  ok ← call (CPutq "rolemgr" ROLEMGR_CLOSE);
  mret (if (ok : bool) then 0 else -1).

(** [readMsg]: the message is taken from the start of a zeroed buffer, whatever the
    number of bytes read. *)
Definition readMsg : MW (option MsgT) :=
  '(nbytes, buffer) ← call CReadFifo;
  if nbytes <=? 0 then mret None
  else mret (Some (decode buffer)).

(** [processMsg]: only a change of role is acted on. *)
Definition processMsg (fuel : nat) (msg : MsgT) : MW Z :=
  if msg_type msg =? DRBD_ROLE_CHANGE then
    r ← m_drbdObj_ (drbdHealth false);
    if r <? 0 then fail_over_or_exit fuel else mret 0
  else mret 0.

(** [dispatch] and [handle_input]. *)
Definition dispatch (fuel : nat) : MW unit :=
  msg ← call (CNew "HA_DEVMON_MsgT");
  if negb msg then mret tt else
  m ← readMsg;
  match m with
  | None => mret tt
  | Some msg => _ ← processMsg fuel msg; mret tt
  end.

Definition handle_input (fuel : nat) : MW Z := dispatch fuel;; mret 0.
End rolemgr_thread.

(** ** Properties *)

Section rolemgr_frames.
Context `{E : Env} {R : relation World}.

Lemma initRoleMgr_frame `{!CoreFrame R} : steps R initRoleMgr.
Proof. unfold initRoleMgr, p_open, this, set_this. solve_steps. Qed.

Lemma healthCheck_frame `{!Frame R} fuel : steps R (healthCheck fuel).
Proof. unfold healthCheck, m_drbdObj_, this. solve_steps. Qed.

Lemma processMsg_frame `{!CoreFrame R} fuel msg : steps R (processMsg fuel msg).
Proof. unfold processMsg, m_drbdObj_, this. solve_steps. Qed.

Lemma slot_frame `{!QueryFrame R} a i : steps R (slot a i).
Proof. unfold slot. solve_steps. Qed.
Hint Resolve slot_frame : steps.

Lemma probe_mip_frame `{!QueryFrame R} p a `{!Prober p} `{!Prober a} c i :
  steps R (probe_mip p a c i).
Proof. unfold probe_mip, present. solve_steps. Qed.
Hint Resolve probe_mip_frame : steps.

Lemma probe_loop_frame `{!QueryFrame R} p a `{!Prober p} `{!Prober a} n i :
  steps R (probe_loop p a n i).
Proof. revert i. induction n as [|n IH]; intros i; cbn [probe_loop]; solve_steps. Qed.
End rolemgr_frames.

#[export] Hint Resolve initRoleMgr_frame healthCheck_frame processMsg_frame probe_mip_frame
  probe_loop_frame : steps.

Lemma splitBrainAlgo__frame `{E : Env} {R} `{!LockFrame R} p a `{!Prober p} `{!Prober a} fuel :
  steps R (splitBrainAlgo_ p a fuel).
Proof. unfold splitBrainAlgo_, present. solve_steps. Qed.
#[export] Hint Resolve splitBrainAlgo__frame : steps.

(** ** No second active node *)

(** What the checks before the start leave alone. *)
Definition settled (s s' : World) : Prop :=
  m_haMode (w_glob s') = m_haMode (w_glob s) ∧ m_oldhaState (w_glob s') = m_oldhaState (w_glob s)
  ∧ m_rMgrObj (w_glob s') = m_rMgrObj (w_glob s) ∧ w_lock s' = w_lock s
  ∧ (∀ c, m_cngObj (w_glob s) = Some c → m_cngObj (w_glob s') = Some c).

#[export] Instance settled_frame : QueryFrame settled.
Proof.
  split; [split|..]; unfold settled.
  - intros s. naive_solver.
  - intros s1 s2 s3 H1 H2. naive_solver congruence.
  - done.
  - intros s c Hc. split_and!; try done. intros c'. by rewrite Hc.
  - done.
Qed.

Section gate.
Context `{E : Env} (p a : string → string → MW bool) `{!Prober p} `{!Prober a}.
Context (c : ConfigT) (rm : RoleMgrT).

(** Slot [i] of the array holds [x]. *)
Definition slot_is (arr : option (list (option string))) (i : nat) (x : string) : Prop :=
  ∃ l, arr = Some l ∧ l !! i = Some (Some x).

(** The probe of the MIP in slot [i], from [s] to [s'], says [b]. *)
Definition probes (i : nat) (s : World) (b : bool) (s' : World) : Prop :=
  ∃ ip intf, slot_is (ipAddress (mipInfo c)) i ip ∧ slot_is (interface (mipInfo c)) i intf
  ∧ (if m_isVirtual rm then intf ≠ "eth1"%string ∧ m_pingObj rm = true ∧ p ip intf s = (Val b, s')
     else m_arpObj rm = true ∧ a ip intf s = (Val b, s')).

(** No node answered on the MIPs [i] to [j - 1]; on a virtual node those on the
    public interface [eth1] are passed over. *)
Inductive cleared : nat → nat → World → World → Prop :=
| cleared_done i s : cleared i i s s
| cleared_skip i j s s' :
    m_isVirtual rm = true → slot_is (interface (mipInfo c)) i "eth1" →
    cleared (S i) j s s' → cleared i j s s'
| cleared_probe i j s s1 s' :
    probes i s false s1 → cleared (S i) j s1 s' → cleared i j s s'.

Lemma slot_val arr i s x s' : slot arr i s = (Val x, s') → s' = s ∧ slot_is arr i x.
Proof.
  unfold slot, mbind, M_bind, slot_is. destruct arr as [l|]; simpl; [|done].
  destruct (l !! i) as [[y|]|] eqn:Hi; simpl; [|done..]. intros [= <- <-]. eauto.
Qed.

Lemma slot_run arr i x s : slot_is arr i x → slot arr i s = (Val x, s).
Proof. intros (l & -> & Hl). unfold slot, mbind, M_bind. simpl. by rewrite Hl. Qed.

Lemma this_run s : m_rMgrObj (w_glob s) = Some rm → this s = (Val rm, s).
Proof. intros Hrm. unfold this, global, gets, mbind, M_bind. simpl. by rewrite Hrm. Qed.

Lemma present_run f s :
  m_rMgrObj (w_glob s) = Some rm →
  present f s = if f rm then (Val tt, s) else (Undef, s).
Proof.
  intros Hrm. unfold present. rewrite (bind_Val _ _ _ _ _ (this_run s Hrm)). by destruct (f rm).
Qed.

Lemma getConfig_run s : m_cngObj (w_glob s) = Some c → getConfig s = (Val c, s).
Proof. intros Hc. unfold getConfig, Config, global, gets, mbind, M_bind. simpl. by rewrite Hc. Qed.

(** One round of the loop. *)
Lemma probe_mip_val i s b s' :
  m_rMgrObj (w_glob s) = Some rm → probe_mip p a c i s = (Val b, s') →
  probes i s b s'
  ∨ b = false ∧ s' = s ∧ m_isVirtual rm = true ∧ slot_is (interface (mipInfo c)) i "eth1".
Proof.
  intros Hrm H. apply bind_Val_inv in H as (intf & s1 & [-> Hi]%slot_val & H).
  rewrite (bind_Val _ _ _ _ _ (this_run s Hrm)) in H. unfold probes.
  destruct (m_isVirtual rm).
  - destruct (streq intf "eth1") eqn:He; cbn [negb] in H.
    { apply streq_spec in He as ->. injection H as <- <-. auto. }
    apply bind_Val_inv in H as ([] & s1 & Hp & H). rewrite present_run in Hp by done.
    destruct (m_pingObj rm) eqn:Hpo; [injection Hp as <-|done].
    apply bind_Val_inv in H as (ip & s1 & [-> Hip]%slot_val & H). left. exists ip, intf.
    split_and!; try done. intros ->. by rewrite (proj2 (streq_spec _ _) eq_refl) in He.
  - apply bind_Val_inv in H as ([] & s1 & Hp & H). rewrite present_run in Hp by done.
    destruct (m_arpObj rm) eqn:Hpo; [injection Hp as <-|done].
    apply bind_Val_inv in H as (ip & s1 & [-> Hip]%slot_val & H). left. by exists ip, intf.
Qed.

Lemma probe_mip_run i s b s' :
  m_rMgrObj (w_glob s) = Some rm → probes i s b s' → probe_mip p a c i s = (Val b, s').
Proof.
  intros Hrm (ip & intf & Hip & Hi & H). unfold probe_mip.
  rewrite (bind_Val _ _ _ _ _ (slot_run _ _ _ s Hi)), (bind_Val _ _ _ _ _ (this_run s Hrm)).
  destruct (m_isVirtual rm).
  - destruct H as (Hne & Hpo & Hrun).
    destruct (streq intf "eth1") eqn:He; [by apply streq_spec in He|]. cbn [negb].
    unfold mbind at 1, M_bind at 1. rewrite present_run, Hpo by done.
    by rewrite (bind_Val _ _ _ _ _ (slot_run _ _ _ s Hip)).
  - destruct H as (Hpo & Hrun). unfold mbind at 1, M_bind at 1. rewrite present_run, Hpo by done.
    by rewrite (bind_Val _ _ _ _ _ (slot_run _ _ _ s Hip)).
Qed.

Lemma probe_mip_skip i s :
  m_rMgrObj (w_glob s) = Some rm → m_isVirtual rm = true →
  slot_is (interface (mipInfo c)) i "eth1" → probe_mip p a c i s = (Val false, s).
Proof.
  intros Hrm Hv Hi. unfold probe_mip.
  by rewrite (bind_Val _ _ _ _ _ (slot_run _ _ _ s Hi)), (bind_Val _ _ _ _ _ (this_run s Hrm)), Hv.
Qed.

Lemma cleared_le i j s s' : cleared i j s s' → (i ≤ j)%nat.
Proof. induction 1; lia. Qed.

Lemma probe_mip_settled i s o s' : probe_mip p a c i s = (o, s') → settled s s'.
Proof. apply steps_run, probe_mip_frame; apply _. Qed.

(** The loop from slot [i] on: it says that nobody answered only if the MIPs that
    are left are clear. *)
Lemma probe_loop_false n i s s' :
  m_cngObj (w_glob s) = Some c → m_rMgrObj (w_glob s) = Some rm →
  probe_loop p a n i s = (Val false, s') → (i ≤ Z.to_nat (size (mipInfo c)))%nat →
  cleared i (Z.to_nat (size (mipInfo c))) s s'.
Proof.
  revert i s. induction n as [|n IH]; intros i s Hc Hrm H Hi; cbn [probe_loop] in H;
    rewrite (bind_Val _ _ _ _ _ (getConfig_run s Hc)) in H;
    destruct (Z.ltb_spec (Z.of_nat i) (size (mipInfo c))) as [Hlt|Hge].
  1: done.
  1, 3: injection H as <-; replace (Z.to_nat _) with i by lia; constructor.
  apply bind_Val_inv in H as ([] & s1 & Hp & H); [done|].
  destruct (probe_mip_settled _ _ _ _ Hp) as (_ & _ & Hrm1 & _ & Hc1).
  assert (Hrest : cleared (S i) (Z.to_nat (size (mipInfo c))) s1 s').
  { apply IH; [by apply Hc1|congruence|done|lia]. }
  destruct (probe_mip_val _ _ _ _ Hrm Hp) as [Hpr|(_ & -> & Hv & Hs)].
  - by eapply cleared_probe.
  - by eapply cleared_skip.
Qed.

(** One answer is enough, whichever MIP it comes from. *)
Lemma probe_loop_true n i j s s1 s' :
  m_cngObj (w_glob s) = Some c → m_rMgrObj (w_glob s) = Some rm →
  cleared i j s s1 → probes j s1 true s' → Z.of_nat j < size (mipInfo c) →
  (j < i + n)%nat → probe_loop p a n i s = (Val true, s').
Proof.
  intros Hc Hrm Hcl Hpr Hj. revert n Hc Hrm.
  induction Hcl as [i s|i j s s1 Hv Hs Hcl IH|i j s s0 s1 Hp Hcl IH]; intros n Hc Hrm Hn.
  - destruct n as [|n]; [lia|]. cbn [probe_loop].
    rewrite (bind_Val _ _ _ _ _ (getConfig_run s Hc)). destruct (Z.ltb_spec (Z.of_nat i) (size (mipInfo c))); [|lia].
    by rewrite (bind_Val _ _ _ _ _ (probe_mip_run _ _ _ _ Hrm Hpr)).
  - pose proof (cleared_le _ _ _ _ Hcl) as Hle. destruct n as [|n]; [lia|]. cbn [probe_loop].
    rewrite (bind_Val _ _ _ _ _ (getConfig_run s Hc)). destruct (Z.ltb_spec (Z.of_nat i) (size (mipInfo c))); [|lia].
    rewrite (bind_Val _ _ _ _ _ (probe_mip_skip _ _ Hrm Hv Hs)). apply IH; [done..|lia].
  - pose proof (cleared_le _ _ _ _ Hcl) as Hle. destruct n as [|n]; [lia|]. cbn [probe_loop].
    rewrite (bind_Val _ _ _ _ _ (getConfig_run s Hc)). destruct (Z.ltb_spec (Z.of_nat i) (size (mipInfo c))); [|lia].
    pose proof (probe_mip_run _ _ _ _ Hrm Hp) as Hrun. rewrite (bind_Val _ _ _ _ _ Hrun).
    destruct (probe_mip_settled _ _ _ _ Hrun) as (_ & _ & Hrm1 & _ & Hc1).
    apply IH; [done|done|by apply Hc1|congruence|lia].
Qed.
End gate.

(** Why the node may become active: between [s] and [s'] the peer was asked for and
    found locked, or it was not and this is the first start since the node came up,
    no other active node having been seen before, or it was not and no node answered
    when each MIP was probed in turn.  What was asked is part of the trace of [s']. *)
Definition may_start `{E : Env} (p a : string → string → MW bool) (s s' : World) : Prop :=
  ∃ locked s1, peerNodeLockd s = (Val locked, s1) ∧ grew s1 s'
  ∧ (locked = true
     ∨ (m_haMode (w_glob s) = true ∧ m_oldhaState (w_glob s) = HA_UNDEFINED ∧ w_lock s = false)
     ∨ ∃ c rm s2 s3, m_rMgrObj (w_glob s) = Some rm ∧ getConfig s1 = (Val c, s2)
         ∧ cleared p a c rm 0 (Z.to_nat (size (mipInfo c))) s2 s3 ∧ grew s3 s').

Section split_brain.
Context `{E : Env} (p a : string → string → MW bool) `{!Prober p} `{!Prober a}.

Lemma getConfig_val s c s' : getConfig s = (Val c, s') → m_cngObj (w_glob s') = Some c.
Proof.
  intros H. cut (wp getConfig (λ o s', ∀ c, o = Val c → m_cngObj (w_glob s') = Some c) s).
  { intros Hwp. exact (wp_run _ _ _ _ _ Hwp H c eq_refl). }
  unfold getConfig, Config, newConfig, initConfig. wp_auto.
  destruct (m_cngObj (w_glob s)) as [c0|] eqn:Hc; wp_auto; [by intros ? [= <-]|].
  destruct r; wp_auto; [|by apply wp_undef]. destruct r; wp_auto.
  - apply wp_strcpy; [vm_compute; lia|]. wp_auto. by intros ? [= <-].
  - by intros ? [= <-].
Qed.

Lemma present_val f s s' :
  present f s = (Val tt, s') → s' = s ∧ ∃ rm, m_rMgrObj (w_glob s) = Some rm ∧ f rm = true.
Proof.
  unfold present, this, global, gets, mbind, M_bind. simpl.
  destruct (m_rMgrObj (w_glob s)) as [rm|]; [|done]. simpl. destruct (f rm) eqn:Hf; [|done].
  intros [= <-]. eauto.
Qed.

(** The decision whether to probe. *)
Lemma decide_arping_val s (locked : bool) s' b :
  (if locked then mret false else
   ha ← global m_haMode;
   if (ha : bool) then
     old ← global m_oldhaState;
     if bool_decide (old = HA_UNDEFINED) then
       present m_fileObj;; ex ← LFileExist; mret (ex : bool)
     else mret true
   else mret true) s = (Val b, s') →
  s' = s ∧ (b = false → locked = true
    ∨ m_haMode (w_glob s) = true ∧ m_oldhaState (w_glob s) = HA_UNDEFINED ∧ w_lock s = false).
Proof.
  destruct locked; [by intros [= <- <-]; auto|]. intros H.
  apply bind_Val_inv in H as (ha & s1 & [= Hha <-] & H). cbn [compose] in Hha.
  destruct ha; [|by injection H as <- <-].
  apply bind_Val_inv in H as (old & s1 & [= Hold <-] & H). cbn [compose] in Hold.
  case_bool_decide as Hu; [|by injection H as <- <-].
  apply bind_Val_inv in H as ([] & s1 & [-> _]%present_val & H).
  apply bind_Val_inv in H as (ex & s1 & [= Hex <-] & [= <- <-]).
  split; [done|]. intros ->. right. split_and!; congruence.
Qed.

(** The split-brain algorithm only lets the node become active when the peer
    is locked, or on a first start without trace of another active node, or when
    every MIP has been probed without an answer. *)
Lemma splitBrainAlgo_gate fuel s r s' :
  splitBrainAlgo_ p a fuel s = (Val r, s') → r = 0 ∧ may_start p a s s'.
Proof.
  unfold splitBrainAlgo_. intros H.
  apply bind_Val_inv in H as ([] & s1 & [-> (rm & Hrm0 & _)]%present_val & H).
  apply bind_Val_inv in H as (locked & s1 & Hl & H).
  pose proof (steps_run settled _ _ _ _ (peerNodeLockd_frame (R:=settled)) Hl) as Hs1.
  apply bind_Val_inv in H as (arp & s2 & [-> Hd]%decide_arping_val & H).
  apply bind_Val_inv in H as ([] & s3 & Hprobe & H).
  assert (Hr : r = 0).
  { apply bind_Val_inv in H as (? & ? & _ & H). apply bind_Val_inv in H as (? & ? & _ & H).
    apply bind_Val_inv in H as (? & ? & _ & H). by injection H as <- _. }
  assert (G3 : grew s3 s') by (unfold present, RMLFile in H; eapply steps_run; [|exact H]; solve_steps).
  assert (G1 : grew s1 s3) by (eapply steps_run; [|exact Hprobe]; unfold present, LFile; solve_steps).
  split; [done|]. exists locked, s1. split; [done|]. split; [by etrans|].
  pose proof Hs1 as (Hm & Ho & Hrm & Hlk & Hc).
  destruct arp; [|destruct (Hd eq_refl) as [->|(?&?&?)]; [by left|right; left; split_and!; congruence]].
  right. right.
  apply bind_Val_inv in Hprobe as (c & s4 & Hget & Hprobe).
  pose proof (steps_run settled _ _ _ _ (getConfig_frame settled) Hget) as Hs4.
  apply bind_Val_inv in Hprobe as ([] & s5 & Hloop & Hprobe).
  { apply bind_Val_inv in Hprobe as ([] & s6 & _ & Hprobe).
    apply bind_Val_inv in Hprobe as (? & s7 & _ & Hprobe).
    by apply no_return_run in Hprobe; [|apply fail_over_or_exit_no_return]. }
  injection Hprobe as <-. exists c, rm, s4, s5. pose proof Hs4 as (_ & _ & Hrm4 & _).
  split; [done|]. split; [done|]. split; [|done].
  eapply probe_loop_false; [done|done|by eapply getConfig_val|congruence|exact Hloop|lia].
Qed.

(** C2: As soon as one node answers on one MIP, the node does not become active:
    the lock file is there when the process ends, no start command has been run, and
    [splitBrainAlgo] does not return.  With the lock file the next start of the
    node probes again, even as a first start. *)
Theorem splitBrainAlgo_detects fuel s s1 s2 s3 c rm j :
  m_rMgrObj (w_glob s) = Some rm → m_immObj rm = true → m_fileObj rm = true →
  m_cngObj (w_glob s) = Some c → peerNodeLockd s = (Val false, s1) →
  m_haMode (w_glob s) = false ∨ m_oldhaState (w_glob s) ≠ HA_UNDEFINED ∨ w_lock s = true →
  cleared p a c rm 0 j s1 s2 → probes p a c rm j s2 true s3 → Z.of_nat j < size (mipInfo c) →
  answer (w_trace s3) (CCreate APOS_HA_FILE_LOCK) = true →
  wp (splitBrainAlgo_ p a fuel) (λ o s', (∀ r, o ≠ Val r) ∧ w_lock s' = true ∧ quiet s s') s.
Proof.
  intros Hrm Him Hfi Hc Hlk Hwhy Hcl Hpr Hj Hcreate.
  apply run_wp. intros o s' Hrun.
  assert (Hq : quiet s s') by (eapply steps_run; [apply (splitBrainAlgo__frame p a)|exact Hrun]).
  cut (wp (splitBrainAlgo_ p a fuel) (λ o s', (∀ r, o ≠ Val r) ∧ w_lock s' = true) s).
  { intros Hwp. destruct (wp_run _ _ _ _ _ Hwp Hrun). auto. }
  destruct (steps_run settled _ _ _ _ (peerNodeLockd_frame (R:=settled)) Hlk)
    as (Hm1 & Ho1 & Hrm1 & Hl1 & Hc1).
  specialize (Hc1 c Hc). rewrite Hrm in Hrm1.
  assert (Hloop : probe_loop p a (Z.to_nat (size (mipInfo c))) 0 s1 = (Val true, s3)).
  { eapply probe_loop_true; try done. lia. }
  destruct (steps_run settled _ _ _ _ (probe_loop_frame (R:=settled) p a _ _) Hloop)
    as (_ & _ & Hrm3 & _ & _).
  unfold splitBrainAlgo_.
  apply wp_bind, (wp_known _ _ _ (Val tt) s); [by rewrite (present_run rm), Him|]. cbn [thenQ].
  apply wp_bind, (wp_known _ _ _ _ _ Hlk). cbn [thenQ].
  apply wp_bind, (wp_known _ _ _ (Val true) s1).
  { unfold global, LFileExist, gets, mbind, M_bind. cbn [compose]. rewrite Hm1.
    destruct (m_haMode (w_glob s)); [|done]. rewrite Ho1. case_bool_decide; [|done].
    rewrite (present_run rm), Hfi by done. cbn. rewrite Hl1. destruct Hwhy as [?|[?| ->]]; done. }
  cbn [thenQ]. apply wp_bind, wp_bind, (wp_known _ _ _ _ _ (getConfig_run c s1 Hc1)). cbn [thenQ].
  apply wp_bind, (wp_known _ _ _ _ _ Hloop). cbn [thenQ].
  apply wp_bind, (wp_known _ _ _ (Val tt) s3); [rewrite (present_run rm), Hfi; congruence|]. cbn [thenQ].
  unfold LFile. wp_auto. rewrite Hcreate in H. subst r. wp_auto. apply run_wp. intros o1 s4 Hf.
  destruct o1 as [u| | |]; [by apply no_return_run in Hf; [|apply fail_over_or_exit_no_return]|..];
    cbn [thenQ]; (split; [done|]);
    by rewrite (steps_run (keeps w_lock) _ _ _ _ (fail_over_or_exit_frame fuel) Hf).
Qed.
End split_brain.

(** ** Health of the node *)

Section health.
Context `{E : Env}.

Lemma m_drbdObj__val {A} (m : MW A) s r s' :
  m_drbdObj_ m s = (Val r, s') → m s = (Val r, s').
Proof.
  unfold m_drbdObj_, this, global, gets, mbind, M_bind. simpl.
  destruct (m_rMgrObj (w_glob s)) as [rm|]; [|done]. simpl. by destruct (m_drbdObj rm).
Qed.

(** The check succeeds only on a healthy disk. *)
Lemma healthCheck_sound fuel s r s' :
  healthCheck fuel s = (Val r, s') → r <? 0 = false → healthy true s s'.
Proof.
  unfold healthCheck. intros H Hr.
  apply bind_Val_inv in H as (pInfo & s1 & H1 & H).
  assert (G1 : grew s s1).
  { eapply steps_run; [|exact H1]. apply PWROff__frame. intros p. apply get_persis_info_frame. }
  destruct (sync_target (p_cstate pInfo)).
  { apply bind_Val_inv in H as (? & ? & _ & H). apply bind_Val_inv in H as (? & ? & _ & H).
    apply bind_Val_inv in H as (? & ? & _ & H).
    by apply no_return_run in H; [|apply fail_over_or_exit_no_return]. }
  apply bind_Val_inv in H as (? & s2 & H2 & H).
  assert (G2 : grew s1 s2) by (eapply steps_run; [|exact H2]; solve_steps).
  apply bind_Val_inv in H as (q & s3 & H3%m_drbdObj__val & H).
  apply bind_Val_inv in H as (? & s4 & H4 & [= <- <-]).
  assert (G4 : grew s3 s4) by (eapply steps_run; [|exact H4]; solve_steps).
  destruct (q <? 0) eqn:Hq; [done|].
  destruct (wp_run _ _ _ _ _ (drbdHealth_sound true s2) H3) as [_ Hh].
  eapply (healthy_within _ _ s2 s3); [by etrans| |done]. apply Hh.
  apply Z.ltb_ge in Hq. destruct (drbdHealth_val true s2 q s3 H3) as [->|Hv]; [done|lia].
Qed.

Lemma sync_target_fits cs : sync_target cs = true → (String.length cs < STATE)%nat.
Proof.
  unfold sync_target. rewrite !orb_true_iff. intros [[H|H]|H]; apply streq_spec in H as ->;
    vm_compute; lia.
Qed.

(** The notification on an inconsistent disk. *)
Definition notify (c : ConfigT) (n : Z) : MW Z :=
  if rebootCount c <=? n then o ← Utils; u ← deref o; APEvent u else Utils_ createRCF.

Definition notified (c : ConfigT) (n : Z) (s : World) (t : Trace) : Prop :=
  if rebootCount c <=? n then did (CFileOp "open AEH FIFO") t
  else w_rcf s = None → did (CCreate APOS_HA_FILE_RC) t.

Lemma notify_spec c n s u :
  m_utilObj (w_glob s) = Some u → m_cngObj (w_glob s) = Some c →
  (∀ t, (String.length (pretty (answer t CGetpid : Z)) ≤ 6)%nat) →
  wp (notify c n) (valQ (λ _ s', w_glob s' = w_glob s ∧ w_psst s' = w_psst s
    ∧ since s s' (notified c n s))) s.
Proof.
  intros Hu Hc Hpid. unfold notify, notified, Utils. destruct (rebootCount c <=? n).
  - wp_auto. rewrite Hu. wp_auto. unfold APEvent, fillEvent.
    wp_auto. destruct r; wp_auto; [|split; [done|split; [done|apply since_push, did_cons; auto]]].
    apply wp_strcpy.
    { rewrite !length_append, H0. specialize (Hpid (w_trace (push (Ev (CFileOp "open AEH FIFO") true) s))).
      change (String.length "apos_ha_rdeagentd:") with 18%nat. change (String.length " ") with 1%nat.
      unfold SOURCE. lia. }
    wp_auto. split; [done|]. split; [done|].
    eexists [_; _; _; _]. split; [done|]. rewrite !did_cons. auto.
  - apply wp_Utils_; [by eexists|]. unfold createRCF, FileExist. wp_auto.
    case_bool_decide as Hx; wp_auto.
    { split; [done|]. split; [done|]. apply since_refl. intros Hn. rewrite Hn in Hx. by destruct Hx. }
    destruct r; wp_auto; [|split; [done|split; [done|apply since_push; rewrite did_cons; auto]]].
    eapply wp_known; [by apply (getConfig_run c)|]. wp_auto.
    split; [done|]. split; [done|]. eexists [_; _]. split; [done|]. rewrite !did_cons. auto.
Qed.

(** C20: A node whose disk was being overwritten by the peer when it went down does
    not become active: it reports the fault or leaves a mark for the boot, counts
    the reboot in the persistent file, and does not return from the health
    check. *)
Theorem healthCheck_inconsistent fuel s u c p :
  m_pwrOffObj (w_glob s) = Some (mkPWROff Mapped) → w_psst s = Some p →
  m_utilObj (w_glob s) = Some u → m_cngObj (w_glob s) = Some c →
  (∀ t, (String.length (pretty (answer t CGetpid : Z)) ≤ 6)%nat) →
  sync_target (p_cstate p) = true →
  wp (healthCheck fuel) (λ o s', (∀ r, o ≠ Val r)
    ∧ w_psst s' = Some (mkPInfo (p_cstate p) (u32 (p_rebootCount p + 1)))
    ∧ since s s' (notified c (p_rebootCount p) s)) s.
Proof.
  intros Hp Hps Hu Hc Hpid Hst. pose proof (sync_target_fits _ Hst) as Hfit. unfold healthCheck.
  apply wp_bind. eapply wp_known.
  { rewrite (PWROff__run _ _ _ Hp). by apply get_persis_info_run. }
  cbn [thenQ]. rewrite Hst. apply wp_bind, (wp_known _ _ _ _ _ (getConfig_run c s Hc)). cbn [thenQ].
  apply wp_bind, run_wp. intros o s1 H1.
  pose proof (wp_run _ _ _ _ _ (notify_spec c (p_rebootCount p) s u Hu Hc Hpid) H1) as H.
  destruct o as [q| | |]; try done. destruct H as (Hg1 & Hq1 & Hnot). cbn [thenQ].
  apply wp_bind. eapply wp_known.
  { rewrite (PWROff__run _ (mkPWROff Mapped)) by congruence. unfold write_persis_info.
    cbn [m_map]. by rewrite (bind_Val _ _ _ _ _ (strcpy_fits _ _ s1 Hfit)). }
  cbn [thenQ]. apply run_wp. intros o s2 H2.
  pose proof (steps_run (keeps w_psst) _ _ _ _ (fail_over_or_exit_frame fuel) H2) as Hkeep.
  destruct (steps_run grew _ _ _ _ (fail_over_or_exit_frame fuel) H2) as [new Hnew].
  destruct o as [r| | |]; [by apply no_return_run in H2; [|apply fail_over_or_exit_no_return]|..].
  all: split; [done|]; split; [exact Hkeep|].
  all: eapply (since_trans _ s1 _ _ (λ _, True)); [exact Hnot|by exists new|].
  all: unfold notified; intros n1 n2 Hn _; destruct (_ <=? _); rewrite did_app; auto.
Qed.
End health.

(** ** The thread *)

Section thread.
Context `{E : Env}.

Lemma StartJobs_grew : steps grew StartJobs.
Proof.
  pose proof drbdStartJobs_grew. unfold StartJobs, on_drbd, set_this. solve_steps.
Qed.
Hint Resolve StartJobs_grew : steps.

(** Either no start command was run, or the first one came after the objects were
    created ([s1]), the health check ([s2]) and the split-brain check ([s3]) had let
    the node pass.  The three are the states the run itself went through: [s1] and
    [s2] are the ends of the calls, and the trace of [s'] extends that of [s3]. *)
Definition checked (fuel : nat) (s s' : World) : Prop :=
  quiet s s' ∨ ∃ r1 s1 r2 s2 s3,
    initRoleMgr s = (Val r1, s1) ∧ 0 ≤ r1
    ∧ healthCheck fuel s1 = (Val r2, s2) ∧ 0 ≤ r2 ∧ healthy true s1 s2
    ∧ splitBrainAlgo fuel s2 = (Val 0, s3) ∧ may_start (ping fuel) (arping fuel) s2 s3
    ∧ quiet s s3 ∧ grew s3 s'.

Lemma checked_quiet fuel s s1 s2 : checked fuel s s1 → quiet s1 s2 → checked fuel s s2.
Proof.
  intros [H|(r1 & a & r2 & b & c & ? & ? & ? & ? & ? & ? & ? & ? & Hg)] Hq; [left; by etrans|].
  right. exists r1, a, r2, b, c. split_and!; try done. etrans; [done|]. by apply quiet_grew.
Qed.

(** The start-up. *)
Lemma start_up_checked fuel s : wp (start_up fuel) (λ _ s', checked fuel s s') s.
Proof.
  unfold start_up, checked. apply wp_bind, run_wp. intros o s1 H1.
  assert (Q1 : quiet s s1) by (eapply steps_run; [apply initRoleMgr_frame|exact H1]).
  destruct o as [r| | |]; cbn [thenQ]; try by left.
  destruct (Z.ltb_spec r 0); [apply wp_ret; by left|].
  apply wp_bind, run_wp. intros o s2 H2.
  assert (Q2 : quiet s s2).
  { etrans; [done|]. eapply steps_run; [apply healthCheck_frame|exact H2]. }
  destruct o as [r2| | |]; cbn [thenQ]; try by left.
  destruct (r2 <? 0) eqn:Hr2; [apply wp_ret; by left|].
  pose proof (healthCheck_sound _ _ _ _ H2 Hr2) as Hh.
  apply wp_bind, run_wp. intros o s3 H3.
  assert (Q23 : quiet s2 s3) by (eapply steps_run; [apply (splitBrainAlgo__frame (ping fuel) (arping fuel))|exact H3]).
  assert (Q3 : quiet s s3) by (by etrans).
  destruct o as [r3| | |]; cbn [thenQ]; try by left.
  destruct (splitBrainAlgo_gate _ _ _ _ _ _ H3) as [-> Hmay].
  change (0 <? 0) with false. cbv iota. apply run_wp. intros o s4 H4. right.
  exists r, s1, r2, s2, s3. apply Z.ltb_ge in Hr2. do 8 (split; [done|]).
  unfold set_this in H4. eapply steps_run; [|exact H4]. solve_steps.
Qed.

(** C1: The role manager mounts the disk, configures the MIPs and starts the
    services only after DRBD has reported a healthy local disk, and after the peer
    was found locked, or this is a first start without trace of another active node,
    or no node answered on any MIP; until then no start command has been run. *)
Theorem rolemgr_svc_checked fuel s : wp (rolemgr_svc fuel) (λ _ s', checked fuel s s') s.
Proof.
  unfold rolemgr_svc. apply wp_bind, run_wp. intros o s1 H1.
  pose proof (wp_run _ _ _ _ _ (start_up_checked fuel s) H1) as Hc.
  destruct o as [ok| | |]; cbn [thenQ]; try done.
  apply run_wp. intros o s2 H2. eapply checked_quiet; [exact Hc|].
  eapply steps_run; [|exact H2]. solve_steps.
Qed.

(** On the message that the role of the disk has changed, the daemon goes on only
    if DRBD reports the local disk up to date and primary; every other message is
    ignored. *)
Lemma processMsg_spec fuel msg s :
  wp (processMsg fuel msg) (λ o s',
    if msg_type msg =? DRBD_ROLE_CHANGE then ∀ r, o = Val r → healthy false s s'
    else o = Val 0 ∧ s' = s) s.
Proof.
  unfold processMsg. destruct (msg_type msg =? DRBD_ROLE_CHANGE); [|by apply wp_ret].
  apply run_wp. intros o s' H r ->.
  apply bind_Val_inv in H as (q & s1 & H1%m_drbdObj__val & H).
  destruct (q <? 0) eqn:Hq; [by apply no_return_run in H; [|apply fail_over_or_exit_no_return]|].
  injection H as <- <-. destruct (wp_run _ _ _ _ _ (drbdHealth_sound false s) H1) as [_ Hh].
  apply Hh. apply Z.ltb_ge in Hq. destruct (drbdHealth_val false s q s1 H1) as [->|Hv]; [done|lia].
Qed.
End thread.

(** ** Examples *)

(** One MIP, which another node answers for. *)
Definition exMip : MipInfoT := mkMipInfo (Some [Some "192.168.1.1"%string]) (Some [Some "eth0"%string]) 1.
Definition exProbed : World :=
  set_glob (λ g, set_oldhaState HA_STANDBY (set_cngObj (Some (set_mipInfo exMip exConfig)) g)) exWorld.

#[export] Instance const_prober `{E : Env} b : Prober (λ _ _ : string, mret b : MW bool).
Proof. split. intros. solve_steps. Qed.

Lemma splitBrainAlgo_detects_witness :
  wp (splitBrainAlgo_ (E:=calm) (λ _ _, mret true) (λ _ _, mret true) 1)
    (λ o s', (∀ r, o ≠ Val r) ∧ w_lock s' = true ∧ quiet exProbed s') exProbed.
Proof.
  apply (splitBrainAlgo_detects (E:=calm) (λ _ _, mret true) (λ _ _, mret true) 1
    exProbed exProbed exProbed exProbed (set_mipInfo exMip exConfig) exRoleMgr 0);
    [done|done|done|done|vm_compute; reflexivity|by right; left|constructor| |vm_compute; reflexivity|done].
  exists "192.168.1.1"%string, "eth0"%string. split; [|split; [|done]]; by eexists.
Defined.

(** A node that went down as the target of a synchronisation. *)
Definition exTarget : World := set_psst (Some (mkPInfo "SyncTarget" 1)) exMonitored.

Lemma healthCheck_inconsistent_witness :
  w_psst (healthCheck (E:=calm) 1 exTarget).2 = Some (mkPInfo "SyncTarget" 2).
Proof.
  pose proof (healthCheck_inconsistent (E:=calm) 1 exTarget newUtils exConfig (mkPInfo "SyncTarget" 1))
    as H.
  apply H; [done|done|done|done|intros t; vm_compute; lia|vm_compute; reflexivity].
Defined.

(** A healthy node on its first start: it comes up with the start commands in
    order, and goes down with the stop commands when the thread is told to end. *)
Definition healthy_env : Env := {| answer := λ _ c,
  match c with
  | CPopen cmd => Some (String.append (if streq cmd (cmd_disk "drbd1" true) then "UpToDate" else "Secondary")
                                      (String "010" EmptyString))
  | CGetq _ => Some ROLEMGR_CLOSE
  | c => dflt c
  end |}.

Definition exFirst : World :=
  set_glob (λ g, set_rMgrObj (Some newRoleMgr) (set_oldhaState HA_UNDEFINED (set_tasksDone false g)))
    exMonitored.

Lemma rolemgr_svc_example :
  let '(o, s') := rolemgr_svc (E:=healthy_env) 1 exFirst in
  o = Val 0 ∧ execs (w_trace s') = (λ c, (c, true)) <$> (start_cmds false ++ stop_cmds).
Proof. vm_compute. auto. Qed.
