(* ===== verification/DevmonBase.v ===== *)
(** * Device monitor: state, configuration and utilities

    The daemon [apos_ha_devmond] that watches the disk for the agent: the members of
    its objects, [Global] with the FIFO and the recovery actions, [HA_DEVMON_Config],
    the trace file and [HA_DEVMON_Utils].  The code it has in common with the agent
    (the stripping of command output, the commands that query DRBD) is that of
    [Utils]. *)

From stdpp Require Import pretty.
From S2P Require Import Prelude World Proc CString Types LogTrace Config Utils Net DevmonMsg.

Open Scope Z_scope.

Definition APOS_HA_DEVMON_FILE_CNFG : string := "/opt/ap/apos/conf/apos_ha_devmond.conf".
Definition APOS_HA_DEVMON_2_AGENT_PIPE : string := "/var/run/ap/fifo_devmon2agent".
Definition APOS_HA_DEVMON_LOG_FILE : string := "devmond.log".
Definition APOS_HA_CMD_RECOVERY_OPTS : string := " --recover --force &>/dev/null".
Definition APOS_HA_DFLT_QUERY_INTERVAL : Z := 2000.

(** The message types of the threads ([HA_DEVMON_ShutdownTypes]). *)
Definition SHUTDOWN : Z := 0.
Definition CLOSE : Z := 3.
Definition TIMEOUT : Z := 4.

(** [HA_DEVMON_ConfigT]; [traceDir] is null when its allocation failed. *)
Record DevConfigT : Set := mkDevConfig {
  dc_traceMask : Z;
  dc_traceDir : option string;
  dc_rebootTmout : Z;
  dc_queryInterval : Z;
  dc_callbackTmout : Z
}.

(** [HA_DEVMON_DRBDMgr]; the member [data] of [m_msgInfo] is null until [init]. *)
Record MgrT : Set := mkMgr {
  mi_type : Z;
  mi_size : Z;
  mi_data : option DRBD_InfoT;
  m_cstate : string;
  m_ldisk : string;
  m_role : string;
  m_rdisk : string;
  m_diskinfo : string
}.

Definition newMgr : MgrT :=
  mkMgr DRBD_DISK_HEALTHY 0 None EmptyString EmptyString EmptyString EmptyString EmptyString.

(** What [HA_DEVMON_DRBDMon] and [HA_DEVMON_DRBDRecovery] have; [w_sendMsg] is used by
    the first only. *)
Record WatchT : Set := mkWatch {
  w_drbdObj : option MgrT;
  w_reactorRunner : bool;
  w_reactor : bool;
  w_sendMsg : bool;
  w_timerid : Z
}.

Definition newWatch : WatchT := mkWatch None false false false (-1).

(** The process: [Global], the objects of [HA_DEVMON_Adm], the pointer [m_admObj] of
    [devmonHAClass], the variables of the trace and the AMF class. *)
Record DevT : Set := mkDev {
  g_shutdownOrdered : bool;
  g_haMode : bool;
  g_utilObj : option UtilsT;
  g_cngObj : option DevConfigT;
  g_haObj : bool;
  g_fifo : bool;
  a_dMonObj : option WatchT;
  a_dRcvyObj : option WatchT;
  h_admObj : bool;
  d_log : LogT;
  d_amf : AmfT
}.

(** [Global::Global]; the file descriptor is invalid. *)
Definition newDev : DevT :=
  mkDev false false None None false false None None false (mkLog false 0) newAmf.

Definition set_g_shutdown (b : bool) (d : DevT) : DevT :=
  mkDev b (g_haMode d) (g_utilObj d) (g_cngObj d) (g_haObj d) (g_fifo d) (a_dMonObj d)
    (a_dRcvyObj d) (h_admObj d) (d_log d) (d_amf d).
Definition set_g_haMode (b : bool) (d : DevT) : DevT :=
  mkDev (g_shutdownOrdered d) b (g_utilObj d) (g_cngObj d) (g_haObj d) (g_fifo d) (a_dMonObj d)
    (a_dRcvyObj d) (h_admObj d) (d_log d) (d_amf d).
Definition set_g_util (u : option UtilsT) (d : DevT) : DevT :=
  mkDev (g_shutdownOrdered d) (g_haMode d) u (g_cngObj d) (g_haObj d) (g_fifo d) (a_dMonObj d)
    (a_dRcvyObj d) (h_admObj d) (d_log d) (d_amf d).
Definition set_g_cng (c : option DevConfigT) (d : DevT) : DevT :=
  mkDev (g_shutdownOrdered d) (g_haMode d) (g_utilObj d) c (g_haObj d) (g_fifo d) (a_dMonObj d)
    (a_dRcvyObj d) (h_admObj d) (d_log d) (d_amf d).
Definition set_g_haObj (b : bool) (d : DevT) : DevT :=
  mkDev (g_shutdownOrdered d) (g_haMode d) (g_utilObj d) (g_cngObj d) b (g_fifo d) (a_dMonObj d)
    (a_dRcvyObj d) (h_admObj d) (d_log d) (d_amf d).
Definition set_g_fifo (b : bool) (d : DevT) : DevT :=
  mkDev (g_shutdownOrdered d) (g_haMode d) (g_utilObj d) (g_cngObj d) (g_haObj d) b (a_dMonObj d)
    (a_dRcvyObj d) (h_admObj d) (d_log d) (d_amf d).
Definition set_a_dMon (w : option WatchT) (d : DevT) : DevT :=
  mkDev (g_shutdownOrdered d) (g_haMode d) (g_utilObj d) (g_cngObj d) (g_haObj d) (g_fifo d) w
    (a_dRcvyObj d) (h_admObj d) (d_log d) (d_amf d).
Definition set_a_dRcvy (w : option WatchT) (d : DevT) : DevT :=
  mkDev (g_shutdownOrdered d) (g_haMode d) (g_utilObj d) (g_cngObj d) (g_haObj d) (g_fifo d)
    (a_dMonObj d) w (h_admObj d) (d_log d) (d_amf d).
Definition set_h_adm (b : bool) (d : DevT) : DevT :=
  mkDev (g_shutdownOrdered d) (g_haMode d) (g_utilObj d) (g_cngObj d) (g_haObj d) (g_fifo d)
    (a_dMonObj d) (a_dRcvyObj d) b (d_log d) (d_amf d).
Definition set_d_log (l : LogT) (d : DevT) : DevT :=
  mkDev (g_shutdownOrdered d) (g_haMode d) (g_utilObj d) (g_cngObj d) (g_haObj d) (g_fifo d)
    (a_dMonObj d) (a_dRcvyObj d) (h_admObj d) l (d_amf d).
Definition set_d_amf (f : AmfT → AmfT) (d : DevT) : DevT :=
  mkDev (g_shutdownOrdered d) (g_haMode d) (g_utilObj d) (g_cngObj d) (g_haObj d) (g_fifo d)
    (a_dMonObj d) (a_dRcvyObj d) (h_admObj d) (d_log d) (f (d_amf d)).

Definition set_dc_mask (z : Z) (c : DevConfigT) : DevConfigT :=
  mkDevConfig z (dc_traceDir c) (dc_rebootTmout c) (dc_queryInterval c) (dc_callbackTmout c).
Definition set_dc_dir (s : option string) (c : DevConfigT) : DevConfigT :=
  mkDevConfig (dc_traceMask c) s (dc_rebootTmout c) (dc_queryInterval c) (dc_callbackTmout c).
Definition set_dc_reboot (z : Z) (c : DevConfigT) : DevConfigT :=
  mkDevConfig (dc_traceMask c) (dc_traceDir c) z (dc_queryInterval c) (dc_callbackTmout c).
Definition set_dc_query (z : Z) (c : DevConfigT) : DevConfigT :=
  mkDevConfig (dc_traceMask c) (dc_traceDir c) (dc_rebootTmout c) z (dc_callbackTmout c).
Definition set_dc_callback (z : Z) (c : DevConfigT) : DevConfigT :=
  mkDevConfig (dc_traceMask c) (dc_traceDir c) (dc_rebootTmout c) (dc_queryInterval c) z.

Abbreviation MD := (M (Proc DevT)).

Section devmon.
Context `{E : Env}.

(** ** The trace file *)

Fixpoint dev_mkdirs (pre rest : string) : MD Z :=
  match rest with
  | EmptyString => mret 0
  | String c r =>
      if eqc c "/"%char then
        res ← req (CMkdir pre);
        match res with
        | MkOk | MkExists => dev_mkdirs (String.append pre (String c EmptyString)) r
        | MkNoent | MkError => mret (-1)
        end
      else dev_mkdirs (String.append pre (String c EmptyString)) r
  end.

Definition dev_mkdirs_from (dir : string) : MD Z :=
  match dir with
  | EmptyString => mret 0
  | String c r => dev_mkdirs (String c EmptyString) r
  end.

(** [apos_ha_logtrace_init]: a failure to open the file is not reported. *)
Definition dev_logtrace_init (pathname : string) (mask : Z) : MD Z :=
  upd (λ d, set_d_log (mkLog (trace_open (d_log d)) mask) d);;
  if mask =? 0 then mret 0 else
  rCode ←
    match dirname pathname with
    | None => mret (-1)
    | Some dirPath =>
        res ← req (CMkdir dirPath);
        match res with
        | MkOk | MkExists => mret 0
        | MkNoent => dev_mkdirs_from (String.append dirPath "/")
        | MkError => mret (-1)
        end
    end;
  if rCode =? 0 then
    ok ← req (CCreate pathname);
    upd (set_d_log (mkLog ok mask));;
    mret rCode
  else mret rCode.

(** ** Configuration *)

(** [initConfig], called by the constructor only. *)
Definition dev_initConfig : MD DevConfigT :=
  ok ← req (CNew "traceDir");
  dir ← (if (ok : bool) then d ← strcpy BUF APOS_HA_DFLT_TRCE_DIR; mret (Some d) else mret None);
  mret (mkDevConfig APOS_HA_DFLT_TRCE_CATGY dir APOS_HA_DFLT_REBOOT_TMOUT
          APOS_HA_DFLT_QUERY_INTERVAL APOS_HA_DFLT_CALLBACK_TMOUT).

(** [Global::Config]: what is tested is [m_utilObj], so the object is made only
    while there are no utilities. *)
Definition dev_Config : MD (option DevConfigT) :=
  u ← mem g_utilObj;
  c ← mem g_cngObj;
  match u, c with
  | None, None =>
      ok ← req (CNew "HA_DEVMON_Config");
      if (ok : bool) then
        c ← dev_initConfig;
        upd (set_g_cng (Some c));;
        mret (Some c)
      else mret None
  | _, _ => mret c
  end.

Definition dev_getConfig : MD DevConfigT := o ← dev_Config; deref o.

(** One [if (strstr(pch, "KEY=") != NULL)] of [readConfig]. *)
Definition dev_option (key : string) (set : string → DevConfigT → MD DevConfigT)
    (st : string * DevConfigT) : MD (string * DevConfigT) :=
  let '(pch, c) := st in
  if strstr pch (String.append key (String "=" EmptyString)) then
    match getToken pch "=" with
    | None => undef
    | Some (pch', tmp) => c' ← set tmp c; mret (pch', c')
    end
  else mret st.

(** The directory is stored in a new buffer; where there is none the pointer is null
    and the result of [readConfig] is -1. *)
Definition dev_set_dir (tmp : string) (c : DevConfigT) : MD DevConfigT :=
  ok ← req (CNew "tmpConfig.traceDir");
  if (ok : bool) then d ← strcpy BUF tmp; mret (set_dc_dir (Some d) c)
  else mret (set_dc_dir None c).

Definition dev_options (pch : string) (c : DevConfigT) : MD DevConfigT :=
  st ← dev_option "DEVMON_TRACE_CATGY" (λ tmp c, mret (set_dc_mask (strtoull16 tmp) c)) (pch, c);
  st ← dev_option "DEVMON_TRACE_DIR" dev_set_dir st;
  st ← dev_option "DEVMON_QUERY_INTVL" (λ tmp c, mret (set_dc_query (u32 (strtol10 tmp)) c)) st;
  st ← dev_option "DEVMON_CALLBACK_TMOUT" (λ tmp c, mret (set_dc_callback (u32 (atoi tmp)) c)) st;
  st ← dev_option "DEVMON_REBOOT_TMOUT" (λ tmp c, mret (set_dc_reboot (u32 (atoi tmp)) c)) st;
  mret st.2.

Definition dev_config_line (c : DevConfigT) (buff : string) : MD DevConfigT :=
  let pch := skip_blanks (c_str buff) in
  if starts pch "#" || starts pch LF then mret c else
  let pch := match strchr pch "#" with
             | Some (p, _) => String.append p (String LF EmptyString)
             | None => pch
             end in
  dev_options pch c.

(** The loop: the configuration read, and whether an allocation failed. *)
Fixpoint dev_config_lines (c : DevConfigT) (failed : bool) (lines : list string)
    : MD (DevConfigT * bool) :=
  match lines with
  | [] => mret (c, failed)
  | l :: ls =>
      c ← dev_config_line c l;
      dev_config_lines c (failed || bool_decide (dc_traceDir c = None)) ls
  end.

(** [initLog]. *)
Definition dev_initLog (tmp m : DevConfigT) : MD (Z * DevConfigT) :=
  tdir ← deref (dc_traceDir tmp);
  mdir ← deref (dc_traceDir m);
  rCode ←
    if negb (streq tdir mdir) || negb (dc_traceMask tmp =? dc_traceMask m) then
      r ← dev_logtrace_init (snprintf 256 (String.append tdir APOS_HA_DEVMON_LOG_FILE))
            (u32 (dc_traceMask tmp));
      mret (if r =? 0 then 0 else -1)
    else mret 0;
  if rCode =? 0 then
    dir ← strcpy BUF tdir;
    mret (0, set_dc_dir (Some dir) tmp)
  else mret (rCode, m).

(** [readConfig]: the values start from zero, and the directory from a literal. *)
Definition dev_readConfig : MD Z :=
  m ← dev_getConfig;
  fp ← req (CReadFile APOS_HA_DEVMON_FILE_CNFG);
  let tmpConfig := mkDevConfig 0 (Some EmptyString) 0 0 0 in
  match fp with
  | None => mret (-1)
  | Some file =>
      '(tmpConfig, failed) ← dev_config_lines tmpConfig false (fgets_lines LINE file);
      '(rCode, m) ←
        (if (failed : bool) then mret (-1, m) else
         '(r, m) ← dev_initLog tmpConfig m;
         mret (if r <? 0 then -1 else 0, m));
      upd (set_g_cng (Some m));;
      closed ← req (CClose APOS_HA_DEVMON_FILE_CNFG);
      _ ← deref (dc_traceDir tmpConfig);
      mret (if (closed : bool) then rCode else -1)
  end.

(** ** Utilities *)

(** [Global::Utils]. *)
Definition dev_Utils : MD (option UtilsT) :=
  o ← mem g_utilObj;
  match o with
  | Some u => mret (Some u)
  | None =>
      ok ← req (CNew "HA_DEVMON_Utils");
      if (ok : bool) then upd (set_g_util (Some newUtils));; mret (Some newUtils)
      else mret None
  end.

(** A method called through [Utils()]. *)
Definition dev_Utils_ {A} (m : MD A) : MD A := o ← dev_Utils; _ ← deref o; m.

(** [Ap] and [init]; [Gep] does nothing. *)
Definition dev_Ap (u : UtilsT) : MD (Z * UtilsT) :=
  fp ← req (CReadFile APOS_HA_FILE_NODE_ID);
  match fp with
  | None => mret (-1, u)
  | Some file =>
      let tok := take 10 (word (skip_space file)) in
      if streq tok EmptyString then mret (-1, u) else
      buff ← strcpy 10 tok;
      closed ← req (CClose APOS_HA_FILE_NODE_ID);
      if negb closed then mret (-1, u) else
      let node_id := u32 (atoi buff) in
      if node_id =? APOS_HA_NODE_ONE then mret (0, mkUtils true (ap_2 u))
      else if node_id =? APOS_HA_NODE_TWO then mret (0, mkUtils (ap_1 u) true)
      else mret (-1, u)
  end.

Definition dev_Utils_init : MD Z :=
  o ← dev_Utils;
  u ← deref o;
  '(r, u) ← dev_Ap u;
  upd (set_g_util (Some u));;
  mret (if r <? 0 then -1 else 0).

Definition dev_msec_sleep (msecs : Z) : MD unit := req (CSleep msecs).

(** [_execlp], called through [Utils()]: without a configuration the child, which
    finds the utilities and makes none, is killed by a null pointer. *)
Definition dev_execlp (cmdStr : string) : MD Z :=
  c ← mem g_cngObj;
  match c with
  | None => _ ← req CFork; mret (-1)
  | Some c =>
      res ← req (CExec cmdStr (u32 (dc_callbackTmout c / APOS_HA_ONESEC_IN_MILLI - 1)));
      match res with
      | ForkFailed => mret (-1)
      | ChildStatus status => mret (if status =? 0 then 0 else -1)
      end
  end.

Definition dev_runCommand (command : string) : MD (bool * string) :=
  fp ← req (CPopen command);
  match fp with
  | None => mret (false, EmptyString)
  | Some out =>
      output ← deref (runCommand_loop (fgets_lines READLINE out) EmptyString);
      mret (true, output)
  end.

Definition dev_getDiskState (resource : string) (isLocal : bool) : MD (bool * string) :=
  if streq resource EmptyString then mret (false, EmptyString)
  else dev_runCommand (cmd_disk resource isLocal).

Definition dev_getDrbdRole (resource : string) (isLocal : bool) : MD (bool * string) :=
  if streq resource EmptyString then mret (false, EmptyString) else
  if isLocal then dev_runCommand (cmd_local_role resource) else
  '(ok, peer_name) ← dev_runCommand cat_cmd;
  if (ok : bool) then dev_runCommand (cmd_peer_role resource peer_name)
  else mret (false, EmptyString).

Definition dev_getConnectedState (resource : string) : MD (bool * string) :=
  if streq resource EmptyString then mret (false, EmptyString) else
  '(ok1, temp) ← dev_runCommand (cmd_replication resource);
  state ←
    (if negb ok1 then mret EmptyString
     else if streq temp "Established" || streq temp "Off" then
       '(ok2, temp2) ← dev_runCommand (cmd_connection resource);
       mret (if (ok2 : bool) then temp2 else EmptyString)
     else mret temp);
  mret (negb (streq state EmptyString), state).

(** ** Global *)

(** [m_utilObj->msec_sleep(m_cngObj->getConfig().rebootTmout)]. *)
Definition dev_sleep_reboot : MD unit :=
  u ← mem g_utilObj; _ ← deref u;
  o ← mem g_cngObj; c ← deref o;
  dev_msec_sleep (dc_rebootTmout c).

(** [reboot]. *)
Definition dev_reboot : MD unit :=
  res ← req CRebootCmd;
  let failed := match res with ForkFailed => true | ChildStatus st => negb (st =? 0) end in
  (if failed then dev_sleep_reboot else mret tt);;
  exit EXIT_FAILURE.

(** [nodefailOver] and [nodefailFast]. *)
Definition dev_recover (r : Recovery) : MD unit :=
  ha ← mem g_haObj;
  (if (ha : bool) then
     ok ← req (CReport r);
     if (ok : bool) then dev_sleep_reboot else mret tt
   else mret tt);;
  dev_reboot.

Definition dev_nodefailOver : MD unit := dev_recover NODE_FAILOVER.
Definition dev_nodefailFast : MD unit := dev_recover NODE_FAILFAST.

(** [compRestart]. *)
Definition dev_compRestart : MD unit :=
  ha ← mem g_haObj;
  if (ha : bool) then
    ok ← req (CReport COMPONENT_RESTART);
    if (ok : bool) then mret tt else exit EXIT_FAILURE
  else mret tt.

(** [HA_DEVMON_Utils::forceExit]. *)
Definition dev_forceExit : MD unit :=
  ha ← mem g_haMode;
  (if (ha : bool) then dev_nodefailOver else mret tt);;
  exit EXIT_FAILURE.

(** The exit of a thread that could not be set up. *)
Definition restart_and_exit {A} : MD A :=
  ha ← mem g_haMode;
  (if (ha : bool) then dev_compRestart else mret tt);;
  exit EXIT_FAILURE.

(** [fifo_open] and [fifo_close]. *)
Definition fifo_open : MD Z :=
  r ← req CMkfifo;
  match r with
  | MkOk | MkExists =>
      ok ← req COpenFifo;
      upd (set_g_fifo ok);;
      mret (if (ok : bool) then 0 else -1)
  | MkNoent | MkError => mret (-1)
  end.

Definition fifo_close : MD Z :=
  ok ← req (CClose APOS_HA_DEVMON_2_AGENT_PIPE);
  mret (if (ok : bool) then 0 else -1).

(** [write_buffer]. *)
Definition write_buffer (send : MsgT) : MD Z :=
  open ← mem g_fifo;
  byteCount ← (if (open : bool) then req (CWriteFifo (encode send)) else mret (-1));
  mret (if byteCount =? Z.of_nat MSG_LEN then 0 else -1).

(** [deactivate]. *)
Definition dev_deactivate : MD unit := upd (set_g_util None ∘ set_g_cng None).
End devmon.

(** The values [readConfig] starts from are zero, not the defaults: a parameter the file
    does not set is lost, and the timers are scheduled with no delay. *)
Definition sparse_env : Env := {| answer := λ _ c, match c with
  | CReadFile _ => Some (text_of ["DEVMON_TRACE_CATGY=1"; "DEVMON_TRACE_DIR=/tmp/"]%string)
  | c => dflt c
  end |}.

Lemma defaults_lost :
  wp (dev_readConfig (E:=sparse_env)) (valQ (λ r s, r = 0
    ∧ g_cngObj (p_mem s) = Some (mkDevConfig 1 (Some "/tmp/"%string) 0 0 0))) (mkProc [] ∅ newDev).
Proof. vm_compute. auto. Qed.
