(* ===== verification/DevmonWatch.v ===== *)
(** * Device monitor: the threads that watch the disk

    [HA_DEVMON_DRBDMgr], which reads the state of DRBD; [HA_DEVMON_DRBDMon], the thread
    that reports a change of its health to the agent; and [HA_DEVMON_DRBDRecovery], the
    thread that has a degraded mirror repaired.  Both threads wake up on a timer that
    posts to their queue. *)

From S2P Require Import Prelude World Proc CString Types LogTrace Config Utils Net DevmonMsg DevmonBase.

Open Scope Z_scope.

(** Assignments to members. *)
Definition set_type (ty : Z) (m : MgrT) : MgrT :=
  mkMgr ty (mi_size m) (mi_data m) (m_cstate m) (m_ldisk m) (m_role m) (m_rdisk m) (m_diskinfo m).
Definition set_data (d : option DRBD_InfoT) (m : MgrT) : MgrT :=
  mkMgr (mi_type m) (mi_size m) d (m_cstate m) (m_ldisk m) (m_role m) (m_rdisk m) (m_diskinfo m).
Definition set_msize (z : Z) (m : MgrT) : MgrT :=
  mkMgr (mi_type m) z (mi_data m) (m_cstate m) (m_ldisk m) (m_role m) (m_rdisk m) (m_diskinfo m).
Definition set_cstate (s : string) (m : MgrT) : MgrT :=
  mkMgr (mi_type m) (mi_size m) (mi_data m) s (m_ldisk m) (m_role m) (m_rdisk m) (m_diskinfo m).
Definition set_ldisk (s : string) (m : MgrT) : MgrT :=
  mkMgr (mi_type m) (mi_size m) (mi_data m) (m_cstate m) s (m_role m) (m_rdisk m) (m_diskinfo m).
Definition set_role (s : string) (m : MgrT) : MgrT :=
  mkMgr (mi_type m) (mi_size m) (mi_data m) (m_cstate m) (m_ldisk m) s (m_rdisk m) (m_diskinfo m).
Definition set_rdisk (s : string) (m : MgrT) : MgrT :=
  mkMgr (mi_type m) (mi_size m) (mi_data m) (m_cstate m) (m_ldisk m) (m_role m) s (m_diskinfo m).

Definition set_w_drbdObj (o : option MgrT) (w : WatchT) : WatchT :=
  mkWatch o (w_reactorRunner w) (w_reactor w) (w_sendMsg w) (w_timerid w).
Definition set_w_runner (b : bool) (w : WatchT) : WatchT :=
  mkWatch (w_drbdObj w) b (w_reactor w) (w_sendMsg w) (w_timerid w).
Definition set_w_reactor (b : bool) (w : WatchT) : WatchT :=
  mkWatch (w_drbdObj w) (w_reactorRunner w) b (w_sendMsg w) (w_timerid w).
Definition set_w_sendMsg (b : bool) (w : WatchT) : WatchT :=
  mkWatch (w_drbdObj w) (w_reactorRunner w) (w_reactor w) b (w_timerid w).
Definition set_w_timerid (z : Z) (w : WatchT) : WatchT :=
  mkWatch (w_drbdObj w) (w_reactorRunner w) (w_reactor w) (w_sendMsg w) z.

(** The two threads, and the object of [HA_DEVMON_Adm] each runs on. *)
Inductive Thread : Set := Mon | Rcvy.

Definition thread_name (th : Thread) : string :=
  match th with Mon => "drbdmon" | Rcvy => "drbdrecovery" end.
Definition object (th : Thread) (d : DevT) : option WatchT :=
  match th with Mon => a_dMonObj d | Rcvy => a_dRcvyObj d end.
Definition set_object (th : Thread) (o : option WatchT) (d : DevT) : DevT :=
  match th with Mon => set_a_dMon o d | Rcvy => set_a_dRcvy o d end.

Definition resource : string := "drbd1".

(** [strncpy(dst, src, 16)] with the last byte set to NUL. *)
Definition strncpy_state (s : string) : string := take (pred STATE_LEN) s.

(** The states [isdegraded] repairs, and how [isactive] judges a state: the later tests
    override the earlier ones. *)
Definition degraded (m : MgrT) : bool :=
  streq (m_cstate m) "Connected" && streq (m_role m) "Primary" && streq (m_ldisk m) "UpToDate"
  && (streq (m_rdisk m) "Inconsistent" || streq (m_rdisk m) "Outdated").

Definition judge_state (m : MgrT) : Z :=
  let ty :=
    if (negb (streq (m_ldisk m) "Consistent") && negb (streq (m_ldisk m) "UpToDate"))
       || negb (streq (m_rdisk m) "UpToDate")
    then DRBD_DISK_FAULTY else DRBD_DISK_HEALTHY in
  let ty := if negb (streq (m_role m) "Primary") then DRBD_ROLE_CHANGE else ty in
  if negb (streq (m_cstate m) "Connected") then DRBD_CONN_ERROR else ty.

(** [reset]: the last byte of each array is NUL anyway. *)
Definition mgr_reset (m : MgrT) : MgrT :=
  mkMgr (mi_type m) (mi_size m) (mi_data m) EmptyString EmptyString EmptyString EmptyString EmptyString.

Section watch.
Context `{E : Env}.

(** ** [HA_DEVMON_DRBDMgr] *)

(** [init]: the structure allocated is not read before [isactive] clears it. *)
Definition mgr_init (m : MgrT) : MD (Z * MgrT) :=
  ok ← req (CNew "DRBD_InfoT");
  if (ok : bool) then mret (0, set_msize (Z.of_nat INFO_LEN) (set_data (Some DRBD_zero) m))
  else mret (-1, m).

(** One query of [parse_proc_drbd]: what is found goes to its member. *)
Definition query (q : MD (bool * string)) (set : string → MgrT → MgrT) (st : Z * MgrT)
    : MD (Z * MgrT) :=
  '(found, s) ← dev_Utils_ q;
  mret (if (found : bool) then (st.1, set (strncpy_state s) st.2) else (-1, st.2)).

(** [parse_proc_drbd]. *)
Definition parse_proc_drbd (m : MgrT) : MD (Z * MgrT) :=
  st ← query (dev_getConnectedState resource) set_cstate (0, m);
  st ← query (dev_getDrbdRole resource true) set_role st;
  st ← query (dev_getDiskState resource true) set_ldisk st;
  query (dev_getDiskState resource false) set_rdisk st.

(** [isdegraded]. *)
Definition isdegraded (m : MgrT) : MD (Z * MgrT) :=
  '(r, m) ← parse_proc_drbd m;
  mret (if r =? 0 then if degraded m then 1 else 0 else 0, m).

(** [recovery]. *)
Definition recovery : MD Z :=
  dev_Utils_ (dev_execlp (snprintf APOS_HA_CMD_LEN
    (String.append APOS_HA_CMD_DRBDMGR APOS_HA_CMD_RECOVERY_OPTS))).

(** [isactive]: 1 unless the state was read and is not healthy. *)
Definition isactive (m : MgrT) : MD (Z * MgrT) :=
  _ ← deref (mi_data m);
  '(r, m) ← parse_proc_drbd (set_data (Some DRBD_zero) m);
  if negb (r =? 0) then mret (1, m) else
  let m := set_type (judge_state m) m in
  let info := mkDRBD true (m_cstate m) (m_role m) (m_ldisk m) (m_diskinfo m) in
  mret (if mi_type m =? DRBD_DISK_HEALTHY then 1 else 0, set_data (Some info) m).

(** ** The objects of the threads *)

Definition watch (th : Thread) : MD WatchT := o ← mem (object th); deref o.
Definition set_watch (th : Thread) (f : WatchT → WatchT) : MD unit :=
  upd (λ d, set_object th (f <$> object th d) d).

(** A method of [m_drbdObj]. *)
Definition on_mgr {A} (th : Thread) (f : MgrT → MD (A * MgrT)) : MD A :=
  w ← watch th;
  m ← deref (w_drbdObj w);
  '(r, m) ← f m;
  set_watch th (set_w_drbdObj (Some m));;
  mret r.

(** The timer is scheduled in whole seconds, on [m_reactor]. *)
Definition dev_schedule_timer (th : Thread) : MD Z :=
  c ← dev_getConfig;
  w ← watch th;
  (if w_reactor w then mret tt else undef);;
  ok ← req (CTimer "schedule" (dc_queryInterval c / APOS_HA_ONESEC_IN_MILLI));
  set_watch th (set_w_timerid (if (ok : bool) then 0 else -1));;
  mret (if (ok : bool) then 0 else -1).

(** [initDRBDMon] and [HA_DEVMON_DRBDRecovery::init]. *)
Definition watch_init (th : Thread) : MD Z :=
  n ← req (CNew "HA_DEVMON_DRBDMgr");
  set_watch th (set_w_drbdObj (if (n : bool) then Some newMgr else None));;
  if negb n then mret (-1) else
  r ← on_mgr th mgr_init;
  if r <? 0 then mret (-1) else
  n ← req (CNew "ACE_Reactor");
  set_watch th (set_w_reactor n);;
  if negb n then mret (-1) else
  n ← req (CNew "APOS_HA_ReactorRunner");
  set_watch th (set_w_runner n);;
  if negb n then mret (-1) else
  ok ← req (CActivate (String.append (thread_name th) " reactor"));
  if negb ok then mret (-1) else
  dev_schedule_timer th.

Definition initDRBDMon : MD Z := watch_init Mon.
Definition drbdrecovery_init : MD Z := watch_init Rcvy.

(** [open], [close] and [handle_timeout]: a message that could not be posted is
    dropped. *)
Definition watch_open (th : Thread) : MD Z :=
  ok ← req (CActivate (thread_name th));
  mret (if (ok : bool) then 0 else -1).

Definition watch_close (th : Thread) : MD Z :=
  mb ← req (CNew "ACE_Message_Block");
  if negb mb then mret (-1) else
  ok ← req (CPutq (thread_name th) CLOSE);
  mret (if (ok : bool) then 0 else -1).

Definition watch_timeout (th : Thread) : MD Z :=
  mb ← req (CNew "ACE_Message_Block");
  (if (mb : bool) then _ ← req (CPutq (thread_name th) TIMEOUT); mret tt else mret tt);;
  dev_schedule_timer th.

(** [close(u_long)], which runs when the thread has ended. *)
Definition watch_closed (th : Thread) : MD Z :=
  w ← watch th;
  (if w_reactor w then _ ← req (CTimer "cancel" 0); mret tt else mret tt);;
  sd ← mem g_shutdownOrdered;
  if negb sd then exit EXIT_FAILURE else
  (if w_reactorRunner w then req (CWait (String.append (thread_name th) " reactor")) else mret tt);;
  set_watch th (λ w, set_w_runner false (set_w_reactor false (set_w_drbdObj None w)));;
  mret 0.

(** ** [HA_DEVMON_DRBDMon] *)

(** [sendMsg]: [fillMsg] hands out [m_msgInfo]. *)
Definition sendMsg : MD Z :=
  w ← watch Mon;
  m ← deref (w_drbdObj w);
  d ← deref (mi_data m);
  rCode ← write_buffer (mkMsg (mi_type m) (mi_size m) d);
  set_watch Mon (set_w_drbdObj (Some (mgr_reset m)));;
  mret rCode.

(** One of the two branches of [healthCheck]. *)
Definition report_change (rCode : Z) (now : bool) : MD Z :=
  r ← sendMsg;
  set_watch Mon (set_w_sendMsg now);;
  mret (if r =? 0 then rCode else -1).

(** [healthCheck]. *)
Definition drbdmon_healthCheck : MD Z :=
  rCode ← on_mgr Mon isactive;
  w ← watch Mon;
  rCode ← (if (rCode =? 0) && negb (w_sendMsg w) then report_change rCode true else mret rCode);
  w ← watch Mon;
  if negb (rCode =? 0) && w_sendMsg w then report_change rCode false else mret rCode.

(** ** [HA_DEVMON_DRBDRecovery] *)

Definition drbdrecovery_healthCheck : MD Z :=
  r ← on_mgr Rcvy isdegraded;
  if r =? 0 then mret 0 else
  r ← recovery;
  mret (if r =? 0 then 0 else -1).

(** ** The threads *)

(** The loop of [svc]; [n] bounds the messages. *)
Fixpoint watch_loop (n : nat) (th : Thread) (healthCheck : MD Z) : MD unit :=
  match n with
  | O => nofuel
  | S n =>
      mb ← req (CGetq (thread_name th));
      match mb with
      | None => mret tt
      | Some ty =>
          if ty =? TIMEOUT then _ ← healthCheck; watch_loop n th healthCheck
          else mret tt
      end
  end.

Definition watch_svc (th : Thread) (init healthCheck : MD Z) (fuel : nat) : MD Z :=
  r ← init;
  if r <? 0 then restart_and_exit else
  watch_loop fuel th healthCheck;;
  mret 0.

Definition devmon_drbdmon_svc : nat → MD Z := watch_svc Mon initDRBDMon drbdmon_healthCheck.
Definition drbdrecovery_svc : nat → MD Z :=
  watch_svc Rcvy drbdrecovery_init drbdrecovery_healthCheck.
End watch.
