(* ===== verification/DevmonAdm.v ===== *)
(** * Device monitor: the daemon

    [HA_DEVMON_Adm], which starts and stops the two threads; [devmonHAClass], whose jobs
    AMF calls; and the program [apos_ha_devmond], with and without AMF.  The layer that
    turns the callbacks of AMF into these jobs is the AMF class of [Amf]. *)

From S2P Require Import Prelude World Amf Proc CString Types LogTrace Config Utils Net DevmonMsg DevmonBase DevmonWatch.

Open Scope Z_scope.

Definition SIGTERM : Z := 15.

(** The options of the monitor, and the counters of [parse_command_line]. *)
Record DevOpts : Set := mkDevOpts { dv_noha : bool; dv_active : bool }.
Record DevCounts : Set := mkDevCounts { dv_noha_cnt : nat; dv_active_cnt : nat }.

Definition dev_long_options : list string := ["noha"; "active"]%string.

(** [getopt_long] on the text after the dashes. *)
Definition dev_getopt (text : string) : option string :=
  if bool_decide (text ∈ dev_long_options) then Some text
  else match List.filter (String.prefix text) dev_long_options with
       | [n] => Some n
       | _ => None
       end.

(** The body of the loop for an option [name] given as [text]. *)
Definition dev_count (name text : string) (c : DevCounts) : option DevCounts :=
  if negb (streq name text) then None
  else if streq name "noha" then
    if (0 <? dv_noha_cnt c)%nat then None else Some (mkDevCounts (S (dv_noha_cnt c)) (dv_active_cnt c))
  else if streq name "active" then
    if (0 <? dv_active_cnt c)%nat then None else Some (mkDevCounts (dv_noha_cnt c) (S (dv_active_cnt c)))
  else Some c.

(** The loop: arguments that are no options are passed over, and two dashes end the
    options. *)
Fixpoint dev_args (args : list string) (o : DevOpts) (c : DevCounts) (nonopts : nat)
    : option (DevOpts * DevCounts * nat * bool) :=
  match args with
  | [] => Some (o, c, nonopts, false)
  | String a0 rest as arg :: args =>
      if streq arg "--" then Some (o, c, (nonopts + length args)%nat, true)
      else if eqc a0 "-" then
        match rest with
        | EmptyString => dev_args args o c (S nonopts)
        | String a1 text =>
            if eqc a1 "-" then
              match dev_getopt text with
              | None => None
              | Some name =>
                  match dev_count name text c with
                  | None => None
                  | Some c =>
                      dev_args args
                        (mkDevOpts (dv_noha o || streq name "noha") (dv_active o || streq name "active"))
                        c nonopts
                  end
              end
            else None
        end
      else dev_args args o c (S nonopts)
  | EmptyString :: args => dev_args args o c (S nonopts)
  end.

(** [parse_command_line]: the options, or [None] where it returns -1. *)
Definition dev_parse_command_line (args : list string) : option DevOpts :=
  match dev_args args (mkDevOpts false false) (mkDevCounts 0 0) 0 with
  | None => None
  | Some (o, c, nonopts, dashes) =>
      if (dv_noha_cnt c =? 0)%nat && (0 <? dv_active_cnt c)%nat then None
      else if (dashes : bool) then None
      else if (0 <? nonopts)%nat then None
      else Some o
  end.

Definition dev_tracefile : string :=
  snprintf 256 (String.append APOS_HA_DFLT_TRCE_DIR APOS_HA_DEVMON_LOG_FILE).

Section adm.
Context `{E : Env}.

(** ** [HA_DEVMON_Adm] *)

(** [DRBDMon] and [DRBDRecovery]: the accessors that make the objects. *)
Definition adm_object (th : Thread) : MD (option WatchT) :=
  o ← mem (object th);
  match o with
  | Some w => mret (Some w)
  | None =>
      ok ← req (CNew (thread_name th));
      upd (set_object th (if (ok : bool) then Some newWatch else None));;
      mret (if (ok : bool) then Some newWatch else None)
  end.

(** A method called through the accessor. *)
Definition through {A} (th : Thread) (m : MD A) : MD A :=
  o ← adm_object th; _ ← deref o; m.

(** [initClasses]. *)
Definition dev_initClasses : MD Z :=
  r ← dev_readConfig;
  if r <? 0 then mret (-1) else
  r ← dev_Utils_init;
  mret (if r <? 0 then -1 else 0).

(** [start(argc, argv)] and [start(haObj)]. *)
Definition dev_start : MD Z :=
  st ← req (CRegister "SIGINT");
  if negb st then mret (-1) else
  st ← req (CRegister "SIGTERM");
  if negb st then mret (-1) else
  st ← req (CRegister "SIGHUP");
  if negb st then mret (-1) else
  r ← dev_initClasses;
  if r <? 0 then mret (-1) else
  ok ← req (CActivate "devmonadm");
  mret (if (ok : bool) then 0 else -1).

Definition dev_start_ha : MD Z :=
  upd (set_g_haMode true ∘ set_g_haObj true);;
  dev_start.

(** [stop]. *)
Definition dev_stop : MD unit :=
  mb ← req (CNew "ACE_Message_Block");
  if (mb : bool) then _ ← req (CPutq "devmonadm" SHUTDOWN); mret tt else mret tt.

(** [readConfig_r], after the dump of the old values to the trace. *)
Definition dev_readConfig_r : MD unit :=
  _ ← dev_getConfig;
  _ ← dev_readConfig;
  mret tt.

(** [handle_signal]. *)
Definition dev_signal (signum : Z) : MD Z :=
  (if signum =? SIGHUP then dev_readConfig_r else dev_stop);;
  mret 0.

(** [shutDown_all]: each thread is closed and waited for, then the FIFO is closed. *)
Definition dev_shutDown_all : MD unit :=
  _ ← req (CRemove "SIGHUP");
  _ ← req (CRemove "SIGTERM");
  _ ← req (CRemove "SIGINT");
  upd (set_g_shutdown true);;
  _ ← through Mon (watch_close Mon);
  through Mon (req (CWait (thread_name Mon)));;
  _ ← through Rcvy (watch_close Rcvy);
  through Rcvy (req (CWait (thread_name Rcvy)));;
  _ ← fifo_close;
  mret tt.

(** The creation and the start of one thread in [svc]: whether it worked. *)
Definition start_thread (th : Thread) : MD bool :=
  o ← adm_object th;
  match o with
  | None => mret false
  | Some _ => r ← through th (watch_open th); mret (r =? 0)
  end.

(** The message loop of [svc]; [n] bounds the messages. *)
Fixpoint devadm_loop (n : nat) : MD unit :=
  match n with
  | O => nofuel
  | S n =>
      mb ← req (CGetq "devmonadm");
      match mb with
      | None => mret tt
      | Some ty => if ty =? SHUTDOWN then dev_shutDown_all else devadm_loop n
      end
  end.

(** [svc]. *)
Definition dev_svc (fuel : nat) : MD Z :=
  r ← fifo_open;
  ok ← (if r <? 0 then mret false else start_thread Mon);
  ok ← (if (ok : bool) then start_thread Rcvy else mret false);
  if negb ok then restart_and_exit else
  devadm_loop fuel;;
  mret 0.

(** The destructor. *)
Definition adm_delete : MD unit :=
  upd (set_a_dMon None ∘ set_a_dRcvy None);;
  dev_deactivate;;
  upd (set_g_shutdown false ∘ set_g_haMode false).

(** ** [devmonHAClass]: a result [ACS_APGCC_SUCCESS] is [true] *)

Definition dev_activateApp : MD bool :=
  a ← mem h_admObj;
  if (a : bool) then mret true else
  n ← req (CNew "HA_DEVMON_Adm");
  upd (set_h_adm n);;
  if negb n then mret false else
  r ← dev_start_ha;
  if r <? 0 then adm_delete;; upd (set_h_adm false);; mret false
  else mret true.

Definition dev_passifyApp : MD bool :=
  a ← mem h_admObj;
  if negb a then mret true else
  dev_stop;;
  req (CWait "devmonadm");;
  adm_delete;;
  upd (set_h_adm false);;
  mret true.

(** The jobs AMF asks for: [JobActive] starts the daemon, the others stop it. *)
Definition dev_job (j : Job) : MD bool :=
  match j with
  | JobActive _ => dev_activateApp
  | JobPassive _ | JobQuiesing _ | JobQuiesced _ | JobTerminate | JobRemove | JobShutdown =>
      dev_passifyApp
  | JobHealth => mret true
  end.

#[export] Instance dev_obj : AmfObj (Proc DevT) := {|
  host_ask := req;
  host_amf := d_amf ∘ p_mem;
  host_set := λ f s, mkProc (p_trace s) (p_fs s) (set_d_amf f (p_mem s));
  host_name := "apos_ha_devmond"
|}.
#[export] Instance dev_host : Host (Proc DevT) := {| host_job := dev_job |}.

(** [run_devmon_daemon]: the result is 0 also when the start failed. *)
Definition run_devmon_daemon : MD Z :=
  r ← dev_logtrace_init dev_tracefile APOS_HA_DFLT_TRCE_CATGY;
  if negb (r =? 0) then mret (-1) else
  n ← req (CNew "HA_DEVMON_Adm");
  if negb n then mret (-1) else
  r ← dev_start;
  (if r <? 0 then mret tt else req (CWait "devmonadm"));;
  adm_delete;;
  mret 0.

(** [ACE_TMAIN]: deleting the HA object stops what is left. *)
Definition dev_main (fuel : nat) (args : list string) : MD Z :=
  match dev_parse_command_line args with
  | None => mret (-1)
  | Some o =>
      if dv_noha o then run_devmon_daemon else
      n ← req (CNew "devmonHAClass");
      if negb n then mret (-1) else
      daemonize;;
      r ← dev_logtrace_init dev_tracefile APOS_HA_DFLT_TRCE_CATGY;
      if negb (r =? 0) then mret (-1) else
      e ← activate_ha fuel;
      _ ← dev_passifyApp;
      mret (match e with HA_SUCCESS => 0 | HA_FAILURE | HA_FAILURE_CLOSE => -2 end)
  end.
End adm.

(** ** The daemon runs only in the active state *)

(** Whether the object of the daemon exists; its threads leave the pointer alone. *)
Definition running (s : Proc DevT) : bool := (h_admObj ∘ p_mem) s.
Definition dev_threads : relation (Proc DevT) := keeps (h_admObj ∘ p_mem).
Definition runs_active (v : HAState) (s : Proc DevT) : Prop := running s = true → v = HA_ACTIVE.

Section runs.
Context `{E : Env}.

Abbreviation leaves := (steps (keeps (h_admObj ∘ p_mem))).

Lemma logtrace_leaves p m : leaves (dev_logtrace_init p m).
Proof.
  unfold dev_logtrace_init, dev_mkdirs_from.
  assert (∀ rest pre, leaves (dev_mkdirs pre rest)).
  { induction rest as [|c rest IH]; intros pre; cbn [dev_mkdirs]; solve_steps; apply IH. }
  solve_steps; eauto.
Qed.
Hint Resolve logtrace_leaves : steps.

Lemma getConfig_leaves : leaves dev_getConfig.
Proof. unfold dev_getConfig, dev_Config, dev_initConfig. solve_steps. Qed.
Hint Resolve getConfig_leaves : steps.

Lemma config_lines_leaves lines c b : leaves (dev_config_lines c b lines).
Proof.
  revert c b; induction lines as [|l lines IH]; intros c b; cbn [dev_config_lines]; [solve_steps|].
  apply steps_bind; [apply _| |auto].
  unfold dev_config_line, dev_options, dev_option, dev_set_dir. solve_steps.
Qed.
Hint Resolve config_lines_leaves : steps.

Lemma start_leaves : leaves dev_start_ha.
Proof.
  unfold dev_start_ha, dev_start, dev_initClasses, dev_readConfig, dev_initLog, dev_Utils_init,
    dev_Utils, dev_Ap.
  solve_steps.
Qed.

Lemma deactivate_leaves : leaves adm_delete.
Proof. unfold adm_delete, dev_deactivate. solve_steps. Qed.

Lemma stop_leaves : leaves dev_stop.
Proof. unfold dev_stop. solve_steps. Qed.

Lemma after_running {A} (m : MD A) (P : A → Proc DevT → Prop) s :
  leaves m → (∀ a s', running s' = running s → P a s') → after m P s.
Proof. intros Hm HP. by apply (steps_after (keeps (h_admObj ∘ p_mem))). Qed.

Lemma passifyApp_stopped s : after dev_passifyApp (λ r s', r = true ∧ running s' = false) s.
Proof.
  apply after_bind, after_gets. cbn [compose]. destruct (h_admObj (p_mem s)) eqn:Ha; cbn [negb].
  2: by apply after_ret.
  apply after_bind, after_running; [apply stop_leaves|]. intros _ s1 _.
  apply after_bind, after_running; [solve_steps|]. intros _ s2 _.
  apply after_bind, after_running; [apply deactivate_leaves|]. intros _ s3 _.
  by apply after_bind, after_modify, after_ret.
Qed.

(** The daemon runs after [JobActive] exactly if the job succeeded. *)
Lemma activateApp_running s : after dev_activateApp (λ r s', running s' = r) s.
Proof.
  apply after_bind, after_gets. cbn [compose]. destruct (h_admObj (p_mem s)) eqn:Ha.
  { by apply after_ret. }
  apply after_bind, after_running; [solve_steps|]. intros n s1 H1.
  apply after_bind, after_modify. destruct n; cbn [negb]; [|by apply after_ret].
  apply after_bind, after_running; [apply start_leaves|]. intros r s2 H2.
  destruct (r <? 0).
  - apply after_bind, after_running; [apply deactivate_leaves|]. intros _ s3 _.
    by apply after_bind, after_modify, after_ret.
  - by apply after_ret.
Qed.

Lemma dev_inv : amf_inv dev_threads runs_active.
Proof.
  assert (Hstop : ∀ v s, after dev_passifyApp (λ _, runs_active v) s).
  { intros v s. eapply after_mono; [apply passifyApp_stopped|].
    intros ? s' [_ H] Hr. congruence. }
  split; cbn [host_job dev_host].
  - intros v st prev j s _ Hj _. destruct st; inversion Hj; subst j; try apply Hstop.
    by intros ? ? _ _.
  - intros v j s [-> | ->] _; apply Hstop.
  - intros v j s [-> | ->] H; [by apply after_ret|apply Hstop].
  - done.
  - by intros v c s H ? ? [= <- <-].
  - intros v s s' Ht H. unfold runs_active, running. by rewrite Ht.
Qed.

(** Under AMF the device monitor exists only while the active state is assigned to
    it, whatever AMF orders within its state machine and however the jobs end; and it
    exists when the order to become active was answered with success. *)
Theorem monitor_only_active v s v' s' :
  running s = false → rtc (amf_step dev_threads) (v, s) (v', s') →
  (running s' = true → v' = HA_ACTIVE)
  ∧ (∀ prev s'', host_job (JobActive prev) s' = (Val true, s'') → running s'' = true).
Proof.
  intros Hs Hrtc. split.
  - apply (amf_invariant dev_threads dev_inv (v, s) (v', s') Hrtc). intros H. cbn in *. congruence.
  - intros prev s'' Hj. by apply (activateApp_running s').
Qed.

Lemma passifyApp_amf : steps (keeps (d_amf ∘ p_mem)) dev_passifyApp.
Proof. unfold dev_passifyApp, dev_stop, adm_delete, dev_deactivate. solve_steps. Qed.

(** The signal [SIGUSR2] stops the device monitor but not its process: the handler
    returns with the daemon gone, the state of the component still the one AMF
    assigned and nothing that ends the loop of [activate], and AMF's health checks go
    on being answered with success. *)
Theorem usr2_leaves_idle_component s s' key :
  usr2_handler s = (Val tt, s') → hCheckKey (host_amf s) = Some key →
  running s' = false ∧ host_amf s' = host_amf s
  ∧ wp (healthcheck key) (valQ (λ _ s'', running s'' = false ∧ host_amf s'' = host_amf s
      ∧ ∃ r, p_trace s'' = Ev (CAmf "saAmfResponse" SA_AIS_OK) r :: p_trace s')) s'.
Proof.
  intros H Hk. apply bind_Val_inv in H as ([] & s1 & Hvia & H).
  apply bind_Val_inv in Hvia as (o & ? & [= <- <-] & Hvia). cbn [host_amf dev_obj host_obj dev_host compose] in *.
  destruct (appMngrObj (d_amf (p_mem s))) eqn:Ho; [|done]. injection Hvia as <-.
  apply bind_Val_inv in H as (r & s2 & Hjob & [= <-]).
  destruct (passifyApp_stopped s r s2 Hjob) as [_ Hr].
  pose proof (steps_run _ _ _ _ _ passifyApp_amf Hjob) as Hamf. unfold keeps in Hamf. cbn in Hamf.
  split_and!; [done..|]. unfold healthcheck, via_appMngr, amf. wp_auto. cbn [compose host_amf dev_obj host_obj dev_host].
  rewrite Hamf, Ho. wp_auto. cbn [compose host_amf dev_obj host_obj dev_host]. rewrite Hamf, Hk. wp_auto.
  rewrite streq_refl. cbn [negb host_job dev_host dev_job]. wp_auto. cbn [host_ask dev_obj host_obj dev_host].
  apply (wp_req (CAmf "saAmfResponse" SA_AIS_OK)). intros x Hx. cbn [valQ]. wp_auto.
  split_and!; [done..|by exists x].
Qed.
End runs.

(** ** Examples *)

(** The process after [coreMWInitialize], and in the active state. *)
Definition dev_registered : Proc DevT :=
  mkProc [] ∅ (set_d_amf (set_appMngr true ∘ set_hCheckKey (Some "key"%string)) newDev).
Definition dev_config_env : Env := {| answer := λ _ c, match c with
  | CReadFile f => Some (if streq f APOS_HA_FILE_NODE_ID then "1"%string else EmptyString)
  | c => dflt c
  end |}.
Definition dev_active : Proc DevT :=
  (csi_set (Host0:=dev_host (E:=dev_config_env)) HA_ACTIVE dev_registered).2.

Lemma monitor_only_active_witness :
  running dev_active = true ∧ (running dev_active = true → HA_ACTIVE = HA_ACTIVE)
  ∧ (∀ prev s'', dev_job (E:=dev_config_env) (JobActive prev) dev_active = (Val true, s'') →
     running s'' = true).
Proof.
  split; [vm_compute; reflexivity|].
  refine (monitor_only_active (E:=dev_config_env) HA_UNDEFINED dev_registered
    HA_ACTIVE dev_active _ _); [vm_compute; reflexivity|].
  apply rtc_once, step_set; [constructor|]. vm_compute. reflexivity.
Defined.

Lemma usr2_leaves_idle_component_witness :
  let s' := (usr2_handler (Host0:=dev_host (E:=dev_config_env)) dev_active).2 in
  running dev_active = true ∧ running s' = false.
Proof.
  intros s'. split; [vm_compute; reflexivity|].
  refine (proj1 (usr2_leaves_idle_component (E:=dev_config_env) dev_active s' "key" _ _));
    vm_compute; reflexivity.
Defined.
