(* ===== verification/DevmonSpec.v ===== *)
(** * Device monitor: what the agent is told

    The specification of [HA_DEVMON_DRBDMon] and its proof.  A script says what the
    commands print in each round; the specification turns the sequence of these
    observations into the messages for the agent: one for each change between a healthy
    and an unhealthy disk.  The thread writes exactly these messages. *)

From S2P Require Import Prelude World Proc CString Types LogTrace Config Utils Net DevmonMsg DevmonBase DevmonWatch.

Open Scope Z_scope.

(** What the commands print in one round: a line, or nothing. *)
Record Obs : Set := mkObs {
  o_repl : option string;
  o_conn : option string;
  o_role : option string;
  o_ldisk : option string;
  o_rdisk : option string
}.

Definition shown (o : option string) : string :=
  match o with Some l => text_of [l] | None => EmptyString end.
Definition said (o : option string) : string := default EmptyString o.
Definition printable (o : option string) : Prop := ∀ l, o = Some l → line_ok l = true.
Definition obs_ok (o : Obs) : Prop :=
  printable (o_repl o) ∧ printable (o_conn o) ∧ printable (o_role o) ∧ printable (o_ldisk o)
  ∧ printable (o_rdisk o).

(** ** Specification *)

Definition conn (o : Obs) : string :=
  if streq (said (o_repl o)) "Established" || streq (said (o_repl o)) "Off"
  then said (o_conn o) else said (o_repl o).

(** DRBD answers for the resource. *)
Definition configured (o : Obs) : bool := negb (streq (conn o) EmptyString).

Definition verdict (o : Obs) : Z :=
  if negb (streq (conn o) "Connected") then DRBD_CONN_ERROR
  else if negb (streq (said (o_role o)) "Primary") then DRBD_ROLE_CHANGE
  else if (streq (said (o_ldisk o)) "Consistent" || streq (said (o_ldisk o)) "UpToDate")
          && streq (said (o_rdisk o)) "UpToDate" then DRBD_DISK_HEALTHY
  else DRBD_DISK_FAULTY.

Definition bad (o : Obs) : bool := configured o && negb (verdict o =? DRBD_DISK_HEALTHY).

Definition info (o : Obs) : DRBD_InfoT :=
  if configured o then
    mkDRBD true (strncpy_state (conn o)) (strncpy_state (said (o_role o)))
      (strncpy_state (said (o_ldisk o))) EmptyString
  else DRBD_zero.

(** The messages for a sequence of observations; [told] is whether the agent was told
    last that the disk is bad, and [ty] the last verdict. *)
Fixpoint report (told : bool) (ty : Z) (os : list Obs) : list MsgT :=
  match os with
  | [] => []
  | o :: os =>
      let ty := if configured o then verdict o else ty in
      (if xorb (bad o) told then [mkMsg ty (Z.of_nat INFO_LEN) (info o)] else [])
      ++ report (bad o) ty os
  end.

(** ** The environment of a script *)

(** The rounds of a history: each ends with the query of the peer's disk. *)
Definition ends_round (e : Event) : bool :=
  match e with Ev (CPopen c) _ => streq c (cmd_disk resource false) | _ => false end.
Definition round (t : Trace) : nat := length (List.filter ends_round t).

(** What a history has written to the FIFO, in order. *)
Fixpoint sent (t : Trace) : list (list Z) :=
  match t with
  | [] => []
  | Ev (CWriteFifo d) _ :: t => sent t ++ [d]
  | _ :: t => sent t
  end.

(** The commands show the script, memory, threads and timers are there, writes to the
    FIFO succeed, and the queue has one timeout for each of [n] rounds before the thread
    is closed. *)
Record follows `{Env} (script : nat → Obs) (n : nat) : Prop := {
  fl_ok : ∀ i, obs_ok (script i);
  fl_repl : ∀ t, answer t (CPopen (cmd_replication resource)) = Some (shown (o_repl (script (round t))));
  fl_conn : ∀ t, answer t (CPopen (cmd_connection resource)) = Some (shown (o_conn (script (round t))));
  fl_role : ∀ t, answer t (CPopen (cmd_local_role resource)) = Some (shown (o_role (script (round t))));
  fl_ldisk : ∀ t, answer t (CPopen (cmd_disk resource true)) = Some (shown (o_ldisk (script (round t))));
  fl_rdisk : ∀ t, answer t (CPopen (cmd_disk resource false)) = Some (shown (o_rdisk (script (round t))));
  fl_new : ∀ t c, answer t (CNew c) = true;
  fl_thread : ∀ t c, answer t (CActivate c) = true;
  fl_timer : ∀ t op secs, answer t (CTimer op secs) = true;
  fl_fifo : ∀ t d, answer t (CWriteFifo d) = Z.of_nat (length d);
  fl_queue : ∀ t, answer t (CGetq "drbdmon") = Some (if (round t <? n)%nat then TIMEOUT else CLOSE)
}.

(** The object of the thread between two rounds, and the process around it. *)
Definition mgr_ready (ty : Z) (m : MgrT) : Prop :=
  mi_type m = ty ∧ mi_size m = Z.of_nat INFO_LEN ∧ is_Some (mi_data m) ∧ m_diskinfo m = EmptyString.
Definition ready (told : bool) (ty : Z) (d : DevT) : Prop :=
  is_Some (g_utilObj d) ∧ g_fifo d = true
  ∧ ∃ w m, a_dMonObj d = Some w ∧ w_drbdObj w = Some m ∧ w_sendMsg w = told ∧ mgr_ready ty m.

(** ** Queries *)

Lemma fgets_nothing n : fgets_lines n EmptyString = [].
Proof. done. Qed.

Lemma loop_shown o :
  printable o → runCommand_loop (fgets_lines READLINE (shown o)) EmptyString = Some (said o).
Proof.
  destruct o as [l|]; [|done]. intros H. specialize (H l eq_refl). unfold shown.
  assert (Hl : Forall (λ l, line_ok l = true) [l]) by (by constructor).
  rewrite fgets_lines_text.
  - rewrite runCommand_loop_lines by done. cbn. by rewrite append_nil_r.
  - constructor; [|constructor]. unfold line_ok in H. rewrite !andb_true_iff in H.
    destruct H as [[H _] Hn]. split.
    + eapply all_chars_impl; [|exact H]. unfold line_char. intros c. by destruct (no LF c).
    + apply Nat.ltb_lt in Hn. change READLINE with (S LINEMAX). lia.
Qed.

(** Cutting a state at the size of its array does not change a comparison with a
    shorter word. *)
Lemma take_short n s w : (String.length w < n)%nat → streq (take n s) w = streq s w.
Proof.
  intros Hw. apply eq_true_iff_eq. rewrite !streq_spec. split; [|intros ->; apply take_all; lia].
  intros H. rewrite <-H. symmetry. apply take_all.
  destruct (Nat.le_gt_cases (String.length s) n) as [?|Hl]; [done|exfalso].
  assert (String.length (take n s) = n) as Hn.
  { clear -Hl. revert s Hl. induction n as [|n IH]; intros [|c s] Hl; cbn in *; try lia.
    rewrite IH; lia. }
  rewrite H in Hn. lia.
Qed.

Definition silent (t t' : Trace) : Prop := round t' = round t ∧ sent t' = sent t.

Lemma silent_popen t t' c r :
  streq c (cmd_disk resource false) = false → silent t t' → silent t (Ev (CPopen c) r :: t').
Proof. intros Hc [Hr Hs]. unfold silent, round in *. cbn [List.filter ends_round sent]. by rewrite Hc. Qed.

(** The manager after a round. *)
Definition seen (o : Obs) (m : MgrT) : MgrT :=
  mkMgr (mi_type m) (mi_size m) (mi_data m)
    (if configured o then strncpy_state (conn o) else m_cstate m)
    (strncpy_state (said (o_ldisk o))) (strncpy_state (said (o_role o)))
    (strncpy_state (said (o_rdisk o))) (m_diskinfo m).

Lemma judge_seen o m : configured o = true → judge_state (seen o m) = verdict o.
Proof.
  intros Hc. unfold judge_state, verdict, seen, strncpy_state.
  cbn [m_cstate m_role m_ldisk m_rdisk]. rewrite Hc, !take_short by (cbn; lia).
  by destruct (streq _ "Connected"), (streq _ "Primary"), (streq _ "Consistent"), (streq _ "UpToDate"),
    (streq (said (o_rdisk o)) "UpToDate").
Qed.

(** The verdict remembered after an observation. *)
Definition verdict_after (ty : Z) (o : Obs) : Z := if configured o then verdict o else ty.

Section spec.
Context `{E : Env} (script : nat → Obs) (n : nat) (H : follows script n).
Implicit Types (fs : Files) (d : DevT).

Lemma run_shown cmd o (Q : outcome (bool * string) → Proc DevT → Prop) t fs d :
  answer t (CPopen cmd) = Some (shown o) → printable o →
  (∀ r, Q (Val (true, said o)) (mkProc (Ev (CPopen cmd) r :: t) fs d)) →
  wp (dev_runCommand cmd) Q (mkProc t fs d).
Proof.
  intros Ha Ho HQ. unfold dev_runCommand. apply wp_bind, (wp_req (CPopen cmd)). intros r ->.
  cbn [thenQ p_trace p_fs p_mem]. rewrite (Ha : answer t (CPopen cmd) = _), loop_shown by done.
  apply wp_bind, wp_ret. cbn [thenQ]. apply wp_ret. apply HQ.
Qed.

(** One round of [getConnectedState]. *)
Lemma connected_spec (Q : outcome (bool * string) → Proc DevT → Prop) t fs d :
  (∀ t', silent t t' → Q (Val (configured (script (round t)), conn (script (round t)))) (mkProc t' fs d)) →
  wp (dev_getConnectedState resource) Q (mkProc t fs d).
Proof.
  intros HQ. destruct (fl_ok _ _ H (round t)) as (Hre & Hco & _). unfold dev_getConnectedState.
  change (streq resource EmptyString) with false. apply wp_bind, (run_shown _ _ _ _ _ _ (fl_repl _ _ H t) Hre).
  intros r. cbn [thenQ]. apply wp_bind. cbn [negb]. unfold conn, configured in HQ. unfold conn in HQ.
  assert (Hq : silent t (Ev (CPopen (cmd_replication resource)) r :: t)) by (by apply silent_popen).
  destruct (streq (said (o_repl _)) "Established" || _).
  - apply wp_bind, (run_shown _ (o_conn (script (round t)))).
    + rewrite (fl_conn _ _ H). by destruct Hq as [-> _].
    + done.
    + intros r2. cbn [thenQ]. apply wp_ret. cbn [thenQ]. apply wp_ret. apply HQ. by apply silent_popen.
  - apply wp_ret. cbn [thenQ]. apply wp_ret. by apply HQ.
Qed.

Lemma query_spec q set st (Q : outcome (Z * MgrT) → Proc DevT → Prop) t fs d :
  is_Some (g_utilObj d) →
  wp q (thenQ (λ r, mret (if r.1 : bool then (st.1, set (strncpy_state r.2) st.2) else (-1, st.2))) Q)
    (mkProc t fs d) →
  wp (query q set st) Q (mkProc t fs d).
Proof.
  intros [u Hu] Hq. unfold query, dev_Utils_, dev_Utils.
  apply wp_bind, wp_bind, wp_bind, wp_gets. cbn [thenQ compose p_mem]. rewrite Hu.
  apply wp_ret. cbn [thenQ]. apply wp_bind, wp_ret. cbn [thenQ].
  eapply wp_mono; [exact Hq|]. by intros [[found r]| | |] s'.
Qed.

Lemma parse_spec m (Q : outcome (Z * MgrT) → Proc DevT → Prop) t fs d :
  is_Some (g_utilObj d) →
  (∀ t', round t' = S (round t) → sent t' = sent t →
    Q (Val (if configured (script (round t)) then 0 else -1, seen (script (round t)) m)) (mkProc t' fs d)) →
  wp (parse_proc_drbd m) Q (mkProc t fs d).
Proof.
  intros Hu HQ. destruct (fl_ok _ _ H (round t)) as (_ & _ & Hro & Hld & Hrd).
  unfold parse_proc_drbd. apply wp_bind, query_spec; [done|]. apply connected_spec. intros t1 Hq.
  cbn [thenQ]. apply wp_ret. cbn [thenQ].
  apply wp_bind, query_spec; [done|]. apply (run_shown _ (o_role (script (round t)))); [|done|].
  { rewrite (fl_role _ _ H). by destruct Hq as [-> _]. }
  intros r1. apply (silent_popen _ _ (cmd_local_role resource) r1 eq_refl) in Hq.
  cbn [thenQ]. apply wp_ret. cbn [thenQ].
  apply wp_bind, query_spec; [done|]. apply (run_shown _ (o_ldisk (script (round t)))); [|done|].
  { rewrite (fl_ldisk _ _ H). by destruct Hq as [-> _]. }
  intros r2. apply (silent_popen _ _ (cmd_disk resource true) r2 eq_refl) in Hq.
  cbn [thenQ]. apply wp_ret. cbn [thenQ].
  apply query_spec; [done|]. apply (run_shown _ (o_rdisk (script (round t)))); [|done|].
  { rewrite (fl_rdisk _ _ H). by destruct Hq as [-> _]. }
  intros r3. cbn [thenQ]. apply wp_ret. destruct Hq as [Hr Hs].
  set (t3 := Ev _ r2 :: _) in *.
  specialize (HQ (Ev (CPopen (cmd_disk resource false)) r3 :: t3)).
  assert (Hr' : round (Ev (CPopen (cmd_disk resource false)) r3 :: t3) = S (round t)) by (by rewrite <-Hr).
  specialize (HQ Hr' Hs). unfold seen in HQ. by destruct (configured _).
Qed.

Lemma isactive_spec ty m (Q : outcome (Z * MgrT) → Proc DevT → Prop) t fs d :
  let o := script (round t) in
  is_Some (g_utilObj d) → mgr_ready ty m →
  (∀ t' m', round t' = S (round t) → sent t' = sent t →
    mgr_ready (verdict_after ty o) m' → mi_data m' = Some (info o) →
    Q (Val (if bad o then 0 else 1, m')) (mkProc t' fs d)) →
  wp (isactive m) Q (mkProc t fs d).
Proof.
  intros o Hu (Hty & Hsz & [x Hx] & Hdi) HQ. unfold isactive. rewrite Hx. apply wp_bind, wp_ret.
  cbn [thenQ]. apply wp_bind, parse_spec; [done|]. intros t' Hr Hs. cbn [thenQ]. fold o.
  unfold bad, verdict_after, info in HQ.
  destruct (configured o) eqn:Hc; cbn [Z.eqb negb]; apply wp_ret.
  - cbn [mi_type set_type]. rewrite judge_seen by done. cbn [andb] in HQ.
    replace (if verdict o =? DRBD_DISK_HEALTHY then 1 else 0)
      with (if negb (verdict o =? DRBD_DISK_HEALTHY) then 0 else 1) by (by destruct (_ =? _)).
    apply HQ; [done..| |].
    + by repeat split.
    + cbn. by rewrite Hc, Hdi.
  - apply HQ; [done..| |done]. by repeat split.
Qed.

Lemma wp_on_mgr {A} th w m (f : MgrT → MD (A * MgrT)) (Q : outcome A → Proc DevT → Prop) t fs d :
  object th d = Some w → w_drbdObj w = Some m →
  wp (f m) (thenQ (λ r, set_watch th (set_w_drbdObj (Some r.2));; mret r.1) Q) (mkProc t fs d) →
  wp (on_mgr th f) Q (mkProc t fs d).
Proof.
  intros Hw Hm Hf. unfold on_mgr, watch. apply wp_bind, wp_bind, wp_gets. cbn [thenQ compose p_mem].
  rewrite Hw. apply wp_ret. cbn [thenQ]. rewrite Hm. apply wp_bind, wp_ret. cbn [thenQ].
  apply wp_bind. eapply wp_mono; [exact Hf|]. by intros [[a m']| | |] s'.
Qed.

(** Sending: the message is written and the thread remembers what it told. *)
Lemma report_change_spec rc now w m x (Q : outcome Z → Proc DevT → Prop) t fs d :
  a_dMonObj d = Some w → w_drbdObj w = Some m → mi_data m = Some x → g_fifo d = true →
  (∀ r, Q (Val rc) (mkProc (Ev (CWriteFifo (encode (mkMsg (mi_type m) (mi_size m) x))) r :: t) fs
     (set_a_dMon (Some (set_w_sendMsg now (set_w_drbdObj (Some (mgr_reset m)) w))) d))) →
  wp (report_change rc now) Q (mkProc t fs d).
Proof.
  intros Hw Hm Hx Hf HQ. unfold report_change, sendMsg, watch, set_watch.
  apply wp_bind, wp_bind, wp_bind, wp_gets. cbn [thenQ compose p_mem object]. rewrite Hw.
  apply wp_ret. cbn [thenQ]. rewrite Hm. apply wp_bind, wp_ret. cbn [thenQ]. rewrite Hx.
  apply wp_bind, wp_ret. cbn [thenQ]. unfold write_buffer.
  apply wp_bind, wp_bind, wp_gets. cbn [thenQ compose p_mem]. rewrite Hf.
  apply wp_bind, (wp_req (CWriteFifo _)). intros r ->. cbn [thenQ p_trace p_fs p_mem].
  rewrite (fl_fifo _ _ H t _ : answer t (CWriteFifo _) = _), length_encode, Z.eqb_refl.
  apply wp_ret. cbn [thenQ]. apply wp_bind, wp_modify. cbn [thenQ p_trace p_fs p_mem].
  apply wp_ret. cbn [thenQ]. apply wp_bind, wp_modify. cbn [thenQ p_trace p_fs p_mem].
  apply wp_ret. cbn [Z.eqb]. specialize (HQ (Z.of_nat MSG_LEN)).
  unfold set_object, object. cbn [set_a_dMon a_dMonObj]. rewrite Hw. exact HQ.
Qed.

(** One round of the thread: a message is written exactly if the health changed. *)
Lemma healthCheck_spec told ty (Q : outcome Z → Proc DevT → Prop) t fs d :
  let o := script (round t) in
  ready told ty d →
  (∀ r t' d', round t' = S (round t) →
    sent t' = sent t ++ (if xorb (bad o) told
                         then [encode (mkMsg (verdict_after ty o) (Z.of_nat INFO_LEN) (info o))] else []) →
    ready (bad o) (verdict_after ty o) d' → Q (Val r) (mkProc t' fs d')) →
  wp drbdmon_healthCheck Q (mkProc t fs d).
Proof.
  intros o (Hu & Hf & w & m & Hw & Hm & Ht & Hr) HQ. unfold drbdmon_healthCheck.
  apply wp_bind, (wp_on_mgr Mon w m); [done..|]. eapply isactive_spec; [done..|]. fold o.
  intros t' m' Hrd Hse Hr' Hd. cbn [thenQ fst snd]. apply wp_bind, wp_modify.
  cbn [thenQ p_trace p_fs p_mem]. apply wp_ret. cbn [thenQ object set_object]. rewrite Hw.
  set (d1 := set_a_dMon _ d). set (w1 := set_w_drbdObj (Some m') w).
  assert (Hwatch : ∀ (Q' : outcome WatchT → Proc DevT → Prop) t d w, a_dMonObj d = Some w →
    Q' (Val w) (mkProc t fs d) → wp (watch Mon) Q' (mkProc t fs d)).
  { intros Q' t0 d0 w0 H0 HQ'. unfold watch. apply wp_bind, wp_gets. cbn [thenQ compose p_mem object].
    rewrite H0. by apply wp_ret. }
  assert (Hr1 : mgr_ready (verdict_after ty o) (mgr_reset m')).
  { destruct Hr' as (? & ? & ? & ?). by repeat split. }
  destruct Hr' as (Ety & Esz & Hda & Hdi).
  apply wp_bind, (Hwatch _ _ _ w1); [done|]. cbn [thenQ w_sendMsg set_w_drbdObj w1]. rewrite Ht.
  rewrite <-Ety, <-Esz in HQ.
  destruct (bad o), told; cbn [Z.eqb negb andb xorb] in *.
  - apply wp_bind, wp_ret. cbn [thenQ]. apply wp_bind, (Hwatch _ _ _ w1); [done|]. cbn [thenQ Z.eqb negb andb].
    apply wp_ret. apply HQ; [done|by rewrite app_nil_r|]. split; [done|]. split; [done|].
    by exists w1, m'.
  - apply wp_bind, (report_change_spec _ _ w1 m' (info o)); [done..|]. intros r. cbn [thenQ].
    apply wp_bind. eapply Hwatch; [done|]. cbn [thenQ Z.eqb negb andb]. apply wp_ret.
    apply HQ; [done|by rewrite <-Hse|]. split; [done|]. split; [done|]. eexists _, _. by rewrite Ety.
  - apply wp_bind, wp_ret. cbn [thenQ]. apply wp_bind, (Hwatch _ _ _ w1); [done|]. cbn [thenQ Z.eqb negb andb].
    cbn [w_sendMsg set_w_drbdObj w1]. rewrite Ht. apply (report_change_spec _ _ w1 m' (info o)); [done..|].
    intros r. apply HQ; [done|by rewrite <-Hse|]. split; [done|]. split; [done|]. eexists _, _. by rewrite Ety.
  - apply wp_bind, wp_ret. cbn [thenQ]. apply wp_bind, (Hwatch _ _ _ w1); [done|]. cbn [thenQ Z.eqb negb andb].
    cbn [w_sendMsg set_w_drbdObj w1]. rewrite Ht. apply wp_ret. apply HQ; [done|by rewrite app_nil_r|].
    split; [done|]. split; [done|]. exists w1, m'. by repeat split.
Qed.

Lemma loop_spec fs k fuel told ty t d :
  (round t + k = n)%nat → (k < fuel)%nat → ready told ty d →
  wp (watch_loop fuel Mon drbdmon_healthCheck) (valQ (λ _ s',
    sent (p_trace s') = sent t ++ (encode <$> report told ty (script <$> seq (round t) k)))) (mkProc t fs d).
Proof.
  revert fuel told ty t d; induction k as [|k IH]; intros [|fuel] told ty t d Hk Hfuel Hd; try lia;
    cbn [watch_loop]; apply wp_valQ_bind, (wp_req (CGetq (thread_name Mon))); intros r ->;
    cbn [valQ thenQ p_trace p_fs p_mem thread_name]; rewrite (fl_queue _ _ H t : answer t (CGetq _) = _).
  - destruct (Nat.ltb_spec (round t) n) as [?|_]; [lia|]. cbn. by rewrite app_nil_r.
  - destruct (Nat.ltb_spec (round t) n) as [_|?]; [|lia]. cbn [Z.eqb]. rewrite Z.eqb_refl.
    set (t1 := Ev _ _ :: t). assert (silent t t1) as [Hr1 Hs1] by done.
    apply wp_valQ_bind. eapply (healthCheck_spec told ty); [done|]. rewrite Hr1, Hs1.
    intros r t' d' Hr Hs Hd'. cbn [valQ]. eapply wp_valQ_mono.
    { apply (IH fuel (bad (script (round t))) (verdict_after ty (script (round t)))); [lia|lia|done]. }
    intros _ s' ->. rewrite Hr, Hs. cbn [seq fmap list_fmap report].
    rewrite fmap_app, <-app_assoc. by destruct (xorb _ _).
Qed.

(** A new thread is ready for its first round. *)
Lemma watch_init_spec (Q : outcome Z → Proc DevT → Prop) t fs d :
  a_dMonObj d = Some newWatch → is_Some (g_utilObj d) → is_Some (g_cngObj d) → g_fifo d = true →
  (∀ t' d', silent t t' → ready false DRBD_DISK_HEALTHY d' → Q (Val 0) (mkProc t' fs d')) →
  wp initDRBDMon Q (mkProc t fs d).
Proof.
  intros Hw [u Hu] [c Hc] Hf HQ. destruct d as [? ? ? ? ? ? ? ? ? ?]. cbn in Hw, Hu, Hc, Hf. subst.
  unfold initDRBDMon, watch_init, set_watch, on_mgr, watch, mgr_init, dev_schedule_timer, dev_getConfig, dev_Config, watch.
  pose proof (fl_new _ _ H) as Hnew. pose proof (fl_thread _ _ H) as Hth. pose proof (fl_timer _ _ H) as Hti.
  repeat (pw_auto; try match goal with
    | Hr : ?r = answer ?t ?c |- _ =>
        first [ rewrite (Hnew t _ : answer t c = true) in Hr
              | rewrite (Hth t _ : answer t c = true) in Hr
              | rewrite (Hti t _ _ : answer t c = true) in Hr ]; subst r; cbn
    | |- wp (set_watch _ _) _ _ => unfold set_watch
    | |- wp (deref _) _ _ => progress cbn
    | |- wp (if _ then _ else _) _ _ => progress cbn
    | |- wp (match _ with _ => _ end) _ _ => progress cbn
    end).
  apply HQ; [done|]. split; [done|]. split; [done|]. eexists _, _. by repeat split.
Qed.
End spec.

(** The thread as [HA_DEVMON_Adm] starts it. *)
Record started (d : DevT) : Prop := {
  st_watch : a_dMonObj d = Some newWatch;
  st_util : is_Some (g_utilObj d);
  st_cng : is_Some (g_cngObj d);
  st_fifo : g_fifo d = true
}.

Lemma svc_spec `{E : Env} script n fuel t fs d :
  follows script n → started d → round t = 0%nat → (n < fuel)%nat →
  wp (devmon_drbdmon_svc fuel) (valQ (λ r s', r = 0 ∧
    sent (p_trace s') = sent t ++ (encode <$> report false DRBD_DISK_HEALTHY (script <$> seq 0 n))))
    (mkProc t fs d).
Proof.
  intros H [Hw Hu Hc Hf] Hr Hn. unfold devmon_drbdmon_svc, watch_svc.
  apply wp_valQ_bind, (watch_init_spec script n H); [done..|]. intros t1 d1 [Hr1 Hs1] Hd1. cbn [valQ].
  change (0 <? 0) with false. apply wp_valQ_bind. eapply wp_valQ_mono.
  { apply (loop_spec script n H fs n); [lia|done|exact Hd1]. }
  intros [] s' Hs. apply wp_ret. split; [done|]. by rewrite Hs, Hs1, Hr1, Hr.
Qed.

(** The messages survive the FIFO: the agent reads what was reported. *)
Lemma fits_said o : printable o → fits STATE_LEN (strncpy_state (said o)) = true.
Proof.
  intros Ho. unfold fits, strncpy_state. apply andb_true_iff. split.
  - apply all_chars_take. destruct o as [l|]; [|done]. specialize (Ho l eq_refl).
    unfold line_ok in Ho. rewrite !andb_true_iff in Ho. destruct Ho as [[Ho _] _].
    eapply all_chars_impl; [|exact Ho]. unfold line_char. intros c. by destruct (no NUL c), (no LF c), (no CR c).
  - apply Nat.ltb_lt. pose proof (length_take (pred STATE_LEN) (said o)). unfold STATE_LEN in *. lia.
Qed.

Lemma verdict_word o : word32 (verdict o).
Proof. unfold verdict, word32. repeat (destruct (negb _) || destruct (_ && _)); vm_compute; split; congruence. Qed.

Lemma info_fits_ok o : obs_ok o → info_fits (info o) = true.
Proof.
  intros (Hre & Hco & Hro & Hld & _). unfold info. destruct (configured o); [|done].
  unfold info_fits. cbn [cstate role dstate diskinfo]. rewrite !fits_said by done.
  unfold conn. by destruct (_ || _); rewrite fits_said.
Qed.

Lemma report_decodes told ty os :
  word32 ty → Forall obs_ok os → decode <$> (encode <$> report told ty os) = report told ty os.
Proof.
  intros Hty Hos. revert told ty Hty; induction Hos as [|o os Ho _ IH]; intros told ty Hty; [done|].
  cbn [report]. assert (Hw : word32 (if configured o then verdict o else ty))
    by (destruct (configured o); [apply verdict_word|done]).
  rewrite !fmap_app, IH by done. f_equal. destruct (xorb _ _); [|done]. cbn [fmap list_fmap]. f_equal.
  rewrite <-(app_nil_r (encode _)). apply decode_encode; [done|done|by apply info_fits_ok].
Qed.

(** C13: The monitoring thread implements its specification: over any number of
    rounds it writes to the FIFO, in order, exactly one message for each change between
    a healthy and an unhealthy disk, with the verdict and the states it read, and ends
    when it is told to. *)
Theorem monitor_refines `{E : Env} script n fuel t fs d :
  follows script n → started d → round t = 0%nat → sent t = [] → (n < fuel)%nat →
  wp (devmon_drbdmon_svc fuel) (valQ (λ r s', r = 0 ∧
    decode <$> sent (p_trace s') = report false DRBD_DISK_HEALTHY (script <$> seq 0 n)))
    (mkProc t fs d).
Proof.
  intros H Hd Hr Hs Hn. eapply wp_valQ_mono; [by apply (svc_spec script n)|].
  intros r s' [-> ->]. split; [done|]. rewrite Hs. apply report_decodes; [vm_compute; split; congruence|].
  apply Forall_fmap, Forall_forall. intros i _. apply (fl_ok _ _ H).
Qed.

Lemma report_bad ty os : Forall (λ o, bad o = true) os → report true ty os = [].
Proof. intros H. revert ty; induction H as [|o os Ho _ IH]; intros ty; [done|]. cbn. by rewrite Ho, IH. Qed.

Lemma report_good ty os : Forall (λ o, bad o = false) os → report false ty os = [].
Proof. intros H. revert ty; induction H as [|o os Ho _ IH]; intros ty; [done|]. cbn. by rewrite Ho, IH. Qed.

Lemma bad_configured o : bad o = true → configured o = true.
Proof. unfold bad. by destruct (configured o). Qed.

(** Only the first fault is reported: while the disk stays unhealthy nothing more
    is written, so that the loss of the primary role after another fault, the one event
    the agent acts on, never reaches it. *)
Theorem role_change_masked `{E : Env} script n fuel t fs d :
  follows script n → started d → round t = 0%nat → sent t = [] → (0 < n < fuel)%nat →
  (∀ i, (i < n)%nat → bad (script i) = true) →
  wp (devmon_drbdmon_svc fuel) (valQ (λ _ s',
    sent (p_trace s') = [encode (mkMsg (verdict (script 0%nat)) (Z.of_nat INFO_LEN) (info (script 0%nat)))]))
    (mkProc t fs d).
Proof.
  intros H Hd Hr Hs [Hn Hfuel] Hbad. eapply wp_valQ_mono; [by apply (svc_spec script n)|].
  intros r s' [-> ->]. rewrite Hs. destruct n as [|n]; [lia|]. cbn [seq fmap list_fmap report app].
  rewrite (Hbad 0%nat), (bad_configured _ (Hbad 0%nat ltac:(lia))) by lia. cbn [xorb app]. f_equal.
  rewrite report_bad; [done|]. apply Forall_fmap, Forall_forall.
  intros i Hi%elem_of_seq. apply Hbad. lia.
Qed.

(** The loss of the resource is not reported: in rounds in which DRBD does not
    answer for the disk the thread takes it for healthy and writes nothing. *)
Theorem loss_not_reported `{E : Env} script n fuel t fs d :
  follows script n → started d → round t = 0%nat → (n < fuel)%nat →
  (∀ i, (i < n)%nat → configured (script i) = false) →
  wp (devmon_drbdmon_svc fuel) (valQ (λ r s', r = 0 ∧ sent (p_trace s') = sent t)) (mkProc t fs d).
Proof.
  intros H Hd Hr Hfuel Hno. eapply wp_valQ_mono; [by apply (svc_spec script n)|].
  intros r s' [-> ->]. split; [done|]. rewrite report_good; [by rewrite app_nil_r|].
  apply Forall_fmap, Forall_forall. intros i Hi%elem_of_seq. cbn. unfold bad. by rewrite Hno by lia.
Qed.

(** ** Examples *)

(** The environment of a script. *)
Definition pick (cmd : string) (o : Obs) : option string :=
  if streq cmd (cmd_replication resource) then o_repl o
  else if streq cmd (cmd_connection resource) then o_conn o
  else if streq cmd (cmd_local_role resource) then o_role o
  else if streq cmd (cmd_disk resource true) then o_ldisk o
  else o_rdisk o.

Definition script_env (script : nat → Obs) (n : nat) : Env := {|
  answer := λ t c, match c with
    | CPopen cmd => Some (shown (pick cmd (script (round t))))
    | CGetq _ => Some (if (round t <? n)%nat then TIMEOUT else CLOSE)
    | c => dflt c
    end |}.

Lemma script_follows script n : (∀ i, obs_ok (script i)) → follows (H := script_env script n) script n.
Proof. intros Hok. by split. Qed.

Definition ob (repl conn role : string) : Obs :=
  mkObs (Some repl) (Some conn) (Some role) (Some "UpToDate"%string) (Some "UpToDate"%string).
Definition ob_good : Obs := ob "Established" "Connected" "Primary".
Definition ob_lost : Obs := ob "Off" "Connecting" "Primary".
Definition ob_role : Obs := ob "Established" "Connected" "Secondary".
Definition ob_none : Obs := mkObs None None None None None.

(** A healthy disk, then a lost connection, then for good a secondary role. *)
Definition ex_script (i : nat) : Obs :=
  match i with O => ob_good | 1%nat => ob_lost | _ => ob_role end.
Definition ex_started : DevT :=
  mkDev false true (Some newUtils) (Some (mkDevConfig 1 (Some EmptyString) 3000 2000 90000)) true true
    (Some newWatch) None true (mkLog true 1) newAmf.

Lemma ob_ok repl conn role :
  line_ok repl = true → line_ok conn = true → line_ok role = true → obs_ok (ob repl conn role).
Proof. intros ???. repeat split; by intros ? [= <-]. Qed.

Lemma ex_script_ok i : obs_ok (ex_script i).
Proof. destruct i as [|[|i]]; by apply ob_ok. Qed.

Lemma monitor_refines_witness :
  wp (devmon_drbdmon_svc (E:=script_env ex_script 4) 5) (valQ (λ r s', r = 0 ∧
    decode <$> sent (p_trace s')
    = [mkMsg DRBD_CONN_ERROR 305 (mkDRBD true "Connecting" "Primary" "UpToDate" EmptyString)]))
    (mkProc [] ∅ ex_started).
Proof.
  apply (monitor_refines (E:=script_env ex_script 4) ex_script 4 5).
  - apply script_follows, ex_script_ok.
  - split; done.
  - reflexivity.
  - reflexivity.
  - lia.
Defined.

Lemma role_change_masked_witness :
  wp (devmon_drbdmon_svc (E:=script_env (ex_script ∘ S) 3) 5) (valQ (λ _ s',
    sent (p_trace s') = [encode (mkMsg DRBD_CONN_ERROR 305 (mkDRBD true "Connecting" "Primary" "UpToDate" EmptyString))]))
    (mkProc [] ∅ ex_started).
Proof.
  apply (role_change_masked (E:=script_env (ex_script ∘ S) 3) (ex_script ∘ S) 3 5).
  - apply script_follows. intros i. apply ex_script_ok.
  - split; done.
  - reflexivity.
  - reflexivity.
  - lia.
  - intros [|[|[|i]]] Hi; reflexivity.
Defined.

Lemma loss_not_reported_witness :
  wp (devmon_drbdmon_svc (E:=script_env (λ _, ob_none) 3) 5)
    (valQ (λ r s', r = 0 ∧ sent (p_trace s') = [])) (mkProc [] ∅ ex_started).
Proof.
  apply (loss_not_reported (E:=script_env (λ _, ob_none) 3) (λ _, ob_none) 3 5 []).
  - apply script_follows. intros i. by repeat split.
  - split; done.
  - reflexivity.
  - lia.
  - intros i _. reflexivity.
Defined.
