(* ===== verification/DevmonAgent.v ===== *)
(** * The device monitor and the agent

    The two daemons together: what the monitoring thread writes to the FIFO, read by
    the role manager of the agent. *)

From S2P Require Import Prelude World Proc CString Types LogTrace Config Utils PowerOff DrbdMgr Net DevmonMsg Failover RoleMgr DevmonBase DevmonWatch DevmonSpec.

Open Scope Z_scope.

Lemma role_change_configured o : verdict o = DRBD_ROLE_CHANGE → configured o = true ∧ bad o = true.
Proof.
  unfold bad, configured, verdict. destruct (streq (conn o) "Connected") eqn:Hc; [|done].
  apply streq_spec in Hc. rewrite Hc. intros ->. done.
Qed.

(** A healthy start, then a fault: the first message carries its verdict. *)
Lemma report_first ty os o rest :
  Forall (λ o, bad o = false) os → bad o = true →
  ∃ ms, report false ty (os ++ o :: rest) = mkMsg (verdict o) (Z.of_nat INFO_LEN) (info o) :: ms.
Proof.
  intros Hos Ho. revert ty; induction Hos as [|o' os Ho' _ IH]; intros ty; cbn.
  - rewrite Ho, (bad_configured _ Ho). eauto.
  - rewrite Ho'. cbn. apply IH.
Qed.

Section agent.
Context `{E' : Env}.

(** The agent's read of a FIFO that holds the bytes [b]: it takes up to 1024 of them. *)
Definition READ_LEN : nat := Z.to_nat 1024.
Definition readable (b : list Z) : list Z := firstn READ_LEN b.
Definition holds_bytes (b : list Z) : Prop :=
  (∀ t, answer t (CNew "HA_DEVMON_MsgT") = true)
  ∧ ∀ t, answer t CReadFifo = (Z.of_nat (length (readable b)), readable b).

Lemma readable_encode m more :
  readable (encode m ++ more) = encode m ++ firstn (READ_LEN - MSG_LEN) more.
Proof.
  unfold readable. rewrite firstn_app, length_encode. f_equal. apply firstn_all2.
  rewrite length_encode. unfold READ_LEN, MSG_LEN. lia.
Qed.

(** The agent takes the first message. *)
Lemma wp_dispatch fuel m more (Q : outcome unit → World → Prop) s :
  holds_bytes (encode m ++ more) →
  word32 (msg_type m) → word32 (msg_size m) → info_fits (msg_data m) = true →
  (∀ r, wp (_ ← processMsg fuel m; mret tt) Q
    (push (Ev CReadFifo r) (push (Ev (CNew "HA_DEVMON_MsgT") true) s))) →
  wp (dispatch fuel) Q s.
Proof.
  intros [Hn Hr] Ht Hs Hi HQ. unfold dispatch. apply wp_bind, (wp_call (CNew _)). intros r ->. cbn [thenQ].
  rewrite (Hn _ : answer _ (CNew _) = _). cbn [negb]. unfold readMsg.
  apply wp_bind, wp_bind, (wp_call CReadFifo). intros r ->. cbn [thenQ].
  rewrite (Hr _ : answer _ CReadFifo = _), readable_encode, decode_encode by done.
  destruct (Z.leb_spec (Z.of_nat (length (encode m ++ firstn (READ_LEN - MSG_LEN) more))) 0) as [Hl|_].
  { rewrite length_app, length_encode in Hl. unfold MSG_LEN in Hl. lia. }
  apply wp_ret. apply HQ.
Qed.
End agent.

(** C14: A change of role is acted on: when the role is the first thing the monitor
    finds wrong, the first message in the FIFO makes the agent, however much follows it
    in the FIFO, check the disk itself, and go on only if DRBD reports it up to date and
    primary. *)
Theorem role_change_acted `{E : Env} script n k fuel t fs d :
  follows script n → started d → round t = 0%nat → sent t = [] → (k < n < fuel)%nat →
  (∀ i, (i < k)%nat → bad (script i) = false) → verdict (script k) = DRBD_ROLE_CHANGE →
  wp (devmon_drbdmon_svc fuel) (valQ (λ _ s', ∃ msg rest, sent (p_trace s') = msg :: rest ∧
    ∀ (E' : Env) fuel' more (s : World), holds_bytes (msg ++ more) →
      wp (dispatch fuel') (λ o s2, ∀ u, o = Val u → healthy false s s2) s)) (mkProc t fs d).
Proof.
  intros H Hd Hr Hs [Hk Hn] Hgood Hrole. eapply wp_valQ_mono; [by apply (svc_spec script n)|].
  intros r s' [-> ->]. rewrite Hs. destruct (role_change_configured _ Hrole) as [Hc Hbad].
  destruct (report_first DRBD_DISK_HEALTHY (script <$> seq 0 k) (script k)
    (script <$> seq (S k) (n - S k))) as [ms Hms]; [|done|].
  { apply Forall_fmap, Forall_forall. intros i Hi%elem_of_seq. apply Hgood. lia. }
  replace (script <$> seq 0 n) with ((script <$> seq 0 k) ++ script k :: (script <$> seq (S k) (n - S k))).
  2:{ rewrite <-fmap_cons, <-fmap_app. change (k :: seq (S k) (n - S k)) with (seq k (S (n - S k))).
      change k with (0 + k)%nat at 2. rewrite <-seq_app. do 2 f_equal. lia. }
  rewrite Hms. eexists _, _. split; [done|]. intros E' fuel' more s Hb.
  apply (wp_dispatch _ _ _ _ _ Hb); [apply verdict_word|done|apply info_fits_ok, (fl_ok _ _ H)|].
  intros r. apply wp_bind. eapply wp_mono; [apply processMsg_spec|]. cbn [msg_type]. rewrite Hrole, Z.eqb_refl.
  intros o s2 Ho. destruct o; [|by intros ?..]. cbn [thenQ]. apply wp_ret. intros u _.
  eapply healthy_within; [|by eapply Ho|done]. by eexists [_; _].
Qed.

Definition role_script (i : nat) : Obs := match i with O => ob_good | _ => ob_role end.

Lemma role_change_acted_witness :
  wp (devmon_drbdmon_svc (E:=script_env role_script 2) 3) (valQ (λ _ s', ∃ msg rest,
    sent (p_trace s') = msg :: rest ∧
    ∀ (E' : Env) fuel' more (s : World), holds_bytes (msg ++ more) →
      wp (dispatch fuel') (λ o s2, ∀ u, o = Val u → healthy false s s2) s)) (mkProc [] ∅ ex_started).
Proof.
  apply (role_change_acted (E:=script_env role_script 2) role_script 2 1 3).
  - apply script_follows. intros [|i]; by apply ob_ok.
  - split; done.
  - reflexivity.
  - reflexivity.
  - lia.
  - intros [|i] Hi; [reflexivity|lia].
  - reflexivity.
Defined.

(** Messages that wait together are lost but for the first: the agent reads up to
    1024 bytes and looks at the first message only, so one that is not a change of role
    makes it pass over a change of role that follows. *)
Theorem message_hidden `{E' : Env} fuel m ms s :
  holds_bytes (concat (encode <$> m :: ms)) →
  word32 (msg_type m) → word32 (msg_size m) → info_fits (msg_data m) = true →
  msg_type m ≠ DRBD_ROLE_CHANGE →
  wp (dispatch fuel) (λ o s', o = Val tt
    ∧ request <$> w_trace s' = CReadFifo :: CNew "HA_DEVMON_MsgT" :: (request <$> w_trace s)
    ∧ w_glob s' = w_glob s ∧ w_ha s' = w_ha s) s.
Proof.
  intros Hb Ht Hsz Hi Hm. cbn [fmap list_fmap concat] in Hb. apply (wp_dispatch _ _ _ _ _ Hb); [done..|].
  intros r. apply wp_bind. unfold processMsg.
  destruct (Z.eqb_spec (msg_type m) DRBD_ROLE_CHANGE) as [?|_]; [done|]. by repeat apply wp_ret.
Qed.

Definition fifo_env (b : list Z) : Env := {|
  answer := λ _ c, match c with CReadFifo => (Z.of_nat (length b), b) | c => dflt c end |}.

Lemma message_hidden_witness :
  let conn := mkMsg DRBD_CONN_ERROR 305 (info ob_lost) in
  let role := mkMsg DRBD_ROLE_CHANGE 305 (info ob_role) in
  wp (dispatch (E:=fifo_env (encode conn ++ encode role ++ [])) 1) (λ o s', o = Val tt
    ∧ request <$> w_trace s' = [CReadFifo; CNew "HA_DEVMON_MsgT"] ∧ w_glob s' = newGlobal ∧ w_ha s' = newHa)
    newWorld.
Proof.
  intros conn role.
  apply (message_hidden (E':=fifo_env (encode conn ++ encode role ++ [])) 1 conn [role] newWorld).
  - split; intros t; reflexivity.
  - vm_compute. split; congruence.
  - vm_compute. split; congruence.
  - reflexivity.
  - discriminate.
Defined.
