(* ===== verification/Adm.v ===== *)
(** * The active and the standby part

    [HA_AGENT_ACTVAdm] and [HA_AGENT_STNBYAdm]: the two threads AMF's state changes
    start and stop, and [Global::waitOntask], with which the callback waits for
    them.  Of the two flags [waitOntask] polls, which other threads set, it sees
    what the environment answers to [CFlags]. *)

From S2P Require Import Prelude CString Types World LogTrace Config Utils PowerOff LockFile ImmOm Mips DrbdMgr Failover DrbdMon RoleMgr.

Open Scope Z_scope.

(** The standby object of the HA object, and assignments to its members. *)
Definition set_stbyAdm (o : option StbyAdmT) (h : HaT) : HaT :=
  mkHa (ha_amf h) (m_actvAdmObj h) o.
Definition set_sb_fileObj (b : bool) (a : StbyAdmT) : StbyAdmT :=
  mkStby b (sb_DMObj a) (ShutdownDone a).
Definition set_sb_DMObj (d : option DRBDMonT) (a : StbyAdmT) : StbyAdmT :=
  mkStby (sb_fileObj a) d (ShutdownDone a).
Definition set_ShutdownDone (b : bool) (a : StbyAdmT) : StbyAdmT :=
  mkStby (sb_fileObj a) (sb_DMObj a) b.

Section adm.
Context `{E : Env}.

(** The loop of [waitOntask]; [n] bounds the rounds. *)
Fixpoint wait_loop (n : nat) (ticks limit : Z) : MW unit :=
  '(tasksDone, restart) ← call CFlags;
  if negb tasksDone && negb restart && (ticks <=? limit) then
    match n with
    | O => nofuel
    | S n =>
        m_utilObj_ (msec_sleep APOS_HA_ONESEC_IN_MILLI);;
        wait_loop n (u32 (ticks + 1)) limit
    end
  else mret tt.

(** [Global::waitOntask]. *)
Definition waitOntask : MW Z :=
  c ← m_cngObj_getConfig;
  let limit := callbackTmout c / APOS_HA_ONESEC_IN_MILLI in
  wait_loop (Z.to_nat (limit + 1)) 0 limit;;
  '(tasksDone, restart) ← call CFlags;
  mret (if negb tasksDone || (restart : bool) then -1 else 0).

(** ** Active part *)

(** [initClasses]: a failure to initialise [Utils] is only logged. *)
Definition actv_initClasses : MW Z :=
  _ ← on_utils Utils_init;
  r ← on_config readConfig;
  if r <? 0 then mret (-1) else
  r ← on_config readMips;
  mret (if r <? 0 then -1 else 0).

(** [start(argc, argv)] and [start(haObj)]. *)
Definition actv_start : MW Z :=
  st ← call (CRegister "SIGINT");
  if negb st then mret (-1) else
  st ← call (CRegister "SIGHUP");
  if negb st then mret (-1) else
  r ← actv_initClasses;
  if r <? 0 then mret (-1) else
  ok ← call (CActivate "actvadm");
  mret (if (ok : bool) then 0 else -1).

Definition actv_start_ha : MW Z :=
  assign (set_haObj true);;
  assign (set_haMode true);;
  actv_start.

(** [stop]. *)
Definition actv_stop : MW unit :=
  mb ← call (CNew "ACE_Message_Block");
  if (mb : bool) then _ ← call (CPutq "actvadm" AGENT_SHUTDOWN); mret tt else mret tt.

(** [readConfig_r], after the dump of the old values to the trace. *)
Definition readConfig_r : MW unit :=
  _ ← getConfig;
  _ ← on_config readConfig;
  mret tt.

(** [handle_signal]. *)
Definition actv_signal (signum : Z) : MW Z :=
  (if signum =? SIGHUP then readConfig_r else actv_stop);;
  mret 0.

(** [shutDown_all]. *)
Definition actv_shutDown_all : MW unit :=
  _ ← call (CRemove "SIGHUP");
  _ ← call (CRemove "SIGINT");
  assign (set_shutdownOrdered true);;
  o ← roleMgr;
  _ ← deref o;
  _ ← rolemgr_close;
  o ← roleMgr;
  _ ← deref o;
  call (CWait "rolemgr").

(** [startRoleMgr]. *)
Definition startRoleMgr : MW Z :=
  o ← roleMgr;
  _ ← deref o;
  r ← rolemgr_open;
  mret (if r <? 0 then -1 else 0).

(** The message loops of both parts: they end on [AGENT_SHUTDOWN] or when [getq]
    fails; [n] bounds the messages. *)
Fixpoint adm_loop (n : nat) (queue : string) : MW unit :=
  match n with
  | O => nofuel
  | S n =>
      mb ← call (CGetq queue);
      match mb with
      | None => mret tt
      | Some ty => if ty =? AGENT_SHUTDOWN then mret tt else adm_loop n queue
      end
  end.

(** [svc]. *)
Definition actv_svc (fuel : nat) : MW Z :=
  r ← startRoleMgr;
  (if r <? 0 then
     ha ← global m_haMode;
     if (ha : bool) then compRestart fuel else exit EXIT_FAILURE
   else mret tt);;
  adm_loop fuel "actvadm";;
  actv_shutDown_all;;
  mret 0.

(** ** Standby part *)

Definition stby : MW StbyAdmT := o ← gets (m_stbyAdmObj ∘ w_ha); deref o.
Definition set_stby (f : StbyAdmT → StbyAdmT) : MW unit :=
  modify (set_ha (λ h, set_stbyAdm (f <$> m_stbyAdmObj h) h)).

(** The monitor of the standby part. *)
Definition sb_monitor : DMRef := {|
  dm_get := a ← stby; deref (sb_DMObj a);
  dm_put f := set_stby (λ a, set_sb_DMObj (f <$> sb_DMObj a) a)
|}.

(** [initClasses]. *)
Definition stby_initClasses : MW Z :=
  f ← call (CNew "HA_AGENT_LFile");
  set_stby (set_sb_fileObj f);;
  if negb f then mret (-1) else
  r ← on_config readConfig;
  mret (if r <? 0 then -1 else 0).

(** [rmlockfile]: it always returns 0. *)
Definition rmlockfile : MW Z :=
  a ← stby;
  (if sb_fileObj a then mret tt else undef);;
  ex ← LFileExist;
  (if (ex : bool) then _ ← RMLFile; mret tt else mret tt);;
  mret 0.

(** [start(argc, argv)] and [start(haObj)]. *)
Definition stby_start : MW Z :=
  st ← call (CRegister "SIGINT");
  if negb st then mret (-1) else
  st ← call (CRegister "SIGHUP");
  if negb st then mret (-1) else
  st ← call (CRegister "EVENT_REBUILD");
  if negb st then mret (-1) else
  r ← stby_initClasses;
  if r <? 0 then mret (-1) else
  r ← rmlockfile;
  if r <? 0 then mret (-1) else
  ok ← call (CActivate "stbyadm");
  mret (if (ok : bool) then 0 else -1).

Definition stby_start_ha : MW Z :=
  assign (set_haObj true);;
  assign (set_haMode true);;
  stby_start.

(** [stop]. *)
Definition stby_stop : MW unit :=
  a ← stby;
  if ShutdownDone a then mret tt else
  _ ← call (CRemove "SIGHUP");
  _ ← call (CRemove "SIGINT");
  _ ← call (CRemove "EVENT_REBUILD");
  mb ← call (CNew "ACE_Message_Block");
  (if (mb : bool) then _ ← call (CPutq "stbyadm" AGENT_SHUTDOWN); mret tt else mret tt);;
  set_stby (set_ShutdownDone true).

(** [handle_signal]. *)
Definition stby_signal (signum : Z) : MW Z :=
  (if signum =? SIGINT then stby_stop
   else if signum =? SIGHUP then readConfig_r
   else if signum =? EVENT_REBUILD then
     set_stby (λ a, set_sb_DMObj (setRebuildInProgress <$> sb_DMObj a) a)
   else stby_stop);;
  mret 0.

(** [close(u_long)], which runs when the thread has ended. *)
Definition stby_closed : MW Z :=
  set_stby (set_sb_fileObj false);;
  a ← stby;
  (match sb_DMObj a with
   | Some _ =>
       _ ← drbdmon_close sb_monitor;
       _ ← call (CWait "drbdmon");
       set_stby (set_sb_DMObj None)
   | None => mret tt
   end);;
  assign (set_tasksDone false);;
  mret 0.

(** What [svc] does before the messages: true when no fault was detected. *)
Definition stby_start_up : MW bool :=
  d ← call (CNew "HA_AGENT_DRBDMon");
  set_stby (set_sb_DMObj (if (d : bool) then Some newDRBDMon else None));;
  if negb d then mret false else
  r ← drbdmon_open;
  if negb (r =? 0) then mret false else
  pInfo ← PWROff_ get_persis_info;
  PWROff_ (λ p, write_persis_info p (set_count 0 pInfo));;
  _ ← Utils_ removeRCF;
  mret true.

(** [svc]. *)
Definition stby_svc (fuel : nat) : MW Z :=
  ok ← stby_start_up;
  (if (ok : bool) then mret tt else
   ha ← global m_haMode;
   if (ha : bool) then compRestart fuel else exit EXIT_FAILURE);;
  assign (set_tasksDone true);;
  adm_loop fuel "stbyadm";;
  mret 0.
End adm.

(** ** Properties *)

Section adm_frames.
Context `{E : Env} {R : relation World} `{!LockFrame R}.

Lemma mkdirs_frame pre d : steps R (mkdirs pre d).
Proof. revert pre. induction d as [|ch d IH]; intros pre; cbn [mkdirs]; solve_steps. Qed.
Hint Resolve mkdirs_frame : steps.

Lemma logtrace_init_frame pathname mask : steps R (apos_ha_logtrace_init pathname mask).
Proof. unfold apos_ha_logtrace_init, mkdirs_from. solve_steps. Qed.
Hint Resolve logtrace_init_frame : steps.

Lemma option_line_frame key set st :
  (∀ v c, steps R (set v c)) → steps R (option_line key set st).
Proof. intros Hset. unfold option_line. solve_steps. Qed.

Lemma readConfig_options_frame ch c : steps R (readConfig_options ch c).
Proof.
  unfold readConfig_options, set_int. solve_steps; apply option_line_frame; intros; solve_steps.
Qed.
Hint Resolve readConfig_options_frame : steps.

Lemma readConfig_lines_frame c ls : steps R (readConfig_lines c ls).
Proof.
  revert c. induction ls as [|l ls IH]; intros c; cbn [readConfig_lines]; unfold readConfig_line; solve_steps.
Qed.
Hint Resolve readConfig_lines_frame : steps.

Lemma readConfig_frame c : steps R (readConfig c).
Proof. unfold readConfig, initLog. solve_steps. Qed.

Lemma on_config_frame f : (∀ c, steps R (f c)) → steps R (on_config f).
Proof. intros Hf. unfold on_config. solve_steps. Qed.
Hint Resolve readConfig_frame on_config_frame : steps.

Lemma readMips_loop_frame fuel n t m : steps R (readMips_loop fuel n t m).
Proof.
  revert n t m. induction fuel as [|fuel IH]; intros n [|ch t] m; cbn [readMips_loop];
    unfold set_slot; solve_steps.
Qed.
Hint Resolve readMips_loop_frame : steps.

Lemma readMips_frame c : steps R (readMips c).
Proof. unfold readMips. solve_steps. Qed.
Hint Resolve readMips_frame : steps.

Lemma roleMgr_frame : steps R roleMgr.
Proof. unfold roleMgr. solve_steps. Qed.
Hint Resolve roleMgr_frame : steps.

Lemma actv_start_frame : steps R actv_start.
Proof. unfold actv_start, actv_initClasses, on_utils, Utils_init, Ap. solve_steps. Qed.
Hint Resolve actv_start_frame : steps.

Lemma actv_start_ha_frame : steps R actv_start_ha.
Proof. unfold actv_start_ha. solve_steps. Qed.

Lemma actv_stop_frame : steps R actv_stop.
Proof. unfold actv_stop. solve_steps. Qed.

Lemma adm_loop_frame n q : steps R (adm_loop n q).
Proof. induction n as [|n IH]; cbn [adm_loop]; solve_steps. Qed.
Hint Resolve adm_loop_frame : steps.

Lemma actv_svc_frame fuel : steps R (actv_svc fuel).
Proof.
  unfold actv_svc, startRoleMgr, rolemgr_open, actv_shutDown_all, rolemgr_close, handle_close, set_this.
  solve_steps.
Qed.

Lemma stby_frame : steps R stby.
Proof. unfold stby. solve_steps. Qed.
Hint Resolve stby_frame : steps.

Lemma set_stby_frame f : steps R (set_stby f).
Proof. unfold set_stby. solve_steps. Qed.
Hint Resolve set_stby_frame : steps.

Lemma stby_start_ha_frame : steps R stby_start_ha.
Proof. unfold stby_start_ha, stby_start, stby_initClasses, rmlockfile. solve_steps. Qed.

Lemma stby_stop_frame : steps R stby_stop.
Proof. unfold stby_stop. solve_steps. Qed.

Lemma stby_svc_frame fuel : steps R (stby_svc fuel).
Proof. unfold stby_svc, stby_start_up. solve_steps. Qed.

Lemma deactivate_frame : steps R deactivate.
Proof. unfold deactivate. solve_steps. Qed.

Lemma wait_loop_frame n t l : steps R (wait_loop n t l).
Proof. revert t. induction n as [|n IH]; intros t; cbn [wait_loop]; solve_steps. Qed.
Hint Resolve wait_loop_frame : steps.

Lemma waitOntask_frame : steps R waitOntask.
Proof. unfold waitOntask, m_cngObj_getConfig. solve_steps. Qed.
End adm_frames.

#[export] Hint Resolve logtrace_init_frame actv_start_ha_frame actv_start_frame actv_stop_frame
  actv_svc_frame stby_start_ha_frame stby_stop_frame stby_svc_frame deactivate_frame
  waitOntask_frame : steps.

#[export] Instance sb_monitor_place `{E : Env} : DMPlace sb_monitor.
Proof. split; intros; unfold sb_monitor, stby, set_stby; simpl; solve_steps. Qed.

(** ** Waiting for the thread *)

Definition is_sleep (e : Event) : bool := match e with Ev (CSleep _) _ => true | _ => false end.
Fixpoint slept (t : Trace) : Z :=
  match t with
  | [] => 0
  | e :: t => (if is_sleep e then 1 else 0) + slept t
  end.

Lemma slept_app t1 t2 : slept (t1 ++ t2) = slept t1 + slept t2.
Proof. induction t1 as [|e t1 IH]; cbn [slept app]; [done|]. rewrite IH. lia. Qed.

Section waiting.
Context `{E : Env}.

(** From [ticks] on the loop sleeps at most [limit + 1 - ticks] times, and ends. *)
Lemma wait_loop_spec u n ticks limit s :
  m_utilObj (w_glob s) = Some u → 0 ≤ ticks ≤ limit + 1 → limit < 2 ^ 32 - 1 →
  Z.of_nat n = limit + 1 - ticks →
  wp (wait_loop n ticks limit) (valQ (λ _ s', w_glob s' = w_glob s
    ∧ since s s' (λ new, slept new ≤ limit + 1 - ticks))) s.
Proof.
  revert ticks s. induction n as [|n IH]; intros ticks s Hu Ht Hl Hn; cbn [wait_loop]; wp_auto;
    destruct r as [t c].
  - destruct (Z.leb_spec ticks limit); [lia|]. rewrite andb_false_r. wp_auto.
    split; [done|]. apply since_push. vm_compute slept. lia.
  - destruct (negb t && negb c && (ticks <=? limit)) eqn:Hb; wp_auto.
    2: { split; [done|]. apply since_push. change (slept [Ev CFlags (t, c)]) with 0. lia. }
    unfold m_utilObj_, msec_sleep. wp_auto. cbn [w_glob push]. rewrite Hu. wp_auto.
    unfold u32. rewrite Z.mod_small by lia.
    eapply wp_valQ_mono; [apply IH; [done|lia..]|]. intros _ s' [Hg Hs]. split; [done|].
    eapply (since_trans _ _ _ (λ t, slept t = 1)); [|exact Hs|].
    { eexists [_; _]. split; [done|]. reflexivity. }
    cbn beta. intros n1 n2 H1 H2. rewrite slept_app. lia.
Qed.

(** The callback of AMF waits for the thread at most one second longer than the
    callback timeout allows, and reports success exactly when, at the end, the
    tasks are done and no restart was requested. *)
Theorem waitOntask_spec s u c :
  m_utilObj (w_glob s) = Some u → m_cngObj (w_glob s) = Some c →
  0 ≤ callbackTmout c < 2 ^ 32 →
  wp waitOntask (valQ (λ r s', w_glob s' = w_glob s ∧ ∃ s1 done_ restart,
    s' = push (Ev CFlags (done_, restart)) s1
    ∧ since s s1 (λ new, slept new ≤ callbackTmout c / APOS_HA_ONESEC_IN_MILLI + 1)
    ∧ r = if done_ && negb restart then 0 else -1)) s.
Proof.
  intros Hu Hc Ht. unfold waitOntask, m_cngObj_getConfig. wp_auto. rewrite Hc. wp_auto.
  assert (0 ≤ callbackTmout c / APOS_HA_ONESEC_IN_MILLI < 2 ^ 32 / 1000 + 1).
  { unfold APOS_HA_ONESEC_IN_MILLI. split; [apply Z.div_pos; lia|].
    apply Z.lt_succ_r, Z.div_le_mono; lia. }
  eapply wp_valQ_mono; [apply (wait_loop_spec u); [done|lia| |lia]|].
  { change (2 ^ 32 / 1000) with 4294967 in *. lia. }
  intros _ s1 [Hg Hs]. wp_auto. destruct r as [t r]. wp_auto.
  split; [done|]. exists s1, t, r. split; [done|]. split; [by rewrite Z.sub_0_r in Hs|].
  by destruct t, r.
Qed.
End waiting.

Lemma waitOntask_spec_witness :
  wp (waitOntask (E:=calm)) (valQ (λ r s', w_glob s' = w_glob exWorld ∧ ∃ s1 done_ restart,
    s' = push (Ev CFlags (done_, restart)) s1
    ∧ since exWorld s1 (λ new, slept new ≤ callbackTmout exConfig / APOS_HA_ONESEC_IN_MILLI + 1)
    ∧ r = if done_ && negb restart then 0 else -1)) exWorld.
Proof.
  apply (waitOntask_spec (E:=calm) exWorld newUtils exConfig); [done|done|vm_compute; split; congruence].
Defined.
