(* ===== verification/HaManager.v ===== *)
(** * HA manager

    [agentHAClass], the agent as a host of the AMF class: the jobs of each state start
    and stop the active and the standby part.  A result [ACS_APGCC_SUCCESS] is
    [true]. *)

From S2P Require Import Prelude CString Types World Amf LogTrace Config Utils Failover Adm.

Open Scope Z_scope.

Definition set_amf (f : AmfT → AmfT) (h : HaT) : HaT :=
  mkHa (f (ha_amf h)) (m_actvAdmObj h) (m_stbyAdmObj h).
Definition set_actvAdm (b : bool) (h : HaT) : HaT := mkHa (ha_amf h) b (m_stbyAdmObj h).

Definition daemonName : string := "apos_ha_rdeagentd".

Section hamanager.
Context `{E : Env}.

Definition ha {A} (f : HaT → A) : MW A := gets (f ∘ w_ha).
Definition on_ha (f : HaT → HaT) : MW unit := modify (set_ha f).

(** ** Jobs *)

(** [stopActv] and [stopStndby]; deleting the object runs its destructor. *)
Definition stopActv : MW unit :=
  a ← ha m_actvAdmObj;
  if (a : bool) then
    actv_stop;;
    call (CWait "actvadm");;
    deactivate;;
    on_ha (set_actvAdm false)
  else mret tt.

Definition stopStndby : MW unit :=
  o ← ha m_stbyAdmObj;
  match o with
  | Some _ =>
      stby_stop;;
      call (CWait "stbyadm");;
      deactivate;;
      assign (set_oldhaState HA_STANDBY);;
      on_ha (set_stbyAdm None)
  | None => mret tt
  end.

(** [stopApp]. *)
Definition stopApp : MW bool := stopActv;; stopStndby;; mret true.

(** [activateApp]. *)
Definition activateApp : MW bool :=
  o ← ha m_stbyAdmObj;
  (match o with
   | Some _ => stopStndby;; assign (set_oldhaState HA_STANDBY)
   | None => mret tt
   end);;
  a ← ha m_actvAdmObj;
  if (a : bool) then mret true else
  n ← call (CNew "HA_AGENT_ACTVAdm");
  on_ha (set_actvAdm n);;
  if negb n then mret false else
  r ← actv_start_ha;
  if r <? 0 then
    deactivate;;
    on_ha (set_actvAdm false);;
    mret false
  else
    w ← waitOntask;
    mret (w =? 0).

(** [passifyApp]. *)
Definition passifyApp : MW bool :=
  o ← ha m_stbyAdmObj;
  match o with
  | Some _ => mret true
  | None =>
      n ← call (CNew "HA_AGENT_STNBYAdm");
      on_ha (set_stbyAdm (if (n : bool) then Some newStby else None));;
      if negb n then mret false else
      r ← stby_start_ha;
      if r <? 0 then
        deactivate;;
        assign (set_oldhaState HA_STANDBY);;
        on_ha (set_stbyAdm None);;
        mret false
      else
        w ← waitOntask;
        mret (w =? 0)
  end.

(** The jobs of a state change; the active and the passive jobs remember the
    previous state. *)
Definition performStateTransitionToActiveJobs (prev : HAState) : MW bool :=
  assign (set_oldhaState prev);; activateApp.
Definition performStateTransitionToPassiveJobs (prev : HAState) : MW bool :=
  assign (set_oldhaState prev);; passifyApp.
Definition performStateTransitionToQueisingJobs (prev : HAState) : MW bool := stopApp.
Definition performStateTransitionToQuiescedJobs (prev : HAState) : MW bool := stopApp.
Definition performComponentTerminateJobs : MW bool := stopApp.
Definition performComponentRemoveJobs : MW bool := stopApp.
Definition performApplicationShutdownJobs : MW bool := stopApp.
Definition performComponentHealthCheck : MW bool := mret true.

Definition agent_job (j : Job) : MW bool :=
  match j with
  | JobActive prev => performStateTransitionToActiveJobs prev
  | JobPassive prev => performStateTransitionToPassiveJobs prev
  | JobQuiesing prev => performStateTransitionToQueisingJobs prev
  | JobQuiesced prev => performStateTransitionToQuiescedJobs prev
  | JobTerminate => performComponentTerminateJobs
  | JobRemove => performComponentRemoveJobs
  | JobShutdown => performApplicationShutdownJobs
  | JobHealth => performComponentHealthCheck
  end.

#[export] Instance agent_obj : AmfObj World := {|
  host_ask := call;
  host_amf := ha_amf ∘ w_ha;
  host_set := λ f, set_ha (set_amf f);
  host_name := daemonName
|}.
#[export] Instance agent_host : Host World := {| host_job := agent_job |}.
End hamanager.

(** ** Properties *)

(** Which parts of the HA object exist. *)
Definition parts (s : World) : bool * bool :=
  (m_actvAdmObj (w_ha s), bool_decide (is_Some (m_stbyAdmObj (w_ha s)))).

Lemma after_shape {A} (m : MW A) (P : A → World → Prop) s :
  steps (keeps (ha_shape ∘ w_ha)) m → (∀ a s', parts s' = parts s → P a s') → after m P s.
Proof.
  intros Hm HP a s' Hrun. apply HP.
  pose proof (steps_run (keeps (ha_shape ∘ w_ha)) _ _ _ _ Hm Hrun) as H.
  injection H as _ Ha Hs. unfold parts. congruence.
Qed.

Lemma after_ha {A} `{Env} (f : HaT → A) P s : P (f (w_ha s)) s → after (ha f) P s.
Proof. by intros HP ? ? [= <- <-]. Qed.

Lemma after_on_ha `{Env} f (P : unit → World → Prop) s : P tt (set_ha f s) → after (on_ha f) P s.
Proof. by intros HP ? ? [= <- <-]. Qed.

Section hamanager_props.
Context `{E : Env}.

Lemma stopStndby_parts s :
  after stopStndby (λ _ s', parts s' = ((parts s).1, false)) s.
Proof.
  unfold stopStndby. apply after_bind, after_ha.
  destruct (m_stbyAdmObj (w_ha s)) eqn:Hs.
  2: { apply after_ret. unfold parts. by rewrite Hs. }
  do 4 (apply after_bind; apply after_shape; [solve_steps|intros ? ? ?]).
  apply after_on_ha. unfold parts in *. simpl in *. congruence.
Qed.

Lemma stopActv_parts s : after stopActv (λ _ s', parts s' = (false, (parts s).2)) s.
Proof.
  unfold stopActv. apply after_bind, after_ha.
  destruct (m_actvAdmObj (w_ha s)) eqn:Hs.
  2: { apply after_ret. unfold parts. by rewrite Hs. }
  do 3 (apply after_bind; apply after_shape; [solve_steps|intros ? ? ?]).
  apply after_on_ha. unfold parts in *. simpl in *. congruence.
Qed.

Lemma stopApp_parts s : after stopApp (λ _ s', parts s' = (false, false)) s.
Proof.
  unfold stopApp. apply after_bind. eapply after_mono; [apply stopActv_parts|]. intros ? s1 H1.
  apply after_bind. eapply after_mono; [apply stopStndby_parts|]. intros ? s2 H2.
  apply after_ret. by rewrite H2, H1.
Qed.

Lemma activateApp_parts s : after activateApp (λ _ s', (parts s').2 = false) s.
Proof.
  unfold activateApp. apply after_bind, after_ha. apply after_bind.
  eapply (after_mono _ (λ _ s1, (parts s1).2 = false)).
  { destruct (m_stbyAdmObj (w_ha s)) eqn:Hs.
    - apply after_bind. eapply after_mono; [apply stopStndby_parts|]. intros ? s1 H1.
      apply after_shape; [solve_steps|]. intros ? s2 H2. by rewrite H2, H1.
    - apply after_ret. unfold parts. by rewrite Hs. }
  intros ? s1 H1. apply after_bind, after_ha.
  destruct (m_actvAdmObj (w_ha s1)); [by apply after_ret|].
  apply after_bind, after_shape; [solve_steps|]. intros n s2 H2.
  apply after_bind, after_on_ha. 
  assert (H3 : (parts (set_ha (set_actvAdm n) s2)).2 = false).
  { unfold parts in *. simpl in *. congruence. }
  revert H3. generalize (set_ha (set_actvAdm n) s2). intros s3 H3.
  destruct n; cbn [negb]; [|by apply after_ret].
  apply after_bind, after_shape; [solve_steps|]. intros r s4 H4. destruct (r <? 0).
  - apply after_bind, after_shape; [solve_steps|]. intros ? s5 H5.
    apply after_bind, after_on_ha, after_ret. unfold parts in *. simpl in *. congruence.
  - apply after_bind, after_shape; [solve_steps|]. intros w s5 H5. apply after_ret. congruence.
Qed.

Lemma passifyApp_parts s : after passifyApp (λ _ s', (parts s').1 = (parts s).1) s.
Proof.
  unfold passifyApp. apply after_bind, after_ha.
  destruct (m_stbyAdmObj (w_ha s)) eqn:Hs; [by apply after_ret|].
  apply after_bind, after_shape; [solve_steps|]. intros n s2 H2.
  apply after_bind, after_on_ha.
  assert (H3 : (parts (set_ha (set_stbyAdm (if n then Some newStby else None)) s2)).1 = (parts s).1).
  { unfold parts in *. simpl in *. congruence. }
  revert H3. generalize (set_ha (set_stbyAdm (if n then Some newStby else None)) s2). intros s3 H3.
  destruct n; cbn [negb]; [|by apply after_ret].
  apply after_bind, after_shape; [solve_steps|]. intros r s4 H4. destruct (r <? 0).
  - do 2 (apply after_bind, after_shape; [solve_steps|]; intros ? ? ?).
    apply after_bind, after_on_ha, after_ret. unfold parts in *. simpl in *. congruence.
  - apply after_bind, after_shape; [solve_steps|]. intros w s5 H5. apply after_ret. congruence.
Qed.
End hamanager_props.

(** ** One role at a time

    Between the callbacks the threads of the agent may change what every frame
    allows. *)

Definition agent_threads : relation World := λ s s', ∀ R, LockFrame R → R s s'.

(** The active part exists only in the active state, the standby part only in the
    standby state. *)
Definition one_role (v : HAState) (s : World) : Prop :=
  ((parts s).1 = true → v = HA_ACTIVE) ∧ ((parts s).2 = true → v = HA_STANDBY).

Section one_role.
Context `{E : Env}.

Lemma one_role_none v s : parts s = (false, false) → one_role v s.
Proof. intros H. unfold one_role. by rewrite H. Qed.

Lemma one_role_parts v s s' : parts s' = parts s → one_role v s → one_role v s'.
Proof. unfold one_role. by intros ->. Qed.

Lemma stopApp_role v s : after stopApp (λ _, one_role v) s.
Proof. eapply after_mono; [apply stopApp_parts|]. intros ? s' H. by apply one_role_none. Qed.

Lemma agent_inv : amf_inv agent_threads one_role.
Proof.
  split; cbn [host_job agent_host agent_job].
  - intros v st prev j s Hmay Hj [Ha Hb]. destruct st; inversion Hj; subst j; cbn [agent_job].
    + apply after_bind, after_shape; [solve_steps|]. intros ? s1 H1.
      eapply after_mono; [apply activateApp_parts|]. intros ok s2 H2.
      unfold one_role. by rewrite H2.
    + apply after_bind, after_shape; [solve_steps|]. intros ? s1 H1.
      eapply after_mono; [apply passifyApp_parts|]. intros ok s2 H2. unfold one_role.
      rewrite H2, H1. split; [|done]. intros Hx. specialize (Ha Hx). subst. inversion Hmay.
    + apply stopApp_role.
    + apply stopApp_role.
  - intros v j s [-> | ->] _; apply stopApp_role.
  - intros v j s [-> | ->] H; [by apply after_ret|apply stopApp_role].
  - intros v f s. by apply one_role_parts.
  - intros v c s H ? ? [= <- <-]. exact H.
  - intros v s s' HR. apply one_role_parts.
    pose proof (HR _ shape_frame) as H. injection H as _ Ha Hs. unfold parts. congruence.
Qed.

(** C3: Whatever AMF orders within its state machine, and whether the jobs succeed or
    fail, the daemon never has the active and the standby part at the same time:
    an active part exists only in the active state, a standby part only in the
    standby state. *)
Theorem one_role_invariant v s v' s' :
  parts s = (false, false) → rtc (amf_step agent_threads) (v, s) (v', s') → one_role v' s'.
Proof.
  intros Hs Hrtc. apply (amf_invariant agent_threads agent_inv (v, s) (v', s') Hrtc).
  by apply one_role_none.
Qed.
End one_role.

(** ** What AMF is told *)

Section honest.
Context `{E : Env}.

(** The flags were last seen with the tasks done and no restart requested. *)
Definition seen_done (s : World) : Prop := ∃ rest, w_trace s = Ev CFlags (true, false) :: rest.

Lemma waitOntask_seen s : after waitOntask (λ w s', w = 0 → seen_done s') s.
Proof.
  intros w s' H. unfold waitOntask in H. apply bind_Val_inv in H as (c & s1 & _ & H).
  apply bind_Val_inv in H as (? & s2 & _ & H). rewrite (bind_call CFlags) in H.
  destruct (answer (w_trace s2) CFlags) as [t r] eqn:Hf. cbn [fst snd] in H. injection H as <- <-.
  destruct t, r; cbn; intros Hw; try done. by eexists.
Qed.

Lemma activateApp_seen s :
  m_actvAdmObj (w_ha s) = false → after activateApp (λ ok s', ok = true → seen_done s') s.
Proof.
  intros Ha. unfold activateApp. apply after_bind, after_ha. apply after_bind.
  eapply (after_mono _ (λ _ s1, m_actvAdmObj (w_ha s1) = false)).
  { destruct (m_stbyAdmObj (w_ha s)) eqn:Hs; [|by apply after_ret].
    apply after_bind. eapply after_mono; [apply stopStndby_parts|]. intros ? s1 H1.
    apply after_shape; [solve_steps|]. intros ? s2 H2. unfold parts in *. simpl in *. congruence. }
  intros ? s1 H1. apply after_bind, after_ha. rewrite H1.
  apply after_bind, after_shape; [solve_steps|]. intros n s2 _.
  apply after_bind, after_on_ha. destruct n; cbn [negb]; [|by apply after_ret].
  apply after_bind, after_shape; [solve_steps|]. intros r s3 _. destruct (r <? 0).
  - apply after_bind, after_shape; [solve_steps|]. intros ? s4 _.
    by apply after_bind, after_on_ha, after_ret.
  - apply after_bind. eapply after_mono; [apply waitOntask_seen|]. intros w s4 Hw.
    apply after_ret. intros Hz. apply Hw. by apply Z.eqb_eq.
Qed.

(** When AMF orders the daemon to become active, the answer is success only if
    the flags last showed that the role manager had done its tasks and that no
    restart was requested. *)
Theorem csi_set_active_honest s s' :
  m_actvAdmObj (w_ha s) = false → csi_set HA_ACTIVE s = (Val tt, s') →
  ∃ s1 e x, w_trace s' = Ev (CAmf "saAmfResponse" e) x :: w_trace s1
    ∧ (e = SA_AIS_OK → seen_done s1).
Proof.
  intros Ha H. unfold csi_set in H.
  apply bind_Val_inv in H as ([] & s0 & Hvia & H).
  assert (s0 = s) as ->.
  { unfold via_appMngr in Hvia. apply bind_Val_inv in Hvia as (o & ? & [= <- <-] & Hvia).
    cbn in Hvia. destruct (appMngrObj (ha_amf (w_ha s))); by inversion Hvia. }
  apply bind_Val_inv in H as (prev & s0 & [= <- <-] & H).
  apply bind_Val_inv in H as ([] & s1 & [= <-] & H).
  apply bind_Val_inv in H as (ok & s2 & Hact & H).
  cbn [host_job agent_host agent_job] in Hact. unfold performStateTransitionToActiveJobs in Hact.
  apply bind_Val_inv in Hact as ([] & s3 & [= <-] & Hact).
  assert (Hseen : ok = true → seen_done s2) by (eapply activateApp_seen; [|exact Hact]; done).
  unfold respond in H. cbn [host_ask agent_obj host_obj agent_host] in H.
  rewrite (bind_call (CAmf "saAmfResponse" (error_of ok))) in H.
  exists s2, (error_of ok), (answer (w_trace s2) (CAmf "saAmfResponse" (error_of ok))).
  split; [|destruct ok; [auto|discriminate]].
  destruct (answer (w_trace s2) (CAmf "saAmfResponse" (error_of ok))); by injection H as <-.
Qed.
End honest.

(** ** Examples *)

(** The daemon becomes active under AMF when the flags say so. *)
Definition amf_env : Env :=
  {| answer := λ _ c, match c with CFlags => (true, false) | c => dflt c end |}.

(** The process after [safAMFInitialize]. *)
Definition amf_world : World := set_ha (set_amf (set_appMngr true)) newWorld.

Definition amf_active : World :=
  (csi_set (Host0:=agent_host (E:=amf_env)) HA_ACTIVE amf_world).2.

Lemma one_role_invariant_witness :
  parts amf_active = (true, false) ∧ one_role HA_ACTIVE amf_active.
Proof.
  split; [vm_compute; reflexivity|].
  refine (one_role_invariant (E:=amf_env) HA_UNDEFINED amf_world HA_ACTIVE amf_active _ _);
    [vm_compute; reflexivity|].
  apply rtc_once, step_set; [constructor|]. vm_compute. reflexivity.
Defined.

Lemma csi_set_active_honest_witness :
  ∃ s1 e x, w_trace amf_active
    = Ev (CAmf "saAmfResponse" e) x :: w_trace s1 ∧ (e = SA_AIS_OK → seen_done s1).
Proof.
  apply (csi_set_active_honest (E:=amf_env) amf_world
    amf_active);
    [vm_compute; reflexivity|vm_compute; reflexivity].
Defined.
