(* ===== verification/Main.v ===== *)
(** * The program

    [apos_ha_agent_main.cpp]: the command line, the daemon under AMF and from the
    command line.  The options are parsed the way [getopt_long] does it: arguments may come in any
    order, an option may be abbreviated, and two dashes end the options. *)

From stdpp Require Import pretty.
From S2P Require Import Prelude CString Types World Amf LogTrace Config Failover Adm HaManager.

Open Scope Z_scope.

(** ** The command line *)

(** The globals the options set, and the counters of [parse_command_line]. *)
Record Opts : Set := mkOpts { nohaflag : bool; active : bool; noactive : bool }.
Record Counts : Set := mkCounts { noha_opt_cnt : nat; active_opt_cnt : nat; passive_opt_cnt : nat }.

Definition long_options : list string := ["noha"; "active"; "noactive"]%string.

(** [getopt_long] on the text after the dashes: the option of that name, or the
    only one it abbreviates; a value is not allowed. *)
Definition getopt_name (text : string) : option string :=
  if bool_decide (text ∈ long_options) then Some text
  else match List.filter (String.prefix text) long_options with
       | [n] => Some n
       | _ => None
       end.

(** The flag that [getopt_long] sets. *)
Definition set_flag (name : string) (o : Opts) : Opts :=
  mkOpts (nohaflag o || streq name "noha") (active o || streq name "active")
    (noactive o || streq name "noactive").

(** The body of the loop for an option [name] given as [text]. *)
Definition count_option (name text : string) (c : Counts) : option Counts :=
  if negb (streq name text) then None
  else if streq name "noha" then
    if (0 <? noha_opt_cnt c)%nat then None
    else Some (mkCounts (S (noha_opt_cnt c)) (active_opt_cnt c) (passive_opt_cnt c))
  else if streq name "active" then
    if (0 <? active_opt_cnt c)%nat then None
    else if (0 <? passive_opt_cnt c)%nat then None
    else Some (mkCounts (noha_opt_cnt c) (S (active_opt_cnt c)) (passive_opt_cnt c))
  else if streq name "passive" then
    if (0 <? passive_opt_cnt c)%nat then None
    else if (0 <? active_opt_cnt c)%nat then None
    else Some (mkCounts (noha_opt_cnt c) (active_opt_cnt c) (S (passive_opt_cnt c)))
  else Some c.

(** The loop: [nonopts] arguments that are no options were passed over; whether the
    options ended with two dashes is returned too. *)
Fixpoint parse_args (args : list string) (o : Opts) (c : Counts) (nonopts : nat) :
    option (Opts * Counts * nat * bool) :=
  match args with
  | [] => Some (o, c, nonopts, false)
  | String a0 rest as arg :: args =>
      if streq arg "--" then Some (o, c, (nonopts + length args)%nat, true)
      else if eqc a0 "-" then
        match rest with
        | EmptyString => parse_args args o c (S nonopts)
        | String a1 text =>
            if eqc a1 "-" then
              match getopt_name text with
              | None => None
              | Some name =>
                  match count_option name text c with
                  | None => None
                  | Some c => parse_args args (set_flag name o) c nonopts
                  end
              end
            else None
        end
      else parse_args args o c (S nonopts)
  | EmptyString :: args => parse_args args o c (S nonopts)
  end.

(** [parse_command_line] on the arguments after the program's name: the options, or
    [None] where it returns -1. *)
Definition parse_command_line (args : list string) : option Opts :=
  match parse_args args (mkOpts false false false) (mkCounts 0 0 0) 0 with
  | None => None
  | Some (o, c, nonopts, dashes) =>
      if (noha_opt_cnt c =? 0)%nat && ((0 <? passive_opt_cnt c)%nat || (0 <? active_opt_cnt c)%nat)
      then None
      else if (dashes : bool) then None
      else if (0 <? nonopts)%nat then None
      else Some o
  end.

(** ** Starting the daemon *)

Definition tracefile : string := snprintf 256 (String.append APOS_HA_DFLT_TRCE_DIR APOS_HA_AGENT_LOG_FILE).

Section main.
Context `{E : Env}.

(** [run_active_daemon] and [run_noactive_daemon]; the standby object is kept where
    the HA object would keep it. *)
Definition run_active_daemon : MW Z :=
  n ← call (CNew "HA_AGENT_ACTVAdm");
  if negb n then mret (-1) else
  r ← actv_start;
  (if r <? 0 then mret tt else call (CWait "actvadm"));;
  deactivate;;
  mret 0.

Definition run_noactive_daemon : MW Z :=
  n ← call (CNew "HA_AGENT_STNBYAdm");
  if negb n then mret (-1) else
  on_ha (set_stbyAdm (Some newStby));;
  r ← stby_start;
  (if r <? 0 then mret tt else call (CWait "stbyadm"));;
  deactivate;;
  assign (set_oldhaState HA_STANDBY);;
  on_ha (set_stbyAdm None);;
  mret 0.

(** [run_agent_daemon]. *)
Definition run_agent_daemon (o : Opts) : MW Z :=
  r ← apos_ha_logtrace_init tracefile APOS_HA_DFLT_TRCE_CATGY;
  if negb (r =? 0) then mret (-1) else
  (if active o then _ ← run_active_daemon; mret tt
   else if noactive o then _ ← run_noactive_daemon; mret tt
   else mret tt);;
  mret 0.

(** [ACE_TMAIN]: deleting the HA object stops what is left. *)
Definition ACE_TMAIN (fuel : nat) (args : list string) : MW Z :=
  match parse_command_line args with
  | None => mret (-1)
  | Some o =>
      if nohaflag o then run_agent_daemon o else
      n ← call (CNew "agentHAClass");
      if negb n then mret (-1) else
      daemonize;;
      r ← apos_ha_logtrace_init tracefile APOS_HA_DFLT_TRCE_CATGY;
      if negb (r =? 0) then mret (-1) else
      e ← activate_ha fuel;
      _ ← stopApp;
      mret (match e with HA_SUCCESS => 0 | HA_FAILURE | HA_FAILURE_CLOSE => -2 end)
  end.
End main.

(** ** Properties of the command line *)

(** How often [x] occurs. *)
Fixpoint times (x : string) (l : list string) : nat :=
  match l with
  | [] => 0
  | y :: l => ((if streq y x then 1 else 0) + times x l)%nat
  end.

Definition known (a : string) : Prop := a ∈ ["--noha"; "--active"; "--noactive"]%string.

Lemma getopt_exact text : text ∈ long_options → getopt_name text = Some text.
Proof. intros H. unfold getopt_name. by rewrite bool_decide_true. Qed.

(** An abbreviation is found by [getopt_long] and then refused. *)
Lemma option_exact text name c c' :
  getopt_name text = Some name → count_option name text c = Some c' → name = text ∧ text ∈ long_options.
Proof.
  unfold getopt_name, count_option. case_bool_decide as Hin.
  - intros [= <-]. done.
  - destruct (List.filter _ _) as [|n [|? ?]] eqn:Hf; try done. intros [= <-].
    destruct (streq n text) eqn:He; [|done]. apply streq_spec in He as ->. intros _. split; [done|].
    assert (Hn : In text (List.filter (String.prefix text) long_options)) by (rewrite Hf; by left).
    apply filter_In in Hn as [Hn _]. by apply list_elem_of_In.
Qed.

(** Comparisons of two constant strings. *)
Ltac eval_streq :=
  repeat match goal with
  | |- context [streq (String ?a ?b) (String ?c ?d)] =>
      let v := eval vm_compute in (streq (String a b) (String c d)) in
      change (streq (String a b) (String c d)) with v
  | H : context [streq (String ?a ?b) (String ?c ?d)] |- _ =>
      let v := eval vm_compute in (streq (String a b) (String c d)) in
      change (streq (String a b) (String c d)) with v in H
  end.

(** The options and the counters after the options [names]. *)
Definition seen (args : list string) (o : Opts) : Opts :=
  mkOpts (nohaflag o || (0 <? times "--noha" args)%nat) (active o || (0 <? times "--active" args)%nat)
    (noactive o || (0 <? times "--noactive" args)%nat).
Definition counted (args : list string) (c : Counts) : Counts :=
  mkCounts (noha_opt_cnt c + times "--noha" args) (active_opt_cnt c + times "--active" args)
    (passive_opt_cnt c).

(** One option that is not refused. *)
Lemma count_option_inv text c c' args :
  text ∈ long_options → passive_opt_cnt c = O → count_option text text c = Some c' →
  counted (String.append "--" text :: args) c = counted args c'
  ∧ passive_opt_cnt c' = O ∧ ((noha_opt_cnt c ≤ 1)%nat → (noha_opt_cnt c' ≤ 1)%nat)
  ∧ ((active_opt_cnt c ≤ 1)%nat → (active_opt_cnt c' ≤ 1)%nat).
Proof.
  intros Hin Hp. unfold count_option, counted. rewrite streq_refl. cbn [negb].
  unfold long_options in Hin. rewrite !elem_of_cons, elem_of_nil in Hin.
  destruct Hin as [->|[->|[->|[]]]]; rewrite ?append_cons, ?append_nil_l; cbn [times]; eval_streq; cbv iota;
    rewrite ?Hp.
  - destruct (Nat.ltb_spec 0 (noha_opt_cnt c)); [done|]. intros [= <-]. cbn.
    split; [f_equal; lia|]. split_and!; lia.
  - destruct (Nat.ltb_spec 0 (active_opt_cnt c)); [done|]. intros [= <-]. cbn.
    split; [f_equal; lia|]. split_and!; lia.
  - intros [= <-]. cbn. auto.
Qed.

Lemma count_option_run text c args :
  text ∈ long_options → passive_opt_cnt c = O →
  (noha_opt_cnt (counted (String.append "--" text :: args) c) ≤ 1)%nat →
  (active_opt_cnt (counted (String.append "--" text :: args) c) ≤ 1)%nat →
  is_Some (count_option text text c).
Proof.
  intros Hin Hp. unfold count_option, counted. rewrite streq_refl. cbn [negb].
  unfold long_options in Hin. rewrite !elem_of_cons, elem_of_nil in Hin.
  destruct Hin as [->|[->|[->|[]]]]; rewrite ?append_cons, ?append_nil_l;
    cbn [times noha_opt_cnt active_opt_cnt]; eval_streq; cbv iota; rewrite ?Hp; intros Hn Ha; [..|eauto].
  - destruct (Nat.ltb_spec 0 (noha_opt_cnt c)); [lia|eauto].
  - destruct (Nat.ltb_spec 0 (active_opt_cnt c)); [lia|eauto].
Qed.

Lemma seen_cons text args o :
  text ∈ long_options → seen (String.append "--" text :: args) o = seen args (set_flag text o).
Proof.
  intros Hin. unfold seen, set_flag. unfold long_options in Hin.
  rewrite !elem_of_cons, elem_of_nil in Hin.
  destruct Hin as [->|[->|[->|[]]]]; rewrite ?append_cons, ?append_nil_l; cbn [times nohaflag active noactive];
    eval_streq; cbn [Nat.add Nat.ltb Nat.leb]; by rewrite ?orb_true_r, ?orb_false_r.
Qed.

(** The loop accepts only known options. *)
Lemma parse_args_sound args o c nonopts o' c' :
  parse_args args o c nonopts = Some (o', c', O, false) → passive_opt_cnt c = O →
  (noha_opt_cnt c ≤ 1)%nat → (active_opt_cnt c ≤ 1)%nat →
  Forall known args ∧ nonopts = O ∧ o' = seen args o ∧ c' = counted args c
  ∧ (noha_opt_cnt c' ≤ 1)%nat ∧ (active_opt_cnt c' ≤ 1)%nat.
Proof.
  revert o c nonopts. induction args as [|arg args IH]; intros o c nonopts H Hp Hn Ha.
  { injection H as <- <- ->. unfold seen, counted. cbn. rewrite !orb_false_r, !Nat.add_0_r.
    destruct o, c. cbn in *. split_and!; done. }
  assert (Hskip : ∀ k, parse_args args o c (S k) = Some (o', c', O, false) → False).
  { intros k Hk. destruct (IH _ _ _ Hk Hp Hn Ha) as (_ & [=] & _). }
  destruct arg as [|a0 rest]; [by apply Hskip in H|]. cbn [parse_args] in H.
  destruct (streq (String a0 rest) "--"); [done|].
  destruct (eqc a0 "-") eqn:E0; [|by apply Hskip in H].
  destruct rest as [|a1 text]; [by apply Hskip in H|]. destruct (eqc a1 "-") eqn:E1; [|done].
  apply Ascii.eqb_eq in E0 as ->. apply Ascii.eqb_eq in E1 as ->.
  destruct (getopt_name text) as [name|] eqn:Hg; [|done].
  destruct (count_option name text c) as [c1|] eqn:Hc; [|done].
  destruct (option_exact _ _ _ _ Hg Hc) as [-> Hin].
  change (String "-" (String "-" text)) with (String.append "--" text).
  destruct (count_option_inv _ _ _ args Hin Hp Hc) as (-> & Hp1 & Hn1 & Ha1). rewrite seen_cons by done.
  destruct (IH _ _ _ H Hp1 (Hn1 Hn) (Ha1 Ha)) as (Hk & -> & Hrest). split; [|done].
  constructor; [|done]. unfold known, long_options in *.
  rewrite !elem_of_cons, elem_of_nil in *. destruct Hin as [->|[->|[->|[]]]]; auto.
Qed.

(** The loop accepts known options that are not repeated. *)
Lemma parse_args_complete args o c :
  Forall known args → passive_opt_cnt c = O →
  (noha_opt_cnt (counted args c) ≤ 1)%nat → (active_opt_cnt (counted args c) ≤ 1)%nat →
  parse_args args o c 0 = Some (seen args o, counted args c, O, false).
Proof.
  intros Hk. revert o c. induction Hk as [|arg args Harg _ IH]; intros o c Hp Hn Ha.
  { unfold seen, counted. cbn. rewrite !orb_false_r, !Nat.add_0_r. by destruct o, c. }
  assert (∃ text, arg = String.append "--" text ∧ text ∈ long_options) as (text & -> & Hin).
  { unfold known, long_options in *. rewrite !elem_of_cons, elem_of_nil in Harg.
    destruct Harg as [->|[->|[->|[]]]]; [exists "noha"%string|exists "active"%string|exists "noactive"%string];
      (split; [done|set_solver]). }
  destruct (count_option_run _ _ _ Hin Hp Hn Ha) as [c1 Hc1].
  destruct (count_option_inv _ _ _ args Hin Hp Hc1) as (Hcc & Hp1 & _ & _).
  rewrite Hcc in *. rewrite seen_cons by done. rewrite !append_cons, append_nil_l. cbn [parse_args].
  assert (Hne : streq (String "-" (String "-" text)) "--" = false).
  { destruct (streq _ _) eqn:He; [|done]. apply streq_spec in He as [= ->]. set_solver. }
  rewrite Hne, !eqc_refl, getopt_exact, Hc1 by done. by apply IH.
Qed.

(** The command line is accepted exactly when it consists of the options
    [--noha], [--active] and [--noactive] with the first two not repeated and
    [--active] only together with [--noha]; [--noactive] may be repeated, given
    together with [--active], and given without [--noha]. *)
Theorem parse_command_line_spec args o :
  parse_command_line args = Some o ↔
  Forall known args ∧ (times "--noha" args ≤ 1)%nat ∧ (times "--active" args ≤ 1)%nat
  ∧ (times "--active" args = 1%nat → times "--noha" args = 1%nat)
  ∧ o = mkOpts (0 <? times "--noha" args)%nat (0 <? times "--active" args)%nat
          (0 <? times "--noactive" args)%nat.
Proof.
  unfold parse_command_line. split.
  - destruct (parse_args _ _ _ _) as [[[[o1 c1] n] d]|] eqn:Hp; [|done].
    destruct ((noha_opt_cnt c1 =? 0)%nat && _) eqn:Hb; [done|]. destruct d; [done|].
    destruct n as [|n]; [|done]. intros [= ->].
    apply parse_args_sound in Hp as (Hk & _ & -> & -> & Hn & Ha); [|done|cbn; lia..].
    cbn in *. split_and!; try done. intros H1. rewrite H1 in Hb.
    destruct (Nat.eqb_spec (times "--noha" args) 0); [done|lia].
  - intros (Hk & Hn & Ha & Hna & ->). rewrite parse_args_complete by done.
    cbn [counted noha_opt_cnt active_opt_cnt passive_opt_cnt Nat.add].
    change (0 <? 0)%nat with false. cbn [orb].
    assert (((times "--noha" args =? 0) && (0 <? times "--active" args))%nat = false) as ->; [|done].
    destruct (Nat.eqb_spec (times "--noha" args) 0), (Nat.ltb_spec 0 (times "--active" args)); try done.
    specialize (Hna ltac:(lia)). lia.
Qed.
