(* ===== verification/Handshake.v ===== *)
(** * The role manager's thread and the callback that waits for it

    [HA_AGENT_RoleMgr::svc] and [Global::waitOntask] run in two threads and only share
    the flags [m_tasksDone] and [m_compRestart], which no lock protects.  Here the
    two run interleaved, one access to a flag per step. *)

From S2P Require Import Prelude CString Types World LogTrace Config Failover DrbdMon RoleMgr Adm.

Open Scope Z_scope.

Record Flags : Set := mkFlags { f_tasksDone : bool; f_compRestart : bool }.

(** Where [svc] is: before the result of its start-up; on the way out of a
    start-up that succeeded; and on the way through [compRestart] after one that
    failed, which writes [m_tasksDone] in [shutDown_all], then [m_compRestart],
    before [svc] itself writes [m_tasksDone]. *)
Inductive RmPc : Set :=
| RmStart
| RmOk | RmRunning
| RmFault | RmDown | RmRestart | RmFaultRunning.

(** Where [waitOntask] is: before the reads of its loop condition, asleep, before the
    reads after the loop, and returned. *)
Inductive WaitPc : Set :=
| WLoop | WLoop2 | WTick | WSleep | WCheck | WCheck2 | WRet (rCode : Z).

Record Shared : Set := mkShared {
  sh_flags : Flags;
  sh_rm : RmPc;
  sh_wait : WaitPc;
  sh_ticks : Z
}.

(** One step of the role manager. *)
Inductive rm_step : Shared → Shared → Prop :=
| rm_passes f w t :
    rm_step (mkShared f RmStart w t) (mkShared f RmOk w t)
| rm_fails f w t :
    rm_step (mkShared f RmStart w t) (mkShared f RmFault w t)
| rm_done d r w t :
    rm_step (mkShared (mkFlags d r) RmOk w t) (mkShared (mkFlags true r) RmRunning w t)
| rm_shutdown d r w t :
    rm_step (mkShared (mkFlags d r) RmFault w t) (mkShared (mkFlags false r) RmDown w t)
| rm_restart d r w t :
    rm_step (mkShared (mkFlags d r) RmDown w t) (mkShared (mkFlags d true) RmRestart w t)
| rm_done_fault d r w t :
    rm_step (mkShared (mkFlags d r) RmRestart w t) (mkShared (mkFlags true r) RmFaultRunning w t).

(** One step of the callback, with the limit of [waitOntask]. *)
Inductive wait_step (limit : Z) : Shared → Shared → Prop :=
| wait_tasks d r p t :
    wait_step limit (mkShared (mkFlags d r) p WLoop t)
      (mkShared (mkFlags d r) p (if d then WCheck else WLoop2) t)
| wait_restart d r p t :
    wait_step limit (mkShared (mkFlags d r) p WLoop2 t)
      (mkShared (mkFlags d r) p (if r then WCheck else WTick) t)
| wait_tick f p t :
    wait_step limit (mkShared f p WTick t)
      (mkShared f p (if t <=? limit then WSleep else WCheck) (u32 (t + 1)))
| wait_sleep f p t :
    wait_step limit (mkShared f p WSleep t) (mkShared f p WLoop t)
| wait_check d r p t :
    wait_step limit (mkShared (mkFlags d r) p WCheck t)
      (mkShared (mkFlags d r) p (if d then WCheck2 else WRet (-1)) t)
| wait_check2 d r p t :
    wait_step limit (mkShared (mkFlags d r) p WCheck2 t)
      (mkShared (mkFlags d r) p (WRet (if r then -1 else 0)) t).

Definition hs_step (limit : Z) (c c' : Shared) : Prop := rm_step c c' ∨ wait_step limit c c'.

(** Both flags are reset when the active part is created. *)
Definition hs_init : Shared := mkShared (mkFlags false false) RmStart WLoop 0.

(** The start-up of the role manager succeeded. *)
Definition rm_passed (p : RmPc) : bool :=
  match p with RmOk | RmRunning => true | _ => false end.

(** The invariant: a set [m_tasksDone] means success or a request to restart, the
    request stays once it is made, and what the callback has read is still true. *)
Definition hs_inv (c : Shared) : Prop :=
  let '(mkShared (mkFlags d r) p w t) := c in
  (d = true → rm_passed p = true ∨ r = true)
  ∧ (match p with RmRestart | RmFaultRunning => r = true | _ => True end)
  ∧ (match w with
     | WCheck2 => rm_passed p = true ∨ r = true
     | WRet z => z = 0 → rm_passed p = true
     | _ => True
     end).

Lemma hs_inv_step limit c c' : hs_inv c → hs_step limit c c' → hs_inv c'.
Proof.
  intros Hc [Hs|Hs]; destruct Hs; unfold hs_inv in *; repeat (case_match; simplify_eq); naive_solver.
Qed.

Lemma hs_inv_reachable limit c : rtc (hs_step limit) hs_init c → hs_inv c.
Proof.
  intros H. assert (Hi : hs_inv hs_init) by done. revert Hi.
  induction H as [c|c1 c2 c3 H12 _ IH]; [done|]. intros Hi. apply IH. by eapply hs_inv_step.
Qed.

(** C4: However the two threads interleave, the callback reports success only if the
    start-up of the role manager succeeded, although the role manager announces
    finished tasks after a failed start-up too. *)
Theorem handshake_sound limit c :
  rtc (hs_step limit) hs_init c → sh_wait c = WRet 0 → rm_passed (sh_rm c) = true.
Proof.
  intros H Hw. apply hs_inv_reachable in H. destruct c as [[d r] p w t]. simpl in *. subst w.
  naive_solver.
Qed.

(** The two writes of [compRestart] are those of the relation: when it returns, the
    shutdown has reset the one flag and the other is set. *)
Lemma compRestart_flags `{E : Env} fuel s s' :
  is_Some (m_rMgrObj (w_glob s)) → compRestart fuel s = (Val tt, s') →
  m_tasksDone (w_glob s') = false ∧ m_compRestart (w_glob s') = true.
Proof.
  intros [rm Hrm] H. unfold compRestart in H.
  apply bind_Val_inv in H as ([] & s1 & H1 & [= <-]). split; [|done]. cbn.
  unfold shutdown_if_any in H1. apply bind_Val_inv in H1 as (o & s2 & [= <- <-] & H1).
  cbn [compose] in H1. rewrite Hrm in H1.
  apply bind_Val_inv in H1 as (r & s3 & _ & H1). apply bind_Val_inv in H1 as ([] & s4 & _ & H1).
  apply bind_Val_inv in H1 as ([] & s5 & [= <-] & [= <-]). done.
Qed.

Lemma handshake_sound_witness :
  rtc (hs_step 90) hs_init (mkShared (mkFlags true false) RmRunning (WRet 0) 0)
  ∧ rm_passed RmRunning = true.
Proof.
  assert (H : rtc (hs_step 90) hs_init (mkShared (mkFlags true false) RmRunning (WRet 0) 0)).
  { eapply rtc_l; [left; apply rm_passes|]. eapply rtc_l; [left; apply rm_done|].
    eapply rtc_l; [right; apply wait_tasks|]. eapply rtc_l; [right; apply wait_check|].
    eapply rtc_l; [right; apply wait_check2|]. apply rtc_refl. }
  split; [exact H|]. exact (handshake_sound 90 _ H eq_refl).
Defined.
