(* ===== verification/ImmLib.v ===== *)
(** * The commands of the information model: the library and the values

    What the commands [immget] and [immset] share: the calls of the IMM library, which is
    the environment; the utilities ([ImmUtil]) that repeat them; and the conversion of
    attribute values to text and back. *)

From stdpp Require Import pretty.
From S2P Require Import Prelude CString.

Open Scope Z_scope.

(** ** The library *)

(** The result codes the commands tell apart. *)
Inductive SaAisErrorT : Set :=
| SA_AIS_OK
| SA_AIS_ERR_TIMEOUT
| SA_AIS_ERR_TRY_AGAIN
| SA_AIS_ERR_INVALID_PARAM
| SA_AIS_ERR_BUSY
| SA_AIS_ERR_NOT_EXIST
| SA_AIS_ERR_NOT_SUPPORTED
| SA_AIS_ERR (code : Z).

#[export] Instance SaAisErrorT_eq_dec : EqDecision SaAisErrorT.
Proof. solve_decision. Defined.

Definition is_ok (rc : SaAisErrorT) : bool := match rc with SA_AIS_OK => true | _ => false end.

Lemma is_ok_true rc : is_ok rc = true ↔ rc = SA_AIS_OK.
Proof. by destruct rc. Qed.

Lemma is_ok_false rc : is_ok rc = false ↔ rc ≠ SA_AIS_OK.
Proof. by destruct rc. Qed.

Inductive SaImmValueTypeT : Set :=
| SAINT32T | SAUINT32T | SAINT64T | SAUINT64T | SATIMET | SANAMET
| SAFLOATT | SADOUBLET | SASTRINGT | SAANYT.

#[export] Instance SaImmValueTypeT_eq_dec : EqDecision SaImmValueTypeT.
Proof. solve_decision. Defined.

(** Floating point numbers: what the streams print, what [printf] prints, and what [strtof]
    and [strtod] read. *)
Class Floats : Type := {
  float : Set;
  double : Set;
  print_float : float → string;
  print_double : double → string;
  printf_float : float → string;
  printf_double : double → string;
  read_float : string → option float;
  read_double : string → option double
}.

(** A name is an array of 256 bytes with a length of 16 bits. *)
Definition SA_MAX_NAME_LENGTH : nat := 256.
Record SaNameT : Set := mkName { n_length : Z; n_value : string }.

#[export] Instance SaNameT_eq_dec : EqDecision SaNameT.
Proof. solve_decision. Defined.

Definition name_of (s : string) : SaNameT :=
  mkName (u16 (Z.of_nat (String.length s))) (take SA_MAX_NAME_LENGTH s).

Section library.
Context `{FL : Floats}.

Inductive SaImmAttrValueT : Set :=
| VInt32 (z : Z) | VUint32 (z : Z) | VInt64 (z : Z) | VUint64 (z : Z) | VTime (z : Z)
| VName (n : SaNameT) | VFloat (f : float) | VDouble (d : double)
| VString (s : string) | VAny (buffer : list Z).

(** An attribute with its values. *)
Record SaImmAttrValuesT : Set := mkAttr {
  attrName : string;
  attrValueType : SaImmValueTypeT;
  attrValues : list SaImmAttrValueT
}.

Inductive ImmCall : Set :=
| OmInitialize
| OmFinalize
| AccessorInitialize
| AccessorFinalize
| AccessorGet (obj : SaNameT) (attr : string)
| ClassDescriptionGet (cls : string)
| AdminOwnerInitialize
| AdminOwnerSet (obj : SaNameT)
| AdminOwnerRelease (obj : SaNameT)
| AdminOwnerFinalize
| CcbInitialize
| CcbObjectModify (obj : SaNameT) (attr : string) (v : SaImmAttrValueT)
| CcbApply
| CcbFinalize
| Sleep.

(** The answers: a result code, with a handle, the attributes of an object or the
    definitions of a class. *)
Definition imm_resp (c : ImmCall) : Set :=
  match c with
  | OmInitialize | AccessorInitialize => SaAisErrorT * Z
  | AccessorGet _ _ => SaAisErrorT * list SaImmAttrValuesT
  | ClassDescriptionGet _ => SaAisErrorT * list (string * SaImmValueTypeT)
  | Sleep => unit
  | _ => SaAisErrorT
  end.

Inductive ImmEvent : Set := IEv (c : ImmCall) (r : imm_resp c).
End library.

Arguments ImmCall FL : clear implicits.
Arguments ImmEvent FL : clear implicits.
Arguments SaImmAttrValueT FL : clear implicits.
Arguments SaImmAttrValuesT FL : clear implicits.

Abbreviation ImmTrace FL := (list (ImmEvent FL)).

Class ImmEnv (FL : Floats) : Type := { imm_answer : ImmTrace FL → ∀ c : ImmCall FL, imm_resp c }.

(** A command: the calls it has made, the latest first, and its memory. *)
Record ImmProc {FL : Floats} (G : Type) : Type := mkImm { i_trace : ImmTrace FL; i_mem : G }.
Arguments mkImm {FL G} _ _.
Arguments i_trace {FL G} _.
Arguments i_mem {FL G} _.

(** ** Numbers in text *)

(** The digits of base [b] in front of a string: whether there is one, the value and what
    follows. *)
Fixpoint digits_rest (b : Z) (some : bool) (acc : Z) (s : string) : bool * Z * string :=
  match s with
  | String c r =>
      match digit_val c with
      | Some d => if d <? b then digits_rest b true (acc * b + d) r else (some, acc, s)
      | None => (some, acc, s)
      end
  | EmptyString => (some, acc, s)
  end.

(** The base that a prefix gives when it is left open, and what follows the prefix. *)
Definition base_of (s : string) : Z * string :=
  match s with
  | String a r =>
      if eqc a "0" then
        if streq (skip_0x s) s then (8, s) else (16, skip_0x s)
      else (10, s)
  | EmptyString => (10, s)
  end.

(** [strtol] and its relatives before the value is fitted: the sign, the magnitude and
    where the number ends, or [None] if there is none. *)
Definition strto (base : option Z) (s : string) : option (bool * Z * string) :=
  let '(neg, r) := sign (skip_space s) in
  let '(b, r) := match base with Some b => (b, r) | None => base_of r end in
  match digits_rest b false 0 r with
  | (true, v, rest) => Some (neg, v, rest)
  | (false, _, _) => None
  end.

(** [strtol] or [strtoll] of base 0 with the checks that follow it: the number has to be
    there, in range and all of the text. *)
Definition strtol0 (s : string) : option Z :=
  '(neg, v, rest) ← strto None s;
  let z := if (neg : bool) then - v else v in
  if (- 2 ^ 63 <=? z) && (z <? 2 ^ 63) && streq rest EmptyString then Some z else None.

(** [strtoul] and [strtoull]: the magnitude has to be in range, a minus sign negates it
    modulo [2^64]. *)
Definition strtoul0 (s : string) : option Z :=
  '(neg, v, rest) ← strto None s;
  if (v <? 2 ^ 64) && streq rest EmptyString then Some (if (neg : bool) then u64 (- v) else v) else None.

(** [isInteger]. *)
Definition isInteger (s : string) : bool :=
  match s with
  | EmptyString => false
  | String c _ =>
      if is_digit c || eqc c "-" || eqc c "+" then
        match strto (Some 10) s with
        | Some (_, _, rest) => streq rest EmptyString
        | None => false
        end
      else false
  end.

(** ** Values in text *)

Section values.
Context `{FL : Floats}.

Definition value_type (v : SaImmAttrValueT FL) : SaImmValueTypeT :=
  match v with
  | VInt32 _ => SAINT32T | VUint32 _ => SAUINT32T | VInt64 _ => SAINT64T | VUint64 _ => SAUINT64T
  | VTime _ => SATIMET | VName _ => SANAMET | VFloat _ => SAFLOATT | VDouble _ => SADOUBLET
  | VString _ => SASTRINGT | VAny _ => SAANYT
  end.

(** [getAttrValue]: the text of a value; a buffer has none. *)
Definition getAttrValue (v : SaImmAttrValueT FL) : option string :=
  match v with
  | VInt32 z | VUint32 z | VInt64 z | VUint64 z | VTime z => Some (pretty z)
  | VFloat f => Some (print_float f)
  | VDouble d => Some (print_double d)
  | VName n => Some (c_str (n_value n))
  | VString s => Some s
  | VAny _ => None
  end.

(** A byte of a buffer, which [strtod] reads from two characters after [0x]. *)
Definition hex_val (c : ascii) : option Z :=
  match digit_val c with Some d => if d <? 16 then Some d else None | None => None end.
Definition any_byte (a b : ascii) : Z :=
  match hex_val a, hex_val b with
  | Some x, Some y => x * 16 + y
  | Some x, None => x
  | None, _ => 0
  end.
Fixpoint any_bytes (s : string) : list Z :=
  match s with
  | EmptyString => []
  | String a EmptyString => [any_byte a "0"]
  | String a (String b r) => any_byte a b :: any_bytes r
  end.

(** [setImmAttrValue]: [None] is the null pointer. *)
Definition setImmAttrValue (ty : SaImmValueTypeT) (str : string) : option (SaImmAttrValueT FL) :=
  match ty with
  | SAINT32T =>
      value ← strtol0 str; if negb (value =? i32 value) then None else Some (VInt32 value)
  | SAUINT32T =>
      value ← strtoul0 str; if negb (value =? u32 value) then None else Some (VUint32 value)
  | SAINT64T => VInt64 <$> strtol0 str
  | SATIMET => VTime <$> strtol0 str
  | SAUINT64T => VUint64 <$> strtoul0 str
  | SAFLOATT => VFloat <$> read_float str
  | SADOUBLET => VDouble <$> read_double str
  | SANAMET =>
      if (SA_MAX_NAME_LENGTH <? String.length str)%nat then None else Some (VName (name_of str))
  | SASTRINGT => Some (VString str)
  | SAANYT => Some (VAny (any_bytes str))
  end.

(** The values that survive the way to text and back: numbers in range and texts. *)
Definition kept (v : SaImmAttrValueT FL) : Prop :=
  match v with
  | VInt32 z => - 2 ^ 31 ≤ z < 2 ^ 31
  | VUint32 z => 0 ≤ z < 2 ^ 32
  | VInt64 z | VTime z => - 2 ^ 63 ≤ z < 2 ^ 63
  | VUint64 z => 0 ≤ z < 2 ^ 64
  | VName n => all_chars (no NUL) (n_value n) = true ∧ n = name_of (n_value n)
  | VFloat f => read_float (print_float f) = Some f
  | VDouble d => read_double (print_double d) = Some d
  | VString s => True
  | VAny _ => False
  end.
End values.

(** ** [ImmUtil] *)

Definition IMM_MAX_RETRY : nat := 60.

Section util.
Context `{FL : Floats} `{E : !ImmEnv FL} {G : Type}.

Abbreviation MI := (M (ImmProc (FL := FL) G)).

Definition imm (c : ImmCall FL) : MI (imm_resp c) := λ s,
  let r := imm_answer (i_trace s) c in (Val r, mkImm (IEv c r :: i_trace s) (i_mem s)).

Definition imem {A} (f : G → A) : MI A := gets (f ∘ i_mem).
Definition iupd (f : G → G) : MI unit := modify (λ s, mkImm (i_trace s) (f (i_mem s))).

(** The loop that repeats a call while it asks to be tried again; the pause comes after
    the call in most of them. *)
Fixpoint try_again {A} (n : nat) (code : A → SaAisErrorT) (again : MI A) (r : A) : MI A :=
  match n with
  | O => mret r
  | S n =>
      if bool_decide (code r = SA_AIS_ERR_TRY_AGAIN) then
        r ← again; try_again n code again r
      else mret r
  end.

Definition then_sleep {A} (m : MI A) : MI A := r ← m; imm Sleep;; mret r.

Definition retried {A} (code : A → SaAisErrorT) (m : MI A) : MI A :=
  r ← m; try_again (IMM_MAX_RETRY - 1) code (then_sleep m) r.

Definition initImmOm : MI (SaAisErrorT * Z) := retried fst (imm OmInitialize).
Definition initImmOmAccessor : MI (SaAisErrorT * Z) := retried fst (imm AccessorInitialize).
Definition finalizeImmOmAccessor (h : Z) : MI SaAisErrorT :=
  if negb (h =? 0) then retried id (imm AccessorFinalize) else mret SA_AIS_OK.
Definition finalizeImmOm (h : Z) : MI SaAisErrorT :=
  if negb (h =? 0) then retried id (imm OmFinalize) else mret SA_AIS_OK.

(** [immGetClassName]: the first value of the attribute, which has to be there. *)
Definition immGetClassName (objectName : SaNameT) : MI (SaAisErrorT * string) :=
  '(rc, attributes) ←
    (r ← imm (AccessorGet objectName "SaImmAttrClassName");
     try_again (IMM_MAX_RETRY - 1) fst
       (imm Sleep;; imm (AccessorGet objectName "SaImmAttrClassName")) r);
  if is_ok rc then
    match attributes with
    | mkAttr _ _ (VString cls :: _) :: _ => mret (rc, cls)
    | _ => undef
    end
  else mret (rc, EmptyString).

(** The loops that repeat a call: while it is told to try again, and after a timeout.
    [n] is what is left of the limit. *)
Fixpoint while_busy (n : nat) (m : MI SaAisErrorT) (rc : SaAisErrorT) : MI SaAisErrorT :=
  match n with
  | O => mret rc
  | S n =>
      if bool_decide (rc = SA_AIS_ERR_TRY_AGAIN ∨ rc = SA_AIS_ERR_BUSY) then
        imm Sleep;; rc ← m; while_busy n m rc
      else mret rc
  end.

Fixpoint while_timeout (n : nat) (m : MI SaAisErrorT) (rc : SaAisErrorT) : MI SaAisErrorT :=
  match n with
  | O => mret rc
  | S n =>
      if bool_decide (rc = SA_AIS_ERR_TIMEOUT) then
        imm Sleep;; rc ← m; while_timeout n m rc
      else mret rc
  end.

Definition repeated (timeoutVal maxRetry : Z) (m : MI SaAisErrorT) : MI SaAisErrorT :=
  rc ← m;
  rc ← while_busy (Z.to_nat (timeoutVal - 1)) m rc;
  while_timeout (Z.to_nat (maxRetry - 1)) m rc.

(** A result that is none of these ends the loops at once. *)
Definition conclusive (rc : SaAisErrorT) : bool :=
  match rc with SA_AIS_ERR_TRY_AGAIN | SA_AIS_ERR_BUSY | SA_AIS_ERR_TIMEOUT => false | _ => true end.

Lemma repeated_once t n (m : MI SaAisErrorT) s rc s' :
  m s = (Val rc, s') → conclusive rc = true → repeated t n m s = (Val rc, s').
Proof.
  intros H Hc. unfold repeated. erewrite bind_Val by exact H.
  assert (Hb : while_busy (Z.to_nat (t - 1)) m rc s' = (Val rc, s')).
  { destruct (Z.to_nat (t - 1)); cbn; [done|]. rewrite bool_decide_false; [done|].
    by intros [-> | ->]. }
  erewrite bind_Val by exact Hb. destruct (Z.to_nat (n - 1)); cbn; [done|].
  rewrite bool_decide_false; [done|]. by intros ->.
Qed.
End util.
