(* ===== verification/ImmValues.v ===== *)
(** * Attribute values in text

    What [setImmAttrValue] makes of a text fits the type of the attribute, whatever the
    text is; and the text that [getAttrValue] prints is read back as the same value. *)

From stdpp Require Import pretty.
From S2P Require Import Prelude CString ImmLib.

Open Scope Z_scope.

(** ** Digits *)

Lemma digits_rest_all b some acc s :
  all_chars (λ c, match digit_val c with Some d => d <? b | None => false end) s = true →
  digits_rest b some acc s = (some || negb (streq s EmptyString), digits b acc s, EmptyString).
Proof.
  revert some acc; induction s as [|c s IH]; intros some acc H; [by destruct some|].
  simpl in H. apply andb_true_iff in H as [Hc Hs]. cbn [digits_rest digits].
  destruct (digit_val c) as [d|]; [|done]. rewrite Hc, IH by done.
  f_equal. f_equal. by destruct some.
Qed.

Lemma digits_rest_nonneg b s some acc :
  0 ≤ b → 0 ≤ acc → 0 ≤ (digits_rest b some acc s).1.2.
Proof.
  intros Hb. revert some acc. induction s as [|c s IH]; intros some acc Ha; [done|].
  cbn [digits_rest]. destruct (digit_val c) as [d|] eqn:Hd; [|done].
  destruct (d <? b); [|done]. apply IH.
  assert (0 ≤ d) by (unfold digit_val in Hd; repeat case_match; simplify_eq; lia). nia.
Qed.

Lemma base_of_pos s : 0 ≤ (base_of s).1.
Proof. destruct s as [|a s]; [done|]. unfold base_of. repeat case_match; done. Qed.

Lemma strto_nonneg s neg v rest : strto None s = Some (neg, v, rest) → 0 ≤ v.
Proof.
  unfold strto. destruct (sign (skip_space s)) as [n r]. pose proof (base_of_pos r) as Hb.
  destruct (base_of r) as [b r']. pose proof (digits_rest_nonneg b r' false 0 Hb ltac:(done)) as Hd.
  destruct (digits_rest b false 0 r') as [[[] v'] rest']; [|done]. by intros [= <- <- <-].
Qed.

(** ** Printed numbers *)

(** A positive number does not begin with a zero, which would be read as a prefix. *)
Lemma pretty_go_head x s :
  (0 < x)%N → ∃ d r, (0 < d < 10)%N ∧ pretty_N_go x s = String (pretty_N_char d) r.
Proof.
  revert s. induction (N.lt_wf_0 x) as [x _ IH]. intros s Hx.
  pose proof (N.div_mod x 10 ltac:(lia)) as Hdm. pose proof (N.mod_lt x 10 ltac:(lia)) as Hm.
  rewrite pretty_N_go_step by done.
  destruct (decide (x `div` 10 = 0)%N) as [E|E].
  - rewrite E, pretty_N_go_0. exists (x `mod` 10)%N, s. split; [lia|done].
  - apply IH; [apply N.div_lt; lia|lia].
Qed.

Lemma digit_char_nonzero d : (0 < d < 10)%N → eqc (pretty_N_char d) "0" = false.
Proof.
  intros [H0 H]. destruct d as [|p]; [done|].
  do 4 (destruct p as [p|p|]; try done).
Qed.

Lemma base_of_dec z : 0 < z → base_of (dec z) = (10, dec z).
Proof.
  intros Hz. unfold dec, pretty, pretty_N. case_decide; [lia|].
  destruct (pretty_go_head (Z.to_N z) "" ltac:(lia)) as (d & r & Hd & ->).
  unfold base_of. by rewrite digit_char_nonzero.
Qed.

Lemma digits_rest_dec z : 0 ≤ z → digits_rest 10 false 0 (dec z) = (true, z, EmptyString).
Proof.
  intros Hz. rewrite digits_rest_all by apply dec_digits. rewrite digits_dec by done.
  destruct (dec_head z) as (c & s & -> & _). done.
Qed.

(** The magnitude, after the sign, with the base open or ten. *)
Definition decimal_base (base : option Z) : Prop := base = None ∨ base = Some 10.

Lemma open_base_dec base z :
  decimal_base base → 0 ≤ z →
  (let '(b, r) := match base with Some b => (b, dec z) | None => base_of (dec z) end in
   digits_rest b false 0 r) = (true, z, EmptyString).
Proof.
  intros [->| ->] Hz; [|by apply digits_rest_dec]. destruct (decide (z = 0)) as [->|]; [done|].
  rewrite base_of_dec by lia. by apply digits_rest_dec.
Qed.

Lemma strto_pretty_base base z :
  decimal_base base → strto base (pretty z) = Some (z <? 0, Z.abs z, EmptyString).
Proof.
  intros Hb. unfold strto. destruct (Z.ltb_spec z 0) as [Hz|Hz].
  - rewrite pretty_neg by done. cbn [skip_space sign]. change (isspace "-") with false.
    cbn [sign]. change (eqc "-" "-") with true. cbn iota beta.
    pose proof (open_base_dec base (- z) Hb ltac:(lia)) as H.
    destruct (match base with Some _ => _ | None => _ end) as [b r]. rewrite H.
    do 3 f_equal. lia.
  - rewrite pretty_nonneg by done. destruct (dec_unsigned z EmptyString) as [H1 H2].
    rewrite append_nil_r in H1, H2. rewrite H1, H2.
    pose proof (open_base_dec base z Hb Hz) as H.
    destruct (match base with Some _ => _ | None => _ end) as [b r]. rewrite H.
    do 3 f_equal. lia.
Qed.

Lemma strto_pretty z : strto None (pretty z) = Some (z <? 0, Z.abs z, EmptyString).
Proof. apply strto_pretty_base. by left. Qed.

Lemma strtol0_pretty z : - 2 ^ 63 ≤ z < 2 ^ 63 → strtol0 (pretty z) = Some z.
Proof.
  intros Hz. unfold strtol0. rewrite strto_pretty. cbn [mbind option_bind].
  assert ((if z <? 0 then - Z.abs z else Z.abs z) = z) as -> by (destruct (Z.ltb_spec z 0); lia).
  destruct (Z.leb_spec (- 2 ^ 63) z), (Z.ltb_spec z (2 ^ 63)); try lia. done.
Qed.

Lemma strtol0_pretty_inv z z' : strtol0 (pretty z) = Some z' → z' = z ∧ - 2 ^ 63 ≤ z < 2 ^ 63.
Proof.
  unfold strtol0. rewrite strto_pretty. cbn [mbind option_bind]. destruct (_ && _) eqn:H; [|done].
  intros [= <-]. rewrite !andb_true_iff, Z.leb_le, Z.ltb_lt in H.
  destruct (Z.ltb_spec z 0); lia.
Qed.

Lemma strtoul0_pretty z : 0 ≤ z < 2 ^ 64 → strtoul0 (pretty z) = Some z.
Proof.
  intros Hz. unfold strtoul0. rewrite strto_pretty. cbn [mbind option_bind].
  destruct (Z.ltb_spec z 0); [lia|]. destruct (Z.ltb_spec (Z.abs z) (2 ^ 64)); [|lia].
  cbn. f_equal. lia.
Qed.

(** ** Values *)

Section values.
Context `{FL : Floats}.

(** The values a type has: numbers of its width, names that fit the array, bytes. *)
Definition in_range (v : SaImmAttrValueT FL) : Prop :=
  match v with
  | VInt32 z => - 2 ^ 31 ≤ z < 2 ^ 31
  | VUint32 z => 0 ≤ z < 2 ^ 32
  | VInt64 z | VTime z => - 2 ^ 63 ≤ z < 2 ^ 63
  | VUint64 z => 0 ≤ z < 2 ^ 64
  | VName n => n_length n = Z.of_nat (String.length (n_value n)) ∧ n_length n ≤ 256
  | VAny bytes => Forall (λ b, 0 ≤ b < 256) bytes
  | _ => True
  end.

Definition fits (ty : SaImmValueTypeT) (v : SaImmAttrValueT FL) : Prop :=
  value_type v = ty ∧ in_range v.

Lemma strtol0_range s z : strtol0 s = Some z → - 2 ^ 63 ≤ z < 2 ^ 63.
Proof.
  unfold strtol0. destruct (strto None s) as [[[neg v] rest]|]; [|done]. cbn [mbind option_bind].
  destruct (_ && _) eqn:H; [|done]. intros [= <-].
  rewrite !andb_true_iff, Z.leb_le, Z.ltb_lt in H. lia.
Qed.

Lemma strtoul0_range s z : strtoul0 s = Some z → 0 ≤ z < 2 ^ 64.
Proof.
  unfold strtoul0. destruct (strto None s) as [[[neg v] rest]|] eqn:Hs; [|done].
  apply strto_nonneg in Hs. cbn [mbind option_bind]. destruct (_ && _) eqn:H; [|done]. intros [= <-].
  rewrite andb_true_iff, Z.ltb_lt in H. destruct neg; [apply Z.mod_pos_bound|]; lia.
Qed.

Lemma i32_id_range z : z = i32 z → - 2 ^ 31 ≤ z < 2 ^ 31.
Proof. unfold i32. pose proof (Z.mod_pos_bound (z + 2 ^ 31) (2 ^ 32)). lia. Qed.

Lemma hex_val_range c d : hex_val c = Some d → 0 ≤ d < 16.
Proof.
  unfold hex_val, digit_val. intros H. repeat case_match; simplify_eq; lia.
Qed.

Lemma any_byte_range a b : 0 ≤ any_byte a b < 256.
Proof.
  unfold any_byte. destruct (hex_val a) eqn:Ha; [|lia]. apply hex_val_range in Ha.
  destruct (hex_val b) eqn:Hb; [apply hex_val_range in Hb|]; lia.
Qed.

Lemma any_bytes_range s : Forall (λ b, 0 ≤ b < 256) (any_bytes s).
Proof.
  enough (H : ∀ n s, (String.length s ≤ n)%nat → Forall (λ b, 0 ≤ b < 256) (any_bytes s)) by eauto.
  clear s. intros n. induction n as [|n IH]; intros [|a [|b r]] Hl; cbn in *; try lia;
    repeat constructor; try apply any_byte_range. apply IH. lia.
Qed.

Lemma name_of_range s :
  (String.length s ≤ SA_MAX_NAME_LENGTH)%nat → in_range (VName (name_of s)).
Proof.
  intros Hs. unfold name_of, in_range. cbn [n_length n_value]. rewrite take_all by done.
  unfold SA_MAX_NAME_LENGTH in Hs. unfold u16. rewrite Z.mod_small; lia.
Qed.

(** Whatever the text of a value is, [setImmAttrValue] returns the null pointer or a
    value that fits the type asked for: of this type, a number of its width, a name that
    its array holds, a buffer of bytes. *)
Lemma set_value_fits ty str v : setImmAttrValue ty str = Some v → fits ty v.
Proof.
  unfold fits. destruct ty; cbn [setImmAttrValue]; intros H.
  - destruct (strtol0 str) as [z|]; [|done]. cbn in H.
    destruct (Z.eqb_spec z (i32 z)) as [Hz|]; [|done]. injection H as <-. split; [done|]. by apply i32_id_range.
  - destruct (strtoul0 str) as [z|]; [|done]. cbn in H.
    destruct (Z.eqb_spec z (u32 z)) as [Hz|]; [|done]. injection H as <-. split; [done|]. rewrite Hz. apply u32_range.
  - destruct (strtol0 str) as [z|] eqn:Hz; simplify_eq/=. by apply strtol0_range in Hz.
  - destruct (strtoul0 str) as [z|] eqn:Hz; simplify_eq/=. by apply strtoul0_range in Hz.
  - destruct (strtol0 str) as [z|] eqn:Hz; simplify_eq/=. by apply strtol0_range in Hz.
  - destruct (Nat.ltb_spec SA_MAX_NAME_LENGTH (String.length str)); [done|]. simplify_eq/=.
    split; [done|]. by apply name_of_range.
  - destruct (read_float str); by simplify_eq/=.
  - destruct (read_double str); by simplify_eq/=.
  - by simplify_eq/=.
  - simplify_eq/=. split; [done|]. apply any_bytes_range.
Qed.

Lemma value_text v txt :
  kept v → getAttrValue v = Some txt → setImmAttrValue (value_type v) txt = Some v.
Proof.
  destruct v as [z|z|z|z|z|n|f|d|s|b]; cbn [kept getAttrValue value_type setImmAttrValue];
    intros Hk; intros [= <-].
  - rewrite strtol0_pretty by lia. cbn. by rewrite i32_small, Z.eqb_refl.
  - rewrite strtoul0_pretty by lia. cbn. by rewrite u32_small, Z.eqb_refl.
  - by rewrite strtol0_pretty.
  - by rewrite strtoul0_pretty.
  - by rewrite strtol0_pretty.
  - destruct Hk as [Hnul Hn]. rewrite c_str_id by done. rewrite <- Hn.
    destruct (Nat.ltb_spec SA_MAX_NAME_LENGTH (String.length (n_value n))) as [H|]; [|done].
    exfalso. rewrite Hn in H. unfold name_of in H. cbn [n_value] in H.
    pose proof (length_take SA_MAX_NAME_LENGTH (n_value n)). lia.
  - by rewrite Hk.
  - by rewrite Hk.
  - done.
Qed.

Lemma c_str_no_nul s : all_chars (no NUL) (c_str s) = true.
Proof.
  induction s as [|c s IH]; [done|]. cbn [c_str]. destruct (eqc c NUL) eqn:H; [done|].
  cbn. unfold no at 1. by rewrite H, IH.
Qed.

Lemma take_no_nul n s : all_chars (no NUL) s = true → all_chars (no NUL) (take n s) = true.
Proof.
  revert n. induction s as [|c s IH]; intros [|n] H; try done. cbn in *.
  apply andb_true_iff in H as [-> H]. by rewrite IH.
Qed.

(** The values that survive the way [immset] keeps them - [getAttrValue] prints the old
    value, [setImmAttrValue] reads it back - are exactly these: the numbers in the range of
    their type, negative ones and the limits included; the strings; the names without a NUL
    byte whose length is that of their text; the floating point numbers whose printed text
    is read as the same number; and no buffers. *)
Lemma value_survives v :
  kept v ↔ ∃ txt, getAttrValue v = Some txt ∧ setImmAttrValue (value_type v) txt = Some v.
Proof.
  split.
  - intros Hk. destruct (getAttrValue v) as [txt|] eqn:Ht; [|by destruct v].
    exists txt. split; [done|]. by apply value_text.
  - intros (txt & Ht & Hs). pose proof (set_value_fits _ _ _ Hs) as [_ Hr].
    destruct v as [z|z|z|z|z|n|f|d|s|b]; try done; cbn [getAttrValue] in Ht; injection Ht as <-;
      cbn [value_type setImmAttrValue] in Hs; cbn [kept].
    + case_match; [done|]. injection Hs as Hn. rewrite <- Hn. split.
      * apply take_no_nul, c_str_no_nul.
      * f_equal. symmetry. by apply take_all, Nat.ltb_ge.
    + by destruct (read_float _); simplify_eq/=.
    + by destruct (read_double _); simplify_eq/=.
Qed.
End values.
