(* ===== verification/ImmSet.v ===== *)
(** * The command immset

    [immset] sets attributes of objects of the information model.  Before it sets an
    attribute it reads the value it has, and if something fails it sets the attributes back
    to what was read.  The vectors of the program are the memory of the process. *)

From S2P Require Import Prelude CString ImmLib.

Open Scope Z_scope.

Definition MAX_BUFF : nat := 1024.

Record SetT : Set := mkSet {
  m_immHandle : Z;
  m_accessorHandle : Z;
  m_immInitDone : bool;
  objNameVect : list string;
  attrNameVect : list string;
  attrValVect : list string;
  m_attrName : string;
  m_attrValue : string
}.

Definition newSet : SetT := mkSet 0 0 false [] [] [] EmptyString EmptyString.

Definition set_immHandle (x : Z) (m : SetT) : SetT :=
  mkSet x (m_accessorHandle m) (m_immInitDone m) (objNameVect m) (attrNameVect m) (attrValVect m)
    (m_attrName m) (m_attrValue m).
Definition set_accessorHandle (x : Z) (m : SetT) : SetT :=
  mkSet (m_immHandle m) x (m_immInitDone m) (objNameVect m) (attrNameVect m) (attrValVect m)
    (m_attrName m) (m_attrValue m).
Definition set_immInitDone (x : bool) (m : SetT) : SetT :=
  mkSet (m_immHandle m) (m_accessorHandle m) x (objNameVect m) (attrNameVect m) (attrValVect m)
    (m_attrName m) (m_attrValue m).
Definition push_obj (x : string) (m : SetT) : SetT :=
  mkSet (m_immHandle m) (m_accessorHandle m) (m_immInitDone m) (objNameVect m ++ [x])
    (attrNameVect m) (attrValVect m) (m_attrName m) (m_attrValue m).
Definition push_attr (x : string) (m : SetT) : SetT :=
  mkSet (m_immHandle m) (m_accessorHandle m) (m_immInitDone m) (objNameVect m)
    (attrNameVect m ++ [x]) (attrValVect m) x (m_attrValue m).
Definition push_vals (xs : list string) (m : SetT) : SetT :=
  mkSet (m_immHandle m) (m_accessorHandle m) (m_immInitDone m) (objNameVect m)
    (attrNameVect m) (attrValVect m ++ xs) (m_attrName m) (m_attrValue m).
Definition set_attrValue (x : string) (m : SetT) : SetT :=
  mkSet (m_immHandle m) (m_accessorHandle m) (m_immInitDone m) (objNameVect m)
    (attrNameVect m) (attrValVect m) (m_attrName m) x.

(** ** Arguments *)

(** The tokens [strtok] finds between the characters [d]. *)
Fixpoint tokens (d : ascii) (inside : bool) (s : string) : nat :=
  match s with
  | EmptyString => 0
  | String c r =>
      if eqc c d then tokens d false r
      else if inside then tokens d true r else S (tokens d true r)
  end.

(** [find_last_of]: what precedes the last [c] and what follows it. *)
Fixpoint split_last (c : ascii) (s : string) : option (string * string) :=
  match s with
  | EmptyString => None
  | String a r =>
      match split_last c r with
      | Some (p, q) => Some (String a p, q)
      | None => if eqc a c then Some (EmptyString, r) else None
      end
  end.

(** An option with a value: whether it counts the retries. *)
Definition set_option (arg : string) : option bool :=
  if streq arg "-r" || streq arg "--retry" then Some true
  else if streq arg "-t" || streq arg "--timeout" then Some false
  else None.

Section immset.
Context `{FL : Floats} `{E : !ImmEnv FL}.

Abbreviation MI := (M (ImmProc (FL := FL) SetT)).

(** [isValidArgument]: an argument that fills the buffer has no end there, and one without
    an equals sign prints a null pointer. *)
Definition isValidArgument (arg : string) : MI bool :=
  if (MAX_BUFF <=? String.length arg)%nat then undef
  else if strstr arg "==" then mret false
  else
    match strchr arg "=" with
    | None => undef
    | Some (_, attrStr) =>
        if negb (strstr attrStr "=") then mret false
        else mret (negb (2 <? tokens ":" false arg)%nat)
    end.

(** [getAttrAndDN]: object, attribute and value, where they are found; the vectors get what
    was found so far. *)
Definition getAttrAndDN (arg : string) : MI (option string) :=
  match split_last ":" arg with
  | None => mret None
  | Some (attr, objName) =>
      iupd (push_obj objName);;
      match split_last "=" attr with
      | None => mret None
      | Some (name, value) =>
          iupd (set_attrValue value ∘ push_attr name);;
          mret (Some objName)
      end
  end.

(** ** The object *)

Definition initImm : MI SaAisErrorT :=
  '(error, h) ← initImmOm;
  iupd (set_immHandle h);;
  error ← (if is_ok error then
             '(error, a) ← initImmOmAccessor;
             iupd (set_accessorHandle a);;
             (if is_ok error then mret tt
              else _ ← finalizeImmOm h; mret tt);;
             mret error
           else mret error);
  iupd (set_immInitDone true);;
  mret error.

Definition finalizeImm : MI unit :=
  a ← imem m_accessorHandle;
  (if negb (a =? 0) then
     _ ← finalizeImmOmAccessor a; iupd (set_accessorHandle 0)
   else mret tt);;
  h ← imem m_immHandle;
  (if negb (h =? 0) then
     _ ← finalizeImmOm h; iupd (set_immHandle 0)
   else mret tt);;
  iupd (set_immInitDone false).

(** What an attribute leaves in [attrValVect]. *)
Definition attr_texts (a : SaImmAttrValuesT FL) : list string :=
  match attrValues a with
  | [] => ["<Empty>"%string]
  | vs => omap getAttrValue vs
  end.

Definition getAttributes (objectName attributeName : string) : MI SaAisErrorT :=
  '(saRet, attributes) ← imm (AccessorGet (name_of objectName) attributeName);
  if negb (is_ok saRet) then mret saRet else
  iupd (push_vals (filter (λ a, attrName a = attributeName) attributes ≫= attr_texts));;
  mret saRet.

(** [immGetAttrValueType], which [getAttrType] calls. *)
Definition immGetAttrValueType (className attr : string) : MI (SaAisErrorT * SaImmValueTypeT) :=
  '(rc, defs) ← imm (ClassDescriptionGet className);
  if negb (is_ok rc) then mret (rc, SAANYT) else
  match List.find (λ d, streq attr d.1) defs with
  | Some (_, ty) => mret (SA_AIS_OK, ty)
  | None => mret (SA_AIS_ERR_INVALID_PARAM, SAANYT)
  end.

(** The clean-up after a failure. *)
Definition release_owner (obj : SaNameT) : MI unit :=
  _ ← imm (AdminOwnerRelease obj); _ ← imm AdminOwnerFinalize; mret tt.

(** The three calls that change the object, each followed by the clean-up if it fails. *)
Definition apply_change (obj : SaNameT) (attr : string) (v : SaImmAttrValueT FL) : MI SaAisErrorT :=
  saRet ← imm (CcbObjectModify obj attr v);
  if negb (is_ok saRet) then release_owner obj;; mret saRet else
  saRet ← imm CcbApply;
  if negb (is_ok saRet) then release_owner obj;; mret saRet else
  saRet ← imm CcbFinalize;
  if negb (is_ok saRet) then release_owner obj;; mret saRet else
  mret saRet.

(** [modifyImmObject]. *)
Definition modifyImmObject (objectName attributeName attributeValue : string) : MI SaAisErrorT :=
  let objName := name_of objectName in
  '(saRet, clsName) ← immGetClassName objName;
  if negb (is_ok saRet) then mret saRet else
  '(saRet, attrValType) ← immGetAttrValueType clsName attributeName;
  if negb (is_ok saRet) then mret saRet else
  saRet ← imm AdminOwnerInitialize;
  if negb (is_ok saRet) then mret saRet else
  saRet ← imm (AdminOwnerSet objName);
  if negb (is_ok saRet) then
    _ ← imm AdminOwnerFinalize; mret saRet
  else
  saRet ← imm CcbInitialize;
  if negb (is_ok saRet) then release_owner objName;; mret saRet else
  match setImmAttrValue attrValType attributeValue with
  | None => mret SA_AIS_ERR_NOT_SUPPORTED
  | Some v => apply_change objName attributeName v
  end.

(** ** The program *)

(** How the loop over the arguments ends. *)
Inductive SetEnd : Set := AllSet | RollBack | BadUsage.

Fixpoint set_loop (timeoutVal maxRetry : Z) (inputs : list string) : MI SetEnd :=
  match inputs with
  | [] => mret AllSet
  | arg :: inputs =>
      found ← getAttrAndDN arg;
      match found with
      | None => mret BadUsage
      | Some objName =>
          attr ← imem m_attrName;
          value ← imem m_attrValue;
          rc ← repeated timeoutVal maxRetry (getAttributes objName attr);
          if negb (is_ok rc) then finalizeImm;; mret RollBack else
          rc ← repeated timeoutVal maxRetry (modifyImmObject objName attr value);
          if negb (is_ok rc) then finalizeImm;; mret RollBack else
          set_loop timeoutVal maxRetry inputs
      end
  end.

(** The loop that sets the values back, from the index [i] on; reading past the end of a
    vector is undefined. *)
Fixpoint back_loop (n : nat) (i : nat) : MI bool :=
  match n with
  | O => mret true
  | S n =>
      obj ← imem (λ m, objNameVect m !! i);
      attr ← imem (λ m, attrNameVect m !! i);
      val ← imem (λ m, attrValVect m !! i);
      obj ← deref obj;
      attr ← deref attr;
      val ← deref val;
      rc ← modifyImmObject obj attr val;
      if negb (is_ok rc) then finalizeImm;; mret false else
      back_loop n (S i)
  end.

Definition roll_back : MI Z :=
  vals ← imem attrValVect;
  if bool_decide (vals = []) then mret (-1)
  else if bool_decide ("<Empty>"%string ∈ vals) then mret (-1)
  else
    rc ← initImm;
    if negb (is_ok rc) then mret (-1) else
    n ← imem (λ m, length (objNameVect m));
    ok ← back_loop n 0;
    if negb ok then mret (-1) else
    finalizeImm;; mret 0.

(** The loop over the arguments: the inputs, the limits, and whether options were given;
    [None] for wrong usage. *)
Record SetArgs : Set := mkArgs { sa_inputs : list string; sa_retry : Z; sa_timeout : Z; sa_options : bool }.

Fixpoint arg_loop (args : list string) (a : SetArgs) : MI (option SetArgs) :=
  match args with
  | [] => mret (Some a)
  | arg :: rest =>
      match set_option arg with
      | Some isRetry =>
          match rest with
          | value :: rest =>
              if isInteger value then
                arg_loop rest (if (isRetry : bool) then mkArgs (sa_inputs a) (atoi value) (sa_timeout a) true
                               else mkArgs (sa_inputs a) (sa_retry a) (atoi value) true)
              else mret None
          | [] => mret None
          end
      | None =>
          ok ← isValidArgument arg;
          if negb ok then mret None else
          arg_loop rest (mkArgs (sa_inputs a ++ [arg]) (sa_retry a) (sa_timeout a) (sa_options a))
      end
  end.

(** [main] on the arguments after the program's name, up to its return. *)
Definition set_program (args : list string) : MI Z :=
  match args with
  | [] => mret 1
  | _ =>
      parsed ← arg_loop args (mkArgs [] 1 60 false);
      match parsed with
      | None => mret (-1)
      | Some a =>
          if sa_options a && bool_decide (sa_inputs a = []) then mret (-1) else
          rc ← initImm;
          if negb (is_ok rc) then mret 1 else
          e ← set_loop (sa_timeout a) (sa_retry a) (sa_inputs a);
          match e with
          | BadUsage => mret (-1)
          | RollBack => roll_back
          | AllSet => finalizeImm;; mret 0
          end
      end
  end.

(** The destructor of the object that [main] declares runs at each of its returns. *)
Definition destroy : MI unit :=
  open ← imem m_immInitDone;
  if (open : bool) then finalizeImm else mret tt.

Definition immset_main (args : list string) : MI Z :=
  r ← set_program args; destroy;; mret r.
End immset.
