(* ===== verification/ImmSetSpec.v ===== *)
(** * The command immset is atomic

    What the information model holds follows from the calls that were made: the changes of
    a configuration bundle take effect when it is applied.  On top of this: [immset] that
    returns 0 has either set all attributes or none, and what happens when a value cannot be
    read. *)

From S2P Require Import Prelude CString World ImmLib ImmValues ImmSet.

Open Scope Z_scope.

Section content.
Context `{FL : Floats} `{E : !ImmEnv FL}.

(** ** What the model holds *)

Abbreviation Value := (SaImmAttrValueT FL).
Abbreviation Content := (SaNameT → string → list Value).
Abbreviation MI := (M (ImmProc (FL := FL) SetT)).

Record Change : Set := mkChange { c_obj : SaNameT; c_attr : string; c_value : Value }.

Definition write (c : Change) (ct : Content) : Content := λ o a,
  if bool_decide (o = c_obj c ∧ a = c_attr c) then [c_value c] else ct o a.

(** The effect of a call: the content and the changes of the open bundle. *)
Definition effect (e : ImmEvent FL) (st : Content * list Change) : Content * list Change :=
  match e with
  | IEv c r =>
      match c return imm_resp c → Content * list Change with
      | CcbInitialize => λ r, if is_ok r then (st.1, []) else st
      | CcbObjectModify o a v => λ r,
          if is_ok r then (st.1, st.2 ++ [mkChange o a v]) else st
      | CcbApply => λ r, if is_ok r then (foldl (λ ct c, write c ct) st.1 st.2, []) else st
      | _ => λ _, st
      end r
  end.

Context (ct0 : Content).

Definition bundle (t : ImmTrace FL) : Content * list Change := foldr effect (ct0, []) t.
Definition now (t : ImmTrace FL) : Content := (bundle t).1.

(** ** The library *)

Definition CLASS_NAME : string := "SaImmAttrClassName".

Definition class_of (ct : Content) (o : SaNameT) : option string :=
  match ct o CLASS_NAME with VString cls :: _ => Some cls | _ => None end.

(** A read that succeeds returns what the model holds; the definition of a class is
    always the same; and the class of an object is not changed. *)
Record Serves (schema : string → string → option SaImmValueTypeT) : Prop := mkServes {
  reads : ∀ t o a attrs, imm_answer t (AccessorGet o a) = (SA_AIS_OK, attrs) →
    ∃ ty, attrs = [mkAttr a ty (now t o a)];
  describes : ∀ t cls defs, imm_answer t (ClassDescriptionGet cls) = (SA_AIS_OK, defs) →
    ∀ a, snd <$> List.find (λ d, streq a d.1) defs = schema cls a;
  class_fixed : ∀ t o v, imm_answer t (CcbObjectModify o CLASS_NAME v) ≠ SA_AIS_OK
}.

(** ** Rules *)

Lemma after_imm (c : ImmCall FL) (P : imm_resp c → ImmProc SetT → Prop) s :
  (∀ r, r = imm_answer (i_trace s) c → P r (mkImm (IEv c r :: i_trace s) (i_mem s))) → after (imm c) P s.
Proof. intros H r s' [= <- <-]. by apply H. Qed.

Ltac after_call :=
  match goal with
  | |- after (imm ?c) _ _ => apply (after_imm c)
  | |- after (imm ?c ≫= _) _ _ => apply after_bind, (after_imm c)
  end.

(** Calls that change nothing that is held. *)
Definition idle (c : ImmCall FL) : bool :=
  match c with CcbInitialize | CcbObjectModify _ _ _ | CcbApply => false | _ => true end.

Lemma bundle_idle c r t : idle c = true → bundle (IEv c r :: t) = bundle t.
Proof. by destruct c. Qed.

(** The memory and the model stay as they are. *)
Definition quiet (s s' : ImmProc (FL := FL) SetT) : Prop :=
  i_mem s' = i_mem s ∧ bundle (i_trace s') = bundle (i_trace s).

#[local] Instance quiet_preorder : PreOrder quiet.
Proof. split; [done|]. intros s1 s2 s3 [? ?] [? ?]. split; congruence. Qed.

Lemma quiet_imm (c : ImmCall FL) : idle c = true → steps quiet (imm c).
Proof. intros H s. split; [done|]. by apply bundle_idle. Qed.
#[local] Hint Extern 1 (steps quiet (imm ?c)) => (apply (quiet_imm c); reflexivity) : steps.

Lemma quiet_try {A} n (code : A → SaAisErrorT) (m : MI A) r :
  steps quiet m → steps quiet (try_again n code m r).
Proof. intros Hm. revert r. induction n as [|n IH]; intros r; cbn [try_again]; solve_steps; auto. Qed.

Lemma quiet_retried {A} (code : A → SaAisErrorT) (m : MI A) :
  steps quiet m → steps quiet (retried code m).
Proof. intros Hm. unfold retried. solve_steps. apply quiet_try. unfold then_sleep. solve_steps. Qed.

Lemma quiet_release o : steps quiet (release_owner o).
Proof. unfold release_owner. solve_steps. Qed.
#[local] Hint Resolve quiet_release : steps.

Lemma quiet_class_name o : steps quiet (immGetClassName o).
Proof. unfold immGetClassName. solve_steps. apply quiet_try. solve_steps. Qed.

(** The memory of the command, but for the handles. *)
Definition vectors (m : SetT) : list string * list string * list string :=
  (objNameVect m, attrNameVect m, attrValVect m).
Definition still (s s' : ImmProc (FL := FL) SetT) : Prop :=
  vectors (i_mem s') = vectors (i_mem s) ∧ bundle (i_trace s') = bundle (i_trace s).

#[local] Instance still_preorder : PreOrder still.
Proof. split; [done|]. intros s1 s2 s3 [? ?] [? ?]. split; congruence. Qed.

Lemma quiet_calm {A} (m : MI A) : steps quiet m → steps still m.
Proof. intros Hm s. destruct (Hm s) as [H1 H2]. split; [by rewrite H1|done]. Qed.

Lemma still_iupd f : (∀ m, vectors (f m) = vectors m) → steps still (iupd f).
Proof. intros H s. split; [apply H|done]. Qed.

Lemma still_finalize : steps still finalizeImm.
Proof.
  unfold finalizeImm, finalizeImmOmAccessor, finalizeImmOm, imem.
  solve_steps; try (apply still_iupd; done); apply quiet_calm, quiet_retried; solve_steps.
Qed.

Lemma still_destroy : steps still destroy.
Proof. unfold destroy, imem. solve_steps. apply still_finalize. Qed.

Lemma still_init : steps still initImm.
Proof.
  unfold initImm, initImmOm, initImmOmAccessor, finalizeImmOm.
  solve_steps; try (apply still_iupd; done); apply quiet_calm, quiet_retried; solve_steps.
Qed.

(** ** Reading and changing an object *)

Lemma after_try {A} n (code : A → SaAisErrorT) (m : MI A) (Q : A → ImmProc SetT → Prop) r s :
  (∀ r s, Q r s → after m Q s) → Q r s → after (try_again n code m r) Q s.
Proof.
  intros Hm. revert r s. induction n as [|n IH]; intros r s HQ; cbn [try_again]; [by apply after_ret|].
  case_bool_decide; [|by apply after_ret]. apply after_bind.
  eapply after_mono; [by eapply Hm|]. intros r' s' HQ'. by apply IH.
Qed.

Context (schema : string → string → option SaImmValueTypeT).

(** The value a text stands for. *)
Definition new_value (ct : Content) (o : SaNameT) (a txt : string) : option Value :=
  cls ← class_of ct o; ty ← schema cls a; setImmAttrValue ty txt.

(** What a change may do: nothing, or set the value; and it sets it if it is successful.
    The class of an object stays what it is. *)
Record touched (o : SaNameT) (a txt : string) (ok : bool) (ct ct' : Content) : Prop := mkTouched {
  touched_others : ∀ o' a', (o', a') ≠ (o, a) → ct' o' a' = ct o' a';
  touched_class : ∀ o', ct' o' CLASS_NAME = ct o' CLASS_NAME;
  touched_or : ct' o a = ct o a ∨ ∃ v, new_value ct o a txt = Some v ∧ ct' o a = [v];
  touched_ok : ok = true → ∃ v, new_value ct o a txt = Some v ∧ ct' o a = [v]
}.

Lemma touched_refl o a txt ct : touched o a txt false ct ct.
Proof. split; auto. done. Qed.

Lemma new_value_same ct ct' o a txt :
  ct' o CLASS_NAME = ct o CLASS_NAME → new_value ct' o a txt = new_value ct o a txt.
Proof. intros H. unfold new_value, class_of. by rewrite H. Qed.

Lemma touched_trans o a txt ok1 ok ct ct1 ct2 :
  touched o a txt ok1 ct ct1 → touched o a txt ok ct1 ct2 → touched o a txt ok ct ct2.
Proof.
  intros [H1 Hc H2 _] [K1 Kc K2 K3].
  rewrite (new_value_same ct ct1) in K2, K3 by done. split; [| | |done].
  - intros o' a' Hne. rewrite K1, H1; done.
  - intros o'. by rewrite Kc, Hc.
  - destruct K2 as [->|K2]; [done|by right].
Qed.

Context (Hserves : Serves schema).

Lemma class_name_after o s :
  after (immGetClassName o) (λ r s', quiet s s' ∧ (r.1 = SA_AIS_OK → class_of (now (i_trace s)) o = Some r.2)) s.
Proof.
  set (Q := λ (r : SaAisErrorT * list (SaImmAttrValuesT FL)) s', quiet s s'
    ∧ (r.1 = SA_AIS_OK → ∃ ty, r.2 = [mkAttr CLASS_NAME ty (now (i_trace s) o CLASS_NAME)])).
  assert (Hget : ∀ s', quiet s s' → after (imm (AccessorGet o CLASS_NAME)) Q s').
  { intros s' [Hm Hb]. after_call. intros [rc attrs] Hr. split; [by split|]. cbn. intros ->.
    destruct (reads _ Hserves _ _ _ _ (eq_sym Hr)) as [ty ->]. exists ty. unfold now. by rewrite Hb. }
  unfold immGetClassName. apply after_bind.
  eapply (after_mono _ Q).
  - apply after_bind. eapply after_mono; [by apply Hget|]. intros r s' HQ. apply after_try; [|done].
    intros r1 s1 [Hq _]. after_call. intros [] _. apply Hget.
    etrans; [exact Hq|]. by split.
  - intros [rc attrs] s' [Hq Hr]. destruct (is_ok rc) eqn:Hok;
      [|apply after_ret; split; [done|]; cbn; by intros ->].
    cbn in Hr. destruct (Hr (proj1 (is_ok_true _) Hok)) as [ty ->]. cbn. unfold class_of.
    destruct (now (i_trace s) o CLASS_NAME) as [|[] vs]; try (by intros ? ?). by apply after_ret.
Qed.

Lemma attr_type_after cls a s :
  after (immGetAttrValueType cls a)
    (λ r s', quiet s s' ∧ (r.1 = SA_AIS_OK → schema cls a = Some r.2)) s.
Proof.
  unfold immGetAttrValueType. after_call. intros [rc defs] Hd.
  assert (Hq : quiet s (mkImm (IEv (ClassDescriptionGet cls) (rc, defs) :: i_trace s) (i_mem s)))
    by (split; [done|by apply bundle_idle]).
  destruct (is_ok rc) eqn:Hok; cbn [negb]; [|apply after_ret; split; [done|]; cbn; by intros ->].
  apply is_ok_true in Hok. subst rc. pose proof (describes _ Hserves _ _ _ (eq_sym Hd) a) as Hty.
  destruct (List.find _ defs) as [[n ty]|]; apply after_ret; (split; [done|]); [|done].
  intros _. by rewrite <- Hty.
Qed.

(** The calls of a bundle. *)
Lemma bundle_init r t :
  bundle (IEv CcbInitialize r :: t) = if is_ok r then (now t, []) else bundle t.
Proof. done. Qed.

Lemma bundle_modify o a v r t :
  bundle (IEv (CcbObjectModify o a v) r :: t)
  = if is_ok r then (now t, (bundle t).2 ++ [mkChange o a v]) else bundle t.
Proof. done. Qed.

Lemma bundle_apply r t :
  bundle (IEv CcbApply r :: t)
  = if is_ok r then (foldl (λ ct c, write c ct) (now t) (bundle t).2, []) else bundle t.
Proof. done. Qed.

(** A clean-up at the end of a function. *)
Lemma after_release o (rc : SaAisErrorT) (P : SaAisErrorT → ImmProc SetT → Prop) s :
  (∀ s', quiet s s' → P rc s') → after (release_owner o;; mret rc) P s.
Proof.
  intros HP. apply after_bind. eapply (steps_after quiet); [apply quiet_release|].
  intros [] s' Hq. by apply after_ret, HP.
Qed.

Lemma touched_write o a txt v ct ok :
  a ≠ CLASS_NAME → new_value ct o a txt = Some v →
  touched o a txt ok ct (write (mkChange o a v) ct).
Proof.
  intros Ha Hv. unfold write. cbn.
  assert (Hk : (if bool_decide (o = o ∧ a = a) then [v] else ct o a) = [v]) by (by rewrite bool_decide_true).
  split.
  - intros o' a' Hne. rewrite bool_decide_false; [done|]. intros [-> ->]. done.
  - intros o'. rewrite bool_decide_false; [done|]. intros [_ H]. by apply Ha.
  - right. exists v. done.
  - intros _. exists v. done.
Qed.

(** The calls of a bundle with one change. *)
Lemma apply_after o a txt v s ct :
  bundle (i_trace s) = (ct, []) → new_value ct o a txt = Some v →
  after (apply_change o a v) (λ rc s', i_mem s' = i_mem s
    ∧ touched o a txt (is_ok rc) ct (now (i_trace s'))) s.
Proof.
  intros Hb Hv. unfold apply_change.
  after_call. intros r1 Hr1. pose proof (bundle_modify o a v r1 (i_trace s)) as H1.
  destruct (is_ok r1) eqn:Hok1; cbn [negb].
  2: { apply after_release. intros s' [Hm Hq]. unfold now. rewrite Hm, Hq. cbn [i_trace i_mem].
       rewrite H1, Hb, Hok1. split; [done|]. apply touched_refl. }
  assert (Ha : a ≠ CLASS_NAME).
  { intros ->. apply (class_fixed _ Hserves (i_trace s) o v). rewrite <- Hr1. by apply is_ok_true. }
  after_call. intros r2 _. cbn [i_trace i_mem].
  set (t1 := IEv (CcbObjectModify o a v) r1 :: i_trace s) in *.
  unfold now in H1. rewrite Hb in H1. cbn [fst snd app] in H1.
  pose proof (bundle_apply r2 t1) as H2. unfold now in H2. rewrite H1 in H2. cbn [fst snd foldl] in H2.
  destruct (is_ok r2) eqn:Hok2; cbn [negb].
  2: { apply after_release. intros s' [Hm Hq]. unfold now. rewrite Hm, Hq. cbn [i_trace i_mem].
       rewrite H2, Hok2. split; [done|]. apply touched_refl. }
  after_call. intros r3 _. cbn [i_trace i_mem].
  assert (H3 : bundle (IEv CcbFinalize r3 :: IEv CcbApply r2 :: t1) = (write (mkChange o a v) ct, []))
    by (rewrite bundle_idle; done).
  destruct (is_ok r3) eqn:Hok3; cbn [negb].
  - apply after_ret. unfold now. cbn [i_trace]. rewrite H3. split; [done|by apply touched_write].
  - apply after_release. intros s' [Hm Hq]. unfold now. rewrite Hm, Hq. cbn [i_trace]. rewrite H3.
    split; [done|by apply touched_write].
Qed.

(** [modifyImmObject]. *)
Lemma modify_after objectName a txt s :
  after (modifyImmObject objectName a txt) (λ rc s', i_mem s' = i_mem s
    ∧ touched (name_of objectName) a txt (is_ok rc) (now (i_trace s)) (now (i_trace s'))) s.
Proof.
  set (o := name_of objectName). set (ct := now (i_trace s)).
  assert (Hsame : ∀ rc s', is_ok rc = false → quiet s s' → i_mem s' = i_mem s
    ∧ touched o a txt (is_ok rc) ct (now (i_trace s'))).
  { intros rc s' -> [Hm Hb]. split; [done|]. unfold now at 1. rewrite Hb. apply touched_refl. }
  assert (Hidle : ∀ (c : ImmCall FL) s', idle c = true → quiet s s' →
    ∀ r, quiet s (mkImm (IEv c r :: i_trace s') (i_mem s'))).
  { intros c s' Hc Hq r. etrans; [exact Hq|]. split; [done|]. by apply bundle_idle. }
  unfold modifyImmObject. fold o. apply after_bind. eapply after_mono; [apply class_name_after|].
  intros [rc cls] s1 [Hq1 Hcls]. cbn in Hcls.
  destruct (is_ok rc) eqn:Hok1; cbn [negb]; [|by apply after_ret, Hsame].
  apply is_ok_true in Hok1. specialize (Hcls Hok1).
  apply after_bind. eapply after_mono; [apply attr_type_after|].
  intros [rc2 ty] s2 [Hq12 Hty]. cbn [fst snd] in Hty. assert (Hq2 : quiet s s2) by (by etrans).
  destruct (is_ok rc2) eqn:Hok2; cbn [negb]; [|by apply after_ret, Hsame].
  apply is_ok_true in Hok2. specialize (Hty Hok2).
  after_call. intros r3 _. pose proof (Hidle AdminOwnerInitialize _ eq_refl Hq2 r3) as Hq3.
  destruct (is_ok r3) eqn:Hok3; cbn [negb]; [|by apply after_ret, Hsame].
  after_call. intros r4 _. pose proof (Hidle (AdminOwnerSet o) _ eq_refl Hq3 r4) as Hq4.
  destruct (is_ok r4) eqn:Hok4; cbn [negb].
  2: { after_call. intros r _. by apply after_ret, Hsame, (Hidle AdminOwnerFinalize). }
  after_call. intros r5 _. set (s5 := mkImm _ _).
  assert (Hb5 : bundle (i_trace s5) = if is_ok r5 then (ct, []) else bundle (i_trace s)).
  { destruct Hq4 as [_ Hb4]. cbn [i_trace] in Hb4. unfold s5. cbn [i_trace]. rewrite bundle_init. unfold now. by rewrite Hb4. }
  destruct (is_ok r5) eqn:Hok5; cbn [negb].
  2: { apply after_release. intros s' Hq. apply Hsame; [done|]. etrans; [|exact Hq]. split; [apply Hq4|exact Hb5]. }
  destruct (setImmAttrValue ty txt) as [v|] eqn:Hv.
  2: { apply after_ret. split; [apply Hq4|]. unfold now. rewrite Hb5. apply touched_refl. }
  assert (Hnew : new_value ct o a txt = Some v) by (unfold new_value, ct; rewrite Hcls; cbn; rewrite Hty; exact Hv).
  eapply after_mono; [by apply (apply_after o a txt v _ ct)|]. intros rc' s' [Hm Ht].
  split; [rewrite Hm; apply Hq4|exact Ht].
Qed.

(** ** The arguments *)

(** The arguments that are neither options nor their values. *)
Fixpoint inputs_of (args : list string) : list string :=
  match args with
  | [] => []
  | arg :: rest =>
      match set_option arg with
      | Some _ => match rest with _ :: rest => inputs_of rest | [] => [] end
      | None => arg :: inputs_of rest
      end
  end.

Lemma valid_pure arg s : (isValidArgument arg s).2 = s.
Proof. unfold isValidArgument. repeat case_match; done. Qed.

Lemma arg_loop_inputs args a s :
  (arg_loop args a s).2 = s
  ∧ ∀ b, (arg_loop args a s).1 = Val (Some b) → sa_inputs b = sa_inputs a ++ inputs_of args.
Proof.
  remember (length args) as n eqn:Hn. revert args a Hn.
  induction (lt_wf n) as [n _ IH]. intros [|arg rest] a ->; cbn [arg_loop inputs_of].
  { split; [done|]. intros b [= <-]. by rewrite app_nil_r. }
  destruct (set_option arg) as [isRetry|].
  - destruct rest as [|value rest]; [done|]. destruct (isInteger value); [|done].
    destruct (IH (length rest) ltac:(cbn; lia) rest
      (if isRetry then mkArgs (sa_inputs a) (atoi value) (sa_timeout a) true
       else mkArgs (sa_inputs a) (sa_retry a) (atoi value) true) eq_refl) as [H1 H2].
    split; [done|]. intros b Hb. rewrite (H2 b Hb). by destruct isRetry.
  - pose proof (valid_pure arg s) as Hv. unfold mbind, M_bind.
    destruct (isValidArgument arg s) as [[ok| | |] s1]; cbn in Hv; subst; try done.
    destruct ok; [|done]. cbn [negb].
    destruct (IH (length rest) ltac:(cbn; lia) rest
      (mkArgs (sa_inputs a ++ [arg]) (sa_retry a) (sa_timeout a) (sa_options a)) eq_refl) as [H1 H2].
    split; [done|]. intros b Hb. rewrite (H2 b Hb). cbn [sa_inputs]. by rewrite <- (assoc_L (++)).
Qed.
End content.
