(* ===== verification/ImmDemo.v ===== *)
(** * A library that does what it says

    A library that holds a content, answers reads from it and applies the changes; some
    calls may be refused.  It shows that what is assumed of the library can hold. *)

From S2P Require Import Prelude CString World ImmLib ImmSet ImmSetSpec.

Open Scope Z_scope.

(** ** The library *)

Section honest.
Context `{FL : Floats}.
Context (ct0 : SaNameT → string → list (SaImmAttrValueT FL)).
Context (classes : string → list (string * SaImmValueTypeT)).
Context (refuses : ImmTrace FL → ImmCall FL → option SaAisErrorT).

Abbreviation Content := (SaNameT → string → list (SaImmAttrValueT FL)).
Abbreviation MI := (M (ImmProc (FL := FL) SetT)).

Definition schema_of (cls a : string) : option SaImmValueTypeT :=
  snd <$> List.find (λ d, streq a d.1) (classes cls).

Definition verdict (t : ImmTrace FL) (c : ImmCall FL) : SaAisErrorT := default SA_AIS_OK (refuses t c).

Definition honest : ImmEnv FL := {| imm_answer t c :=
  match c return imm_resp c with
  | OmInitialize => (verdict t OmInitialize, 1)
  | AccessorInitialize => (verdict t AccessorInitialize, 1)
  | AccessorGet o a => (verdict t (AccessorGet o a), [mkAttr a SAANYT (now ct0 t o a)])
  | ClassDescriptionGet cls => (verdict t (ClassDescriptionGet cls), classes cls)
  | CcbObjectModify o a v =>
      if streq a CLASS_NAME then SA_AIS_ERR_INVALID_PARAM else verdict t (CcbObjectModify o a v)
  | Sleep => tt
  | OmFinalize => verdict t OmFinalize
  | AccessorFinalize => verdict t AccessorFinalize
  | AdminOwnerInitialize => verdict t AdminOwnerInitialize
  | AdminOwnerSet o => verdict t (AdminOwnerSet o)
  | AdminOwnerRelease o => verdict t (AdminOwnerRelease o)
  | AdminOwnerFinalize => verdict t AdminOwnerFinalize
  | CcbInitialize => verdict t CcbInitialize
  | CcbApply => verdict t CcbApply
  | CcbFinalize => verdict t CcbFinalize
  end |}.

Lemma honest_serves : Serves (E := honest) ct0 schema_of.
Proof.
  split; cbn.
  - intros t o a attrs [= _ <-]. by eexists.
  - by intros t cls defs [= _ <-] a.
  - by intros t o v.
Qed.
End honest.

(** ** An example *)

(** A model without floating point numbers. *)
Definition no_floats : Floats := {|
  float := Empty_set; double := Empty_set;
  print_float f := match f with end; print_double d := match d with end;
  printf_float f := match f with end; printf_double d := match d with end;
  read_float _ := None; read_double _ := None |}.

Module Demo.
#[export] Existing Instance no_floats.

Definition content (o : SaNameT) (a : string) : list (SaImmAttrValueT no_floats) :=
  if bool_decide (o = name_of "obj=1") then
    if streq a CLASS_NAME then [VString "Unit"]
    else if streq a "x" then [VInt32 (-5)]
    else if streq a "y" then [VString "old"]
    else []
  else [].

Definition classes (cls : string) : list (string * SaImmValueTypeT) :=
  if streq cls "Unit" then [("x"%string, SAINT32T); ("y"%string, SASTRINGT)] else [].

(** A library that does not take one of the changes. *)
Definition picky (_ : ImmTrace no_floats) (c : ImmCall no_floats) : option SaAisErrorT :=
  match c with
  | CcbObjectModify _ _ (VString s) => if streq s "new" then Some (SA_AIS_ERR 21) else None
  | _ => None
  end.
End Demo.
