(* ===== verification/ImmTypes.v ===== *)
(** * The values of the information model keep their types

    The command [immset] takes texts from the command line; whatever they are, and whatever
    fails on the way, the attributes of an object keep values of the types that its class
    defines. *)

From S2P Require Import Prelude CString World ImmLib ImmValues ImmSet ImmSetSpec ImmDemo.

Open Scope Z_scope.

Section types.
Context `{FL : Floats} `{E : !ImmEnv FL}.
Context (ct0 : SaNameT → string → list (SaImmAttrValueT FL)).
Context (schema : string → string → option SaImmValueTypeT).

Abbreviation Content := (SaNameT → string → list (SaImmAttrValueT FL)).
Abbreviation MI := (M (ImmProc (FL := FL) SetT)).

(** ** The invariant *)

Definition well_typed (ct : Content) : Prop := ∀ o cls a ty v,
  class_of ct o = Some cls → schema cls a = Some ty → v ∈ ct o a → fits ty v.

(** A change that may be applied: it keeps the class, and its value is of the type. *)
Definition change_typed (ct : Content) (c : Change) : Prop :=
  c_attr c ≠ CLASS_NAME
  ∧ ∀ cls ty, class_of ct (c_obj c) = Some cls → schema cls (c_attr c) = Some ty → fits ty (c_value c).

Definition sound (st : Content * list Change) : Prop :=
  well_typed st.1 ∧ Forall (change_typed st.1) st.2.

Definition sound_step (s s' : ImmProc (FL := FL) SetT) : Prop :=
  sound (bundle ct0 (i_trace s)) → sound (bundle ct0 (i_trace s')).

#[local] Instance sound_step_preorder : PreOrder sound_step.
Proof. split; [by intros s ?|]. intros s1 s2 s3 H1 H2 H. by apply H2, H1. Qed.

Lemma class_write c ct o : c_attr c ≠ CLASS_NAME → class_of (write c ct) o = class_of ct o.
Proof.
  intros Hc. unfold class_of, write. rewrite bool_decide_false; [done|]. intros [_ H]. by apply Hc.
Qed.

Lemma well_typed_write c ct : well_typed ct → change_typed ct c → well_typed (write c ct).
Proof.
  intros Hct [Ha Hc] o cls a ty v. rewrite class_write by done. intros Hcls Hty. unfold write.
  case_bool_decide as H; [|by eapply Hct].
  destruct H as [-> ->]. intros ->%list_elem_of_singleton. eauto.
Qed.

Lemma change_typed_write c d ct :
  c_attr c ≠ CLASS_NAME → change_typed ct d → change_typed (write c ct) d.
Proof. intros Hc [Hd H]. split; [done|]. intros cls ty. rewrite class_write by done. apply H. Qed.

Lemma sound_apply cs ct : sound (ct, cs) → well_typed (foldl (λ ct c, write c ct) ct cs).
Proof.
  revert ct. induction cs as [|c cs IH]; intros ct [Hct Hcs]; [done|]. cbn in *.
  apply Forall_cons in Hcs as [Hc Hcs]. apply IH. split; [by apply well_typed_write|]. cbn.
  eapply Forall_impl; [exact Hcs|]. intros d Hd. apply change_typed_write; [apply Hc|done].
Qed.

(** ** The calls *)

Lemma sound_quiet {A} (m : MI A) : steps (quiet ct0) m → steps sound_step m.
Proof. intros Hm s. destruct (Hm s) as [_ H]. unfold sound_step. by rewrite H. Qed.

Lemma sound_still {A} (m : MI A) : steps (still ct0) m → steps sound_step m.
Proof. intros Hm s. destruct (Hm s) as [_ H]. unfold sound_step. by rewrite H. Qed.

Lemma sound_at {A} (m : MI A) s : steps sound_step m → sound_step s (m s).2.
Proof. intros Hm. apply Hm. Qed.

Lemma sound_imem {A} (f : SetT → A) : steps sound_step (imem f).
Proof. by intros s ?. Qed.

Lemma sound_iupd f : steps sound_step (iupd f).
Proof. by intros s ?. Qed.

Lemma sound_idle (c : ImmCall FL) : idle c = true → steps sound_step (imm c).
Proof. intros Hc. apply sound_quiet. intros s. split; [done|]. by apply bundle_idle. Qed.

Lemma sound_ccb : steps sound_step (imm (FL := FL) CcbInitialize).
Proof.
  intros s. unfold sound_step. cbn [imm snd i_trace]. rewrite bundle_init. unfold now.
  destruct (is_ok _); [|done]. intros [H _]. split; [done|constructor].
Qed.

Lemma sound_commit : steps sound_step (imm (FL := FL) CcbApply).
Proof.
  intros s. unfold sound_step. cbn [imm snd i_trace]. rewrite bundle_apply. unfold now.
  destruct (is_ok _); [|done]. intros H. destruct (bundle ct0 (i_trace s)) as [ct cs].
  split; [by apply sound_apply|constructor].
Qed.

#[local] Hint Resolve sound_imem sound_iupd sound_ccb sound_commit : steps.
#[local] Hint Extern 1 (steps sound_step (imm ?c)) => (apply (sound_idle c); reflexivity) : steps.

Context (Hserves : Serves ct0 schema).

Lemma sound_modify o a v s :
  (∀ cls ty, class_of (now ct0 (i_trace s)) o = Some cls → schema cls a = Some ty → fits ty v) →
  sound_step s (imm (CcbObjectModify o a v) s).2.
Proof.
  intros Hv. unfold sound_step. cbn [imm snd i_trace]. rewrite bundle_modify.
  destruct (is_ok _) eqn:Hok; [|done]. unfold now in *. intros [Hct Hcs]. split; [done|]. cbn [fst snd].
  apply Forall_app. split; [done|]. constructor; [|constructor]. split; [|exact Hv]. cbn.
  intros ->. apply is_ok_true in Hok. by apply (class_fixed _ _ Hserves) in Hok.
Qed.

(** A call that leaves what is held as it is, and what follows it. *)
Definition holds_still (c : ImmCall FL) : bool :=
  match c with CcbObjectModify _ _ _ | CcbApply => false | _ => true end.

Lemma sound_call {A} (c : ImmCall FL) (k : imm_resp c → MI A) s :
  holds_still c = true →
  (∀ r s', r = imm_answer (i_trace s) c → now ct0 (i_trace s') = now ct0 (i_trace s) →
     sound_step s' (k r s').2) →
  sound_step s ((imm c ≫= k) s).2.
Proof.
  intros Hc Hk. apply steps_bind_at; [apply _| |].
  - destruct c; try done; try by apply sound_idle. apply sound_ccb.
  - apply after_imm. intros r Hr. apply Hk; [done|]. cbn [i_trace]. unfold now.
    destruct c; try done. rewrite bundle_init. by destruct (is_ok r).
Qed.

Ltac sound_next :=
  match goal with |- sound_step _ ((imm ?c ≫= _) _).2 => apply (sound_call c); [reflexivity|] end.

Lemma sound_release o : steps sound_step (release_owner o).
Proof. unfold release_owner. solve_steps. Qed.
#[local] Hint Resolve sound_release : steps.

Lemma sound_apply_change o a v s :
  (∀ cls ty, class_of (now ct0 (i_trace s)) o = Some cls → schema cls a = Some ty → fits ty v) →
  sound_step s (apply_change o a v s).2.
Proof.
  intros Hv. unfold apply_change. apply steps_bind_at; [apply _|by apply sound_modify|].
  intros r s' _. apply sound_at. solve_steps.
Qed.

Lemma sound_modify_object objectName a txt : steps sound_step (modifyImmObject objectName a txt).
Proof.
  intros s. unfold modifyImmObject. set (o := name_of objectName).
  apply steps_bind_at; [apply _|by apply sound_quiet, quiet_class_name|].
  eapply after_mono; [by eapply class_name_after|]. intros [rc cls] s1 [[_ Hq] Hcls]. cbn in Hcls.
  destruct (is_ok rc) eqn:Hok; cbn [negb]; [|by intros ?]. apply is_ok_true in Hok. specialize (Hcls Hok).
  apply steps_bind_at; [apply _| |].
  { apply sound_at. unfold immGetAttrValueType. solve_steps. }
  eapply after_mono; [by apply attr_type_after|]. intros [rc2 ty] s2 [[_ Hq2] Hty]. cbn in Hty.
  destruct (is_ok rc2) eqn:Hok2; cbn [negb]; [|by intros ?]. apply is_ok_true in Hok2. specialize (Hty Hok2).
  assert (Hn2 : now ct0 (i_trace s2) = now ct0 (i_trace s)) by (unfold now; by rewrite Hq2, Hq).
  sound_next. intros r3 s3 _ Hn3. destruct (is_ok r3); cbn [negb]; [|by intros ?].
  sound_next. intros r4 s4 _ Hn4. destruct (is_ok r4); cbn [negb]; [|apply sound_at; solve_steps].
  sound_next. intros r5 s5 _ Hn5. destruct (is_ok r5); cbn [negb]; [|apply sound_at; solve_steps].
  destruct (setImmAttrValue ty txt) as [v|] eqn:Hv; [|by intros ?].
  apply sound_apply_change. rewrite Hn5, Hn4, Hn3, Hn2. intros cls' ty' H1 H2. simplify_eq.
  by apply set_value_fits in Hv.
Qed.

(** ** The program *)

#[local] Hint Resolve sound_modify_object : steps.

Lemma sound_init : steps sound_step initImm.
Proof. apply sound_still, still_init. Qed.
Lemma sound_finalize : steps sound_step finalizeImm.
Proof. apply sound_still, still_finalize. Qed.
#[local] Hint Resolve sound_init sound_finalize : steps.

Lemma sound_repeated t n (m : MI SaAisErrorT) :
  steps sound_step m → steps sound_step (repeated t n m).
Proof.
  intros Hm. unfold repeated. solve_steps.
  - generalize (Z.to_nat (t - 1)). intros k. revert a.
    induction k; intros; cbn [while_busy]; solve_steps; auto.
  - generalize (Z.to_nat (n - 1)). intros k. revert a0.
    induction k; intros; cbn [while_timeout]; solve_steps; auto.
Qed.

Lemma sound_attributes o a : steps sound_step (getAttributes o a).
Proof. unfold getAttributes. solve_steps. Qed.
#[local] Hint Resolve sound_repeated sound_attributes : steps.

Lemma sound_set_loop t n inputs : steps sound_step (set_loop t n inputs).
Proof. induction inputs; cbn [set_loop]; unfold getAttrAndDN; solve_steps; auto. Qed.

Lemma sound_back_loop n i : steps sound_step (back_loop n i).
Proof. revert i. induction n; intros i; cbn [back_loop]; solve_steps; auto. Qed.

Lemma sound_arg_loop args a : steps sound_step (arg_loop args a).
Proof. intros s H. by rewrite (proj1 (arg_loop_inputs args a s)). Qed.
#[local] Hint Resolve sound_set_loop sound_back_loop sound_arg_loop : steps.

(** C35: whatever texts [immset] is called with and whatever the library answers - a call
    that fails at any point, a command that ends in undefined behaviour - the attributes of
    every object keep values that fit the types its class defines. *)
Theorem immset_keeps_types args s :
  well_typed (now ct0 (i_trace s)) → (bundle ct0 (i_trace s)).2 = [] →
  well_typed (now ct0 (i_trace (immset_main args s).2)).
Proof.
  intros Hw Hb.
  assert (H : steps sound_step (immset_main args))
    by (unfold immset_main, set_program, roll_back, destroy; solve_steps).
  apply H. split; [done|]. rewrite Hb. constructor.
Qed.
End types.

Lemma demo_typed : well_typed (schema_of Demo.classes) Demo.content.
Proof.
  intros o cls a ty v Hc Hty Hv. unfold class_of in Hc. unfold Demo.content in *.
  case_bool_decide; [|done]. cbn in Hc. injection Hc as <-. unfold schema_of in Hty. cbn in Hty.
  destruct (streq a "x") eqn:Hx; [apply streq_spec in Hx; subst a|];
    [|destruct (streq a "y") eqn:Hy; [apply streq_spec in Hy; subst a|done]];
    cbn in Hv, Hty; apply list_elem_of_singleton in Hv; simplify_eq; by repeat split.
Qed.

(** Texts that are no numbers of the type, and one that is. *)
Lemma immset_keeps_types_witness :
  let env := honest Demo.content Demo.classes Demo.picky in
  well_typed (schema_of Demo.classes)
    (now Demo.content (i_trace (immset_main (E := env) ["-r"; "3"; "x=0x7f:obj=1"; "x=99999999999:obj=1"]%string
      (mkImm [] newSet)).2)).
Proof.
  cbv zeta. apply (immset_keeps_types (E := honest Demo.content Demo.classes Demo.picky) Demo.content
    (schema_of Demo.classes) (honest_serves _ _ _)).
  - exact demo_typed.
  - reflexivity.
Defined.
