(* ===== verification/ImmAtomic.v ===== *)
(** * All or nothing

    When [immset] returns 0 it has set all the attributes it was asked to set, or it has set
    back those that it changed. *)

From S2P Require Import Prelude CString World ImmLib ImmValues ImmSet ImmSetSpec ImmDemo ImmTypes.

Open Scope Z_scope.

(** ** What is asked for *)

Record Target : Set := mkTarget { t_obj : string; t_attr : string; t_text : string }.

Definition target (arg : string) : option Target :=
  '(attr, objName) ← split_last ":" arg;
  '(name, value) ← split_last "=" attr;
  Some (mkTarget objName name value).

Definition key (t : Target) : SaNameT * string := (name_of (t_obj t), t_attr t).

Section atomic.
Context `{FL : Floats} `{E : !ImmEnv FL}.
Context (ct0 : SaNameT → string → list (SaImmAttrValueT FL)).
Context (schema : string → string → option SaImmValueTypeT).

Abbreviation Content := (SaNameT → string → list (SaImmAttrValueT FL)).
Abbreviation MI := (M (ImmProc (FL := FL) SetT)).
Abbreviation held s := (now ct0 (i_trace s)).

(** The attribute has the value the text stands for. *)
Definition is_set (ct : Content) (t : Target) : Prop :=
  ∃ v, new_value schema ct0 (name_of (t_obj t)) (t_attr t) (t_text t) = Some v
       ∧ ct (name_of (t_obj t)) (t_attr t) = [v].

(** The content differs from the first one at most in the attributes [ks]. *)
Definition differs_at (ks : list (SaNameT * string)) (ct : Content) : Prop :=
  (∀ o, ct o CLASS_NAME = ct0 o CLASS_NAME) ∧ ∀ o a, (o, a) ∉ ks → ct o a = ct0 o a.

Definition all_set (ts : list Target) (ct : Content) : Prop :=
  Forall (is_set ct) ts ∧ differs_at (key <$> ts) ct.

(** An attribute whose value can be set back: it has one value, which survives in text. *)
Definition restorable (t : Target) : Prop :=
  ∃ v, ct0 (name_of (t_obj t)) (t_attr t) = [v] ∧ kept v.

Definition old_text (t : Target) : string :=
  match ct0 (name_of (t_obj t)) (t_attr t) with
  | [v] => default EmptyString (getAttrValue v)
  | _ => EmptyString
  end.

(** What the vectors hold for the targets. *)
Definition vectors_of (ts : list Target) (read : list Target) : list string * list string * list string :=
  (t_obj <$> ts, t_attr <$> ts, old_text <$> read).

(** ** The steps of the loop *)

Context (Hserves : Serves ct0 schema).

Lemma after_repeated t n (m : MI SaAisErrorT) (Q : SaAisErrorT → ImmProc SetT → Prop) s :
  after m Q s →
  (∀ rc s r, Q rc s → rc ≠ SA_AIS_OK → after m Q (mkImm (IEv Sleep r :: i_trace s) (i_mem s))) →
  after (repeated t n m) Q s.
Proof.
  intros H0 Hm. unfold repeated. apply after_bind. eapply after_mono; [exact H0|]. intros rc s1 HQ.
  apply after_bind. eapply (after_mono _ Q).
  - generalize (Z.to_nat (t - 1)). intros k. clear H0. revert rc s1 HQ.
    induction k as [|k IH]; intros rc s1 HQ; cbn [while_busy]; [by apply after_ret|].
    case_bool_decide as Hrc; [|by apply after_ret].
    apply after_bind, (after_imm Sleep). intros r _. apply after_bind.
    eapply after_mono; [eapply Hm; [exact HQ|]; by destruct Hrc as [-> | ->]|]. intros rc' s'. apply IH.
  - clear rc s1 HQ. generalize (Z.to_nat (n - 1)). intros k rc s1 HQ. clear H0. revert rc s1 HQ.
    induction k as [|k IH]; intros rc s1 HQ; cbn [while_timeout]; [by apply after_ret|].
    case_bool_decide as Hrc; [|by apply after_ret].
    apply after_bind, (after_imm Sleep). intros r _. apply after_bind.
    eapply after_mono; [eapply Hm; [exact HQ|]; by rewrite Hrc|]. intros rc' s'. apply IH.
Qed.

(** [getAttrAndDN]. *)
Lemma target_after arg s :
  after (getAttrAndDN arg) (λ found s', i_trace s' = i_trace s ∧
    match found with
    | Some obj => ∃ t, target arg = Some t ∧ obj = t_obj t ∧ m_attrName (i_mem s') = t_attr t
        ∧ m_attrValue (i_mem s') = t_text t
        ∧ vectors (i_mem s') = (objNameVect (i_mem s) ++ [t_obj t], attrNameVect (i_mem s) ++ [t_attr t],
                                attrValVect (i_mem s))
    | None => target arg = None
    end) s.
Proof.
  unfold getAttrAndDN, target. destruct (split_last ":" arg) as [[attr obj]|]; [|by apply after_ret].
  cbn [mbind option_bind]. apply after_bind, after_modify.
  destruct (split_last "=" attr) as [[name value]|]; [|by apply after_ret].
  apply after_bind, after_modify, after_ret. split; [done|].
  by exists (mkTarget obj name value).
Qed.

(** Reading: the text of the value comes into the vector when the call is successful. *)
Definition read_post (obj attr : string) (s : ImmProc SetT) (rc : SaAisErrorT) (s' : ImmProc SetT) : Prop :=
  bundle ct0 (i_trace s') = bundle ct0 (i_trace s)
  ∧ i_mem s' = if is_ok rc then push_vals (attr_texts (mkAttr attr SAANYT (held s (name_of obj) attr))) (i_mem s)
               else i_mem s.

Lemma read_after t n obj attr s :
  after (repeated t n (getAttributes obj attr)) (read_post obj attr s) s.
Proof.
  assert (H : ∀ s', bundle ct0 (i_trace s') = bundle ct0 (i_trace s) → i_mem s' = i_mem s →
    after (getAttributes obj attr) (read_post obj attr s) s').
  { intros s' Hb Hm. unfold getAttributes. apply after_bind, (after_imm (AccessorGet (name_of obj) attr)).
    intros [rc attrs] Hr.
    assert (Hb' : bundle ct0 (IEv (AccessorGet (name_of obj) attr) (rc, attrs) :: i_trace s')
                  = bundle ct0 (i_trace s)) by (rewrite bundle_idle; done).
    destruct (is_ok rc) eqn:Hok; cbn [negb].
    2: { apply after_ret. split; [done|]. by rewrite Hok. }
    apply after_bind, after_modify, after_ret. split; [done|]. rewrite Hok. cbn [i_mem].
    apply is_ok_true in Hok. subst rc. destruct (reads _ _ Hserves _ _ _ _ (eq_sym Hr)) as [ty ->].
    rewrite Hm. f_equal. rewrite filter_cons_True by done. cbn. rewrite app_nil_r.
    unfold now. by rewrite Hb. }
  apply after_repeated; [by apply H|]. intros rc s' r [Hb Hm] Hrc. apply is_ok_false in Hrc.
  rewrite Hrc in Hm. by apply H.
Qed.

(** Changing. *)
Lemma change_after t n obj attr txt s :
  after (repeated t n (modifyImmObject obj attr txt)) (λ rc s', i_mem s' = i_mem s
    ∧ touched schema (name_of obj) attr txt (is_ok rc) (held s) (held s')) s.
Proof.
  apply after_repeated; [by apply modify_after|]. intros rc s' r [Hm Ht] Hrc.
  eapply after_mono; [by apply (modify_after ct0 schema Hserves)|]. cbn [i_mem]. intros rc' s'' [Hm' Ht'].
  split; [by rewrite Hm'|]. eapply touched_trans; [exact Ht|exact Ht'].
Qed.

(** ** The loop *)

Context (Htyped : well_typed schema ct0).

(** The targets [ts] were treated and are set. *)
Definition done_with (ts : list Target) (s : ImmProc SetT) : Prop :=
  vectors (i_mem s) = vectors_of ts ts ∧ all_set ts (held s).

(** The loop was left at a target: it could not be read, or not be set. *)
Definition stopped_at (ts : list Target) (s : ImmProc SetT) : Prop :=
  (∃ ts' t, ts = ts' ++ [t] ∧ vectors (i_mem s) = vectors_of ts ts' ∧ differs_at (key <$> ts') (held s))
  ∨ vectors (i_mem s) = vectors_of ts ts ∧ differs_at (key <$> ts) (held s).

Lemma differs_touched ks t ok ct ct' :
  differs_at ks ct → touched schema (name_of (t_obj t)) (t_attr t) (t_text t) ok ct ct' →
  differs_at (ks ++ [key t]) ct'.
Proof.
  intros [Hc Hd] [Ho Hcl _ _]. split; [intros o; by rewrite Hcl, Hc|]. intros o a Hk.
  rewrite not_elem_of_app, list_elem_of_singleton in Hk. destruct Hk as [Hk Hkt].
  rewrite Ho by exact Hkt. by apply Hd.
Qed.

Lemma all_set_snoc ts t ct ct' :
  key t ∉ key <$> ts → all_set ts ct →
  touched schema (name_of (t_obj t)) (t_attr t) (t_text t) true ct ct' → all_set (ts ++ [t]) ct'.
Proof.
  intros Hk [Hs Hd] Ht. split; [|rewrite fmap_app; by eapply differs_touched].
  apply Forall_app. split; [|constructor; [|constructor]].
  - rewrite Forall_forall in Hs |- *. intros t' Ht'. destruct (Hs t' Ht') as (v & Hv & Hct).
    exists v. split; [done|]. rewrite (touched_others _ _ _ _ _ _ _ Ht); [done|].
    intros H. apply Hk. rewrite <- (H : key t' = key t). by apply list_elem_of_fmap_2.
  - destruct (touched_ok _ _ _ _ _ _ _ Ht eq_refl) as (v & Hv & Hct). exists v. split; [|done].
    rewrite <- Hv. symmetry. by apply new_value_same, (proj1 Hd).
Qed.

Lemma old_text_read t ct :
  restorable t → ct (name_of (t_obj t)) (t_attr t) = ct0 (name_of (t_obj t)) (t_attr t) →
  attr_texts (mkAttr (t_attr t) SAANYT (ct (name_of (t_obj t)) (t_attr t))) = [old_text t].
Proof.
  intros (v & Hv & Hk) ->. unfold attr_texts, old_text. cbn [attrValues]. rewrite Hv.
  destruct (getAttrValue v) as [txt|] eqn:Ht; [|by destruct v]. cbn [omap list_omap]. by rewrite Ht.
Qed.

Definition asks_for (inputs : list string) (ts : list Target) : Prop :=
  Forall2 (λ arg t, target arg = Some t) inputs ts.

Lemma stopped_still ts s s' : still ct0 s s' → stopped_at ts s → stopped_at ts s'.
Proof. intros [Hv Hb]. unfold stopped_at, now. by rewrite Hv, Hb. Qed.

Lemma stop_after ts (P : SetEnd → ImmProc SetT → Prop) s :
  stopped_at ts s → (∀ s', stopped_at ts s' → P RollBack s') →
  after (finalizeImm;; mret RollBack) P s.
Proof.
  intros Hs HP. apply after_bind. eapply (steps_after (still ct0)); [apply still_finalize|].
  intros [] s' Hst. apply after_ret, HP. by eapply stopped_still.
Qed.

Lemma vectors_found ts t (m m1 : SetT) :
  vectors m = vectors_of ts ts →
  vectors m1 = (objNameVect m ++ [t_obj t], attrNameVect m ++ [t_attr t], attrValVect m) →
  vectors m1 = vectors_of (ts ++ [t]) ts.
Proof. unfold vectors_of. intros [= H1 H2 H3] ->. by rewrite H1, H2, H3, !fmap_app. Qed.

Lemma vectors_read ts t (m : SetT) :
  vectors m = vectors_of (ts ++ [t]) ts →
  vectors (push_vals [old_text t] m) = vectors_of (ts ++ [t]) (ts ++ [t]).
Proof.
  unfold vectors_of. intros [= H1 H2 H3]. unfold vectors. cbn. by rewrite H1, H2, H3, !fmap_app.
Qed.

Lemma set_loop_after t n inputs ts0 ts s :
  done_with ts0 s → asks_for inputs ts → NoDup (key <$> ts0 ++ ts) → Forall restorable ts →
  after (set_loop t n inputs) (λ e s', match e with
    | AllSet => done_with (ts0 ++ ts) s'
    | RollBack => ∃ ts1, ts1 `prefix_of` ts0 ++ ts ∧ stopped_at ts1 s'
    | BadUsage => True
    end) s.
Proof.
  intros Hdone Hts. revert ts0 s Hdone.
  induction Hts as [|arg t1 inputs ts Ht1 Hts IH]; intros ts0 s [Hv Hall] Hnd Hre; cbn [set_loop].
  { apply after_ret. by rewrite app_nil_r. }
  apply Forall_cons in Hre as [Hre1 Hre].
  assert (Hk : key t1 ∉ key <$> ts0).
  { rewrite fmap_app in Hnd. apply NoDup_app in Hnd as (_ & Hnd & _). intros Hk.
    apply (Hnd _ Hk). cbn. left. }
  assert (Hpre : ts0 ++ [t1] `prefix_of` ts0 ++ t1 :: ts)
    by (apply prefix_app, prefix_cons, prefix_nil).
  apply after_bind. eapply after_mono; [apply target_after|].
  intros found s1 [Htr1 Hf]. rewrite Ht1 in Hf. destruct found as [obj|]; [|done].
  destruct Hf as (? & [= <-] & -> & Ha & Hx & Hv1).
  apply after_bind, after_gets. apply after_bind, after_gets. unfold compose. rewrite Ha, Hx.
  apply after_bind. eapply after_mono; [apply read_after|].
  intros rc s2 [Hb2 Hm2].
  pose proof (vectors_found _ _ _ _ Hv Hv1) as Hv2.
  assert (Hn2 : held s2 = held s) by (unfold now; by rewrite Hb2, Htr1).
  destruct (is_ok rc); cbn [negb].
  2: { eapply (stop_after (ts0 ++ [t1])); [|by eauto]. left. exists ts0, t1. rewrite Hm2, Hn2.
       split_and!; [done|done|apply Hall]. }
  rewrite old_text_read in Hm2; [|done|unfold now; rewrite Htr1; by apply (proj2 (proj2 Hall))].
  assert (Hv3 : vectors (i_mem s2) = vectors_of (ts0 ++ [t1]) (ts0 ++ [t1]))
    by (rewrite Hm2; by apply vectors_read).
  apply after_bind. eapply after_mono; [apply change_after|]. intros rc2 s3 [Hm3 Ht3]. rewrite Hn2 in Ht3.
  destruct (is_ok rc2); cbn [negb].
  - rewrite (cons_middle t1 ts0 ts), (assoc_L (++)) in *. apply IH; [|done|done].
    split; [by rewrite Hm3|]. by eapply all_set_snoc.
  - eapply (stop_after (ts0 ++ [t1])); [|by eauto]. right. rewrite Hm3. split; [done|].
    rewrite fmap_app. eapply differs_touched; [apply Hall|exact Ht3].
Qed.

(** ** Setting back *)

(** An attribute whose old text is set has its old value. *)
Lemma restored t ok ct ct' :
  restorable t → (∀ o, ct o CLASS_NAME = ct0 o CLASS_NAME) → ok = true →
  touched schema (name_of (t_obj t)) (t_attr t) (old_text t) ok ct ct' →
  ct' (name_of (t_obj t)) (t_attr t) = ct0 (name_of (t_obj t)) (t_attr t).
Proof.
  intros (v & Hv & Hk) Hc Hok Ht. destruct (touched_ok _ _ _ _ _ _ _ Ht Hok) as (v' & Hn & ->).
  rewrite (new_value_same schema ct0 ct) in Hn by done. unfold new_value in Hn.
  destruct (class_of ct0 _) as [cls|] eqn:Hcls; [|done]. cbn in Hn.
  destruct (schema cls (t_attr t)) as [ty|] eqn:Hty; [|done]. cbn in Hn.
  assert (Hf : fits ty v) by (eapply Htyped; [done..|]; rewrite Hv; left).
  unfold old_text in Hn. rewrite Hv in Hn. destruct (getAttrValue v) as [txt|] eqn:Htxt; [|by destruct v].
  cbn in Hn. rewrite <- (proj1 Hf) in Hn. rewrite (value_text v txt Hk Htxt) in Hn. by simplify_eq.
Qed.

Lemma back_step ts i t ct ct' :
  ts !! i = Some t → restorable t → differs_at (key <$> skipn i ts) ct →
  touched schema (name_of (t_obj t)) (t_attr t) (old_text t) true ct ct' →
  differs_at (key <$> skipn (S i) ts) ct'.
Proof.
  intros Hi Hre [Hc Hd] Ht. rewrite (drop_S _ _ _ Hi) in Hd. cbn in Hd.
  split; [intros o; by rewrite (touched_class _ _ _ _ _ _ _ Ht), Hc|]. intros o a Hk.
  destruct (decide ((o, a) = key t)) as [[= -> ->]|Hne]; [by eapply restored|].
  rewrite (touched_others _ _ _ _ _ _ _ Ht) by exact Hne. apply Hd. by apply not_elem_of_cons.
Qed.

Lemma after_deref {A} (p : option A) (P : A → ImmProc SetT → Prop) s :
  (∀ a, p = Some a → P a s) → after (deref p) P s.
Proof. intros H a s' Hd. destruct p; [|done]. injection Hd as <- <-. by apply H. Qed.

(** The vectors have the same entries, and all are set back in the end. *)
Lemma back_loop_after ts n i s :
  vectors (i_mem s) = vectors_of ts ts → Forall restorable ts → (i + n = length ts)%nat →
  differs_at (key <$> skipn i ts) (held s) →
  after (back_loop n i) (λ ok s', ok = true → differs_at [] (held s')) s.
Proof.
  revert i s. induction n as [|n IH]; intros i s Hv Hre Hn Hd; cbn [back_loop].
  { apply after_ret. intros _. by rewrite drop_ge in Hd by lia. }
  destruct (lookup_lt_is_Some_2 ts i) as [t Ht]; [lia|].
  pose proof Hv as Hv'. unfold vectors_of in Hv. injection Hv as H1 H2 H3.
  do 3 apply after_bind, after_gets. unfold compose.
  rewrite H1, H2, H3, !list_lookup_fmap, Ht. cbn [fmap option_fmap option_map deref].
  do 3 apply after_bind, after_ret.
  apply after_bind. eapply after_mono; [by apply (modify_after ct0 schema Hserves)|].
  intros rc s' [Hm Htc]. destruct (is_ok rc); cbn [negb].
  - apply IH; [by rewrite Hm|done|lia|]. eapply back_step; [done| |done|done].
    rewrite Forall_forall in Hre. by eapply Hre, list_elem_of_lookup_2.
  - apply after_bind. intros [] s'' _. by apply after_ret.
Qed.

(** A value is missing for the last entry: the loop does not end well. *)
Lemma back_loop_short ts t n i s :
  vectors (i_mem s) = vectors_of (ts ++ [t]) ts → (i + n = S (length ts))%nat → (i ≤ length ts)%nat →
  after (back_loop n i) (λ ok _, ok = false) s.
Proof.
  revert i s. induction n as [|n IH]; intros i s Hv Hn Hi; cbn [back_loop]; [lia|].
  pose proof Hv as Hv'. unfold vectors_of in Hv. injection Hv as H1 H2 H3.
  do 3 apply after_bind, after_gets. unfold compose. rewrite H3, list_lookup_fmap.
  do 3 (apply after_bind, after_deref; intros ? ?).
  destruct (ts !! i) as [t'|] eqn:Ht; [|done]. apply after_bind. eapply after_mono; [by apply (modify_after ct0 schema Hserves)|].
  intros rc s' [Hm _]. apply lookup_lt_Some in Ht. destruct (is_ok rc); cbn [negb].
  - apply IH; [by rewrite Hm|lia|lia].
  - apply after_bind. intros [] s'' _. by apply after_ret.
Qed.

Lemma roll_back_after ts s :
  stopped_at ts s → Forall restorable ts →
  after roll_back (λ r s', r = 0 → differs_at [] (held s')) s.
Proof.
  intros Hs Hre. unfold roll_back. apply after_bind, after_gets.
  case_bool_decide; [by apply after_ret|]. case_bool_decide; [by apply after_ret|].
  apply after_bind. eapply (steps_after (still ct0)); [apply still_init|]. intros rc s1 Hst.
  apply (stopped_still _ _ _ Hst) in Hs. destruct (is_ok rc); cbn [negb]; [|by apply after_ret].
  apply after_bind, after_gets, after_bind. unfold compose.
  destruct Hs as [(ts' & t & -> & Hv & _)|[Hv Hd]].
  - assert (length (objNameVect (i_mem s1)) = S (length ts')) as ->.
    { unfold vectors_of in Hv. injection Hv as -> _ _. rewrite length_fmap, length_app. cbn. lia. }
    eapply after_mono; [by apply (back_loop_short ts' t); [exact Hv|lia|lia]|].
    intros ok s2 ->. by apply after_ret.
  - assert (length (objNameVect (i_mem s1)) = length ts) as ->.
    { unfold vectors_of in Hv. injection Hv as -> _ _. by rewrite length_fmap. }
    eapply after_mono; [by apply (back_loop_after ts)|]. intros ok s2 Hok.
    destruct ok; cbn [negb]; [|by apply after_ret].
    apply after_bind. eapply (steps_after (still ct0)); [apply still_finalize|]. intros [] s3 [_ Hb].
    apply after_ret. intros _. unfold now. rewrite Hb. by apply Hok.
Qed.

Lemma program_after args ts :
  asks_for (inputs_of args) ts → NoDup (key <$> ts) → Forall restorable ts →
  after (set_program args) (λ r s, r = 0 → all_set ts (held s) ∨ differs_at [] (held s))
    (mkImm [] newSet).
Proof.
  intros Hts Hnd Hre. unfold set_program. destruct args as [|arg args]; [by apply after_ret|].
  set (a0 := mkArgs [] 1 60 false). set (s0 := mkImm [] newSet). apply after_bind. intros parsed s1 Hp.
  destruct (arg_loop_inputs (arg :: args) a0 s0) as [Hs Hin]. rewrite Hp in Hs, Hin. cbn in Hs. subst s1.
  destruct parsed as [a|]; [|by apply after_ret]. specialize (Hin a eq_refl). cbn [sa_inputs a0 app] in Hin.
  destruct (_ && _); [by apply after_ret|].
  apply after_bind. eapply (steps_after (still ct0)); [apply still_init|]. intros rc s1 [Hv Hb].
  destruct (is_ok rc); cbn [negb]; [|by apply after_ret].
  apply after_bind. eapply after_mono; [eapply (set_loop_after _ _ _ [] ts); [|by rewrite Hin|done|done]|].
  { split; [by rewrite Hv|]. split; [constructor|]. unfold now. by rewrite Hb. }
  intros [] s2 H2; [| |by apply after_ret].
  - apply after_bind. eapply (steps_after (still ct0)); [apply still_finalize|]. intros [] s3 [_ Hb3].
    apply after_ret. intros _. left. unfold now. rewrite Hb3. apply H2.
  - destruct H2 as (ts1 & [ts2 Hts1] & H2). eapply after_mono; [apply (roll_back_after ts1); [done|]|].
    { cbn in Hts1. rewrite Hts1, Forall_app in Hre. apply Hre. }
    intros r s3 H3 Hr. right. by apply H3.
Qed.

(** C9: when [immset] returns 0, either all attributes it was asked to set have the value
    the text stands for and no other attribute is changed, or nothing is changed: every
    attribute it had set is back at its old value.  It holds for any answers of the library
    and any options, for arguments that name different attributes that have one value which
    survives in text. *)
Theorem immset_atomic args ts s' :
  immset_main args (mkImm [] newSet) = (Val 0, s') →
  asks_for (inputs_of args) ts → NoDup (key <$> ts) → Forall restorable ts →
  all_set ts (held s') ∨ ∀ o a, held s' o a = ct0 o a.
Proof.
  intros Hrun Hts Hnd Hre.
  enough (H : after (immset_main args) (λ r s', r = 0 →
    all_set ts (held s') ∨ ∀ o a, held s' o a = ct0 o a) (mkImm [] newSet)) by (by eapply H).
  clear s' Hrun. unfold immset_main. apply after_bind.
  eapply (after_mono _ (λ r s, r = 0 → all_set ts (held s) ∨ differs_at [] (held s))).
  - by apply program_after.
  - intros r s H. apply after_bind. eapply (steps_after (still ct0)); [apply still_destroy|].
    intros [] s' [_ Hb]. apply after_ret. intros Hr. unfold now. rewrite Hb.
    destruct (H Hr) as [Ha|[_ Hd]]; [by left|right]. intros o a. apply Hd. apply not_elem_of_nil.
Qed.
End atomic.

(** ** An example *)

Definition x_target : Target := mkTarget "obj=1" "x" "7".
Definition y_target : Target := mkTarget "obj=1" "y" "new".

Lemma demo_asks : asks_for ["x=7:obj=1"; "y=new:obj=1"]%string [x_target; y_target].
Proof. repeat constructor. Qed.

Lemma demo_distinct : NoDup (key <$> [x_target; y_target]).
Proof. apply (bool_decide_unpack _). vm_compute. exact I. Qed.

Lemma demo_restorable : Forall (restorable Demo.content) [x_target; y_target].
Proof.
  apply Forall_cons; split; [|apply Forall_cons; split; [|constructor]].
  - exists (VInt32 (-5)). split; [vm_compute; reflexivity|]. cbn. lia.
  - exists (VString "old"). split; [vm_compute; reflexivity|done].
Qed.

(** The second change is not taken: the first one is set back, and the command returns 0. *)
Lemma immset_atomic_witness :
  let env := honest Demo.content Demo.classes Demo.picky in
  let run := immset_main (E := env) ["x=7:obj=1"; "y=new:obj=1"]%string (mkImm [] newSet) in
  run.1 = Val 0
  ∧ (all_set Demo.content (schema_of Demo.classes) [x_target; y_target]
       (now Demo.content (i_trace run.2))
     ∨ ∀ o a, now Demo.content (i_trace run.2) o a = Demo.content o a).
Proof.
  cbv zeta. set (run := immset_main _ _). split; [vm_compute; reflexivity|].
  apply (immset_atomic (E := honest Demo.content Demo.classes Demo.picky) Demo.content
    (schema_of Demo.classes) (honest_serves _ _ _) demo_typed ["x=7:obj=1"; "y=new:obj=1"]%string).
  - assert (H : (run).1 = Val 0) by (vm_compute; reflexivity). rewrite <- H. apply surjective_pairing.
  - exact demo_asks.
  - exact demo_distinct.
  - exact demo_restorable.
Defined.
