(* ===== verification/ImmHonest.v ===== *)
(** * immset with a library that does what it is asked

    With a library that refuses nothing [immset] sets what it is asked to set; and this is
    what happens when an argument turns out to be wrong, or a value cannot be read, after
    others were set. *)

From S2P Require Import Prelude CString World ImmLib ImmValues ImmSet ImmSetSpec ImmDemo ImmTypes ImmAtomic.

Open Scope Z_scope.

(** ** Closing always returns *)

Section closing.
Context `{FL : Floats} `{E : !ImmEnv FL}.

Definition anyhow : relation (ImmProc (FL := FL) SetT) := λ _ _, True.

#[local] Instance anyhow_preorder : PreOrder anyhow.
Proof. by split. Qed.

Lemma does_imm (c : ImmCall FL) : does anyhow (imm c).
Proof. by intros s. Qed.
Lemma does_imem {A} (f : SetT → A) : does anyhow (imem f).
Proof. by intros s. Qed.
Lemma does_iupd f : does anyhow (iupd f).
Proof. by intros s. Qed.
#[local] Hint Resolve does_imm does_imem does_iupd : does.

Lemma does_retried {A} (code : A → SaAisErrorT) (m : M (ImmProc SetT) A) :
  does anyhow m → does anyhow (retried code m).
Proof.
  intros Hm. assert (Ht : does anyhow (then_sleep m)) by (unfold then_sleep; solve_does).
  unfold retried. solve_does. revert a. generalize (IMM_MAX_RETRY - 1)%nat.
  intros n. induction n as [|n IH]; intros a; cbn [try_again]; solve_does.
Qed.

Lemma does_finalize : does anyhow finalizeImm.
Proof.
  unfold finalizeImm, finalizeImmOmAccessor, finalizeImmOm.
  solve_does; match goal with |- does _ (retried _ (imm ?c)) => apply does_retried, (does_imm c) end.
Qed.

Lemma does_runs {A} (m : M (ImmProc (FL := FL) SetT) A) s : does anyhow m → ∃ a s', m s = (Val a, s').
Proof.
  intros Hm. specialize (Hm s). unfold wp in Hm. destruct (m s) as [[a| | |] s'] eqn:H; cbn in Hm; try done.
  by exists a, s'.
Qed.

(** The end of the program: what is held stays. *)
Lemma closing_runs ct0 (r : Z) s :
  ∃ s', (destroy;; mret r) s = (Val r, s') ∧ bundle ct0 (i_trace s') = bundle ct0 (i_trace s).
Proof.
  assert (Hd : does anyhow destroy) by (unfold destroy; solve_does; apply does_finalize).
  destruct (does_runs _ s Hd) as ([] & s' & H). exists s'. split; [by erewrite bind_Val by exact H|].
  by destruct (steps_run _ _ _ _ _ (still_destroy ct0) H) as [_ Hb].
Qed.

Lemma finalize_runs ct0 (r : Z) s :
  ∃ s', (finalizeImm;; mret r) s = (Val r, s') ∧ bundle ct0 (i_trace s') = bundle ct0 (i_trace s).
Proof.
  destruct (does_runs _ s does_finalize) as ([] & s' & H). exists s'. split; [by erewrite bind_Val by exact H|].
  by destruct (steps_run _ _ _ _ _ (still_finalize ct0) H) as [_ Hb].
Qed.
End closing.

(** ** The history only grows *)

Section history.
Context `{FL : Floats} `{E : !ImmEnv FL}.

Definition extends (s s' : ImmProc (FL := FL) SetT) : Prop := ∃ new, i_trace s' = new ++ i_trace s.

#[local] Instance extends_preorder : PreOrder extends.
Proof.
  split; [by exists []|]. intros s1 s2 s3 [n1 H1] [n2 H2]. exists (n2 ++ n1). by rewrite H2, H1, app_assoc.
Qed.

Lemma extends_imm (c : ImmCall FL) : steps extends (imm c).
Proof. intros s. by eexists [_]. Qed.
Lemma extends_imem {A} (f : SetT → A) : steps extends (imem f).
Proof. intros s. by exists []. Qed.
Lemma extends_iupd f : steps extends (iupd f).
Proof. intros s. by exists []. Qed.
#[local] Hint Resolve extends_imem extends_iupd : steps.
#[local] Hint Extern 1 (steps extends (imm ?c)) => exact (extends_imm c) : steps.

Lemma extends_try_again {A} n (code : A → SaAisErrorT) m r :
  steps extends m → steps extends (try_again n code m r).
Proof. intros Hm. revert r. induction n as [|n IH]; intros r; cbn [try_again]; solve_steps. Qed.

Lemma extends_retried {A} (code : A → SaAisErrorT) m : steps extends m → steps extends (retried code m).
Proof. intros Hm. unfold retried, then_sleep. solve_steps. apply extends_try_again. solve_steps. Qed.

Lemma extends_repeated t n m : steps extends m → steps extends (repeated t n m).
Proof.
  intros Hm. assert (Hb : ∀ k rc, steps extends (while_busy k m rc)).
  { intros k. induction k as [|k IH]; intros rc; cbn [while_busy]; solve_steps. }
  assert (Ht : ∀ k rc, steps extends (while_timeout k m rc)).
  { intros k. induction k as [|k IH]; intros rc; cbn [while_timeout]; solve_steps. }
  unfold repeated. solve_steps.
Qed.

Lemma extends_finalize : steps extends finalizeImm.
Proof.
  unfold finalizeImm, finalizeImmOmAccessor, finalizeImmOm. solve_steps; apply extends_retried; solve_steps.
Qed.

Lemma extends_init : steps extends initImm.
Proof.
  unfold initImm, initImmOm, initImmOmAccessor, finalizeImmOm. solve_steps; apply extends_retried; solve_steps.
Qed.

Lemma extends_modify obj attr txt : steps extends (modifyImmObject obj attr txt).
Proof.
  unfold modifyImmObject, immGetClassName, immGetAttrValueType, apply_change, release_owner.
  solve_steps; apply extends_try_again; solve_steps.
Qed.
#[local] Hint Resolve extends_finalize extends_init extends_modify : steps.

Lemma extends_set_loop t n inputs : steps extends (set_loop t n inputs).
Proof.
  induction inputs as [|arg inputs IH]; cbn [set_loop]; unfold getAttrAndDN, getAttributes;
    solve_steps; apply extends_repeated; solve_steps.
Qed.

Lemma extends_roll_back : steps extends roll_back.
Proof.
  assert (Hb : ∀ n i, steps extends (back_loop n i)).
  { intros n. induction n as [|n IH]; intros i; cbn [back_loop]; solve_steps. }
  unfold roll_back. solve_steps.
Qed.
End history.

(** ** Only reads are refused *)

Section willing.
Context `{FL : Floats}.
Context (ct0 : SaNameT → string → list (SaImmAttrValueT FL)).
Context (classes : string → list (string * SaImmValueTypeT)).
Context (hidden : SaNameT → bool).

(** Some objects cannot be read; all other calls are successful. *)
Definition hides (_ : ImmTrace FL) (c : ImmCall FL) : option SaAisErrorT :=
  match c with AccessorGet o _ => if hidden o then Some SA_AIS_ERR_NOT_EXIST else None | _ => None end.
Definition willing : ImmEnv FL := honest ct0 classes hides.
#[local] Existing Instance willing.

Abbreviation schema := (schema_of classes).
Abbreviation held s := (now ct0 (i_trace s)).
Abbreviation MI := (M (ImmProc (FL := FL) SetT)).

Definition succeeds (m : MI SaAisErrorT) (s : ImmProc SetT) : Prop := ∃ s', m s = (Val SA_AIS_OK, s').

Ltac run_call :=
  erewrite bind_Val by reflexivity; cbn [imm_answer willing honest verdict hides default is_ok negb].

Lemma read_succeeds obj attr s : hidden (name_of obj) = false → succeeds (getAttributes obj attr) s.
Proof. intros Hh. unfold succeeds, getAttributes. run_call. rewrite Hh. by eexists. Qed.

Lemma read_fails obj attr s :
  hidden (name_of obj) = true → ∃ s', getAttributes obj attr s = (Val SA_AIS_ERR_NOT_EXIST, s').
Proof. intros Hh. unfold getAttributes. run_call. rewrite Hh. by eexists. Qed.

Lemma class_name_succeeds o cls (s : ImmProc SetT) :
  hidden o = false → class_of (held s) o = Some cls →
  ∃ s', immGetClassName o s = (Val (SA_AIS_OK, cls), s').
Proof.
  intros Hh Hc. unfold immGetClassName. unfold class_of in Hc.
  erewrite bind_Val; [|run_call; by rewrite Hh].
  cbn [default is_ok]. fold CLASS_NAME.
  destruct (held s o CLASS_NAME) as [|[] vs]; try done. injection Hc as ->. by eexists.
Qed.

(** What can be set: the object can be read, its class has the attribute, and its type has the value. *)
Definition settable (t : Target) : Prop :=
  hidden (name_of (t_obj t)) = false ∧ t_attr t ≠ CLASS_NAME
  ∧ is_Some (new_value schema ct0 (name_of (t_obj t)) (t_attr t) (t_text t)).

Lemma modify_succeeds obj attr txt v s :
  hidden (name_of obj) = false → attr ≠ CLASS_NAME →
  new_value schema (held s) (name_of obj) attr txt = Some v → succeeds (modifyImmObject obj attr txt) s.
Proof.
  intros Hh Ha Hv. unfold new_value in Hv. destruct (class_of (held s) (name_of obj)) as [cls|] eqn:Hc; [|done].
  cbn [mbind option_bind] in Hv. unfold schema_of in Hv.
  destruct (class_name_succeeds _ _ _ Hh Hc) as [s1 H1].
  destruct (List.find _ (classes cls)) as [[n ty]|] eqn:Hf; [|done]. cbn in Hv.
  unfold succeeds, modifyImmObject. erewrite bind_Val by exact H1. cbn [is_ok negb].
  assert (H2 : ∃ s2, immGetAttrValueType cls attr s1 = (Val (SA_AIS_OK, ty), s2)).
  { unfold immGetAttrValueType. run_call. rewrite Hf. by eexists. }
  destruct H2 as [s2 H2]. erewrite bind_Val by exact H2. cbn [is_ok negb].
  do 3 run_call. rewrite Hv. unfold apply_change. run_call. unfold streq.
  rewrite (proj2 (String.eqb_neq attr CLASS_NAME) Ha). by eexists.
Qed.

(** ** A turn of the loop *)

Lemma target_found arg t s :
  target arg = Some t → ∃ s', getAttrAndDN arg s = (Val (Some (t_obj t)), s').
Proof.
  unfold target, getAttrAndDN. intros H. destruct (split_last ":" arg) as [[attr obj]|]; [|done].
  cbn [mbind option_bind] in H. erewrite bind_Val by reflexivity.
  destruct (split_last "=" attr) as [[name value]|]; [|done]. cbn in H. simplify_eq. by eexists.
Qed.

Lemma target_missing arg s :
  target arg = None → ∃ s', getAttrAndDN arg s = (Val None, s') ∧ i_trace s' = i_trace s.
Proof.
  unfold target, getAttrAndDN. intros H. destruct (split_last ":" arg) as [[attr obj]|]; [|by eexists].
  cbn [mbind option_bind] in H. destruct (split_last "=" attr) as [[name value]|]; [done|]. by eexists.
Qed.

Lemma honest_willing : Serves ct0 schema.
Proof. apply honest_serves. Qed.

Lemma turn_succeeds t n arg t1 rest s :
  target arg = Some t1 → hidden (name_of (t_obj t1)) = false → t_attr t1 ≠ CLASS_NAME →
  is_Some (new_value schema (held s) (name_of (t_obj t1)) (t_attr t1) (t_text t1)) →
  ∃ s', set_loop t n (arg :: rest) s = set_loop t n rest s'
    ∧ touched schema (name_of (t_obj t1)) (t_attr t1) (t_text t1) true (held s) (held s')
    ∧ vectors (i_mem s') = (objNameVect (i_mem s) ++ [t_obj t1], attrNameVect (i_mem s) ++ [t_attr t1],
        attrValVect (i_mem s)
        ++ attr_texts (mkAttr (t_attr t1) SAANYT (held s (name_of (t_obj t1)) (t_attr t1)))).
Proof.
  intros Ht Hh Ha [v Hv]. cbn [set_loop]. destruct (target_found arg t1 s Ht) as [s1 H1].
  destruct (target_after arg s _ _ H1) as (Htr & t1' & Ht' & _ & Hn & Hx & Hv1). simplify_eq.
  erewrite bind_Val by exact H1. cbv beta iota. do 2 (erewrite bind_Val by reflexivity; cbv beta).
  unfold compose. rewrite Hn, Hx.
  destruct (read_succeeds (t_obj t1) (t_attr t1) s1 Hh) as [s2 H2].
  pose proof (repeated_once t n _ _ _ _ H2 eq_refl) as H2'.
  destruct (read_after ct0 schema honest_willing t n _ _ _ _ _ H2') as [Hb2 Hm2].
  erewrite bind_Val by exact H2'. cbn [is_ok negb] in *.
  assert (Hheld : held s2 = held s ∧ held s1 = held s) by (unfold now; by rewrite Hb2, Htr).
  destruct Hheld as [Hh2 Hh1]. rewrite Hh1 in Hm2.
  destruct (modify_succeeds (t_obj t1) (t_attr t1) (t_text t1) v s2 Hh Ha) as [s3 H3]; [by rewrite Hh2|].
  pose proof (repeated_once t n _ _ _ _ H3 eq_refl) as H3'.
  destruct (change_after ct0 schema honest_willing t n _ _ _ _ _ _ H3') as [Hm3 Htc].
  erewrite bind_Val by exact H3'. cbn [is_ok negb]. exists s3. rewrite <- Hh2. split_and!; [done..|].
  rewrite Hm3, Hm2. injection Hv1 as Ho Han Hval. unfold vectors. cbn. by rewrite Ho, Han, Hval, Hh2.
Qed.

Lemma turns_succeed t n inputs rest ts0 ts s :
  all_set ct0 schema ts0 (held s) → asks_for inputs ts → NoDup (key <$> ts0 ++ ts) → Forall settable ts →
  ∃ s', set_loop t n (inputs ++ rest) s = set_loop t n rest s' ∧ all_set ct0 schema (ts0 ++ ts) (held s')
    ∧ (Forall (restorable ct0) ts → vectors (i_mem s) = vectors_of ct0 ts0 ts0 →
       vectors (i_mem s') = vectors_of ct0 (ts0 ++ ts) (ts0 ++ ts)).
Proof.
  intros Hs Hts. revert ts0 s Hs.
  induction Hts as [|arg t1 inputs ts Ht1 Hts IH]; intros ts0 s Hs Hnd Hset.
  { exists s. by rewrite app_nil_r. }
  apply Forall_cons in Hset as [(Hh & Ha & Hv) Hset].
  destruct (turn_succeeds t n arg t1 (inputs ++ rest) s Ht1 Hh Ha) as (s1 & Hrun & Htc & Hvec).
  { rewrite (new_value_same schema ct0 (held s)); [exact Hv|]. apply (proj1 (proj2 Hs)). }
  assert (Hk : key t1 ∉ key <$> ts0).
  { rewrite fmap_app in Hnd. apply NoDup_app in Hnd as (_ & Hnd & _). intros Hk.
    apply (Hnd _ Hk). cbn. left. }
  cbn [app]. rewrite Hrun, (cons_middle t1 ts0 ts), (assoc_L (++)) in *.
  destruct (IH (ts0 ++ [t1]) s1) as (s' & Hrun' & Hs' & Hvec'); [by eapply all_set_snoc|done|done|].
  exists s'. split_and!; [done..|]. intros [Hre1 Hre]%Forall_cons Hvs. apply Hvec'; [done|].
  rewrite Hvec. rewrite (old_text_read ct0 t1 (held s) Hre1) by (by apply (proj2 (proj2 Hs))).
  unfold vectors_of in *. injection Hvs as -> -> ->. by rewrite !fmap_app.
Qed.

(** ** The program *)

(** An argument that is no option and that [isValidArgument] accepts. *)
Definition accepted (arg : string) : Prop :=
  set_option arg = None ∧ (MAX_BUFF <=? String.length arg)%nat = false
  ∧ strstr arg "==" = false ∧ (tokens ":" false arg <= 2)%nat
  ∧ ∃ p q, strchr arg "=" = Some (p, q) ∧ strstr q "=" = true.

Lemma accepted_valid arg s : accepted arg → isValidArgument arg s = (Val true, s).
Proof.
  intros (_ & Hl & He & Ht & p & q & Hc & Hq). unfold isValidArgument. rewrite Hl, He, Hc, Hq. cbn [negb].
  by rewrite (proj2 (Nat.ltb_ge _ _) Ht).
Qed.

Lemma args_accepted args a s :
  Forall accepted args →
  arg_loop args a s = (Val (Some (mkArgs (sa_inputs a ++ args) (sa_retry a) (sa_timeout a) (sa_options a))), s).
Proof.
  intros H. revert a. induction H as [|arg args Harg _ IH]; intros [ins r t o]; cbn [arg_loop].
  { cbn. by rewrite app_nil_r. }
  rewrite (proj1 Harg). erewrite bind_Val by (by apply accepted_valid). cbn [negb]. rewrite IH.
  cbn. by rewrite <- (assoc_L (++)).
Qed.

(** The loop over the arguments, from the start of the program. *)
Lemma program_runs arg args :
  Forall accepted (arg :: args) →
  ∃ s, (bundle ct0 (i_trace s) = (ct0, []) ∧ vectors (i_mem s) = vectors_of ct0 [] [])
    ∧ set_program (arg :: args) (mkImm [] newSet)
      = (e ← set_loop 60 1 (arg :: args);
         match e with BadUsage => mret (-1) | RollBack => roll_back | AllSet => finalizeImm;; mret 0 end) s.
Proof.
  intros H. unfold set_program. erewrite bind_Val by (by apply args_accepted).
  cbn [sa_options sa_inputs sa_timeout sa_retry app andb]. eexists. split; [split|]; cycle 2; reflexivity.
Qed.

(** The program from a state where the loop has ended. *)
Lemma main_runs args (s1 : ImmProc SetT) r s2 ts :
  set_program args (mkImm [] newSet) = (Val r, s2) → bundle ct0 (i_trace s2) = bundle ct0 (i_trace s1) →
  all_set ct0 schema ts (held s1) →
  ∃ s', immset_main args (mkImm [] newSet) = (Val r, s') ∧ all_set ct0 schema ts (held s').
Proof.
  intros Hrun Hb Hs. unfold immset_main. erewrite bind_Val by exact Hrun.
  destruct (closing_runs ct0 r s2) as (s' & H & Hb'). exists s'. split; [done|].
  unfold now. by rewrite Hb', Hb.
Qed.

Lemma nothing_set (s : ImmProc SetT) : bundle ct0 (i_trace s) = (ct0, []) → all_set ct0 schema [] (held s).
Proof. intros Hb. unfold now. rewrite Hb. split; [constructor|done]. Qed.

(** C36: with a library that refuses nothing [immset] returns 0, every attribute it was asked
    to set has the value its text stands for, and no other attribute is changed. *)
Theorem immset_sets arg args ts :
  Forall accepted (arg :: args) → asks_for (arg :: args) ts → NoDup (key <$> ts) → Forall settable ts →
  ∃ s', immset_main (arg :: args) (mkImm [] newSet) = (Val 0, s') ∧ all_set ct0 schema ts (held s').
Proof.
  intros Hacc Hts Hnd Hset. destruct (program_runs arg args Hacc) as (s & [Hb _] & Hrun).
  destruct (turns_succeed 60 1 (arg :: args) [] [] ts s (nothing_set s Hb) Hts Hnd Hset) as (s1 & H1 & Hs & _).
  rewrite app_nil_r in H1. destruct (finalize_runs ct0 0 s1) as (s2 & H2 & Hb2).
  eapply main_runs; [|exact Hb2|exact Hs]. rewrite Hrun. erewrite bind_Val by exact H1. exact H2.
Qed.

(** An argument without a colon passes [isValidArgument], and it is only when its turn
    comes that [immset] gives up: it returns -1 and all the attributes before it are set;
    they are not set back. *)
Theorem late_usage_error args bad rest ts :
  Forall accepted (args ++ bad :: rest) → target bad = None →
  asks_for args ts → NoDup (key <$> ts) → Forall settable ts →
  ∃ s', immset_main (args ++ bad :: rest) (mkImm [] newSet) = (Val (-1), s') ∧ all_set ct0 schema ts (held s').
Proof.
  intros Hacc Hbad Hts Hnd Hset.
  destruct (args ++ bad :: rest) as [|arg args'] eqn:Ha; [by destruct args|].
  destruct (program_runs arg args' Hacc) as (s & [Hb _] & Hrun).
  destruct (turns_succeed 60 1 args (bad :: rest) [] ts s (nothing_set s Hb) Hts Hnd Hset) as (s1 & H1 & Hs & _).
  rewrite Ha in H1.
  assert (H2 : ∃ s2, set_loop 60 1 (bad :: rest) s1 = (Val BadUsage, s2) ∧ i_trace s2 = i_trace s1).
  { destruct (target_missing bad s1 Hbad) as (s2 & H2 & Htr). exists s2. split; [|done].
    cbn [set_loop]. by erewrite bind_Val by exact H2. }
  destruct H2 as (s2 & H2 & Htr). eapply (main_runs _ s1 _ s2); [|by rewrite Htr|exact Hs].
  rewrite Hrun. erewrite bind_Val by (rewrite H1; exact H2). done.
Qed.

(** ** A value that cannot be read *)

Lemma turn_fails t n arg t1 rest s :
  target arg = Some t1 → hidden (name_of (t_obj t1)) = true →
  ∃ s', set_loop t n (arg :: rest) s = (Val RollBack, s')
    ∧ bundle ct0 (i_trace s') = bundle ct0 (i_trace s)
    ∧ vectors (i_mem s') = (objNameVect (i_mem s) ++ [t_obj t1], attrNameVect (i_mem s) ++ [t_attr t1],
        attrValVect (i_mem s)).
Proof.
  intros Ht Hh. cbn [set_loop]. destruct (target_found arg t1 s Ht) as [s1 H1].
  destruct (target_after arg s _ _ H1) as (Htr & t1' & Ht' & _ & Hn & Hx & Hv1). simplify_eq.
  erewrite bind_Val by exact H1. cbv beta iota. do 2 (erewrite bind_Val by reflexivity; cbv beta).
  unfold compose. rewrite Hn, Hx.
  destruct (read_fails (t_obj t1) (t_attr t1) s1 Hh) as [s2 H2].
  pose proof (repeated_once t n _ _ _ _ H2 eq_refl) as H2'.
  destruct (read_after ct0 schema honest_willing t n _ _ _ _ _ H2') as [Hb2 Hm2].
  erewrite bind_Val by exact H2'. cbn [is_ok negb] in *.
  destruct (does_runs _ s2 does_finalize) as ([] & s3 & H3).
  destruct (steps_run _ _ _ _ _ (still_finalize ct0) H3) as [Hv3 Hb3].
  exists s3. split; [by erewrite bind_Val by exact H3|]. by rewrite Hb3, Hb2, Htr, Hv3, Hm2.
Qed.

Context (Htyped : well_typed schema ct0).

(** The old text of an attribute can be set. *)
Lemma old_text_settable t ct :
  settable t → restorable ct0 t → (∀ o, ct o CLASS_NAME = ct0 o CLASS_NAME) →
  is_Some (new_value schema ct (name_of (t_obj t)) (t_attr t) (old_text ct0 t)).
Proof.
  intros (_ & _ & [v' Hv']) (v & Hv & Hk) Hc. rewrite (new_value_same schema ct0 ct) by done.
  unfold new_value in *. destruct (class_of ct0 _) as [cls|] eqn:Hcls; [|done]. cbn in *.
  destruct (schema cls (t_attr t)) as [ty|] eqn:Hty; [|done]. cbn in *.
  assert (Hf : fits ty v) by (eapply Htyped; [done..|]; rewrite Hv; left).
  unfold old_text. rewrite Hv. destruct (getAttrValue v) as [txt|] eqn:Htxt; [|by destruct v].
  cbn. rewrite <- (proj1 Hf), (value_text v txt Hk Htxt). done.
Qed.

Lemma back_loop_undefined ts tb n i s :
  vectors (i_mem s) = vectors_of ct0 (ts ++ [tb]) ts → (i + n = S (length ts))%nat → (i ≤ length ts)%nat →
  Forall settable ts → Forall (restorable ct0) ts → differs_at ct0 (key <$> skipn i ts) (held s) →
  ∃ s', back_loop n i s = (Undef, s') ∧ vectors (i_mem s') = vectors (i_mem s) ∧ ∀ o a, held s' o a = ct0 o a.
Proof.
  revert i s. induction n as [|n IH]; intros i s Hv Hn Hi Hset Hre Hd; cbn [back_loop]; [lia|].
  pose proof Hv as Hv'. unfold vectors_of in Hv. injection Hv as H1 H2 H3.
  do 3 (erewrite bind_Val by reflexivity; cbv beta). unfold compose. rewrite H1, H2, H3, !list_lookup_fmap.
  destruct (lookup_lt_is_Some_2 (ts ++ [tb]) i) as [t Ht]; [rewrite length_app; cbn; lia|]. rewrite Ht.
  do 2 (erewrite bind_Val by reflexivity; cbv beta).
  destruct (ts !! i) as [t'|] eqn:Ht'.
  2: { apply lookup_ge_None in Ht'. rewrite skipn_all2 in Hd by done. eexists. split; [reflexivity|].
       split; [done|]. intros o a. by apply (proj2 Hd), not_elem_of_nil. }
  rewrite (lookup_app_l_Some _ _ _ _ Ht') in Ht. simplify_eq.
  erewrite bind_Val by reflexivity; cbv beta.
  rewrite Forall_forall in Hset, Hre. pose proof (list_elem_of_lookup_2 _ _ _ Ht') as Hin.
  destruct (old_text_settable t (held s) (Hset _ Hin) (Hre _ Hin) (proj1 Hd)) as [v Hnew].
  destruct (Hset _ Hin) as (Hh & Ha & _).
  destruct (modify_succeeds (t_obj t) (t_attr t) (old_text ct0 t) v s Hh Ha Hnew) as [s1 Hrun].
  destruct (modify_after ct0 schema honest_willing _ _ _ _ _ _ Hrun) as [Hm Htc].
  erewrite bind_Val by exact Hrun. cbn [is_ok negb]. pose proof (lookup_lt_Some _ _ _ Ht').
  rewrite <- Hm. apply IH; [by rewrite Hm|lia|lia|by apply Forall_forall|by apply Forall_forall|].
  eapply (back_step ct0 schema Htyped ts); [exact Ht'|by apply Hre|exact Hd|exact Htc].
Qed.

Lemma roll_back_undefined ts tb s :
  vectors (i_mem s) = vectors_of ct0 (ts ++ [tb]) ts → Forall settable ts → Forall (restorable ct0) ts →
  ts ≠ [] → "<Empty>"%string ∉ old_text ct0 <$> ts → differs_at ct0 (key <$> ts) (held s) →
  ∃ s', roll_back s = (Undef, s') ∧ vectors (i_mem s') = vectors (i_mem s) ∧ ∀ o a, held s' o a = ct0 o a.
Proof.
  intros Hv Hset Hre Hne Hempty Hd. unfold roll_back. erewrite bind_Val by reflexivity. cbv beta.
  pose proof Hv as Hv'. unfold vectors_of in Hv. injection Hv as H1 _ H3. unfold compose. rewrite H3.
  rewrite bool_decide_false by (by destruct ts). rewrite bool_decide_false by done.
  assert (Hi : ∃ s1, initImm s = (Val SA_AIS_OK, s1)) by (by eexists). destruct Hi as [s1 Hi].
  destruct (steps_run _ _ _ _ _ (still_init ct0) Hi) as [Hv1 Hb1].
  erewrite bind_Val by exact Hi. cbn [is_ok negb]. erewrite bind_Val by reflexivity. cbv beta.
  assert (Hl : length (objNameVect (i_mem s1)) = S (length ts)).
  { rewrite Hv' in Hv1. injection Hv1 as -> _ _. rewrite length_fmap, length_app. cbn. lia. }
  unfold compose. rewrite Hl. destruct (back_loop_undefined ts tb (S (length ts)) 0 s1) as (s2 & H2 & Hv2 & Hr2);
    [by rewrite Hv1|lia|lia|done|done|unfold now; by rewrite Hb1|].
  exists s2. split; [unfold mbind, M_bind; by rewrite H2|]. by rewrite Hv2, Hv1.
Qed.

(** C37: when a value cannot be read after others were set, the vector of old values is one
    entry shorter than that of the objects.  [immset] has set the others by then; it sets all
    of them back, so that every attribute has its first value again, and then reads past the
    end of the vector: it neither returns 0 nor -1.  This is for distinct attributes with a
    single value that survives in text and is not printed as <Empty>. *)
Theorem read_failure_undefined args bad rest ts tb :
  Forall accepted (args ++ bad :: rest) → asks_for args ts → target bad = Some tb →
  NoDup (key <$> ts) → Forall settable ts → Forall (restorable ct0) ts →
  hidden (name_of (t_obj tb)) = true → ts ≠ [] → "<Empty>"%string ∉ old_text ct0 <$> ts →
  ∃ s', immset_main (args ++ bad :: rest) (mkImm [] newSet) = (Undef, s')
    ∧ (∃ before later, i_trace s' = later ++ before ∧ all_set ct0 schema ts (now ct0 before))
    ∧ (∀ o a, held s' o a = ct0 o a)
    ∧ length (objNameVect (i_mem s')) = S (length ts) ∧ length (attrValVect (i_mem s')) = length ts.
Proof.
  intros Hacc Hts Hbad Hnd Hset Hre Hh Hne Hempty.
  destruct (args ++ bad :: rest) as [|arg args'] eqn:Ha; [by destruct args|].
  destruct (program_runs arg args' Hacc) as (s & [Hb Hv] & Hrun).
  destruct (turns_succeed 60 1 args (bad :: rest) [] ts s (nothing_set s Hb) Hts Hnd Hset) as (s1 & H1 & Hs & Hv1).
  specialize (Hv1 Hre Hv). rewrite Ha in H1. cbn [app] in *.
  destruct (turn_fails 60 1 bad tb rest s1 Hbad Hh) as (s2 & H2 & Hb2 & Hv2).
  pose proof (vectors_found ct0 ts tb _ _ Hv1 Hv2) as Hv3.
  destruct (roll_back_undefined ts tb s2 Hv3 Hset Hre Hne Hempty) as (s3 & H3 & Hv4 & Hback).
  { unfold now. rewrite Hb2. apply (proj2 Hs). }
  assert (Hp : set_program (arg :: args') (mkImm [] newSet) = (Undef, s3))
    by (rewrite Hrun; erewrite bind_Val by (rewrite H1; exact H2); exact H3).
  exists s3. split; [unfold immset_main, mbind, M_bind; by rewrite Hp|]. split.
  { destruct (steps_run extends _ _ _ _ (extends_set_loop 60 1 (bad :: rest)) H2) as [n2 E2].
    destruct (steps_run extends _ _ _ _ extends_roll_back H3) as [n3 E3].
    exists (i_trace s1), (n3 ++ n2). by rewrite E3, E2, app_assoc. }
  split; [exact Hback|]. rewrite Hv3 in Hv4. unfold vectors_of, vectors in Hv4. injection Hv4 as -> _ ->.
  rewrite !length_fmap, length_app. cbn. lia.
Qed.
End willing.

(** ** An example *)

Definition demo_hidden (o : SaNameT) : bool := bool_decide (o = name_of "obj=2").

Ltac demo_accept :=
  split; [reflexivity|]; split; [reflexivity|]; split; [reflexivity|];
  split; [apply Nat.leb_le; reflexivity|]; do 2 eexists; split; reflexivity.

Lemma demo_accepted : Forall accepted ["x=7:obj=1"; "y=new:obj=1"; "y=a=b"; "y=new:obj=2"]%string.
Proof.
  repeat (apply Forall_cons; split; [demo_accept|]). constructor.
Qed.

Lemma demo_settable : Forall (settable Demo.content Demo.classes demo_hidden) [x_target; y_target].
Proof.
  apply Forall_cons; split; [|apply Forall_cons; split; [|constructor]];
    (split_and!; [vm_compute; reflexivity|by vm_compute|eexists; vm_compute; reflexivity]).
Qed.

Lemma immset_sets_witness :
  let env := willing Demo.content Demo.classes demo_hidden in
  ∃ s', immset_main (E := env) ["x=7:obj=1"; "y=new:obj=1"]%string (mkImm [] newSet) = (Val 0, s')
    ∧ all_set Demo.content (schema_of Demo.classes) [x_target; y_target] (now Demo.content (i_trace s')).
Proof.
  apply (immset_sets Demo.content Demo.classes demo_hidden "x=7:obj=1"%string ["y=new:obj=1"]%string).
  - pose proof demo_accepted as H. repeat (apply Forall_cons in H as [? H]). by repeat (apply Forall_cons; split; [assumption|]).
  - exact demo_asks.
  - exact demo_distinct.
  - exact demo_settable.
Defined.

Lemma late_usage_error_witness :
  let env := willing Demo.content Demo.classes demo_hidden in
  ∃ s', immset_main (E := env) ["x=7:obj=1"; "y=new:obj=1"; "y=a=b"]%string (mkImm [] newSet) = (Val (-1), s')
    ∧ all_set Demo.content (schema_of Demo.classes) [x_target; y_target] (now Demo.content (i_trace s')).
Proof.
  apply (late_usage_error Demo.content Demo.classes demo_hidden ["x=7:obj=1"; "y=new:obj=1"]%string
    "y=a=b"%string []).
  - pose proof demo_accepted as H. repeat (apply Forall_cons in H as [? H]). by repeat (apply Forall_cons; split; [assumption|]).
  - reflexivity.
  - exact demo_asks.
  - exact demo_distinct.
  - exact demo_settable.
Defined.

Lemma read_failure_undefined_witness :
  let env := willing Demo.content Demo.classes demo_hidden in
  ∃ s', immset_main (E := env) ["x=7:obj=1"; "y=new:obj=1"; "y=new:obj=2"]%string (mkImm [] newSet)
      = (Undef, s')
    ∧ (∃ before later, i_trace s' = later ++ before
        ∧ all_set Demo.content (schema_of Demo.classes) [x_target; y_target] (now Demo.content before))
    ∧ (∀ o a, now Demo.content (i_trace s') o a = Demo.content o a)
    ∧ length (objNameVect (i_mem s')) = 3%nat ∧ length (attrValVect (i_mem s')) = 2%nat.
Proof.
  apply (read_failure_undefined Demo.content Demo.classes demo_hidden demo_typed
    ["x=7:obj=1"; "y=new:obj=1"]%string "y=new:obj=2"%string [] [x_target; y_target]
    (mkTarget "obj=2" "y" "new")).
  - pose proof demo_accepted as H. repeat (apply Forall_cons in H as [? H]). by repeat (apply Forall_cons; split; [assumption|]).
  - exact demo_asks.
  - reflexivity.
  - exact demo_distinct.
  - exact demo_settable.
  - exact demo_restorable.
  - vm_compute. reflexivity.
  - done.
  - apply (bool_decide_unpack _). vm_compute. exact I.
Defined.
