(* ===== verification/ImmGet.v ===== *)
(** * The command immget

    [immget] prints attributes of objects of the information model.  What it prints of the
    values is part of the memory of the process; the messages are left out. *)

From stdpp Require Import pretty.
From S2P Require Import Prelude CString World ImmLib ImmValues ImmSet.

Open Scope Z_scope.

Record GetT : Set := mkGet {
  g_immHandle : Z;
  g_accessorHandle : Z;
  g_immInitDone : bool;
  g_out : string
}.

Definition newGet : GetT := mkGet 0 0 false EmptyString.

Definition g_set_immHandle (x : Z) (m : GetT) : GetT := mkGet x (g_accessorHandle m) (g_immInitDone m) (g_out m).
Definition g_set_accessorHandle (x : Z) (m : GetT) : GetT := mkGet (g_immHandle m) x (g_immInitDone m) (g_out m).
Definition g_set_immInitDone (x : bool) (m : GetT) : GetT := mkGet (g_immHandle m) (g_accessorHandle m) x (g_out m).
Definition g_print (x : string) (m : GetT) : GetT :=
  mkGet (g_immHandle m) (g_accessorHandle m) (g_immInitDone m) (String.append (g_out m) x).

(** The object and the attribute of an argument. *)
Definition get_target (arg : string) : option (string * string) :=
  '(attr, obj) ← split_last ":" arg; Some (obj, attr).

Section immget.
Context `{FL : Floats} `{E : !ImmEnv FL}.

Abbreviation MI := (M (ImmProc (FL := FL) GetT)).

(** [getAttrValue]: what [printf] prints; a time is printed as an unsigned number. *)
Definition get_text (v : SaImmAttrValueT FL) : string :=
  match v with
  | VInt32 z | VUint32 z | VInt64 z | VUint64 z => pretty z
  | VTime z => pretty (u64 z)
  | VFloat f => printf_float f
  | VDouble d => printf_double d
  | VName n => c_str (n_value n)
  | VString s => s
  | VAny _ => "Unknown"
  end.

(** The values of an attribute: one is followed by a blank, several are separated. *)
Fixpoint separated (vs : list (SaImmAttrValueT FL)) : string :=
  match vs with
  | [] => EmptyString
  | [v] => get_text v
  | v :: vs => String.append (get_text v) (String ":" (separated vs))
  end.

Definition get_attr_text (vs : list (SaImmAttrValueT FL)) : string :=
  match vs with
  | [] => "<Empty>"
  | [v] => String.append (get_text v) " "
  | vs => separated vs
  end.

Definition get_initImm : MI SaAisErrorT :=
  '(error, h) ← initImmOm;
  iupd (g_set_immHandle h);;
  error ← (if is_ok error then
             '(error, a) ← initImmOmAccessor;
             iupd (g_set_accessorHandle a);;
             (if is_ok error then mret tt
              else _ ← finalizeImmOm h; mret tt);;
             mret error
           else mret error);
  iupd (g_set_immInitDone true);;
  mret error.

Definition get_finalizeImm : MI unit :=
  a ← imem g_accessorHandle;
  (if negb (a =? 0) then
     _ ← finalizeImmOmAccessor a; iupd (g_set_accessorHandle 0)
   else mret tt);;
  h ← imem g_immHandle;
  (if negb (h =? 0) then
     _ ← finalizeImmOm h; iupd (g_set_immHandle 0)
   else mret tt);;
  iupd (g_set_immInitDone false).

Definition getAttributs (objectName attributeName : string) : MI SaAisErrorT :=
  '(error, attributes) ← imm (AccessorGet (name_of objectName) attributeName);
  if negb (is_ok error) then mret error else
  iupd (g_print (foldr String.append EmptyString
    ((λ a, get_attr_text (attrValues a)) <$> filter (λ a, attrName a = attributeName) attributes)));;
  mret error.

(** [isValidArgument] on the copy of the argument, which has no end when it fills the
    buffer. *)
Definition get_validArgument (arg : string) : MI bool :=
  if (MAX_BUFF <=? String.length arg)%nat then undef
  else
    match strchr arg "=" with
    | None => mret false
    | Some (_, str) =>
        if negb (strstr str "=") || strstr str "," then mret (negb (2 <? tokens ":" false arg)%nat)
        else mret false
    end.

(** The loop over the arguments: one without a colon is passed over, a read that fails
    ends the loop. *)
Fixpoint get_loop (timeoutVal maxRetry : Z) (inputs : list string) : MI unit :=
  match inputs with
  | [] => mret tt
  | arg :: inputs =>
      match get_target arg with
      | Some (objName, attr) =>
          rc ← repeated timeoutVal maxRetry (getAttributs objName attr);
          if negb (is_ok rc) then get_finalizeImm else get_loop timeoutVal maxRetry inputs
      | None => get_loop timeoutVal maxRetry inputs
      end
  end.

(** The loop over the command line: the inputs and the limits, or what [main] returns. *)
Fixpoint get_args (args : list string) (inputs : list string) (retry timeout : Z)
    : MI (Z + list string * Z * Z) :=
  match args with
  | [] => mret (inr (inputs, retry, timeout))
  | arg :: rest =>
      match set_option arg with
      | Some isRetry =>
          match rest with
          | value :: rest =>
              if isInteger value then
                if (isRetry : bool) then get_args rest inputs (atoi value) timeout
                else get_args rest inputs retry (atoi value)
              else mret (inl 1)
          | [] => mret (inl 1)
          end
      | None =>
          ok ← get_validArgument arg;
          if negb ok then mret (inl (-1)) else get_args rest (inputs ++ [arg]) retry timeout
      end
  end.

Definition get_program (args : list string) : MI Z :=
  match args with
  | [] => mret 1
  | _ =>
      parsed ← get_args args [] 1 60;
      match parsed with
      | inl code => mret code
      | inr (inputs, retry, timeout) =>
          rc ← get_initImm;
          if negb (is_ok rc) then mret 1 else
          get_loop timeout retry inputs;;
          get_finalizeImm;;
          mret 0
      end
  end.

Definition get_destroy : MI unit :=
  open ← imem g_immInitDone;
  if (open : bool) then get_finalizeImm else mret tt.

Definition immget_main (args : list string) : MI Z :=
  r ← get_program args; get_destroy;; mret r.
End immget.
