(* ===== verification/ImmGetSpec.v ===== *)
(** * What immget prints

    With a library that does what it is asked [immget] prints the attributes in the order of
    the arguments; its exit status does not depend on the reads; and what it prints of a value
    is what [immset] takes for the same value. *)

From stdpp Require Import pretty.
From S2P Require Import Prelude CString World ImmLib ImmValues ImmSet ImmSetSpec ImmDemo ImmAtomic ImmHonest ImmGet.

Open Scope Z_scope.

(** ** The exit status *)

Section status.
Context `{FL : Floats} `{E : !ImmEnv FL}.

Abbreviation MI := (M (ImmProc (FL := FL) GetT)).

Definition is_read (e : ImmEvent FL) : bool :=
  match e with IEv (AccessorGet _ _) _ => true | _ => false end.

(** No value was read so far. *)
Definition unread_so_far (s : ImmProc (FL := FL) GetT) : Prop := forallb (negb ∘ is_read) (i_trace s) = true.

Definition silent (s s' : ImmProc (FL := FL) GetT) : Prop := unread_so_far s → unread_so_far s'.

#[local] Instance silent_preorder : PreOrder silent.
Proof. split; [by intros s ?|]. intros s1 s2 s3 H1 H2 H. by apply H2, H1. Qed.

Lemma silent_imm (c : ImmCall FL) :
  match c with AccessorGet _ _ => false | _ => true end = true → steps silent (imm c).
Proof. intros Hc s H. unfold unread_so_far in *. cbn. rewrite H. by destruct c. Qed.
Lemma silent_imem {A} (f : GetT → A) : steps silent (imem f).
Proof. by intros s ?. Qed.
Lemma silent_iupd f : steps silent (iupd f).
Proof. by intros s ?. Qed.
#[local] Hint Resolve silent_imem silent_iupd : steps.
#[local] Hint Extern 1 (steps silent (imm ?c)) => (apply (silent_imm c); reflexivity) : steps.

Lemma silent_retried {A} (code : A → SaAisErrorT) (m : MI A) :
  steps silent m → steps silent (retried code m).
Proof.
  intros Hm. unfold retried. solve_steps. revert a. generalize (IMM_MAX_RETRY - 1)%nat. intros n.
  induction n as [|n IH]; intros a; cbn [try_again]; unfold then_sleep; solve_steps; auto.
Qed.

Lemma silent_finalize : steps silent get_finalizeImm.
Proof.
  unfold get_finalizeImm, finalizeImmOmAccessor, finalizeImmOm.
  solve_steps; apply silent_retried; solve_steps.
Qed.

Lemma silent_init : steps silent get_initImm.
Proof.
  unfold get_initImm, initImmOm, initImmOmAccessor, finalizeImmOm.
  solve_steps; apply silent_retried; solve_steps.
Qed.

Lemma get_valid_pure arg (s : ImmProc GetT) : (get_validArgument arg s).2 = s.
Proof. unfold get_validArgument. repeat case_match; done. Qed.

Lemma get_args_pure args ins r t (s : ImmProc (FL := FL) GetT) : (get_args args ins r t s).2 = s.
Proof.
  remember (length args) as n eqn:Hn. revert args ins r t Hn.
  induction (lt_wf n) as [n _ IH]. intros [|arg rest] ins r t ->; cbn [get_args]; [done|].
  destruct (set_option arg) as [isRetry|].
  - destruct rest as [|value rest]; [done|]. destruct (isInteger value); [|done].
    destruct isRetry; by eapply (IH (length rest)); [cbn; lia|].
  - pose proof (get_valid_pure arg s) as Hv. unfold mbind, M_bind.
    destruct (get_validArgument arg s) as [[ok| | |] s1]; cbn in Hv; subst; try done.
    destruct ok; [|done]. by eapply (IH (length rest)); [cbn; lia|].
Qed.

(** The exit status of [immget] does not tell that a value could not be read: whatever
    the library answers, when [immget] returns anything but 0 it has not tried to read. *)
Theorem immget_status args r s' :
  immget_main args (mkImm [] newGet) = (Val r, s') → r ≠ 0 → unread_so_far s'.
Proof.
  intros Hrun Hr. enough (H : after (immget_main args) (λ r s', r ≠ 0 → unread_so_far s') (mkImm [] newGet))
    by (by eapply H). clear r s' Hrun Hr. unfold immget_main. apply after_bind.
  eapply (after_mono _ (λ r s, r ≠ 0 → unread_so_far s)).
  - unfold get_program. destruct args as [|arg args]; [by apply after_ret|].
    apply after_bind. intros parsed s1 Hp. pose proof (get_args_pure (arg :: args) [] 1 60 (mkImm [] newGet)) as Hs.
    rewrite Hp in Hs. cbn in Hs. subst s1. destruct parsed as [code|[[ins rt] t]]; [by apply after_ret|].
    apply after_bind. eapply (steps_after silent); [apply silent_init|]. intros rc s1 Hs1.
    destruct (is_ok rc); cbn [negb]; [|apply after_ret; intros _; by apply Hs1].
    apply after_bind. intros [] s2 _. apply after_bind. intros [] s3 _. by apply after_ret.
  - intros r s H. apply after_bind. eapply (steps_after silent).
    { unfold get_destroy. solve_steps. apply silent_finalize. }
    intros [] s' Hs. apply after_ret. intros Hr. apply Hs. by apply H.
Qed.
End status.

(** ** What is printed *)

Section prints.
Context `{FL : Floats}.
Context (ct0 : SaNameT → string → list (SaImmAttrValueT FL)).
Context (classes : string → list (string * SaImmValueTypeT)).
Context (hidden : SaNameT → bool).
#[local] Instance library : ImmEnv FL := willing ct0 classes hidden.

Abbreviation MI := (M (ImmProc (FL := FL) GetT)).

(** What an argument asks for; one without a colon asks for nothing. *)
Definition answer_to (arg : string) : string :=
  match get_target arg with
  | Some (obj, attr) => get_attr_text (ct0 (name_of obj) attr)
  | None => EmptyString
  end.

Definition concat (texts : list string) : string := foldr String.append EmptyString texts.

Definition readable (arg : string) : Prop :=
  match get_target arg with Some (obj, _) => hidden (name_of obj) = false | None => True end.

(** An argument that is no option and that [isValidArgument] accepts. *)
Definition get_accepted (arg : string) : Prop :=
  set_option arg = None ∧ (MAX_BUFF <=? String.length arg)%nat = false ∧ (tokens ":" false arg <= 2)%nat
  ∧ ∃ p q, strchr arg "=" = Some (p, q) ∧ negb (strstr q "=") || strstr q "," = true.

(** Nothing is changed: the content stays the first one. *)
Definition untouched (s : ImmProc (FL := FL) GetT) : Prop := bundle ct0 (i_trace s) = (ct0, []).

Lemma get_attribute_runs obj attr s :
  hidden (name_of obj) = false → untouched s →
  ∃ s', getAttributs obj attr s = (Val SA_AIS_OK, s') ∧ untouched s'
    ∧ g_out (i_mem s') = String.append (g_out (i_mem s)) (get_attr_text (ct0 (name_of obj) attr)).
Proof.
  intros Hh Hs. unfold getAttributs. erewrite bind_Val by reflexivity.
  cbn [imm_answer library willing honest]. unfold verdict, hides. rewrite Hh. cbn [default is_ok negb].
  eexists. split; [reflexivity|]. split; [by unfold untouched in *; cbn [i_trace]; rewrite bundle_idle|].
  cbn [i_mem g_out g_print]. rewrite filter_cons_True by done. cbn. rewrite append_nil_r.
  unfold now. by rewrite Hs.
Qed.

Lemma get_loop_runs t n inputs s :
  untouched s → Forall readable inputs →
  ∃ s', get_loop t n inputs s = (Val tt, s') ∧ untouched s'
    ∧ g_out (i_mem s') = String.append (g_out (i_mem s)) (concat (answer_to <$> inputs)).
Proof.
  intros Hs Hr. revert s Hs. induction Hr as [|arg inputs Harg _ IH]; intros s Hs; cbn [get_loop].
  { exists s. split_and!; [done..|]. cbn. by rewrite append_nil_r. }
  unfold readable, answer_to in *. cbn [concat fmap list_fmap foldr]. destruct (get_target arg) as [[obj attr]|].
  - destruct (get_attribute_runs obj attr s Harg Hs) as (s1 & H1 & Hs1 & Ho1).
    erewrite bind_Val by (by apply repeated_once). cbn [is_ok negb].
    destruct (IH s1 Hs1) as (s2 & H2 & Hs2 & Ho2). exists s2. split_and!; [done..|].
    rewrite Ho2, Ho1. by rewrite append_assoc.
  - destruct (IH s Hs) as (s2 & H2 & Hs2 & Ho2). exists s2. by split_and!.
Qed.

Lemma get_args_accepted args ins r t s :
  Forall get_accepted args → get_args args ins r t s = (Val (inr (ins ++ args, r, t)), s).
Proof.
  intros H. revert ins. induction H as [|arg args Harg _ IH]; intros ins; cbn [get_args].
  { by rewrite app_nil_r. }
  destruct Harg as (Ho & Hl & Ht & p & q & Hc & Hq). rewrite Ho.
  erewrite bind_Val.
  2: { unfold get_validArgument. rewrite Hl, Hc, Hq, (proj2 (Nat.ltb_ge _ _) Ht). reflexivity. }
  cbn [negb]. rewrite IH. by rewrite <- (assoc_L (++)).
Qed.

(** Opening and closing print nothing and change nothing. *)
Definition in_quiet (s s' : ImmProc (FL := FL) GetT) : Prop :=
  g_out (i_mem s') = g_out (i_mem s) ∧ bundle ct0 (i_trace s') = bundle ct0 (i_trace s).

#[local] Instance in_quiet_preorder : PreOrder in_quiet.
Proof. split; [done|]. intros s1 s2 s3 [? ?] [? ?]. split; congruence. Qed.

Lemma does_idle (c : ImmCall FL) : idle c = true → does in_quiet (imm c).
Proof. intros Hc s. split; [done|]. by apply bundle_idle. Qed.
Lemma does_memory {A} (f : GetT → A) : does in_quiet (imem f).
Proof. by intros s. Qed.
Lemma does_field f : (∀ m, g_out (f m) = g_out m) → does in_quiet (iupd f).
Proof. intros Hf s. split; [apply Hf|done]. Qed.
#[local] Hint Resolve does_memory : does.
#[local] Hint Extern 1 (does in_quiet (imm ?c)) => (apply (does_idle c); reflexivity) : does.
#[local] Hint Extern 1 (does in_quiet (iupd _)) => (apply does_field; reflexivity) : does.

Lemma does_repeat {A} (code : A → SaAisErrorT) (m : MI A) :
  does in_quiet m → does in_quiet (retried code m).
Proof.
  intros Hm. assert (Ht : does in_quiet (then_sleep m)) by (unfold then_sleep; solve_does).
  unfold retried. solve_does. revert a. generalize (IMM_MAX_RETRY - 1)%nat.
  intros n. induction n as [|n IH]; intros a; cbn [try_again]; solve_does.
Qed.

Lemma does_close : does in_quiet get_finalizeImm.
Proof.
  unfold get_finalizeImm, finalizeImmOmAccessor, finalizeImmOm.
  solve_does; match goal with |- does _ (retried _ (imm ?c)) => apply does_repeat, (does_idle c); reflexivity end.
Qed.

Lemma does_in_quiet {A} (m : MI A) s :
  does in_quiet m → ∃ a s', m s = (Val a, s') ∧ in_quiet s s'.
Proof.
  intros Hm. specialize (Hm s). unfold wp in Hm. destruct (m s) as [[a| | |] s'] eqn:H; cbn in Hm; try done.
  by exists a, s'.
Qed.

(** With a library that does what it is asked [immget] returns 0 and prints the
    attributes in the order of the arguments, each as its values are written: a blank after
    a single value, colons between several, [<Empty>] for none. *)
Theorem immget_prints arg args :
  Forall get_accepted (arg :: args) → Forall readable (arg :: args) →
  ∃ s', immget_main (arg :: args) (mkImm [] newGet) = (Val 0, s')
    ∧ g_out (i_mem s') = concat (answer_to <$> arg :: args).
Proof.
  intros Hacc Hread.
  assert (Hi : ∃ s1, get_initImm (mkImm [] newGet) = (Val SA_AIS_OK, s1) ∧ untouched s1 ∧ g_out (i_mem s1) = EmptyString)
    by (by eexists).
  destruct Hi as (s1 & H1 & Hs1 & Ho1).
  destruct (get_loop_runs 60 1 (arg :: args) s1 Hs1 Hread) as (s2 & H2 & Hs2 & Ho2).
  destruct (does_in_quiet _ s2 does_close) as ([] & s3 & H3 & Ho3 & _).
  assert (Hd : does in_quiet get_destroy) by (unfold get_destroy; solve_does; apply does_close).
  destruct (does_in_quiet _ s3 Hd) as ([] & s4 & H4 & Ho4 & _).
  exists s4. split; [|by rewrite Ho4, Ho3, Ho2, Ho1].
  unfold immget_main. erewrite bind_Val.
  2: { unfold get_program. erewrite bind_Val by (by apply get_args_accepted). cbn [app].
       erewrite bind_Val by exact H1. cbn [is_ok negb]. erewrite bind_Val by exact H2.
       erewrite bind_Val by exact H3. reflexivity. }
  by erewrite bind_Val by exact H4.
Qed.
End prints.

(** ** From immget to immset *)

Section texts.
Context `{FL : Floats}.

(** The values that survive being printed by [immget] and read by [immset].  A float or a
    double does when the digits [printf] prints of it are read back as the same number. *)
Definition survives (v : SaImmAttrValueT FL) : Prop :=
  match v with
  | VTime z => 0 ≤ z < 2 ^ 63
  | VFloat f => read_float (printf_float f) = Some f
  | VDouble d => read_double (printf_double d) = Some d
  | VAny b => b = any_bytes "Unknown"
  | v => kept v
  end.

(** C38: for a value of any type, the text [immget] prints is the text from which [immset]
    makes the same value exactly if the value [survives]: an integer in the range of its
    type, a string, a name without NUL whose length is right, a time that is
    not negative, a float or a double whose printed digits read back, and of the type any
    only what the word Unknown stands for.  A negative time does not: [immget] prints it as an unsigned number, which
    [immset] refuses. *)
Theorem printed_text_survives (v : SaImmAttrValueT FL) :
  (setImmAttrValue (value_type v) (get_text v) = Some v ↔ survives v)
  ∧ (∀ z, v = VTime z → - 2 ^ 63 ≤ z < 0 → setImmAttrValue (value_type v) (get_text v) = None).
Proof.
  assert (Hsame : ∀ txt, getAttrValue v = Some txt →
    setImmAttrValue (value_type v) txt = Some v ↔ kept v).
  { intros txt Ht. rewrite value_survives. naive_solver. }
  assert (Hfmap : ∀ {A B} (f : A → B) (o : option A) x, (∀ y, f y = f x → y = x) → f <$> o = Some (f x) ↔ o = Some x).
  { intros A B f o x Hf. destruct o as [y|]; cbn; [|done]. split; [intros [= H%Hf]|intros [= ->]]; congruence. }
  split.
  - destruct v as [z|z|z|z|z|n|f|d|s|b]; cbn [survives];
      try (cbn [get_text getAttrValue] in *; rewrite Hsame by done; tauto);
      clear Hsame; cbn [value_type get_text setImmAttrValue]; [|by apply Hfmap; intros ? [=]..|by split; [intros [=]|intros ->]].
    rewrite Hfmap by (by intros ? [=]). split.
    + intros [Hz Hr]%strtol0_pretty_inv. pose proof (Z.mod_pos_bound z (2 ^ 64)). unfold u64 in *. lia.
    + intros Hr. rewrite u64_small by lia. by rewrite strtol0_pretty by lia.
  - intros z -> Hz. cbn [value_type get_text setImmAttrValue].
    destruct (strtol0 (pretty (u64 z))) as [z'|] eqn:Hs; [|done].
    apply strtol0_pretty_inv in Hs as [Hz' Hr]. unfold u64 in Hr.
    rewrite <- (Z_mod_plus_full z 1 (2 ^ 64)), Z.mod_small in Hr by lia. lia.
Qed.
End texts.

(** ** Examples *)

Lemma immget_status_witness :
  let env := honest Demo.content Demo.classes Demo.picky in
  let run := immget_main (E := env) ["-r"; "2"; "x"]%string (mkImm [] newGet) in
  run.1 = Val (-1) ∧ unread_so_far run.2.
Proof.
  cbv zeta. set (run := immget_main _ _). assert (H : run.1 = Val (-1)) by (vm_compute; reflexivity).
  split; [exact H|].
  apply (immget_status (E := honest Demo.content Demo.classes Demo.picky) ["-r"; "2"; "x"]%string (-1)).
  - rewrite <- H. apply surjective_pairing.
  - lia.
Defined.

Lemma immget_prints_witness :
  let env := willing Demo.content Demo.classes demo_hidden in
  ∃ s', immget_main (E := env) ["x:obj=1"; "y:obj=1"; "z:obj=1"]%string (mkImm [] newGet) = (Val 0, s')
    ∧ g_out (i_mem s') = "-5 old <Empty>"%string.
Proof.
  destruct (immget_prints Demo.content Demo.classes demo_hidden "x:obj=1" ["y:obj=1"; "z:obj=1"]%string)
    as (s' & Hrun & Hout).
  - repeat (apply Forall_cons; split;
      [split; [reflexivity|]; split; [reflexivity|]; split; [apply Nat.leb_le; reflexivity|];
       do 2 eexists; split; reflexivity|]). constructor.
  - repeat (apply Forall_cons; split; [vm_compute; reflexivity|]). constructor.
  - exists s'. split; [exact Hrun|]. rewrite Hout. vm_compute. reflexivity.
Defined.

Lemma printed_text_survives_witness :
  setImmAttrValue (FL := no_floats) SAINT64T (get_text (FL := no_floats) (VInt64 (- 2 ^ 63))) = Some (VInt64 (- 2 ^ 63))
  ∧ setImmAttrValue (FL := no_floats) SATIMET (get_text (FL := no_floats) (VTime (-1))) = None.
Proof.
  split.
  - apply (printed_text_survives (FL := no_floats) (VInt64 (- 2 ^ 63))). cbn. lia.
  - destruct (printed_text_survives (FL := no_floats) (VTime (-1))) as [_ H]. by apply (H (-1)).
Defined.
