(* ===== verification/Simucliss.v ===== *)
(** * The restricted session

    [simucliss] is the shell of users who may only run [mml].  It reads lines with
    [readline], splits them into words, and runs the command if it is allowed.  An
    interrupt jumps out of whatever the loop is doing, back to where it frees the line and
    the words.

    The session is a state machine: a state per place of the loop of [main], with the
    pointers [tmp] and [my_argv] as they are in memory; an interrupt is a step of its own,
    at every place where its handler is installed, from the first [sigsetjmp] to the last
    use of [tmp]. *)

From stdpp Require Import pretty.
From S2P Require Import Prelude CString Getopt.

Open Scope Z_scope.

(** ** Words *)

(** The pieces [strtok] finds between the characters [d]; [cur] is the piece it is in. *)
Fixpoint strtok_all (d : ascii) (cur : string) (s : string) : list string :=
  match s with
  | EmptyString => if streq cur EmptyString then [] else [cur]
  | String c r =>
      if eqc c d then
        if streq cur EmptyString then strtok_all d EmptyString r else cur :: strtok_all d EmptyString r
      else strtok_all d (String.append cur (String c EmptyString)) r
  end.

(** An array of pointers of [n] cells, cleared by [new T[n]()], and what the loop stores. *)
Fixpoint store {S} (cells : list (option string)) (i : nat) (words : list string) : M S (list (option string)) :=
  match words with
  | [] => mret cells
  | w :: words =>
      if (i <? length cells)%nat then store (<[i := Some w]> cells) (i + 1) words else undef
  end.

(** [fill_argv]: the first loop counts the blanks that end a piece; [fresh] says that no
    character was passed since the last blank. *)
Fixpoint count_pieces (d : ascii) (fresh : bool) (s : string) : nat :=
  match s with
  | EmptyString => 0
  | String c r =>
      if eqc c d then
        if fresh then count_pieces d true r else S (count_pieces d true r)
      else count_pieces d false r
  end.

Definition fill_argv {S} (tmp_argv : string) : M S (list (option string)) :=
  let count := (count_pieces " " true tmp_argv + 1)%nat in
  store (replicate (count + 1) None) 0 (strtok_all " " EmptyString tmp_argv).

(** The words up to the null pointer. *)
Fixpoint argv_words (cells : list (option string)) : list string :=
  match cells with Some w :: cells => w :: argv_words cells | _ => [] end.

(** ** The search path *)

(** [get_path_string]: the first variable whose name begins with [PATH]. *)
Definition get_path_string (envp : list string) : option string :=
  List.find (String.prefix "PATH") envp.

Fixpoint count_char (d : ascii) (s : string) : nat :=
  match s with
  | EmptyString => 0
  | String c r => if eqc c d then S (count_char d r) else count_char d r
  end.

(** [insert_path_str_to_search]: without a colon there is no search path. *)
Definition insert_path_str_to_search {S} (path_str : string) : M S (option (list (option string))) :=
  match strchr path_str "=" with
  | None => undef
  | Some (_, tmp) =>
      let count := count_char ":" tmp in
      if (count =? 0)%nat then mret None
      else
        search_path ← store (replicate (count + 1 + 1) None) 0
          ((λ pch, String.append pch "/") <$> strtok_all ":" EmptyString tmp);
        mret (Some search_path)
  end.

(** [attach_path]: the first directory with a file of that name that can be opened. *)
Definition attach_path (can_open : string → bool) (cmd : string) (search_path : list string) : option string :=
  List.find can_open ((λ dir, String.append dir cmd) <$> search_path).

(** ** Commands *)

(** What becomes of a command. *)
Inductive Reaction : Set :=
| COMMAND_USAGE
| Help
| History
| COMMAND_NOT_FOUND
| Execve (path : string) (argv : list string).

(** The flag that nothing clears. *)
Definition restricted : bool := true.

(** [validate_cmd] for the words [cmd :: rest]. *)
Definition validate_cmd (can_open : string → bool) (search_path : list string)
    (cmd : string) (rest : list string) : Reaction :=
  if streq cmd "help" then
    match rest with [] => Help | _ => COMMAND_USAGE end
  else if streq cmd "history" then
    match rest with [] => History | _ => COMMAND_USAGE end
  else if negb restricted || (restricted && streq cmd "mml") then
    match strchr cmd "/" with
    | None =>
        match attach_path can_open cmd search_path with
        | Some full_cmd => Execve full_cmd (cmd :: rest)
        | None => COMMAND_NOT_FOUND
        end
    | Some _ => if can_open cmd then Execve cmd (cmd :: rest) else COMMAND_NOT_FOUND
    end
  else COMMAND_NOT_FOUND.

(** ** The start *)

(** [checkparam] on the arguments after the program's name: the banner is printed, or the
    program ends. *)
Fixpoint check_events {S} (evs : list OptEvent) (opt_flag : bool) : M S unit :=
  match evs with
  | [] => if opt_flag then mret tt else exit 0
  | EvShort c _ :: evs => if eqc c "b" then check_events evs true else exit 0
  | _ :: _ => exit 0
  end.

Definition checkparam {S} (args : list string) : M S unit :=
  match args with
  | [] => mret tt
  | [arg] => check_events (getopt "b" [arg]).1 false
  | _ => exit 0
  end.

(** [is_Node_Role_Active]: the file with the number of the node, of which 20 bytes are
    read, and the output of the command that asks for its role. *)
Definition role_command (node_Id : Z) : string :=
  snprintf 250
    (String.append "immlist -a saAmfSISUHAState "
    (String.append DQ
    (String.append "safSISU=safSu=SC-"
    (String.append (pretty node_Id)
    (String.append "\\,safSg=2N\\,safApp=ERIC-apg.nbi.aggregation.service,safSi=apg.nbi.aggregation.service-2N-1,safApp=ERIC-apg.nbi.aggregation.service"
    (String.append DQ " 2>/dev/null| /bin/awk '{print substr($0,length,1)}'")))))).

(** What is outside: the contents of the file, [None] if it cannot be opened, and for each
    command the first line of its output, with [None] if there is none. *)
Record Node : Set := mkNode {
  id_file : option string;
  popen : string → option (option string)
}.

Definition ACTIVE_NODE : Z := 1.
Definition PASSIVE_NODE : Z := 2.

Definition is_Node_Role_Active {S} (n : Node) : M S bool :=
  match id_file n with
  | None => exit 0
  | Some text =>
      let buff := take 20 text in
      if streq buff EmptyString then exit 1 else
      match popen n (role_command (atoi (c_str buff))) with
      | None => exit 0
      | Some result =>
          let node_Role := match result with Some line => atoi (c_str line) | None => PASSIVE_NODE end in
          mret (node_Role =? ACTIVE_NODE)
      end
  end.

(** The part of [main] before the loop: the search path. *)
Definition start_session {S} (n : Node) (args envp : list string) : M S (list string) :=
  is_node_active ← is_Node_Role_Active n;
  if negb is_node_active then exit 1 else
  checkparam args;;
  match get_path_string envp with
  | None => exit 1
  | Some path_str =>
      search_path ← insert_path_str_to_search path_str;
      match search_path with
      | None => exit 1
      | Some cells => mret (argv_words cells)
      end
  end.

(** ** The loop *)

(** A pointer to a string on the heap: null, to a string, or to one that was freed. *)
Inductive Ptr : Set := Null | Live | Freed.

(** Where the loop is. *)
Inductive Place : Set :=
| Top                                           (* before the handlers are installed *)
| AtPrompt                                      (* in readline *)
| HaveLine (line : string)                      (* tmp is set *)
| HaveArgs (words : list string)                (* my_argv is set *)
| ArgsUsed (leave : bool)                       (* before free_argv(my_argv) *)
| Release                                       (* before the test of tmp *)
| Released                                      (* tmp is freed and not yet cleared *)
| Leaving (free_args : bool)                    (* after the loop *)
| Ended
| DoubleFree.

Record Shell : Set := mkShell {
  place : Place;
  tmp : Ptr;
  my_argv : Ptr;
  handled : bool;                               (* the handler of SIGINT and SIGTSTP is installed *)
  ran : list (string * list string)             (* the programs that were run *)
}.

Definition newShell : Shell := mkShell Top Null Null true [].

(** [free_argv] tests the pointer and clears it. *)
Definition free_argv (p : Ptr) : Ptr := match p with Freed => Freed | _ => Null end.

(** [if (tmp) free(tmp);]: where it goes on, unless the string is freed twice. *)
Definition free_tmp (p : Ptr) (next : Place) : Place * Ptr :=
  match p with
  | Null => (next, Null)
  | Live => (next, Freed)
  | Freed => (DoubleFree, Freed)
  end.

(** A signal jumps out of every place up to the last use of [tmp]. *)
Definition jumps (p : Place) : bool :=
  match p with Ended | DoubleFree => false | _ => true end.

(** Where the session goes on after the jump and the frees before the loop: at the top of
    the loop, unless [m_exit] has been set. *)
Definition resume (p : Place) : Place :=
  match p with ArgsUsed true => Leaving false | Leaving free_args => Leaving free_args | _ => Top end.

Section session.
Context (search_path : list string).

Definition react (can_open : string → bool) (words : list string) (s : Shell) : Shell :=
  match words with
  | [] => mkShell (ArgsUsed false) (tmp s) (my_argv s) (handled s) (ran s)
  | cmd :: rest =>
      if streq cmd "exit" then
        match rest with
        | [] => mkShell (ArgsUsed true) (tmp s) (my_argv s) (handled s) (ran s)
        | _ => mkShell (ArgsUsed false) (tmp s) (my_argv s) (handled s) (ran s)
        end
      else
        match validate_cmd can_open search_path cmd rest with
        | Execve path argv =>
            mkShell (ArgsUsed false) (tmp s) (my_argv s) false ((path, argv) :: ran s)
        | _ => mkShell (ArgsUsed false) (tmp s) (my_argv s) (handled s) (ran s)
        end
  end.

Inductive sh_step : Shell → Shell → Prop :=
| S_top s :
    place s = Top → sh_step s (mkShell AtPrompt (tmp s) (my_argv s) true (ran s))
| S_line s line :
    place s = AtPrompt → sh_step s (mkShell (HaveLine line) Live (my_argv s) (handled s) (ran s))
| S_eof s :
    place s = AtPrompt → sh_step s (mkShell (Leaving true) Null (my_argv s) (handled s) (ran s))
| S_empty s :
    place s = HaveLine EmptyString → sh_step s (mkShell Release (tmp s) (my_argv s) (handled s) (ran s))
| S_split s line cells :
    place s = HaveLine line → line ≠ EmptyString → fill_argv line tt = (Val cells, tt) →
    sh_step s (mkShell (HaveArgs (argv_words cells)) (tmp s) Live (handled s) (ran s))
| S_react s can_open words :
    place s = HaveArgs words → sh_step s (react can_open words s)
| S_args s leave :
    place s = ArgsUsed leave →
    sh_step s (mkShell (if leave then Leaving false else Release) (tmp s) (free_argv (my_argv s)) (handled s) (ran s))
| S_release s :
    place s = Release →
    sh_step s (mkShell (free_tmp (tmp s) Released).1 (free_tmp (tmp s) Released).2 (my_argv s) (handled s) (ran s))
| S_cleared s :
    place s = Released → sh_step s (mkShell Top Null (my_argv s) (handled s) (ran s))
| S_leaving s (free_args : bool) :
    place s = Leaving free_args →
    sh_step s (mkShell (free_tmp (tmp s) Ended).1 (free_tmp (tmp s) Ended).2 (if free_args then free_argv (my_argv s) else my_argv s) (handled s) (ran s)).

(** SIGINT or SIGTSTP: back before the loop, where words and line are freed. *)
Inductive interrupt : Shell → Shell → Prop :=
| S_interrupt s :
    jumps (place s) = true → handled s = true →
    interrupt s (mkShell (free_tmp (tmp s) (resume (place s))).1 (free_tmp (tmp s) (resume (place s))).2
      (free_argv (my_argv s)) (handled s) (ran s)).

(** SIGQUIT: behind the loop. *)
Inductive quit : Shell → Shell → Prop :=
| S_quit s :
    jumps (place s) = true →
    quit s (mkShell (Leaving true) (tmp s) (my_argv s) (handled s) (ran s)).

Definition session_step (s s' : Shell) : Prop := sh_step s s' ∨ interrupt s s' ∨ quit s s'.
Definition session (s : Shell) : Prop := rtc session_step newShell s.
End session.
