(* ===== verification/SimuclissSpec.v ===== *)
(** * The restricted session: what it runs and how it frees

    The only program a session runs is [mml] from a directory of the search path; the words
    of a line fit the array that holds them; and two interrupts, the first of them while a
    command is treated, free the line twice. *)

From stdpp Require Import pretty.
From S2P Require Import Prelude CString Getopt Simucliss.

Open Scope Z_scope.

(** ** Words *)

(** Storing into cells that are cleared. *)
Lemma store_fits {S} (pre : list (option string)) n ws (s : S) :
  (length ws ≤ n)%nat →
  store (pre ++ replicate n None) (length pre) ws s
  = (Val (pre ++ (Some <$> ws) ++ replicate (n - length ws) None), s).
Proof.
  revert pre n. induction ws as [|w ws IH]; intros pre n Hn; cbn [store].
  { cbn. by rewrite Nat.sub_0_r. }
  destruct n as [|n]; [cbn in Hn; lia|]. cbn in Hn.
  rewrite (proj2 (Nat.ltb_lt _ _)) by (rewrite length_app; cbn; lia).
  cbn [replicate]. rewrite insert_app_r_alt, Nat.sub_diag by lia. cbn.
  specialize (IH (pre ++ [Some w]) n ltac:(lia)). rewrite length_app in IH. cbn [length] in IH.
  rewrite <- (assoc_L (++)) in IH. cbn [app] in IH. rewrite IH, <- (assoc_L (++)). done.
Qed.

Lemma argv_words_cells ws n : argv_words ((Some <$> ws) ++ replicate n None) = ws.
Proof. induction ws as [|w ws IH]; cbn; [by destruct n|by rewrite IH]. Qed.

Lemma store_new {S} n ws (s : S) :
  (length ws < n)%nat →
  ∃ cells, store (replicate n None) 0 ws s = (Val cells, s) ∧ argv_words cells = ws
    ∧ length cells = n ∧ last cells = Some None.
Proof.
  intros Hn. pose proof (store_fits [] n ws s ltac:(lia)) as H. cbn [app length] in H.
  eexists. split; [exact H|]. split; [apply argv_words_cells|].
  split; [rewrite length_app, length_fmap, length_replicate; lia|].
  destruct (n - length ws)%nat as [|k] eqn:Hk; [lia|]. rewrite replicate_S_end, (assoc_L (++)).
  by rewrite last_snoc.
Qed.

(** The number of pieces, as the loops before the arrays count them. *)
Lemma strtok_count d cur s :
  (length (strtok_all d cur s) ≤ count_pieces d (streq cur EmptyString) s + 1)%nat.
Proof.
  revert cur. induction s as [|c s IH]; intros cur; cbn [strtok_all count_pieces].
  { destruct (streq cur EmptyString); cbn; lia. }
  destruct (eqc c d).
  - specialize (IH EmptyString). change (streq EmptyString EmptyString) with true in IH.
    destruct (streq cur EmptyString); cbn; lia.
  - specialize (IH (String.append cur (String c EmptyString))).
    assert (streq (String.append cur (String c EmptyString)) EmptyString = false) as H by (by destruct cur).
    by rewrite H in IH.
Qed.

Lemma count_pieces_le d b s : (count_pieces d b s ≤ count_char d s)%nat.
Proof.
  revert b. induction s as [|c s IH]; intros b; cbn; [lia|].
  destruct (eqc c d); [|apply IH]. specialize (IH true). destruct b; lia.
Qed.

(** A line: words, each with the blanks before it, and the blanks at the end. *)
Fixpoint blanks (n : nat) (r : string) : string :=
  match n with O => r | S n => String " " (blanks n r) end.

Fixpoint written (ws : list (nat * string)) (after : nat) : string :=
  match ws with
  | [] => blanks after EmptyString
  | (n, w) :: ws => blanks n (String.append w (written ws after))
  end.

(** Words without blanks, all but the first with a blank before them. *)
Definition proper (ws : list (nat * string)) : Prop :=
  Forall (λ p, p.2 ≠ EmptyString ∧ all_chars (no " ") p.2 = true) ws
  ∧ Forall (λ p, (0 < p.1)%nat) (tail ws).

Lemma strtok_blanks n r : strtok_all " " EmptyString (blanks n r) = strtok_all " " EmptyString r.
Proof. induction n as [|n IH]; [done|]. cbn. exact IH. Qed.

Lemma strtok_word cur w r :
  all_chars (no " ") w = true →
  strtok_all " " cur (String.append w r) = strtok_all " " (String.append cur w) r.
Proof.
  revert cur. induction w as [|c w IH]; intros cur Hw; [by rewrite append_nil_r|].
  cbn in Hw. apply andb_true_iff in Hw as [Hc Hw]. rewrite append_cons. cbn [strtok_all].
  unfold no in Hc. apply negb_true_iff in Hc. rewrite Hc, IH by done. by rewrite append_assoc.
Qed.

Lemma strtok_end w n r :
  w ≠ EmptyString → strtok_all " " w (blanks (S n) r) = w :: strtok_all " " EmptyString r.
Proof.
  intros Hw. cbn [blanks strtok_all]. change (eqc " " " ") with true. cbn iota.
  destruct (streq w EmptyString) eqn:H; [by apply streq_spec in H|]. by rewrite strtok_blanks.
Qed.

Lemma strtok_written ws after :
  proper ws → strtok_all " " EmptyString (written ws after) = snd <$> ws.
Proof.
  intros [Hw Hb]. revert Hb. induction Hw as [|[n w] ws [Hne Hno] _ IH]; intros Hb; cbn [written fmap list_fmap].
  { by rewrite <- (append_nil_r (blanks after EmptyString)), append_nil_r, strtok_blanks. }
  cbn in Hne, Hno, Hb. rewrite strtok_blanks, strtok_word by done. rewrite append_nil_l. cbn [snd].
  destruct ws as [|[[|m] w'] ws]; cbn [written].
  - destruct after as [|after]; [|by rewrite strtok_end].
    cbn. destruct (streq w EmptyString) eqn:H; [by apply streq_spec in H|done].
  - apply Forall_cons in Hb as [Hb _]. cbn in Hb. lia.
  - apply Forall_cons in Hb as [_ Hb]. rewrite strtok_end by done. f_equal.
    specialize (IH Hb). cbn [written] in IH. rewrite strtok_blanks in IH.
    exact IH.
Qed.

Lemma fill_argv_runs {S} line (s : S) : ∃ cells, fill_argv line s = (Val cells, s).
Proof.
  unfold fill_argv. pose proof (strtok_count " " EmptyString line) as Hc.
  change (streq EmptyString EmptyString) with true in Hc.
  destruct (store_new (count_pieces " " true line + 1 + 1) (strtok_all " " EmptyString line) s)
    as (cells & Hrun & _); [lia|]. by exists cells.
Qed.

(** The words of a line: [fill_argv] counts the blanks that end a word, and the array it
    allocates holds all the words and a null pointer, whatever the line is; for words
    separated by any numbers of blanks they are the words. *)
Theorem fill_argv_fits {S} (line : string) (s : S) :
  ∃ cells, fill_argv line s = (Val cells, s) ∧ last cells = Some None
    ∧ (length (argv_words cells) < length cells)%nat
    ∧ ∀ ws after, proper ws → line = written ws after → argv_words cells = snd <$> ws.
Proof.
  unfold fill_argv. pose proof (strtok_count " " EmptyString line) as Hc.
  destruct (store_new (count_pieces " " true line + 1 + 1) (strtok_all " " EmptyString line) s)
    as (cells & Hrun & Hw & Hl & Hlast).
  { change (streq EmptyString EmptyString) with true in Hc. lia. }
  exists cells. split; [exact Hrun|]. split; [done|]. rewrite Hw, Hl. split.
  { change (streq EmptyString EmptyString) with true in Hc. lia. }
  intros ws after Hp ->. by apply strtok_written.
Qed.

(** ** What is run *)

Definition allowed_run (search_path : list string) (run : string * list string) : Prop :=
  ∃ dir rest, dir ∈ search_path ∧ run = (String.append dir "mml", "mml"%string :: rest).

Lemma find_in {A} (f : A → bool) l x : List.find f l = Some x → x ∈ l ∧ f x = true.
Proof. intros H. apply List.find_some in H as [H1 H2]. split; [by apply list_elem_of_In|done]. Qed.

Lemma validate_runs_mml can_open sp cmd rest path argv :
  validate_cmd can_open sp cmd rest = Execve path argv → allowed_run sp (path, argv).
Proof.
  unfold validate_cmd, restricted. cbn [negb orb andb]. intros H.
  destruct (streq cmd "help"); [by destruct rest|]. destruct (streq cmd "history"); [by destruct rest|].
  destruct (streq cmd "mml") eqn:Hm; [|done]. apply streq_spec in Hm. subst cmd. cbn [strchr] in H.
  change (strchr "mml" "/") with (@None (string * string)) in H. cbn iota in H.
  destruct (attach_path can_open "mml" sp) as [full|] eqn:Hf; [|done]. injection H as <- <-.
  unfold attach_path in Hf. apply find_in in Hf as [Hin _].
  apply list_elem_of_fmap in Hin as (dir & -> & Hdir). by exists dir, rest.
Qed.

Lemma session_runs sp s s' :
  session_step sp s s' → Forall (allowed_run sp) (ran s) → Forall (allowed_run sp) (ran s').
Proof.
  intros [H|[H|H]] Hs; destruct H; try exact Hs.
  unfold react. destruct words as [|cmd rest]; [done|]. destruct (streq cmd "exit"); [by destruct rest|].
  destruct (validate_cmd can_open sp cmd rest) eqn:Hv; try exact Hs.
  constructor; [|done]. by eapply validate_runs_mml.
Qed.

Lemma session_allowed sp s : session sp s → Forall (allowed_run sp) (ran s).
Proof.
  revert s. apply (rtc_ind_r (λ s, Forall (allowed_run sp) (ran s))); [constructor|].
  intros s s' _ Hstep IH. by eapply session_runs.
Qed.

Lemma start_search_path {S} n args envp (s : S) sp s' :
  start_session n args envp s = (Val sp, s') →
  ∃ var name value, var ∈ envp ∧ String.prefix "PATH" var = true ∧ strchr var "=" = Some (name, value)
    ∧ sp = (λ d, String.append d "/") <$> strtok_all ":" EmptyString value.
Proof.
  unfold start_session. intros (active & s1 & _ & H)%bind_Val_inv. destruct active; [|done].
  apply bind_Val_inv in H as ([] & s2 & _ & H). destruct (get_path_string envp) as [var|] eqn:Hp; [|done].
  apply find_in in Hp as [Hin Hpre]. apply bind_Val_inv in H as (cells & s3 & Hi & H).
  unfold insert_path_str_to_search in Hi. destruct (strchr var "=") as [[name value]|] eqn:Hc; [|done].
  destruct (count_char ":" value =? 0)%nat; [injection Hi as <- <-; done|].
  set (ws := (λ d, String.append d "/") <$> strtok_all ":" EmptyString value) in Hi.
  destruct (store_new (count_char ":" value + 1 + 1) ws s2) as (c & Hrun & Hw & _).
  { unfold ws. rewrite length_fmap. pose proof (strtok_count ":" EmptyString value) as H1.
    pose proof (count_pieces_le ":" true value) as H2. change (streq EmptyString EmptyString) with true in H1. lia. }
  erewrite bind_Val in Hi by exact Hrun. injection Hi as <- <-. injection H as <- <-.
  exists var, name, value. by rewrite Hw.
Qed.

(** C18: a restricted session is restricted: whatever lines are typed and whatever files there
    are, and however it is interrupted, every program that it runs is [mml] in a directory of
    the variable [PATH] it was started with, called by this name. *)
Theorem only_mml n args envp sp s path argv :
  start_session n args envp tt = (Val sp, tt) → session sp s → (path, argv) ∈ ran s →
  ∃ var name value d rest, var ∈ envp ∧ String.prefix "PATH" var = true
    ∧ strchr var "=" = Some (name, value) ∧ d ∈ strtok_all ":" EmptyString value
    ∧ path = String.append d "/mml" ∧ argv = "mml"%string :: rest.
Proof.
  intros Hstart Hs Hin. apply session_allowed in Hs. rewrite Forall_forall in Hs.
  destruct (Hs _ Hin) as (dir & rest & Hdir & Hrun). injection Hrun as -> ->.
  destruct (start_search_path _ _ _ _ _ _ Hstart) as (var & name & value & Hv & Hp & Hc & ->).
  apply list_elem_of_fmap in Hdir as (d & -> & Hd).
  exists var, name, value, d, rest. split_and!; try done. by rewrite append_assoc.
Qed.

(** ** Freeing *)

(** Interrupted at the prompt only. *)
Definition at_prompt (s : Shell) : Prop := place s = AtPrompt.
Definition calm_step (sp : list string) (s s' : Shell) : Prop :=
  sh_step sp s s' ∨ (at_prompt s ∧ (interrupt s s' ∨ quit s s')).

(** What the pointers are at each place. *)
Definition pointers_ok (s : Shell) : Prop :=
  match place s with
  | Top | AtPrompt => tmp s = Null ∧ my_argv s = Null
  | HaveLine _ | Release => tmp s = Live ∧ my_argv s = Null
  | HaveArgs _ | ArgsUsed _ => tmp s = Live ∧ my_argv s = Live
  | Released => tmp s = Freed ∧ my_argv s = Null
  | Leaving _ => tmp s ≠ Freed ∧ my_argv s = Null
  | Ended => my_argv s = Null
  | DoubleFree => False
  end.

Lemma react_place can_open sp words s :
  ∃ leave handled' ran', react sp can_open words s = mkShell (ArgsUsed leave) (tmp s) (my_argv s) handled' ran'.
Proof. unfold react. repeat case_match; eauto. Qed.

Lemma step_pointers sp s s' : sh_step sp s s' → pointers_ok s → pointers_ok s'.
Proof.
  unfold pointers_ok.
  intros [s1 Hpl|s1 l Hpl|s1 Hpl|s1 Hpl|s1 l c Hpl|s1 co w Hpl|s1 l Hpl|s1 Hpl|s1 Hpl|s1 f Hpl] Hs;
    rewrite Hpl in Hs; destruct Hs as [Ht Ha]; try (destruct (react_place co sp w s1) as (? & ? & ? & ->));
    cbn; rewrite ?Ha, ?Ht; try done.
  - by destruct l.
  - destruct (tmp s1); [by destruct f..|done].
Qed.

Lemma calm_pointers sp s s' : calm_step sp s s' → pointers_ok s → pointers_ok s'.
Proof.
  intros [H|[Hp [H|H]]] Hs; [by eapply step_pointers| |]; destruct H; unfold pointers_ok, at_prompt in *;
    rewrite Hp in Hs; destruct Hs as [Ht Ha]; cbn; by rewrite ?Hp, ?Ht, ?Ha.
Qed.

(** A session that is interrupted at the prompt only frees every string once, and in the end
    the words are freed. *)
Lemma calm_session_frees sp s : rtc (calm_step sp) newShell s → pointers_ok s.
Proof.
  revert s. apply (rtc_ind_r pointers_ok); [done|]. intros s s' _ Hstep IH. by eapply calm_pointers.
Qed.

(** While a line is treated [tmp] points to it, however often the session was interrupted. *)
Definition holds_line (s : Shell) : Prop :=
  match place s with HaveLine _ | HaveArgs _ | ArgsUsed _ | Release => tmp s = Live | _ => True end.

Lemma session_holds_line sp s : session sp s → holds_line s.
Proof.
  revert s. apply (rtc_ind_r holds_line); [done|]. unfold holds_line.
  intros s s' _ [H|[H|H]] IH; [|by destruct H as [s1 ? ?]; cbn; destruct (tmp s1), (place s1) as [| | | |[]| | | | |]|by destruct H].
  destruct H as [s1 Hpl|s1 l Hpl|s1 Hpl|s1 Hpl|s1 l c Hpl|s1 co w Hpl|s1 l Hpl|s1 Hpl|s1 Hpl|s1 f Hpl];
    rewrite Hpl in IH; try (destruct (react_place co sp w s1) as (? & ? & ? & ->)); cbn; try done.
  - by destruct l.
  - by rewrite IH.
  - by destruct (tmp s1).
Qed.

(** From a typed line to the treatment of its words. *)
Lemma session_treats sp line cells :
  line ≠ EmptyString → fill_argv line tt = (Val cells, tt) →
  session sp (mkShell (HaveArgs (argv_words cells)) Live Live true []).
Proof.
  intros Hl Hc. unfold session. eapply rtc_l; [left; by apply S_top|]. cbn.
  eapply rtc_l; [left; by apply (S_line sp _ line)|]. cbn.
  apply rtc_once. left. by eapply (S_split sp (mkShell (HaveLine line) Live Null true []) line cells).
Qed.

(** C34: the pointer to the line is not cleared when an interrupt jumps out of the treatment
    of a command.  In every session, when the words of a line are in use, an interrupt, the
    next prompt and a second interrupt end in freeing the line twice; and every line that is
    typed can be interrupted like this.  It takes an interrupt away from the prompt: while
    they only come at the prompt nothing is freed twice. *)
Theorem line_freed_twice sp line :
  line ≠ EmptyString →
  (∀ s words s1 s2 s3, session sp s → place s = HaveArgs words →
     interrupt s s1 → sh_step sp s1 s2 → interrupt s2 s3 → place s3 = DoubleFree)
  ∧ (∃ cells s s1 s2 s3, fill_argv line tt = (Val cells, tt) ∧ session sp s
     ∧ place s = HaveArgs (argv_words cells)
     ∧ interrupt s s1 ∧ sh_step sp s1 s2 ∧ place s2 = AtPrompt ∧ interrupt s2 s3)
  ∧ (∀ s, rtc (calm_step sp) newShell s → place s ≠ DoubleFree).
Proof.
  intros Hl. split; [|split].
  - intros s words s1 s2 s3 Hs%session_holds_line Hp H1 H2 H3. unfold holds_line in Hs.
    rewrite Hp in Hs. destruct H1 as [s]. rewrite Hp, Hs in H2. inversion H2; subst; try discriminate.
    by inversion H3.
  - destruct (fill_argv_runs line tt) as [cells Hc].
    exists cells, (mkShell (HaveArgs (argv_words cells)) Live Live true []),
      (mkShell Top Freed Null true []), (mkShell AtPrompt Freed Null true []), (mkShell DoubleFree Freed Null true []).
    split; [done|]. split; [by eapply session_treats|]. split; [done|].
    split; [by apply (S_interrupt (mkShell (HaveArgs (argv_words cells)) Live Live true []))|].
    split; [by apply (S_top sp (mkShell Top Freed Null true []))|].
    split; [done|]. by apply (S_interrupt (mkShell AtPrompt Freed Null true [])).
  - intros s Hs Hd. apply calm_session_frees in Hs. unfold pointers_ok in Hs. by rewrite Hd in Hs.
Qed.

(** The command that asks for the role is never cut. *)
Lemma pretty_length id : - 2 ^ 31 ≤ id < 2 ^ 31 → (String.length (pretty id) ≤ 11)%nat.
Proof.
  intros Hid. destruct (Z.ltb_spec id 0).
  - rewrite pretty_neg by done. cbn. pose proof (dec_length 10 (- id)). lia.
  - rewrite pretty_nonneg by done. pose proof (dec_length 10 id). lia.
Qed.

Lemma role_command_whole id :
  - 2 ^ 31 ≤ id < 2 ^ 31 → ∃ r, role_command id = String.append r " 2>/dev/null| /bin/awk '{print substr($0,length,1)}'".
Proof.
  intros Hid. unfold role_command. rewrite snprintf_fits.
  - rewrite <- !append_assoc. by eexists.
  - rewrite !length_append. pose proof (pretty_length id Hid). cbn. lia.
Qed.

(** ** Examples *)

Definition demo_node : Node := mkNode (Some "1"%string) (λ _, Some (Some "1"%string)).

Lemma only_mml_witness :
  ∃ s, session ["/usr/bin/"; "/opt/ap/bin/"]%string s
    ∧ ("/opt/ap/bin/mml", ["mml"; "caclp;"])%string ∈ ran s
    ∧ ∃ var name value d rest, var ∈ ["HOME=/root"; "PATH=/usr/bin:/opt/ap/bin"]%string
        ∧ String.prefix "PATH" var = true ∧ strchr var "=" = Some (name, value)
        ∧ d ∈ strtok_all ":" EmptyString value
        ∧ "/opt/ap/bin/mml"%string = String.append d "/mml"
        ∧ ["mml"; "caclp;"]%string = "mml"%string :: rest.
Proof.
  set (sp := ["/usr/bin/"; "/opt/ap/bin/"]%string).
  set (opens := λ path, streq path "/opt/ap/bin/mml").
  set (s3 := mkShell (HaveArgs ["mml"; "caclp;"]%string) Live Live true []).
  assert (Hs : session sp (react sp opens ["mml"; "caclp;"]%string s3)).
  { eapply rtc_l; [left; by apply S_top|]. cbn.
    eapply rtc_l; [left; by apply (S_line sp _ "mml  caclp; ")|]. cbn.
    apply (rtc_l _ _ s3); [left|].
    { apply (S_split sp (mkShell (HaveLine "mml  caclp; ") Live Null true []) "mml  caclp; " [Some "mml"; Some "caclp;"; None; None]%string); done. }
    apply rtc_once. left. exact (S_react sp s3 opens _ eq_refl). }
  assert (Hin : ("/opt/ap/bin/mml", ["mml"; "caclp;"])%string ∈ ran (react sp opens ["mml"; "caclp;"]%string s3))
    by (vm_compute; left).
  eexists. split; [exact Hs|]. split; [exact Hin|].
  apply (only_mml demo_node [] ["HOME=/root"; "PATH=/usr/bin:/opt/ap/bin"]%string sp _ _ _ eq_refl Hs Hin).
Defined.

Lemma line_freed_twice_witness :
  ∃ s s1 s2 s3, session ["/usr/bin/"]%string s ∧ place s = HaveArgs ["history"]%string
    ∧ interrupt s s1 ∧ sh_step ["/usr/bin/"]%string s1 s2 ∧ interrupt s2 s3 ∧ place s3 = DoubleFree.
Proof.
  destruct (line_freed_twice ["/usr/bin/"]%string "history"%string)
    as (Htwice & (cells & s & s1 & s2 & s3 & Hc & Hs & Hp & H1 & H2 & _ & H3) & _); [discriminate|].
  exists s, s1, s2, s3. split; [exact Hs|]. split; [|eauto 10].
  rewrite Hp. vm_compute in Hc. by injection Hc as <-.
Defined.
