(* ===== verification/Cla.v ===== *)
(** * The command [cla]

    It tells whether the LDAP server of the node's configuration can be reached.
    [ConfigurationReader] takes the server, the credentials and the certificates from the
    configuration of [sssd]; [LdapConnector] opens a connection with them, binds and asks
    for the root object; [main] tries as often as it is told to.  The LDAP library is the
    environment: it answers each call from the calls before it. *)

From S2P Require Import Prelude CString Proc ImmLib Getopt.

Open Scope Z_scope.

(** ** [ConfigurationReader] *)

(** [TlsMode_t], kept as the integer that the configuration gives. *)
Definition STARTTLS : Z := 0.
Definition LDAPS : Z := 1.
Definition NO_TLS : Z := 2.

Record LdapConf : Set := mkLdapConf {
  ldap_uri : string;
  bind_dn : string;
  bind_password : string;
  tls_mode : Z;
  ca_cert_dir : string;
  ca_certificate : string;
  client_certificate : string;
  client_key : string;
  cipher_filter : string
}.

Definition newLdapConf : LdapConf :=
  mkLdapConf EmptyString EmptyString EmptyString LDAPS EmptyString EmptyString EmptyString
    EmptyString EmptyString.

Definition LDAP_URI_ATTRIBUTE_NAME : string := "ldap_uri".
Definition LDAP_BIND_DN_ATTRIBUTE_NAME : string := "ldap_default_bind_dn".
Definition LDAP_BIND_PASSWORD_ATTRIBUTE_NAME : string := "ldap_default_authtok".
Definition LDAP_TLS_MODE_ATTRIBUTE_NAME : string := "tls_mode".
Definition LDAP_CA_CERT_DIRECTORY_ATTRIBUTE_NAME : string := "ldap_tls_cacertdir".
Definition LDAP_CA_CERTIFICATE_ATTRIBUTE_NAME : string := "ldap_tls_cacert".
Definition LDAP_CLIENT_CERTIFICATE_ATTRIBUTE_NAME : string := "ldap_tls_cert".
Definition LDAP_CLIENT_KEY_ATTRIBUTE_NAME : string := "ldap_tls_key".
Definition LDAP_CIPHER_FILTER_ATTRIBUTE_NAME : string := "ldap_tls_cipher_suite".

(** [std::stoi], [None] where it throws: no number, or none of the range of [int]. *)
Definition stoi (s : string) : option Z :=
  '(neg, v, _) ← strto (Some 10) s;
  let z := if (neg : bool) then - v else v in
  if (- 2 ^ 31 <=? z) && (z <? 2 ^ 31) then Some z else None.

(** The loop [while (ifs.good()) getline(ifs, line)]: the text after the last line feed is a
    line too. *)
Fixpoint getlines (s : string) : list string :=
  match s with
  | EmptyString => [EmptyString]
  | String c s =>
      if eqc c LF then EmptyString :: getlines s
      else
        match getlines s with
        | line :: lines => String c line :: lines
        | [] => []
        end
  end.

Fixpoint ltrim (s : string) : string :=
  match s with
  | String c r => if eqc c SP then ltrim r else s
  | EmptyString => EmptyString
  end.

Fixpoint rtrim (s : string) : string :=
  match s with
  | String c r =>
      match rtrim r with
      | EmptyString => if eqc c SP then EmptyString else String c EmptyString
      | r => String c r
      end
  | EmptyString => EmptyString
  end.

(** [parse_configuration_item]: [None] where it returns -1. *)
Definition parse_configuration_item (item : string) : option (string * string) :=
  match strchr item "=" with
  | None => None
  | Some (name, value) => Some (rtrim name, ltrim value)
  end.

(** The chain that stores an item; [None] where [stoi] throws. *)
Definition store_item (name value : string) (c : LdapConf) : option LdapConf :=
  let '(mkLdapConf uri dn pw mode dir ca cert key cipher) := c in
  if streq name LDAP_URI_ATTRIBUTE_NAME then
    Some (mkLdapConf value dn pw mode dir ca cert key cipher)
  else if streq name LDAP_BIND_DN_ATTRIBUTE_NAME then
    Some (mkLdapConf uri value pw mode dir ca cert key cipher)
  else if streq name LDAP_BIND_PASSWORD_ATTRIBUTE_NAME then
    Some (mkLdapConf uri dn value mode dir ca cert key cipher)
  else if streq name LDAP_TLS_MODE_ATTRIBUTE_NAME then
    m ← stoi value; Some (mkLdapConf uri dn pw m dir ca cert key cipher)
  else if streq name LDAP_CA_CERT_DIRECTORY_ATTRIBUTE_NAME then
    Some (mkLdapConf uri dn pw mode value ca cert key cipher)
  else if streq name LDAP_CA_CERTIFICATE_ATTRIBUTE_NAME then
    Some (mkLdapConf uri dn pw mode dir value cert key cipher)
  else if streq name LDAP_CLIENT_CERTIFICATE_ATTRIBUTE_NAME then
    Some (mkLdapConf uri dn pw mode dir ca value key cipher)
  else if streq name LDAP_CLIENT_KEY_ATTRIBUTE_NAME then
    Some (mkLdapConf uri dn pw mode dir ca cert value cipher)
  else if streq name LDAP_CIPHER_FILTER_ATTRIBUTE_NAME then
    Some (mkLdapConf uri dn pw mode dir ca cert key value)
  else Some c.

Definition DOMAIN : string := "[domain/".
Definition LDAP_DOMAIN : string := "[domain/LdapAuthenticationMethod]".

(** [line.empty() || line[0] == '#']. *)
Definition skipped (line : string) : bool :=
  match line with
  | EmptyString => true
  | String c _ => eqc c "#"
  end.

(** The loop of [load_configuration] over the lines; [None] where an exception leaves it. *)
Fixpoint read_lines (lines : list string) (ldap_domain_found : bool) (c : LdapConf) : option LdapConf :=
  match lines with
  | [] => Some c
  | line :: lines =>
      if skipped line then read_lines lines ldap_domain_found c
      else
        let domain_line_found := strstr line DOMAIN in
        if domain_line_found && ldap_domain_found then Some c
        else if domain_line_found && negb ldap_domain_found && strstr line LDAP_DOMAIN then
          read_lines lines true c
        else if ldap_domain_found then
          match parse_configuration_item line with
          | None => read_lines lines ldap_domain_found c
          | Some (name, value) =>
              match store_item name value c with
              | Some c => read_lines lines ldap_domain_found c
              | None => None
              end
          end
        else read_lines lines ldap_domain_found c
  end.

(** What the system tells of the configuration file: the mode that [stat] gives, whether it
    can be opened, and its text. *)
Record ConfFile : Set := mkConfFile { cf_mode : option Z; cf_opens : bool; cf_text : string }.

Definition S_IFREG : Z := 32768.

Definition configuration_file_exists (f : ConfFile) : bool :=
  match cf_mode f with
  | None => false
  | Some mode => negb (Z.land mode S_IFREG =? 0)
  end.

(** [load_configuration] into [c]: the code it returns and the configuration, or [None]
    where an exception leaves it. *)
Definition load_configuration (f : ConfFile) (c : LdapConf) : option (Z * LdapConf) :=
  if negb (configuration_file_exists f) then Some (-1, c)
  else if negb (cf_opens f) then Some (-2, c)
  else c ← read_lines (getlines (cf_text f)) false c; Some (0, c).

(** ** The LDAP library *)

(** [RequiredCert_t], and the values of the option. *)
Inductive RequiredCert : Set := DEMAND | ALLOW | TRY | NEVER | HARD.
Inductive TlsRequire : Set :=
| LDAP_OPT_X_TLS_DEMAND | LDAP_OPT_X_TLS_ALLOW | LDAP_OPT_X_TLS_TRY
| LDAP_OPT_X_TLS_NEVER | LDAP_OPT_X_TLS_HARD.

(** The options that are set, with their values. *)
Inductive LdapOption : Set :=
| OptTimeout (tv_sec tv_usec : Z)
| OptNetworkTimeout (tv_sec tv_usec : Z)
| OptProtocolVersion (version : Z)
| OptTlsProtocolMin10
| OptCaCertDir (dir : string)
| OptCaCertFile (file : string)
| OptCertFile (file : string)
| OptKeyFile (file : string)
| OptCipherSuite (suite : string)
| OptRequireCert (value : TlsRequire)
| OptNewCtx (server : Z).

(** The calls.  A handle is [None] where it is a null pointer; [ldap_set_option] takes a
    null pointer for the options of all handles. *)
Inductive LdapCall : Set :=
| SetOption (h : option Z) (o : LdapOption)
| Initialize (uri : string)
| StartTls (h : option Z)
| SaslBind (h : option Z) (dn password : string)
| Search (h : option Z)
| MsgFree
| Unbind (h : option Z).

(** The codes they return; [ldap_initialize] also gives the handle, and
    [ldap_search_ext_s] tells whether there is a message to free. *)
Definition ldap_resp (c : LdapCall) : Set :=
  match c with
  | Initialize _ => Z * option Z
  | Search _ => Z * bool
  | _ => Z
  end.

Inductive LdapEvent : Set := LEv (c : LdapCall) (r : ldap_resp c).
Abbreviation LdapTrace := (list LdapEvent).

Definition LDAP_SUCCESS : Z := 0.

(** The library, and the value it has for [LDAP_LOCAL_ERROR]. *)
Class LdapEnv : Type := {
  ldap_answer : LdapTrace → ∀ c : LdapCall, ldap_resp c;
  LDAP_LOCAL_ERROR : Z
}.

(** The calls made, the latest first, and [_ldap_handle] of the connector. *)
Record Connector : Set := mkConnector { l_trace : LdapTrace; l_handle : option Z }.

(** ** [LdapConnector] *)

Section connector.
Context `{E : LdapEnv}.

Abbreviation ML := (M Connector).

Definition ldap (c : LdapCall) : ML (ldap_resp c) := λ s,
  let r := ldap_answer (l_trace s) c in (Val r, mkConnector (LEv c r :: l_trace s) (l_handle s)).
Definition set_handle (h : option Z) : ML unit := modify (λ s, mkConnector (l_trace s) h).

(** [if ((call_result = m)) return err; k]. *)
Definition checked (m : ML Z) (err : Z → Z) (k : ML Z) : ML Z :=
  call_result ← m;
  if call_result =? 0 then k else mret (err call_result).

(** [ldap_set_option] on the handle of the connector. *)
Definition set_option_here (o : LdapOption) : ML Z :=
  h ← gets l_handle; ldap (SetOption h o).

Definition set_api_timeout (timeout : Z) : ML Z := ldap (SetOption None (OptTimeout timeout (500 * 1000))).
Definition set_network_timeout (timeout : Z) : ML Z := ldap (SetOption None (OptNetworkTimeout timeout 0)).

Definition connect (uri : string) : ML Z :=
  if streq uri EmptyString then mret (-1)
  else
    h ← gets l_handle;
    match h with
    | Some _ => mret (-2)
    | None =>
        '(call_result, h) ← (ldap (Initialize (c_str uri)) : ML (Z * option Z));
        set_handle h;;
        if negb (call_result =? LDAP_SUCCESS) then mret (-3)
        else
          checked (set_option_here (OptProtocolVersion 3)) (λ _, -4) (
          checked (set_option_here OptTlsProtocolMin10) (λ _, -5) (
          mret 0))
    end.

Definition disconnect : ML unit :=
  h ← gets l_handle;
  match h with
  | None => mret tt
  | Some _ => ldap (Unbind h);; set_handle None
  end.

(** The setters that refuse an empty text. *)
Definition set_text (value : string) (o : string → LdapOption) : ML Z :=
  if streq value EmptyString then mret (-1) else set_option_here (o (c_str value)).

Definition set_ca_cert_dir (value : string) : ML Z := set_text value OptCaCertDir.
Definition set_ca_certificate (value : string) : ML Z := set_text value OptCaCertFile.
Definition set_client_certificate (value : string) : ML Z := set_text value OptCertFile.
Definition set_client_key (value : string) : ML Z := set_text value OptKeyFile.
Definition set_cipher_suite (value : string) : ML Z := set_text value OptCipherSuite.

Definition require_value (r : RequiredCert) : TlsRequire :=
  match r with
  | DEMAND => LDAP_OPT_X_TLS_DEMAND
  | ALLOW => LDAP_OPT_X_TLS_ALLOW
  | TRY => LDAP_OPT_X_TLS_TRY
  | NEVER => LDAP_OPT_X_TLS_NEVER
  | HARD => LDAP_OPT_X_TLS_HARD
  end.

Definition set_require_cert (r : RequiredCert) : ML Z := set_option_here (OptRequireCert (require_value r)).
Definition create_ssl_context : ML Z := set_option_here (OptNewCtx 0).

(** [strncpy] into a buffer of that length: what follows a NUL is filled with NULs. *)
Definition password_bytes (s : string) : string :=
  String.append (c_str s) (nuls (String.length s - String.length (c_str s))).

Definition bind (mode : Z) (dn password : string) : ML Z :=
  h ← gets l_handle;
  match h with
  | None => mret (-1)
  | Some _ =>
      call_result ← (if mode =? STARTTLS then ldap (StartTls h) else mret LDAP_SUCCESS : ML Z);
      if negb (call_result =? LDAP_SUCCESS) && negb (call_result =? LDAP_LOCAL_ERROR) then mret call_result
      else ldap (SaslBind h (c_str dn) (password_bytes password))
  end.

Definition ping : ML Z :=
  h ← gets l_handle;
  match h with
  | None => mret (-1)
  | Some _ =>
      '(call_result, message) ← (ldap (Search h) : ML (Z * bool));
      (if (message : bool) then _ ← ldap MsgFree; mret tt else mret tt);;
      mret call_result
  end.

(** The certificates, in case of LDAP over TLS. *)
Definition set_tls (c : LdapConf) (k : ML Z) : ML Z :=
  checked
    (if negb (streq (ca_certificate c) EmptyString) then set_ca_certificate (ca_certificate c)
     else set_ca_cert_dir (ca_cert_dir c)) id (
  set_client_certificate (client_certificate c);;
  set_client_key (client_key c);;
  checked (set_cipher_suite (cipher_filter c)) id (
  checked (set_require_cert DEMAND) id (
  checked create_ssl_context id k))).

Definition bind_and_ping (c : LdapConf) : ML Z :=
  checked (bind (tls_mode c) (bind_dn c) (bind_password c)) id (
  checked ping id (
  disconnect;;
  mret 0)).

Definition check_ldap_server_availability (timeout : Z) (c : LdapConf) : ML Z :=
  checked (set_api_timeout timeout) (λ _, -1) (
  checked (set_network_timeout timeout) (λ _, -2) (
  checked (connect (ldap_uri c)) (λ _, -3) (
  if negb (tls_mode c =? NO_TLS) then set_tls c (bind_and_ping c) else bind_and_ping c))).

(** ** [main] *)

(** A try: a connector is made, used and destroyed, which disconnects it. *)
Definition one_try (timeout : Z) (c : LdapConf) : ML bool :=
  set_handle None;;
  call_result ← check_ldap_server_availability timeout c;
  disconnect;;
  mret (call_result =? 0).

Fixpoint tries (n : nat) (timeout : Z) (c : LdapConf) : ML bool :=
  match n with
  | O => mret false
  | S n =>
      up ← one_try timeout c;
      if (up : bool) then mret true else tries n timeout c
  end.
End connector.

Definition cla_short_options : string := "dr:t:".
Definition cla_long_options : list LongOpt :=
  [mkLong "debug" false; mkLong "retries" true; mkLong "timeout" true].

(** The arguments: [retries], [timeout] and [debug]. *)
Record ClaArgs : Set := mkClaArgs { retries : Z; timeout : Z; debug_enabled : bool }.

(** The character that [getopt_long] returns, and [optarg]. *)
Definition cla_option (ev : OptEvent) : option (ascii * string) :=
  match ev with
  | EvShort c optarg => Some (c, default EmptyString optarg)
  | EvLong name optarg =>
      c ← (if streq name "debug" then Some "d"%char
           else if streq name "retries" then Some "r"%char
           else if streq name "timeout" then Some "t"%char else None);
      Some (c, default EmptyString optarg)
  | EvError _ => None
  end.

(** The loop of [parse_command_line]. *)
Fixpoint cla_loop (evs : list OptEvent) (a : ClaArgs) : option ClaArgs :=
  match evs with
  | [] => Some a
  | ev :: evs =>
      '(c, optarg) ← cla_option ev;
      if eqc c "d" then cla_loop evs (mkClaArgs (retries a) (timeout a) true)
      else if eqc c "r" then cla_loop evs (mkClaArgs (atoi optarg) (timeout a) (debug_enabled a))
      else if eqc c "t" then cla_loop evs (mkClaArgs (retries a) (atoi optarg) (debug_enabled a))
      else None
  end.

(** [parse_command_line] on the arguments after the program's name: [None] where it
    returns 2. *)
Definition parse_command_line (args : list string) : option ClaArgs :=
  a ← cla_loop (getopt_long cla_short_options cla_long_options args).1 (mkClaArgs (-1) (-1) false);
  if (retries a <=? 0) || (timeout a <=? 0) then None else Some a.

(** [main]; an exception that nothing catches aborts the program. *)
Definition cla_main `{LdapEnv} (args : list string) (f : ConfFile) : M Connector Z :=
  match parse_command_line args with
  | None => mret 2
  | Some a =>
      match load_configuration f newLdapConf with
      | None => exit 134
      | Some (call_result, c) =>
          if negb (call_result =? 0) then mret 1
          else
            ldap_up ← tries (Z.to_nat (retries a)) (timeout a) c;
            mret (if (ldap_up : bool) then 0 else 1)
      end
  end.
