(* ===== verification/ClaSpec.v ===== *)
(** * The command [cla]: handles, credentials and verdict

    Every handle that the library gives is used only while it is open and is given back
    once; the password of a configuration with TLS is sent only over a handle on which the
    certificate of the server is demanded; and the command reports the server to be there
    exactly if a search was answered. *)

From S2P Require Import Prelude CString Proc World ImmLib Getopt Cla.

Open Scope Z_scope.

Section spec.
Context `{E : LdapEnv}.

Abbreviation ML := (M Connector).

(** ** Rules *)

Lemma wp_ldap c (Q : outcome (ldap_resp c) → Connector → Prop) s :
  (∀ r, Q (Val r) (mkConnector (LEv c r :: l_trace s) (l_handle s))) → wp (ldap c) Q s.
Proof. intros H. apply H. Qed.

Lemma wp_checked (P : Z → Connector → Prop) m err k (Q : outcome Z → Connector → Prop) s :
  wp m (valQ P) s →
  (∀ s', P 0 s' → wp k Q s') →
  (∀ rc s', rc ≠ 0 → P rc s' → Q (Val (err rc)) s') →
  wp (checked m err k) Q s.
Proof.
  intros Hm Hk He. unfold checked. apply wp_bind. apply (wp_mono _ _ _ _ Hm).
  intros [rc| | |] s' Hp; try done. cbn [thenQ valQ] in *.
  destruct (Z.eqb_spec rc 0) as [->|]; [by apply Hk|]. apply wp_ret. by apply He.
Qed.

Lemma does_checked (R : relation Connector) `{!PreOrder R} m err k :
  does R m → does R k → does R (checked m err k).
Proof. intros Hm Hk. unfold checked. solve_does; auto. Qed.

Lemma does_Val {A} (R : relation Connector) (m : ML A) s : does R m → ∃ a s', m s = (Val a, s') ∧ R s s'.
Proof.
  intros H. specialize (H s). unfold wp in H. destruct (m s) as [[a| | |] s'] eqn:Hr; try done. by exists a, s'.
Qed.

(** ** Handles *)

(** What a call does to the handle that is open: nothing may be asked of a handle that is
    not the open one, and no handle is obtained while one is open. *)
Definition next (e : LdapEvent) (open : option Z) : option (option Z) :=
  match e with
  | LEv (SetOption None _) _ | LEv MsgFree _ => Some open
  | LEv (Initialize _) r => match open with None => Some r.2 | Some _ => None end
  | LEv (SetOption h _) _ | LEv (StartTls h) _ | LEv (SaslBind h _ _) _ | LEv (Search h) _ =>
      match h with
      | Some _ => if bool_decide (open = h) then Some open else None
      | None => None
      end
  | LEv (Unbind h) _ =>
      match h with
      | Some _ => if bool_decide (open = h) then Some None else None
      | None => None
      end
  end.

(** The handle that is open after the calls, [None] if they break the rule. *)
Fixpoint open_after (t : LdapTrace) : option (option Z) :=
  match t with
  | [] => Some None
  | e :: t => open ← open_after t; next e open
  end.

(** The connector knows the handle that is open. *)
Definition knows (s : Connector) : Prop := open_after (l_trace s) = Some (l_handle s).
Definition keeps_knowing : relation Connector := λ s s', knows s → knows s'.

#[local] Instance keeps_knowing_preorder : PreOrder keeps_knowing.
Proof. split; [by intros s H|]. intros s1 s2 s3 H1 H2 H. by apply H2, H1. Qed.

Lemma knows_call c r s :
  knows s → next (LEv c r) (l_handle s) = Some (l_handle s) →
  knows (mkConnector (LEv c r :: l_trace s) (l_handle s)).
Proof. unfold knows. cbn [open_after l_trace l_handle]. by intros ->. Qed.

Lemma knows_global o : does keeps_knowing (ldap (SetOption None o)).
Proof. intros s. apply (wp_ldap (SetOption None o)). intros r H. by apply knows_call. Qed.

Lemma knows_msgfree : does keeps_knowing (ldap MsgFree).
Proof. intros s. apply (wp_ldap MsgFree). intros r H. by apply knows_call. Qed.

Lemma knows_option o : does keeps_knowing (set_option_here o).
Proof.
  intros s. unfold set_option_here. apply wp_bind, wp_gets. cbn [thenQ].
  apply (wp_ldap (SetOption _ o)). intros r H. apply knows_call; [done|].
  destruct (l_handle s) eqn:Hh; cbn [next]; [by rewrite bool_decide_true|done].
Qed.

#[local] Hint Resolve knows_global knows_msgfree knows_option : does.

Lemma knows_text v o : does keeps_knowing (set_text v o).
Proof. unfold set_text. solve_does. Qed.

#[local] Hint Resolve knows_text : does.

Lemma knows_disconnect : does keeps_knowing disconnect.
Proof.
  intros s. unfold disconnect. apply wp_bind, wp_gets. cbn [thenQ].
  destruct (l_handle s) as [h|] eqn:Hh; [|by apply wp_ret; intros H].
  apply wp_bind, (wp_ldap (Unbind (Some h))). intros r. cbn [thenQ]. apply wp_modify. intros H.
  unfold knows in *. cbn [open_after l_trace l_handle]. rewrite H, Hh. cbn [mbind option_bind next].
  by rewrite bool_decide_true.
Qed.

Lemma knows_connect uri : does keeps_knowing (connect uri).
Proof.
  intros s. unfold connect. destruct (streq _ _); [by apply wp_ret; intros H|].
  apply wp_bind, wp_gets. cbn [thenQ].
  destruct (l_handle s) as [h|] eqn:Hh; [by apply wp_ret; intros H|].
  apply wp_bind, (wp_ldap (Initialize (c_str uri))). intros [rc h]. cbn [thenQ].
  apply wp_bind, wp_modify. cbn [thenQ l_trace].
  assert (Hk : keeps_knowing s (mkConnector (LEv (Initialize (c_str uri)) (rc, h) :: l_trace s) h)).
  { intros H. unfold knows in *. cbn [open_after l_trace l_handle]. by rewrite H, Hh. }
  destruct (negb _); [by apply wp_ret|].
  eapply wp_valQ_mono; [apply (does_checked keeps_knowing); [auto with does|]; apply does_checked; auto with does|].
  intros rc' s' H1. by transitivity (mkConnector (LEv (Initialize (c_str uri)) (rc, h) :: l_trace s) h).
Qed.

(** A call on the handle that is open. *)
Lemma knows_here (c : LdapCall) s :
  (∃ h, l_handle s = Some h ∧ (c = StartTls (Some h) ∨ c = Search (Some h) ∨ ∃ dn pw, c = SaslBind (Some h) dn pw)) →
  wp (ldap c) (valQ (λ _ s', keeps_knowing s s' ∧ l_handle s' = l_handle s)) s.
Proof.
  intros (h & Hh & Hc). apply (wp_ldap c). intros r. split; [|done]. intros H. apply knows_call; [done|].
  destruct Hc as [->|[->|(dn & pw & ->)]]; cbn [next]; by rewrite Hh, bool_decide_true.
Qed.

Lemma knows_ping : does keeps_knowing ping.
Proof.
  intros s. unfold ping. apply wp_bind, wp_gets. cbn [thenQ].
  destruct (l_handle s) as [h|] eqn:Hh; [|by apply wp_ret; intros H].
  apply (wp_valQ_bind (ldap (Search (Some h)))).
  eapply wp_valQ_mono; [apply knows_here; eauto 6|]. intros [rc m] s1 [H1 _].
  eapply wp_valQ_mono; [apply (does_bind keeps_knowing (if m then _ else _)); [solve_does|intros _; solve_does]|].
  intros ? s2 H2. transitivity s1; assumption.
Qed.

Lemma knows_bind mode dn pw : does keeps_knowing (bind mode dn pw).
Proof.
  intros s. unfold bind. apply wp_bind, wp_gets. cbn [thenQ].
  destruct (l_handle s) as [h|] eqn:Hh; [|by apply wp_ret; intros H].
  apply wp_valQ_bind. eapply (wp_valQ_mono _ (λ _ s', keeps_knowing s s' ∧ l_handle s' = l_handle s)).
  { destruct (mode =? STARTTLS); [apply knows_here; eauto|by apply wp_ret; split; [intros H|]]. }
  intros rc s1 [H1 H2]. destruct (_ && _); [by apply wp_ret|].
  eapply (wp_valQ_mono (ldap (SaslBind (Some h) (c_str dn) (password_bytes pw)))).
  { apply knows_here. rewrite H2. eauto 7. }
  intros ? s2 [H3 _]. transitivity s1; assumption.
Qed.

#[local] Hint Resolve knows_disconnect knows_connect knows_ping knows_bind does_checked : does.

Lemma knows_check timeout c : does keeps_knowing (check_ldap_server_availability timeout c).
Proof.
  unfold check_ldap_server_availability, set_tls, bind_and_ping, set_api_timeout, set_network_timeout,
    set_require_cert, create_ssl_context, set_cipher_suite, set_client_key, set_client_certificate,
    set_ca_certificate, set_ca_cert_dir.
  repeat (apply does_checked; [apply _|solve_does|]).
  destruct (negb _); repeat first [apply does_checked; [apply _|solve_does|]|solve_does].
Qed.

(** Between two tries no handle is open. *)
Definition settled (s : Connector) : Prop := knows s ∧ l_handle s = None.

Lemma disconnect_clears s : wp disconnect (valQ (λ _ s', l_handle s' = None)) s.
Proof.
  unfold disconnect. apply wp_bind, wp_gets. cbn [thenQ].
  destruct (l_handle s) as [h|] eqn:Hh; [|by apply wp_ret].
  apply wp_bind, (wp_ldap (Unbind (Some h))). intros r. cbn [thenQ]. by apply wp_modify.
Qed.

Lemma one_try_settled timeout c s : settled s → wp (one_try timeout c) (valQ (λ _, settled)) s.
Proof.
  intros [Hk Hh]. unfold one_try. apply wp_bind, wp_modify. cbn [thenQ].
  rewrite <- Hh. replace (mkConnector _ _) with s by (by destruct s).
  apply wp_valQ_bind. eapply wp_valQ_mono; [apply knows_check|]. intros rc s1 H1.
  apply wp_valQ_bind.
  eapply wp_valQ_mono; [apply wp_valQ_and; [apply knows_disconnect|apply disconnect_clears]|].
  intros [] s2 [H2 H3]. apply wp_ret. split; [by apply H2, H1|done].
Qed.

Lemma tries_settled n timeout c s : settled s → wp (tries n timeout c) (valQ (λ _, settled)) s.
Proof.
  revert s. induction n as [|n IH]; intros s Hs; cbn [tries]; [by apply wp_ret|].
  apply wp_valQ_bind. eapply wp_valQ_mono; [by apply one_try_settled|]. intros [] s1 H1; [by apply wp_ret|auto].
Qed.

(** What holds after the tries of [main] and is true without a call holds after [main]. *)
Lemma cla_main_after (P : Connector → Prop) args f :
  P (mkConnector [] None) →
  (∀ n timeout c, wp (tries n timeout c) (valQ (λ _, P)) (mkConnector [] None)) →
  P (cla_main args f (mkConnector [] None)).2.
Proof.
  intros H0 H. unfold cla_main. destruct (parse_command_line args) as [a|]; [|done].
  destruct (load_configuration f newLdapConf) as [[rc c]|]; [|done].
  destruct (negb _); [done|]. specialize (H (Z.to_nat (retries a)) (timeout a) c). unfold wp in H.
  cbn [mbind M_bind]. unfold mbind, M_bind. destruct (tries _ _ _ _) as [[up| | |] s']; try done.
Qed.

(** C17: whatever the library answers, [cla] never asks anything of a handle that is not
    open, never obtains a second one beside it, and has given back every handle it obtained,
    once, when it ends. *)
Theorem handles_given_back args f :
  open_after (l_trace (cla_main args f (mkConnector [] None)).2) = Some None.
Proof.
  assert (H0 : settled (mkConnector [] None)) by done.
  assert (H : settled (cla_main args f (mkConnector [] None)).2).
  { apply cla_main_after; [done|]. intros n timeout c. by apply tries_settled. }
  destruct H as [Hk Hh]. unfold knows in Hk. by rewrite Hk, Hh.
Qed.

(** ** Credentials *)

Definition opt_ok (h : option Z) (o : LdapOption) : LdapEvent := LEv (SetOption h o) LDAP_SUCCESS.

(** The certificates of the authorities are those of the configuration. *)
Definition ca_given (c : LdapConf) (h : option Z) (t : LdapTrace) : Prop :=
  if streq (ca_certificate c) EmptyString then opt_ok h (OptCaCertDir (c_str (ca_cert_dir c))) ∈ t
  else opt_ok h (OptCaCertFile (c_str (ca_certificate c))) ∈ t.

(** The session was secured, where that is left to the command. *)
Definition tls_started (c : LdapConf) (h : option Z) (t : LdapTrace) : Prop :=
  if tls_mode c =? STARTTLS then
    ∃ r, t = [LEv (StartTls h) r] ∧ (r = LDAP_SUCCESS ∨ r = LDAP_LOCAL_ERROR)
  else t = [].

(** The calls since the handle was obtained from the server of the configuration: over TLS
    a certificate of the server is demanded, which a context created after that makes
    effective. *)
Definition trusted (c : LdapConf) (h : option Z) (t : LdapTrace) : Prop :=
  ∃ setup older, t = setup ++ LEv (Initialize (c_str (ldap_uri c))) (LDAP_SUCCESS, h) :: older
    ∧ (tls_mode c ≠ NO_TLS → ∃ starts before,
        setup = starts ++ opt_ok h (OptNewCtx 0) :: opt_ok h (OptRequireCert LDAP_OPT_X_TLS_DEMAND) :: before
        ∧ tls_started c h starts ∧ ca_given c h before).

(** All credentials that were sent are those of the configuration, and went over a handle
    that is trusted. *)
Definition bind_ok (c : LdapConf) (e : LdapEvent) (t : LdapTrace) : Prop :=
  match e with
  | LEv (SaslBind h dn pw) _ =>
      dn = c_str (bind_dn c) ∧ pw = password_bytes (bind_password c) ∧ trusted c h t
  | _ => True
  end.
Fixpoint binds_ok (c : LdapConf) (t : LdapTrace) : Prop :=
  match t with
  | [] => True
  | e :: t => bind_ok c e t ∧ binds_ok c t
  end.

Lemma binds_ok_split c later e before : binds_ok c (later ++ e :: before) → bind_ok c e before.
Proof. induction later as [|x later IH]; cbn; intros [H1 H2]; auto. Qed.

Definition is_bind (e : LdapEvent) : bool := match e with LEv (SaslBind _ _ _) _ => true | _ => false end.

(** The run sends no credentials and keeps the handle. *)
Definition adds (s s' : Connector) : Prop :=
  l_handle s' = l_handle s
  ∧ ∃ new, l_trace s' = new ++ l_trace s ∧ Forall (λ e, is_bind e = false) new.

#[local] Instance adds_preorder : PreOrder adds.
Proof.
  split.
  - intros s. split; [done|]. by exists [].
  - intros s1 s2 s3 (H1 & n1 & E1 & F1) (H2 & n2 & E2 & F2). split; [congruence|].
    exists (n2 ++ n1). split; [by rewrite E2, E1, app_assoc|by apply Forall_app].
Qed.

Lemma adds_trans s1 s2 s3 : adds s1 s2 → adds s2 s3 → adds s1 s3.
Proof. apply adds_preorder. Qed.

Definition keeps_ok (c : LdapConf) : relation Connector := λ s s', binds_ok c (l_trace s) → binds_ok c (l_trace s').

#[local] Instance keeps_ok_preorder c : PreOrder (keeps_ok c).
Proof. split; [by intros s H|]. intros s1 s2 s3 H1 H2 H. by apply H2, H1. Qed.

Lemma extends_ok c new s s' :
  l_trace s' = new ++ l_trace s → Forall (λ e, is_bind e = false) new → keeps_ok c s s'.
Proof.
  intros Hs Hn H. rewrite Hs. clear Hs. induction Hn as [|[[] r] new He Hn IH]; cbn in *; done.
Qed.

Lemma adds_ok c s s' : adds s s' → keeps_ok c s s'.
Proof. intros (_ & new & Hs & Hn). by eapply extends_ok. Qed.

Lemma adds_call e s : is_bind e = false → adds s (mkConnector (e :: l_trace s) (l_handle s)).
Proof. intros He. split; [done|]. exists [e]. split; [done|]. by repeat constructor. Qed.

Lemma adds_calls e1 e2 s :
  is_bind e1 = false → is_bind e2 = false → adds s (mkConnector (e2 :: e1 :: l_trace s) (l_handle s)).
Proof. intros H1 H2. split; [done|]. exists [e2; e1]. split; [done|]. by repeat constructor. Qed.

Lemma adds_ldap c : (∀ r, is_bind (LEv c r) = false) → does adds (ldap c).
Proof. intros Hc s. apply (wp_ldap c). intros r. by apply adds_call. Qed.

Lemma wp_option o s :
  wp (set_option_here o)
    (valQ (λ rc s', s' = mkConnector (LEv (SetOption (l_handle s) o) rc :: l_trace s) (l_handle s))) s.
Proof. unfold set_option_here. apply wp_bind, wp_gets. cbn [thenQ]. by apply (wp_ldap (SetOption _ o)). Qed.

Lemma adds_option o : does adds (set_option_here o).
Proof.
  intros s. eapply wp_valQ_mono; [apply wp_option|]. intros rc s' ->. by apply adds_call.
Qed.

#[local] Hint Resolve adds_option : does.

Lemma adds_text v o : does adds (set_text v o).
Proof. unfold set_text. solve_does. Qed.

#[local] Hint Resolve adds_text : does.

(** A text that was accepted. *)
Lemma wp_text v o s :
  wp (set_text v o)
    (valQ (λ rc s', adds s s' ∧ (rc = 0 → opt_ok (l_handle s) (o (c_str v)) :: l_trace s = l_trace s'))) s.
Proof.
  apply wp_valQ_and; [apply adds_text|]. unfold set_text. destruct (streq v _); [by apply wp_ret|].
  eapply wp_valQ_mono; [apply wp_option|]. by intros rc s' -> ->.
Qed.

(** What [set_tls] has done when it goes on. *)
Definition tls_set (c : LdapConf) (s s' : Connector) : Prop :=
  l_handle s' = l_handle s
  ∧ ∃ before,
      l_trace s' = opt_ok (l_handle s) (OptNewCtx 0)
        :: opt_ok (l_handle s) (OptRequireCert LDAP_OPT_X_TLS_DEMAND) :: before ++ l_trace s
      ∧ ca_given c (l_handle s) before.

Lemma ca_given_app c h t1 t2 : ca_given c h t2 → ca_given c h (t1 ++ t2).
Proof. unfold ca_given. destruct (streq _ _); intros H; apply elem_of_app; by right. Qed.

Lemma wp_ca c s :
  wp (if negb (streq (ca_certificate c) EmptyString) then set_ca_certificate (ca_certificate c)
      else set_ca_cert_dir (ca_cert_dir c))
    (valQ (λ rc s', adds s s' ∧ (rc = 0 → ∃ e, l_trace s' = e :: l_trace s ∧ ca_given c (l_handle s) [e]))) s.
Proof.
  unfold ca_given. destruct (streq (ca_certificate c) _); cbn [negb];
    (eapply wp_valQ_mono; [apply wp_text|]); intros rc s' [H1 H2]; (split; [done|]); intros H;
    (eexists; split; [symmetry; by apply H2|left]).
Qed.

(** The last two options: when both are set they are the latest calls. *)
Lemma wp_demand s k (Q : outcome Z → Connector → Prop) :
  (∀ s', adds s s' → l_trace s' = opt_ok (l_handle s) (OptNewCtx 0)
            :: opt_ok (l_handle s) (OptRequireCert LDAP_OPT_X_TLS_DEMAND) :: l_trace s → wp k Q s') →
  (∀ rc s', adds s s' → Q (Val rc) s') →
  wp (checked (set_require_cert DEMAND) id (checked create_ssl_context id k)) Q s.
Proof.
  intros Hk He. unfold set_require_cert, create_ssl_context.
  eapply wp_checked; [apply wp_option| |intros rc s' _ ->; apply He; by apply adds_call].
  intros s1 ->. eapply wp_checked; [apply wp_option|intros s2 ->; apply Hk; [|done]|intros rc s2 _ ->; apply He];
    (refine (adds_calls _ _ s _ _); done).
Qed.

Lemma wp_set_tls c k (Q : outcome Z → Connector → Prop) s :
  (∀ s', adds s s' → tls_set c s s' → wp k Q s') →
  (∀ rc s', adds s s' → Q (Val rc) s') →
  wp (set_tls c k) Q s.
Proof.
  intros Hk He. unfold set_tls. eapply wp_checked; [apply wp_ca| |intros rc s' _ [H _]; by apply He].
  intros s1 [A1 H1]. destruct (H1 eq_refl) as (e & E1 & Hca).
  eapply wp_bind, wp_mono; [apply (adds_text (client_certificate c))|]. intros [rc2| | |] s2 A2; try done.
  eapply wp_bind, wp_mono; [apply (adds_text (client_key c))|]. intros [rc3| | |] s3 A3; try done.
  cbn [thenQ valQ] in *.
  eapply wp_checked; [apply (adds_text (cipher_filter c))| |intros rc s' _ A4; apply He; eauto using adds_trans].
  intros s4 A4. assert (A : adds s1 s4) by eauto using adds_trans.
  apply wp_demand; [|intros rc s5 A5; apply He; eauto using adds_trans].
  intros s5 A5 E5. apply Hk; [eauto 6 using adds_trans|].
  destruct A as (H & new & E4 & _). destruct A1 as [H' _]. destruct A5 as [H5 _].
  split; [congruence|]. exists (new ++ [e]). split.
  - rewrite E5, E4, E1, H, H'. by rewrite <- app_assoc.
  - by apply ca_given_app.
Qed.

(** A connection that was opened. *)
Lemma wp_connect uri s :
  wp (connect uri) (valQ (λ rc s',
    (∃ new, l_trace s' = new ++ l_trace s ∧ Forall (λ e, is_bind e = false) new)
    ∧ (rc = 0 → ∃ setup, l_trace s' = setup ++ LEv (Initialize (c_str uri)) (LDAP_SUCCESS, l_handle s') :: l_trace s))) s.
Proof.
  unfold connect. destruct (streq _ _); [apply wp_ret; split; [by exists []|done]|].
  apply wp_bind, wp_gets. cbn [thenQ].
  destruct (l_handle s) as [h|]; [apply wp_ret; split; [by exists []|done]|].
  apply wp_bind, (wp_ldap (Initialize (c_str uri))). intros [rc h]. cbn [thenQ].
  apply wp_bind, wp_modify. cbn [thenQ l_trace].
  destruct (Z.eqb_spec rc LDAP_SUCCESS) as [->|]; cbn [negb].
  - eapply wp_valQ_mono; [apply (does_checked adds); [auto with does|]; apply does_checked; auto with does|].
    intros rc s' (Hh & new & Hn & Hf). cbn [l_trace l_handle] in *. rewrite Hh, Hn. split; [|by exists new].
    eexists (new ++ [_]). split; [by rewrite <- app_assoc|]. apply Forall_app. split; [done|]. by repeat constructor.
  - apply wp_ret. split; [|done]. eexists [_]. split; [done|]. by repeat constructor.
Qed.

(** The state in which [bind] is called. *)
Definition ready (c : LdapConf) (s : Connector) : Prop :=
  ∃ setup older,
    l_trace s = setup ++ LEv (Initialize (c_str (ldap_uri c))) (LDAP_SUCCESS, l_handle s) :: older
    ∧ (tls_mode c ≠ NO_TLS → ∃ before,
        setup = opt_ok (l_handle s) (OptNewCtx 0)
          :: opt_ok (l_handle s) (OptRequireCert LDAP_OPT_X_TLS_DEMAND) :: before
        ∧ ca_given c (l_handle s) before).

Lemma ready_trusted c s starts :
  ready c s → tls_started c (l_handle s) starts → trusted c (l_handle s) (starts ++ l_trace s).
Proof.
  intros (setup & older & Ht & Htls) Hs. exists (starts ++ setup), older. rewrite Ht, app_assoc. split; [done|].
  intros Hm. destruct (Htls Hm) as (before & -> & Hca). by exists starts, before.
Qed.

Lemma bind_sends c s :
  ready c s → wp (bind (tls_mode c) (bind_dn c) (bind_password c)) (valQ (λ _, keeps_ok c s)) s.
Proof.
  intros Hr. unfold bind. apply wp_bind, wp_gets. cbn [thenQ].
  destruct (l_handle s) as [h|] eqn:Hh; [|by apply wp_ret; intros H].
  apply wp_valQ_bind.
  apply (wp_valQ_mono _ (λ rc s', ∃ starts, s' = mkConnector (starts ++ l_trace s) (Some h)
    ∧ Forall (λ e, is_bind e = false) starts
    ∧ (rc = LDAP_SUCCESS ∨ rc = LDAP_LOCAL_ERROR → tls_started c (Some h) starts))).
  { unfold tls_started. destruct (tls_mode c =? STARTTLS).
    - apply (wp_ldap (StartTls (Some h))). intros r. rewrite Hh. exists [LEv (StartTls (Some h)) r].
      split; [done|]. split; [by repeat constructor|]. intros H. by exists r.
    - apply wp_ret. exists []. split; [by destruct s; cbn in *; subst|done]. }
  intros rc s1 (starts & -> & Hf & Hst).
  assert (Hk : keeps_ok c s (mkConnector (starts ++ l_trace s) (Some h))) by (by eapply extends_ok).
  destruct (Z.eqb_spec rc LDAP_SUCCESS), (Z.eqb_spec rc LDAP_LOCAL_ERROR); cbn [negb andb];
    try (apply (wp_ldap (SaslBind (Some h) _ _)); intros r H; split; [|by apply Hk]; cbn [bind_ok];
         split; [done|]; split; [done|]; rewrite <- Hh in *; apply ready_trusted; auto).
  apply wp_ret. exact Hk.
Qed.

Lemma keeps_ok_adds {A} c (m : ML A) : does adds m → does (keeps_ok c) m.
Proof. intros H. eapply does_mono; [exact H|]. intros s s' Hs. by apply adds_ok. Qed.

Lemma keeps_ok_ping c : does (keeps_ok c) ping.
Proof.
  apply keeps_ok_adds. unfold ping. apply does_bind; [apply _|solve_does|]. intros [h|]; [|solve_does].
  apply (does_bind adds (ldap (Search (Some h)))); [by apply adds_ldap|]. intros [rc m].
  solve_does. by apply (adds_ldap MsgFree).
Qed.

Lemma keeps_ok_disconnect c : does (keeps_ok c) disconnect.
Proof.
  intros s. unfold disconnect. apply wp_bind, wp_gets. cbn [thenQ].
  destruct (l_handle s) as [h|]; [|by apply wp_ret; intros H].
  apply wp_bind, (wp_ldap (Unbind (Some h))). intros r. cbn [thenQ]. by apply wp_modify; intros H.
Qed.

Lemma bind_and_ping_ok c s : ready c s → wp (bind_and_ping c) (valQ (λ _, keeps_ok c s)) s.
Proof.
  intros Hr. unfold bind_and_ping. eapply wp_checked; [by apply bind_sends| |intros rc s' _ H; exact H].
  intros s1 H1. eapply wp_valQ_mono; [apply (does_checked (keeps_ok c))|].
  - apply keeps_ok_ping.
  - apply does_bind; [apply _|apply keeps_ok_disconnect|intros _; solve_does].
  - intros rc s2 H2. transitivity s1; assumption.
Qed.

Lemma check_ok timeout c s : wp (check_ldap_server_availability timeout c) (valQ (λ _, keeps_ok c s)) s.
Proof.
  unfold check_ldap_server_availability, set_api_timeout, set_network_timeout.
  eapply wp_checked; [apply (keeps_ok_adds c), (adds_ldap (SetOption None _)); done| |intros rc s' _ H; exact H]. intros s1 H1.
  eapply wp_checked; [apply (keeps_ok_adds c), (adds_ldap (SetOption None _)); done| |].
  2: { intros rc s2 _ H2. cbn [valQ]. transitivity s1; assumption. }
  intros s2 H2. eapply wp_checked; [apply wp_connect| |].
  2: { intros rc s3 _ [(new & E3 & F3) _]. cbn [valQ]. transitivity s2; [transitivity s1; assumption|by eapply extends_ok]. }
  intros s3 [(new & E3 & F3) H3]. destruct (H3 eq_refl) as [setup Es].
  assert (K3 : keeps_ok c s s3) by (transitivity s2; [transitivity s1; assumption|by eapply extends_ok]).
  destruct (Z.eqb_spec (tls_mode c) NO_TLS) as [Hm|Hm]; cbn [negb].
  - eapply wp_valQ_mono; [apply bind_and_ping_ok; by exists setup, (l_trace s2)|]. intros rc s4 H4. transitivity s3; assumption.
  - apply wp_set_tls.
    + intros s4 A4 (Hh & before & E4 & Hca). eapply wp_valQ_mono; [apply bind_and_ping_ok|].
      * exists (opt_ok (l_handle s3) (OptNewCtx 0)
          :: opt_ok (l_handle s3) (OptRequireCert LDAP_OPT_X_TLS_DEMAND) :: before ++ setup), (l_trace s2).
        rewrite Hh, E4, Es. split; [cbn [app]; by rewrite <- app_assoc|]. intros _. eexists. split; [done|].
        unfold ca_given in *. destruct (streq _ _); apply elem_of_app; by left.
      * intros rc s5 H5 H. apply H5. apply (adds_ok c s3); auto.
    + intros rc s4 A4 H. apply (adds_ok c s3); auto.
Qed.

Lemma tries_ok n timeout c s : wp (tries n timeout c) (valQ (λ _, keeps_ok c s)) s.
Proof.
  revert s. induction n as [|n IH]; intros s; cbn [tries]; [by apply wp_ret; intros H|].
  apply wp_valQ_bind. eapply (wp_valQ_mono _ (λ _, keeps_ok c s)).
  - unfold one_try. apply (does_bind (keeps_ok c)); [by intros s'; apply wp_modify; intros H|]. intros _.
    apply does_bind; [apply _|intros s'; apply check_ok|]. intros rc.
    apply does_bind; [apply _|apply keeps_ok_disconnect|]. intros _. solve_does.
  - intros [] s1 H1; [by apply wp_ret|]. eapply wp_valQ_mono; [apply IH|]. intros up s2 H2. transitivity s1; assumption.
Qed.

(** C12: [cla] sends no other credentials than those of the configuration, and only over a
    handle that it obtained from the server of the configuration.  Unless the configuration
    is without TLS it has demanded the server's certificate on that handle, to be checked
    with the configured authorities, and has created a context with these options before; and
    where TLS is started in the session, that has succeeded or is in place already. *)
Theorem credentials_protected args f c later h dn pw r before :
  load_configuration f newLdapConf = Some (0, c) →
  l_trace (cla_main args f (mkConnector [] None)).2 = later ++ LEv (SaslBind h dn pw) r :: before →
  dn = c_str (bind_dn c) ∧ pw = password_bytes (bind_password c) ∧ trusted c h before.
Proof.
  intros Hl Ht. apply (binds_ok_split c later (LEv (SaslBind h dn pw) r)). rewrite <- Ht.
  unfold cla_main. rewrite Hl. destruct (parse_command_line args) as [a|]; [|done]. cbn [negb Z.eqb].
  pose proof (tries_ok (Z.to_nat (retries a)) (timeout a) c (mkConnector [] None)) as H. unfold wp in H.
  unfold mbind, M_bind. destruct (tries _ _ _ _) as [[up| | |] s']; try done. by apply H.
Qed.

(** ** The verdict *)

(** A search was answered. *)
Definition answered (t : LdapTrace) : Prop := ∃ h m, LEv (Search h) (LDAP_SUCCESS, m) ∈ t.

(** The tries: each of them begins with the timeout of the calls. *)
Definition begins (e : LdapEvent) : bool :=
  match e with LEv (SetOption None (OptTimeout _ _)) _ => true | _ => false end.
Definition tries_made (t : LdapTrace) : nat := length (List.filter begins t).

(** The calls that are neither of these. *)
Definition plain (e : LdapEvent) : bool :=
  negb (begins e) && match e with LEv (Search _) _ => false | _ => true end.

Definition others : relation Connector := λ s s',
  ∃ new, l_trace s' = new ++ l_trace s ∧ Forall (λ e, plain e = true) new.

#[local] Instance others_preorder : PreOrder others.
Proof.
  split; [intros s; by exists []|]. intros s1 s2 s3 (n1 & E1 & F1) (n2 & E2 & F2).
  exists (n2 ++ n1). split; [by rewrite E2, E1, app_assoc|by apply Forall_app].
Qed.

Lemma tries_made_app t1 t2 : tries_made (t1 ++ t2) = (tries_made t1 + tries_made t2)%nat.
Proof. unfold tries_made. by rewrite List.filter_app, length_app. Qed.

Lemma answered_app t1 t2 : answered (t1 ++ t2) ↔ answered t1 ∨ answered t2.
Proof. unfold answered. setoid_rewrite elem_of_app. naive_solver. Qed.

Lemma plain_silent new : Forall (λ e, plain e = true) new → tries_made new = 0%nat ∧ ¬ answered new.
Proof.
  intros Hn. split.
  - unfold tries_made. induction Hn as [|e new He Hn IH]; [done|]. cbn [List.filter].
    unfold plain in He. by destruct (begins e).
  - intros (h & m & H). rewrite Forall_forall in Hn. by specialize (Hn _ H).
Qed.

Lemma others_ldap c : (∀ r, plain (LEv c r) = true) → does others (ldap c).
Proof. intros Hc s. apply (wp_ldap c). intros r. exists [LEv c r]. split; [done|]. by repeat constructor. Qed.

Lemma others_handle h : does others (set_handle h).
Proof. intros s. apply wp_modify. by exists []. Qed.

Lemma others_option h o : begins (LEv (SetOption h o) 0) = false → does others (ldap (SetOption h o)).
Proof. intros H. apply others_ldap. intros r. unfold plain. cbn in *. by rewrite H. Qed.

#[local] Hint Resolve others_handle : does.
#[local] Hint Extern 1 (does others (ldap _)) => apply others_ldap; done : does.
#[local] Hint Extern 1 (does others (ldap (SetOption ?h _))) => apply others_option; by destruct h : does.

Lemma others_here o : begins (LEv (SetOption None o) 0) = false → does others (set_option_here o).
Proof.
  intros Ho. unfold set_option_here. apply does_bind; [apply _|solve_does|]. intros [h|]; by apply others_option.
Qed.

Lemma others_text v o : (∀ x, begins (LEv (SetOption None (o x)) 0) = false) → does others (set_text v o).
Proof. intros Ho. unfold set_text. destruct (streq _ _); [solve_does|by apply others_here]. Qed.

Lemma others_connect uri : does others (connect uri).
Proof.
  unfold connect. destruct (streq _ _); [solve_does|]. apply does_bind; [apply _|solve_does|]. intros [h|]; [solve_does|].
  apply (does_bind others (ldap (Initialize (c_str uri)))); [solve_does|]. intros [rc h].
  apply does_bind; [apply _|solve_does|]. intros _. destruct (negb _); [solve_does|].
  repeat (apply does_checked; [apply _|by apply others_here|]). solve_does.
Qed.

Lemma others_disconnect : does others disconnect.
Proof.
  unfold disconnect. apply does_bind; [apply _|solve_does|]. intros [h|]; [|solve_does].
  apply (does_bind others (ldap (Unbind (Some h)))); [solve_does|]. intros _. solve_does.
Qed.

Lemma others_bind mode dn pw : does others (bind mode dn pw).
Proof.
  unfold bind. apply does_bind; [apply _|solve_does|]. intros [h|]; [|solve_does].
  apply does_bind; [apply _|destruct (_ =? _); [apply (others_ldap (StartTls _)); done|solve_does]|].
  intros rc. destruct (_ && _); [solve_does|]. by apply (others_ldap (SaslBind _ _ _)).
Qed.

(** The try that began at [s0]: whether its search was answered. *)
Definition trial (s0 : Connector) (up : bool) (s : Connector) : Prop :=
  ∃ new, l_trace s = new ++ l_trace s0 ∧ tries_made new = 1%nat ∧ (answered new ↔ up = true).

Lemma trial_others s0 up s s' : trial s0 up s → others s s' → trial s0 up s'.
Proof.
  intros (n1 & E1 & C1 & A1) (n2 & E2 & F2). destruct (plain_silent _ F2) as [C2 A2].
  exists (n2 ++ n1). split; [by rewrite E2, E1, app_assoc|]. rewrite tries_made_app, answered_app. split; [lia|tauto].
Qed.

(** The code tells whether the search was answered. *)
Definition told (s0 : Connector) (rc : Z) (s : Connector) : Prop := trial s0 (rc =? 0) s.

Lemma told_error s0 rc s : rc ≠ 0 → trial s0 false s → told s0 rc s.
Proof. intros Hr H. unfold told. by rewrite (proj2 (Z.eqb_neq rc 0) Hr). Qed.

Lemma wp_others {A} s0 up (m : ML A) s : does others m → trial s0 up s → wp m (valQ (λ _, trial s0 up)) s.
Proof. intros Hm Hs. eapply wp_valQ_mono; [apply Hm|]. intros a s' Ho. by eapply trial_others. Qed.

(** A call before the search. *)
Lemma wp_before s0 m err k s :
  does others m → (∀ rc, rc ≠ 0 → err rc ≠ 0) → trial s0 false s →
  (∀ s', trial s0 false s' → wp k (valQ (told s0)) s') →
  wp (checked m err k) (valQ (told s0)) s.
Proof.
  intros Hm He Hs Hk. apply (wp_checked (λ _, trial s0 false)); [by apply wp_others|done|].
  intros rc s' Hr H. apply told_error; auto.
Qed.

Lemma wp_ping s0 s : trial s0 false s → wp ping (valQ (told s0)) s.
Proof.
  intros Hs. unfold ping. apply wp_bind, wp_gets. cbn [thenQ].
  destruct (l_handle s) as [h|] eqn:Hh; [|apply wp_ret; by apply told_error].
  apply wp_bind, (wp_ldap (Search (Some h))). intros [rc m]. cbn [thenQ].
  apply wp_valQ_bind. eapply wp_valQ_mono; [apply (wp_others s0 (rc =? 0)); [destruct m; solve_does|]|].
  - destruct Hs as (new & E0 & C0 & A0). exists (LEv (Search (Some h)) (rc, m) :: new). cbn [l_trace]. rewrite E0.
    split; [done|]. split; [done|]. change (?x :: new) with ([x] ++ new). rewrite answered_app, Z.eqb_eq. split.
    + intros [(h' & m' & H%list_elem_of_singleton)|H]; [|by apply A0 in H].
      by apply (f_equal (λ e, match e with LEv (Search _) r => r.1 | _ => 0 end)) in H.
    + intros ->. left. eexists _, m. by apply list_elem_of_singleton.
  - intros [] s' H. by apply wp_ret.
Qed.

Lemma bind_and_ping_told s0 c s : trial s0 false s → wp (bind_and_ping c) (valQ (told s0)) s.
Proof.
  intros Hs. unfold bind_and_ping. apply wp_before; [apply others_bind|done|done|]. clear s Hs. intros s Hs.
  eapply wp_checked; [by apply (wp_ping s0)| |by intros rc s' Hr H].
  intros s' H. apply wp_valQ_bind. eapply wp_valQ_mono; [eapply wp_others; [apply others_disconnect|exact H]|].
  intros [] s2 H2. by apply wp_ret.
Qed.

Lemma set_tls_told s0 c k s :
  trial s0 false s → (∀ s', trial s0 false s' → wp k (valQ (told s0)) s') → wp (set_tls c k) (valQ (told s0)) s.
Proof.
  intros Hs Hk. unfold set_tls.
  apply wp_before; [destruct (negb _); by apply others_text|done|done|]. clear s Hs. intros s Hs.
  apply wp_valQ_bind. eapply wp_valQ_mono; [apply wp_others; [by apply others_text|exact Hs]|]. clear s Hs. intros ? s Hs.
  apply wp_valQ_bind. eapply wp_valQ_mono; [apply wp_others; [by apply others_text|exact Hs]|]. clear s Hs. intros ? s Hs.
  apply wp_before; [by apply others_text|done|done|]. clear s Hs. intros s Hs.
  apply wp_before; [by apply others_here|done|done|]. clear s Hs. intros s Hs.
  by apply wp_before; [by apply others_here| | |].
Qed.

Lemma check_told timeout c s0 : wp (check_ldap_server_availability timeout c) (valQ (told s0)) s0.
Proof.
  unfold check_ldap_server_availability, set_api_timeout, set_network_timeout.
  apply (wp_checked (λ _, trial s0 false)).
  { apply (wp_ldap (SetOption None _)). intros r. eexists [_]. split; [done|]. split; [done|].
    split; [|done]. intros (h & m & H). by apply list_elem_of_singleton in H. }
  2: { intros rc s _. by apply told_error. }
  intros s Hs. apply wp_before; [by apply (others_option None)|done|done|]. clear s Hs. intros s Hs.
  apply wp_before; [apply others_connect|done|done|]. clear s Hs. intros s Hs.
  destruct (negb _); [apply set_tls_told; [done|]; intros s' H|]; by apply bind_and_ping_told.
Qed.

Lemma one_try_told timeout c s : wp (one_try timeout c) (valQ (λ up, trial s up)) s.
Proof.
  unfold one_try. apply wp_bind, wp_modify. cbn [thenQ].
  set (s1 := mkConnector (l_trace s) None). apply wp_valQ_bind.
  eapply wp_valQ_mono; [apply check_told|]. intros rc s2 H2. apply wp_valQ_bind.
  eapply wp_valQ_mono; [eapply wp_others; [apply others_disconnect|exact H2]|]. intros [] s3 H3. by apply wp_ret.
Qed.

Lemma tries_told n timeout c s :
  wp (tries n timeout c) (valQ (λ up s', ∃ new, l_trace s' = new ++ l_trace s ∧ (answered new ↔ up = true)
    ∧ (tries_made new ≤ n)%nat ∧ (up = false → tries_made new = n))) s.
Proof.
  revert s. induction n as [|n IH]; intros s; cbn [tries].
  { apply wp_ret. exists []. repeat split; try done. by intros (h & m & H%elem_of_nil). }
  apply wp_valQ_bind. eapply wp_valQ_mono; [apply one_try_told|]. intros [] s1 (n1 & E1 & C1 & A1).
  - apply wp_ret. exists n1. repeat split; try done; [tauto|lia].
  - eapply wp_valQ_mono; [apply IH|]. intros up s2 (n2 & E2 & A2 & L2 & C2). exists (n2 ++ n1).
    rewrite E2, E1, app_assoc, tries_made_app, answered_app. repeat split; [|tauto|lia|intros H; apply C2 in H; lia].
    intros [H|H]; [tauto|]. by apply A1 in H.
Qed.

(** C32: [cla] with a command line and a configuration it accepts always ends, with 0 if a
    search was answered and with 1 if not; it tries at most as often as it was told to, and
    reports a failure only after that many tries. *)
Theorem verdict_right args f a c :
  parse_command_line args = Some a → load_configuration f newLdapConf = Some (0, c) →
  ∃ rc s, cla_main args f (mkConnector [] None) = (Val rc, s)
    ∧ (rc = 0 ∧ answered (l_trace s) ∧ Z.of_nat (tries_made (l_trace s)) ≤ retries a
       ∨ rc = 1 ∧ ¬ answered (l_trace s) ∧ Z.of_nat (tries_made (l_trace s)) = retries a).
Proof.
  intros Ha Hc. unfold cla_main. rewrite Ha, Hc. cbn [negb Z.eqb].
  assert (Hr : 0 < retries a).
  { unfold parse_command_line in Ha. destruct (cla_loop _ _); [|done]. cbn in Ha.
    destruct (_ || _) eqn:H; simplify_eq. apply orb_false_iff in H. lia. }
  pose proof (tries_told (Z.to_nat (retries a)) (timeout a) c (mkConnector [] None)) as H. unfold wp in H.
  unfold mbind, M_bind. destruct (tries _ _ _ _) as [[up| | |] s']; try done.
  destruct H as (new & Ht & A & L & C). cbn [fst snd l_trace] in Ht. rewrite app_nil_r in Ht.
  eexists _, s'. split; [done|]. rewrite Ht. destruct up; [left|right]; (split; [done|]).
  - split; [tauto|lia].
  - split; [by intros H%A|]. rewrite (C eq_refl). lia.
Qed.
End spec.

(** ** Examples *)

(** A server that answers everything, and a node configured for it. *)
Definition demo_ldap : LdapEnv := {|
  ldap_answer := λ _ c,
    match c with
    | Initialize _ => (LDAP_SUCCESS, Some 7)
    | Search _ => (LDAP_SUCCESS, true)
    | _ => LDAP_SUCCESS
    end;
  LDAP_LOCAL_ERROR := -2
|}.

Definition demo_args : list string := ["-r"; "2"; "--timeout=5"]%string.

Definition demo_file : ConfFile := mkConfFile (Some 33188) true (text_of [
  "[sssd]"; "[domain/LdapAuthenticationMethod]"; "ldap_uri = ldap://server"; "tls_mode = 0";
  "ldap_default_bind_dn = cn=ap"; "ldap_default_authtok = secret"; "ldap_tls_cacert = /ca.pem";
  "ldap_tls_cipher_suite = HIGH"]%string).

Definition demo_conf : LdapConf :=
  mkLdapConf "ldap://server" "cn=ap" "secret" STARTTLS EmptyString "/ca.pem" EmptyString EmptyString "HIGH".

Lemma credentials_protected_witness :
  ∃ later before,
    l_trace (@cla_main demo_ldap demo_args demo_file (mkConnector [] None)).2
    = later ++ LEv (SaslBind (Some 7) "cn=ap" "secret") 0 :: before
    ∧ @trusted demo_ldap demo_conf (Some 7) before.
Proof.
  set (t := l_trace (@cla_main demo_ldap demo_args demo_file (mkConnector [] None)).2).
  exists (firstn 3 t), (skipn 4 t).
  assert (Ht : t = firstn 3 t ++ LEv (SaslBind (Some 7) "cn=ap" "secret") 0 :: skipn 4 t) by (vm_compute; reflexivity).
  split; [exact Ht|].
  assert (Hl : load_configuration demo_file newLdapConf = Some (0, demo_conf)) by (vm_compute; reflexivity).
  apply (@credentials_protected demo_ldap demo_args demo_file demo_conf _ _ _ _ _ _ Hl Ht).
Defined.

Lemma verdict_right_witness :
  ∃ rc s, @cla_main demo_ldap demo_args demo_file (mkConnector [] None) = (Val rc, s)
    ∧ (rc = 0 ∧ answered (l_trace s) ∧ Z.of_nat (tries_made (l_trace s)) ≤ 2
       ∨ rc = 1 ∧ ¬ answered (l_trace s) ∧ Z.of_nat (tries_made (l_trace s)) = 2).
Proof.
  apply (@verdict_right demo_ldap demo_args demo_file (mkClaArgs 2 5 false) demo_conf);
    vm_compute; reflexivity.
Defined.
