(* ===== verification/ClaConf.v ===== *)
(** * The command [cla]: its configuration

    [load_configuration] finds the section of the LDAP domain among other sections and takes
    the settings it is written with from it; what it does with settings that follow in a
    section that is no domain, and with a mode that is no number, is shown too. *)

From stdpp Require Import pretty.
From S2P Require Import Prelude CString ImmLib ImmValues Getopt Cla.

Open Scope Z_scope.

(** ** Lines *)

Lemma getlines_line l rest :
  all_chars (no LF) l = true → getlines (String.append l (String LF rest)) = l :: getlines rest.
Proof.
  induction l as [|c l IH]; intros Hl; rewrite ?append_nil_l, ?append_cons; cbn [getlines].
  - by rewrite eqc_refl.
  - cbn in Hl. apply andb_true_iff in Hl as [Hc Hl]. apply negb_true_iff in Hc. by rewrite Hc, IH.
Qed.

Lemma getlines_text lines :
  Forall (λ l, all_chars (no LF) l = true) lines → getlines (text_of lines) = lines ++ [EmptyString].
Proof. induction 1 as [|l lines Hl _ IH]; [done|]. cbn [text_of]. by rewrite getlines_line, IH. Qed.

(** ** Items *)

(** A setting as it is written. *)
Definition item_line (i : string * string) : string := String.append i.1 (String.append " = " i.2).

(** The names of settings contain no space, and nothing that has a meaning. *)
Definition name_char (c : ascii) : bool := no SP c && no "=" c && no "#" c && no "[" c && no LF c.
Definition item_ok (i : string * string) : Prop :=
  i.1 ≠ EmptyString ∧ all_chars name_char i.1 = true
  ∧ ltrim i.2 = i.2 ∧ strstr i.2 DOMAIN = false ∧ all_chars (no LF) i.2 = true.

Lemma name_no c n :
  In c [SP; "="; "#"; "["; LF]%char → all_chars name_char n = true → all_chars (no c) n = true.
Proof.
  intros Hc. apply all_chars_impl. intros a. unfold name_char. rewrite !andb_true_iff.
  intros ((((H1 & H2) & H3) & H4) & H5). cbn in Hc. by repeat destruct Hc as [Hc|Hc]; subst.
Qed.

Lemma rtrim_name s : all_chars (no SP) s = true → rtrim (String.append s " ") = s.
Proof.
  induction s as [|c s IH]; intros Hs; [done|]. cbn in Hs. apply andb_true_iff in Hs as [Hc Hs].
  rewrite append_cons. cbn [rtrim]. rewrite IH by done. apply negb_true_iff in Hc. destruct s; [by rewrite Hc|done].
Qed.

Lemma strstr_skip p v : all_chars (no "[") p = true → strstr (String.append p v) DOMAIN = strstr v DOMAIN.
Proof.
  induction p as [|c p IH]; intros Hp; [done|]. cbn in Hp. apply andb_true_iff in Hp as [Hc Hp].
  rewrite append_cons. cbn [strstr]. rewrite IH by done. unfold DOMAIN. cbn [String.prefix].
  destruct (ascii_dec "[" c) as [<-|]; [done|]. done.
Qed.

Lemma item_parsed i : item_ok i → parse_configuration_item (item_line i) = Some i.
Proof.
  destruct i as [n v]. intros (_ & Hn & Hv & _). cbn [fst snd] in *. unfold parse_configuration_item, item_line.
  cbn [fst snd].
  replace (String.append n (String.append " = " v))
    with (String.append (String.append n " ") (String "=" (String SP v))) by (by rewrite append_assoc).
  rewrite strchr_first.
  - rewrite rtrim_name by (apply name_no; cbn; auto). cbn [ltrim]. by rewrite eqc_refl, Hv.
  - rewrite all_chars_append, name_no by (cbn; auto). done.
Qed.

Lemma item_read i : item_ok i → skipped (item_line i) = false ∧ strstr (item_line i) DOMAIN = false
  ∧ all_chars (no LF) (item_line i) = true.
Proof.
  destruct i as [n v]. intros (Hne & Hn & Hv & Hd & Hl). cbn [fst snd] in *. unfold item_line. cbn [fst snd].
  split; [|split].
  - destruct n as [|a n]; [done|]. pose proof (name_no "#" _ ltac:(cbn; auto) Hn) as H. cbn in H.
    apply andb_true_iff in H as [H _]. by apply negb_true_iff in H.
  - rewrite strstr_skip by (apply name_no; cbn; auto 6). by rewrite (strstr_skip " = ").
  - rewrite !all_chars_append, (name_no LF), Hl by (cbn; auto 8). done.
Qed.

(** ** Sections *)

Fixpoint store_all (items : list (string * string)) (c : LdapConf) : option LdapConf :=
  match items with
  | [] => Some c
  | (name, value) :: items => c ← store_item name value c; store_all items c
  end.

Lemma read_items items rest c :
  Forall item_ok items →
  read_lines ((item_line <$> items) ++ rest) true c = (c ← store_all items c; read_lines rest true c).
Proof.
  intros Hi. revert c. induction Hi as [|[n v] items Hi _ IH]; intros c; [done|].
  cbn [fmap list_fmap app read_lines store_all]. destruct (item_read _ Hi) as (-> & -> & _).
  cbn [andb negb]. rewrite item_parsed by done. cbn iota beta.
  destruct (store_item n v c) as [c'|]; cbn [mbind option_bind]; [apply IH|done].
Qed.

Lemma read_before pre rest c :
  Forall (λ l, strstr l LDAP_DOMAIN = false) pre → read_lines (pre ++ rest) false c = read_lines rest false c.
Proof.
  induction 1 as [|l pre Hl _ IH]; [done|]. cbn [app read_lines]. rewrite Hl, !andb_false_r. cbn iota.
  by destruct (skipped l).
Qed.

(** The loop reaches the section of the LDAP domain and stores its settings. *)
Lemma read_domain pre items rest c :
  Forall (λ l, strstr l LDAP_DOMAIN = false) pre → Forall item_ok items →
  read_lines (pre ++ LDAP_DOMAIN :: (item_line <$> items) ++ rest) false c
  = (c ← store_all items c; read_lines rest true c).
Proof. intros Hpre Hi. rewrite read_before by done. exact (read_items items rest c Hi). Qed.

(** A text of lines without line feeds before and after that section. *)
Lemma read_file pre items post c :
  Forall (λ l, strstr l LDAP_DOMAIN = false ∧ all_chars (no LF) l = true) pre → Forall item_ok items →
  Forall (λ l, all_chars (no LF) l = true) post →
  read_lines (getlines (text_of (pre ++ LDAP_DOMAIN :: (item_line <$> items) ++ post))) false c
  = (c ← store_all items c; read_lines (post ++ [EmptyString]) true c).
Proof.
  intros Hpre Hi Hpost. rewrite getlines_text.
  - rewrite <- app_assoc. cbn [app]. rewrite <- app_assoc. apply read_domain; [|done].
    eapply Forall_impl; [exact Hpre|]. by intros l [].
  - apply Forall_app. split; [eapply Forall_impl; [exact Hpre|]; by intros l []|]. constructor; [done|].
    apply Forall_app. split; [|done]. apply Forall_fmap. eapply Forall_impl; [exact Hi|]. intros i H. apply item_read, H.
Qed.

(** What follows a section: nothing, or another domain. *)
Definition next_domain (post : list string) : Prop :=
  match post with
  | [] => True
  | line :: _ => skipped line = false ∧ strstr line DOMAIN = true
  end.

Lemma read_end post c : next_domain post → read_lines (post ++ [EmptyString]) true c = Some c.
Proof. destruct post as [|l post]; [done|]. intros [H1 H2]. cbn [app read_lines]. by rewrite H1, H2. Qed.

(** ** Configurations in text *)

Definition conf_items (c : LdapConf) : list (string * string) :=
  [(LDAP_URI_ATTRIBUTE_NAME, ldap_uri c);
   (LDAP_BIND_DN_ATTRIBUTE_NAME, bind_dn c);
   (LDAP_BIND_PASSWORD_ATTRIBUTE_NAME, bind_password c);
   (LDAP_TLS_MODE_ATTRIBUTE_NAME, pretty (tls_mode c));
   (LDAP_CA_CERT_DIRECTORY_ATTRIBUTE_NAME, ca_cert_dir c);
   (LDAP_CA_CERTIFICATE_ATTRIBUTE_NAME, ca_certificate c);
   (LDAP_CLIENT_CERTIFICATE_ATTRIBUTE_NAME, client_certificate c);
   (LDAP_CLIENT_KEY_ATTRIBUTE_NAME, client_key c);
   (LDAP_CIPHER_FILTER_ATTRIBUTE_NAME, cipher_filter c)].

(** A text that a line can hold as the value of a setting. *)
Definition writable_text (v : string) : Prop :=
  ltrim v = v ∧ strstr v DOMAIN = false ∧ all_chars (no LF) v = true.

Record writable_conf (c : LdapConf) : Prop := {
  w_uri : writable_text (ldap_uri c);
  w_dn : writable_text (bind_dn c);
  w_password : writable_text (bind_password c);
  w_mode : - 2 ^ 31 ≤ tls_mode c < 2 ^ 31;
  w_dir : writable_text (ca_cert_dir c);
  w_ca : writable_text (ca_certificate c);
  w_cert : writable_text (client_certificate c);
  w_key : writable_text (client_key c);
  w_cipher : writable_text (cipher_filter c)
}.

Lemma pretty_all (f : ascii → bool) (z : Z) :
  (∀ c, is_digit c = true → f c = true) → f "-"%char = true → all_chars f (pretty z) = true.
Proof.
  intros Hf Hm. destruct (Z.ltb_spec z 0).
  - rewrite pretty_neg by done. cbn [all_chars]. rewrite Hm. by apply dec_all.
  - rewrite pretty_nonneg by done. by apply dec_all.
Qed.

Lemma number_writable (z : Z) : writable_text (pretty z).
Proof.
  assert (Hp : ∀ c, In c [SP; "["; LF]%char → all_chars (no c) (pretty z) = true).
  { intros c Hc. apply pretty_all; [|cbn in Hc; by repeat destruct Hc as [<-|Hc]].
    intros a Ha. apply negb_true_iff, not_true_iff_false. intros He%Ascii.eqb_eq. subst a.
    cbn in Hc. by repeat destruct Hc as [<-|Hc]. }
  split; [|split; [|apply Hp; cbn; auto]].
  - pose proof (Hp SP ltac:(cbn; auto)) as H. destruct (pretty z) as [|a s]; [done|]. cbn in H |- *.
    apply andb_true_iff in H as [H _]. apply negb_true_iff in H. by rewrite H.
  - rewrite <- (append_nil_r (pretty z)). rewrite strstr_skip; [done|]. apply Hp. cbn; auto.
Qed.

Lemma items_ok c : writable_conf c → Forall item_ok (conf_items c).
Proof.
  intros []. pose proof (number_writable (tls_mode c)) as Hn. unfold conf_items.
  repeat (apply Forall_cons_2; [by split; [|split]|]). constructor.
Qed.

Lemma stoi_pretty (z : Z) : - 2 ^ 31 ≤ z < 2 ^ 31 → stoi (pretty z) = Some z.
Proof.
  intros Hz. unfold stoi. rewrite strto_pretty_base by (by right). cbn [mbind option_bind].
  assert ((if z <? 0 then - Z.abs z else Z.abs z) = z) as -> by (destruct (Z.ltb_spec z 0); lia).
  destruct (Z.leb_spec (- 2 ^ 31) z), (Z.ltb_spec z (2 ^ 31)); try lia. done.
Qed.

(** The settings of [c], whatever was there before. *)
Lemma store_conf c0 c : writable_conf c → store_all (conf_items c) c0 = Some c.
Proof.
  intros []. destruct c0. unfold conf_items. cbn [store_all]. unfold store_item at 4.
  cbn -[stoi pretty]. rewrite stoi_pretty by done. by destruct c.
Qed.

(** C33: a configuration that is written to a file, a setting a line, is read back as it is,
    whatever sections stand before the one of the LDAP domain and after the domain that
    follows it. *)
Theorem configuration_read_back pre c post mode :
  writable_conf c → Z.land mode S_IFREG ≠ 0 →
  Forall (λ l, strstr l LDAP_DOMAIN = false ∧ all_chars (no LF) l = true) pre →
  next_domain post → Forall (λ l, all_chars (no LF) l = true) post →
  load_configuration
    (mkConfFile (Some mode) true (text_of (pre ++ LDAP_DOMAIN :: (item_line <$> conf_items c) ++ post)))
    newLdapConf
  = Some (0, c).
Proof.
  intros Hc Hm Hpre Hpost Hlf. unfold load_configuration, configuration_file_exists. cbn [cf_mode cf_opens cf_text].
  apply Z.eqb_neq in Hm. rewrite Hm. cbn [negb]. rewrite read_file by auto using items_ok.
  rewrite store_conf by done. cbn [mbind option_bind]. by rewrite read_end.
Qed.

(** A section that is no domain does not end the one of the LDAP domain: the settings that
    are written in it replace those of the domain. *)
Lemma stray_section_read pre c c' section :
  writable_conf c → writable_conf c' →
  Forall (λ l, strstr l LDAP_DOMAIN = false) pre →
  skipped section = false → strstr section DOMAIN = false → all_chars (no "=") section = true →
  read_lines (pre ++ LDAP_DOMAIN :: (item_line <$> conf_items c) ++ section :: (item_line <$> conf_items c') ++ [EmptyString])
    false newLdapConf
  = Some c'.
Proof.
  intros Hc Hc' Hpre Hs Hd He. rewrite read_domain, store_conf by auto using items_ok.
  cbn [mbind option_bind read_lines]. rewrite Hs, Hd. cbn [andb negb].
  unfold parse_configuration_item. rewrite strchr_None by done.
  by rewrite read_items, store_conf by auto using items_ok.
Qed.

(** A mode that is no number ends the command before the server is asked. *)
Lemma bad_mode_aborts `{LdapEnv} args a pre v post s :
  parse_command_line args = Some a →
  Forall (λ l, strstr l LDAP_DOMAIN = false ∧ all_chars (no LF) l = true) pre →
  writable_text v → stoi v = None → Forall (λ l, all_chars (no LF) l = true) post →
  cla_main args
    (mkConfFile (Some S_IFREG) true
      (text_of (pre ++ LDAP_DOMAIN :: (item_line <$> [(LDAP_TLS_MODE_ATTRIBUTE_NAME, v)]) ++ post))) s
  = (Exited 134, s).
Proof.
  intros Ha Hpre Hv Hi Hpost. unfold cla_main. rewrite Ha. unfold load_configuration.
  cbn [configuration_file_exists cf_mode cf_opens cf_text].
  rewrite read_file; [|done|constructor; [by split; [|split]|done]|done].
  cbn [store_all]. unfold store_item, newLdapConf. cbn -[stoi]. by rewrite Hi.
Qed.

(** ** Examples *)

Lemma configuration_read_back_witness :
  let c := mkLdapConf "ldap://[::1]:389" "cn=ap" "a = b" (-1) "/certs" EmptyString EmptyString EmptyString "HIGH" in
  load_configuration
    (mkConfFile (Some 33188) true
      (text_of (["[nss]"; "ldap_uri = other"]%string ++ LDAP_DOMAIN :: (item_line <$> conf_items c)
                ++ ["[domain/files]"; "ldap_uri = other"]%string)))
    newLdapConf
  = Some (0, c).
Proof.
  apply (configuration_read_back ["[nss]"; "ldap_uri = other"]%string _
           ["[domain/files]"; "ldap_uri = other"]%string 33188); [|done|repeat constructor..].
  constructor; try (by split); split; done.
Defined.
