(* ===== verification/Date.v ===== *)
(** * The command [date]

    It reads the clock of the node, or sets the clocks of both nodes, by running shell
    commands.  The shell is the environment: it answers a command with its output and its
    status.  The credentials of the process are part of its state, since each command is run
    by a child that asks for those of [root]. *)

From S2P Require Import Prelude CString MdPipe Getopt.

Open Scope Z_scope.

(** ** The process *)

(** Real, effective and saved user. *)
Record Creds : Set := mkCreds { ruid : Z; euid : Z; suid : Z }.

(** [setuid]: a process of [root] changes all three, any other only the effective one, and
    that only to one of the other two. *)
Definition setuid (u : Z) (c : Creds) : Creds :=
  if euid c =? 0 then mkCreds u u u
  else if (u =? ruid c) || (u =? suid c) then mkCreds (ruid c) u (suid c)
  else c.

Inductive DateCall : Set :=
| Pipe
| Vfork
| Shell (user : Z) (command : string)
| Fdopen.

(** Whether there is a pipe and a child; the output of the command, with the status that
    [waitpid] gives in the end unless it fails; the error text if there is no stream. *)
Definition date_resp (c : DateCall) : Set :=
  match c with
  | Pipe | Vfork => bool
  | Shell _ _ => string * option Z
  | Fdopen => option string
  end.

Inductive DateEvent : Set := DEv (c : DateCall) (r : date_resp c).

Class DateEnv : Type := { date_answer : list DateEvent → ∀ c : DateCall, date_resp c }.

(** The calls made, the latest first, and the credentials. *)
Record DateProc : Set := mkDate { d_trace : list DateEvent; d_creds : Creds }.

Section date.
Context `{E : DateEnv}.

Abbreviation MD := (M DateProc).

Definition sys (c : DateCall) : MD (date_resp c) := λ s,
  let r := date_answer (d_trace s) c in (Val r, mkDate (DEv c r :: d_trace s) (d_creds s)).

(** The loop of [fgets] and [append]: a piece ends at a NUL. *)
Definition read_output (output : string) : string := concat_str (c_str <$> fgets_lines 511 output).

(** [executeCommand]: what it returns, and [printout].  The child has credentials of its own,
    which it changes before it becomes the shell; the parent changes its own after that. *)
Definition executeCommand (command : string) : MD (Z * string) :=
  pipe ← (sys Pipe : MD bool);
  if negb pipe then mret (-1, EmptyString)
  else
    child ← (sys Vfork : MD bool);
    creds ← gets d_creds;
    let uid := ruid creds in
    if negb child then mret (-1, EmptyString)
    else
      '(output, pstat) ← (sys (Shell (euid (setuid 0 creds)) (String.append command " 2>&1")) : MD (string * option Z));
      modify (λ s, mkDate (d_trace s) (setuid uid (d_creds s)));;
      fd ← (sys Fdopen : MD (option string));
      match fd with
      | Some err =>
          mret (-1, concat_str ["Failed to launch command '"; command; "'."; String LF EmptyString; err]%string)
      | None =>
          mret (match pstat with
                | Some pstat => if WIFEXITED pstat then WEXITSTATUS pstat else -1
                | None => -1
                end, read_output output)
      end.

(** ** [main] *)

Definition e_ok : Z := 0.
Definition e_execfault : Z := 1.
Definition e_usage : Z := 2.
Definition e_standbyunavailable : Z := 3.

Definition s_date : string := "/bin/date".
Definition s_hwclock : string := "/sbin/hwclock".
Definition s_ssh : string := "/usr/bin/ssh".

Record DateArgs : Set := mkDateArgs { a_set : bool; a_utc : bool; a_help : bool; a_date : string }.

(** The loop over the options: [None] on an option it does not know. *)
Fixpoint date_options (evs : list OptEvent) (a : DateArgs) : option DateArgs :=
  match evs with
  | [] => Some a
  | EvShort c optarg :: evs =>
      date_options evs
        (if eqc c "s" then mkDateArgs true (a_utc a) (a_help a) (default EmptyString optarg)
         else if eqc c "u" then mkDateArgs (a_set a) true (a_help a) (a_date a)
         else if eqc c "h" then mkDateArgs (a_set a) (a_utc a) true (a_date a)
         else a)
  | EvLong _ _ :: evs => date_options evs a
  | EvError _ :: _ => None
  end.

Fixpoint erase_spaces (s : string) : string :=
  match s with
  | String c r => if eqc c SP then erase_spaces r else s
  | EmptyString => EmptyString
  end.

(** The operands: no format, or one that begins with a plus sign. *)
Definition date_format (operands : list string) : option string :=
  match operands with
  | [] => Some EmptyString
  | [arg] =>
      match erase_spaces arg with
      | String c r => if eqc c "+" then Some (String c r) else None
      | EmptyString => None
      end
  | _ => None
  end.

(** The text of the command that reads or sets the clock. *)
Definition date_command (date : string) (utc : bool) (format : string) : string :=
  concat_str
    [ s_date;
      (if streq date EmptyString then EmptyString else concat_str [" -s "; DQ; date; DQ]%string);
      (if utc then " -u" else EmptyString);
      (if streq format EmptyString then EmptyString else concat_str [" "; DQ; format; DQ]%string) ]%string.

Definition hwclock_command : string := String.append s_hwclock " -w".

(** The commands on the other node; the first one leaves [ssh] to the search path. *)
Definition peer_command (peernode command : string) : string :=
  concat_str ["ssh "; peernode; " '"; command; "'"]%string.
Definition peer_hwclock_command (peernode : string) : string :=
  concat_str [s_ssh; " "; peernode; " '"; hwclock_command; "'"]%string.

Definition cat_command : string := "cat /etc/cluster/nodes/peer/hostname".
Definition ls_command : string := "ls /etc/cluster/nodes/peer/ip".
Definition ping_command (peerip : string) : string := String.append "/bin/ping -c 1 " peerip.

(** What [main] returns, and what it prints on the standard output. *)
Abbreviation DateR := (Z * option string)%type.

(** A command and the test of its result. *)
Definition run (command : string) (fails : Z → bool) (k : string → MD DateR) : MD DateR :=
  '(ret, printout) ← executeCommand command;
  if fails ret then mret (e_execfault, None) else k printout.

Definition nonzero (ret : Z) : bool := negb (ret =? 0).

(** [printout.erase(size - 1)]: throws on an empty text. *)
Definition erase_last (s : string) : MD string :=
  match s with
  | EmptyString => exit 134
  | _ => mret (take (String.length s - 1) s)
  end.

(** The part that sets the clocks, on this node and on the other. *)
Definition set_clocks (peernode this : string) : MD DateR :=
  run this nonzero (λ result,
  run (peer_command peernode this) nonzero (λ _,
  run hwclock_command nonzero (λ _,
  run (peer_hwclock_command peernode) nonzero (λ _,
  mret (e_ok, Some result))))).

Definition set_date (date : string) (utc : bool) (format : string) : MD DateR :=
  run cat_command nonzero (λ printout,
  peernode ← erase_last printout;
  run ls_command nonzero (λ printout,
  match strchr printout LF with
  | None => mret (e_standbyunavailable, None)
  | Some (peerip, _) =>
      run (ping_command peerip) (Z.eqb (-1)) (λ printout,
      if negb (strstr printout "bytes from") then mret (e_standbyunavailable, None)
      else set_clocks peernode (date_command date utc format))
  end)).

(** [main] on the arguments after the program's name. *)
Definition date_main (args : list string) : MD DateR :=
  let '(evs, operands) := getopt "s:uh" args in
  match date_options evs (mkDateArgs false false false EmptyString), date_format operands with
  | Some a, Some format =>
      if a_help a then
        if a_set a || a_utc a || negb (streq format EmptyString) then mret (e_usage, None)
        else mret (e_ok, None)
      else if negb (a_set a) then
        run (date_command EmptyString (a_utc a) format) nonzero (λ printout, mret (e_ok, Some printout))
      else set_date (a_date a) (a_utc a) format
  | _, _ => mret (e_usage, None)
  end.
End date.
