(* ===== verification/DateSpec.v ===== *)
(** * The command [date]: what it runs, and as whom

    The clocks are set in a fixed order, and only when the other node has answered a ping;
    and a process that is [root] only effectively gives that up with its first command. *)

From S2P Require Import Prelude CString World MdPipe Getopt Date.

Open Scope Z_scope.

Section spec.
Context `{E : DateEnv}.

Abbreviation MD := (M DateProc).

Lemma wp_sys c (Q : outcome (date_resp c) → DateProc → Prop) s :
  (∀ r, Q (Val r) (mkDate (DEv c r :: d_trace s) (d_creds s))) → wp (sys c) Q s.
Proof. intros H. apply H. Qed.

(** ** Commands *)

(** The commands that were run and the users that ran them, the first one first. *)
Definition shell_of (e : DateEvent) : option (Z * string) :=
  match e with DEv (Shell user command) _ => Some (user, command) | _ => None end.
Definition shells (s : DateProc) : list (Z * string) := omap shell_of (rev (d_trace s)).
Definition commands (s : DateProc) : list string := (shells s).*2.
Definition users (s : DateProc) : list Z := (shells s).*1.

Lemma shells_cons e t c :
  shells (mkDate (e :: t) c) = shells (mkDate t c) ++ match shell_of e with Some x => [x] | None => [] end.
Proof. unfold shells. cbn [d_trace rev]. rewrite omap_app. cbn. by destruct (shell_of e). Qed.

Lemma shells_creds t c c' : shells (mkDate t c) = shells (mkDate t c').
Proof. done. Qed.

(** The command with the errors in its output. *)
Definition merged (command : string) : string := String.append command " 2>&1".

(** The shell has run the command, and this was its output. *)
Definition said (command out : string) (s : DateProc) : Prop :=
  ∃ user o st, DEv (Shell user (merged command)) (o, st) ∈ d_trace s ∧ out = read_output o.

Definition grows (s s' : DateProc) : Prop := ∃ new, d_trace s' = new ++ d_trace s.

Lemma said_grows command out s s' : grows s s' → said command out s → said command out s'.
Proof.
  intros [new Hn] (user & o & st & Hin & Ho). exists user, o, st. split; [|done]. rewrite Hn. apply elem_of_app. by right.
Qed.

(** What a command has done: it was not run, and the code is -1, or it was run. *)
Definition executed (command : string) (s : DateProc) (r : Z * string) (s' : DateProc) : Prop :=
  grows s s'
  ∧ (commands s' = commands s ∧ r.1 = -1
     ∨ commands s' = commands s ++ [merged command] ∧ (r.1 ≠ -1 → said command r.2 s')).

Lemma wp_execute command s : wp (executeCommand command) (valQ (executed command s)) s.
Proof.
  destruct s as [t cr]. unfold executeCommand.
  apply wp_bind, (wp_sys Pipe). intros p. cbn [thenQ d_trace d_creds].
  destruct p; cbn [negb].
  2: { apply wp_ret. split; [by eexists [_]|left]. unfold commands. rewrite shells_cons. by rewrite app_nil_r. }
  apply wp_bind, (wp_sys Vfork). intros v. cbn [thenQ d_trace d_creds]. apply wp_bind, wp_gets. cbn [thenQ d_creds].
  destruct v; cbn [negb].
  2: { apply wp_ret. split; [by eexists [_; _]|left]. unfold commands. rewrite !shells_cons. by rewrite !app_nil_r. }
  apply wp_bind, (wp_sys (Shell _ _)). intros [o st]. cbn [thenQ d_trace d_creds].
  apply wp_bind, wp_modify. cbn [thenQ d_trace d_creds].
  apply wp_bind, (wp_sys Fdopen). intros fd. cbn [thenQ d_trace d_creds].
  assert (Hc : ∀ c', commands (mkDate (DEv Fdopen fd :: DEv (Shell (euid (setuid 0 cr)) (merged command)) (o, st)
            :: DEv Vfork true :: DEv Pipe true :: t) c') = commands (mkDate t cr) ++ [merged command]).
  { intros c'. unfold commands. rewrite !shells_cons, !fmap_app. cbn. by rewrite !app_nil_r. }
  destruct fd as [err|]; apply wp_ret; (split; [by eexists [_; _; _; _]|right; split; [apply Hc|]]).
  - done.
  - intros _. exists (euid (setuid 0 cr)), o, st. split; [|done]. cbn [d_trace]. set_solver.
Qed.

Lemma wp_run_command command fails k (Q : outcome (Z * option string) → DateProc → Prop) s :
  fails (-1) = true →
  (∀ out s', grows s s' → commands s' = commands s ++ [merged command] → said command out s' → wp (k out) Q s') →
  (∀ s', grows s s' → commands s' = commands s ∨ commands s' = commands s ++ [merged command] →
     Q (Val (e_execfault, None)) s') →
  wp (run command fails k) Q s.
Proof.
  intros Hf Hk He. unfold run. apply wp_bind. eapply wp_mono; [apply wp_execute|].
  intros [[ret out]| | |] s' Hs; try done. cbn [thenQ valQ] in *. destruct Hs as [Hg Hs]. cbn [fst snd] in Hs.
  destruct (fails ret) eqn:Hr.
  - apply wp_ret, He; [done|]. tauto.
  - assert (ret ≠ -1) by congruence. destruct Hs as [[_ ?]|[Hc Hs]]; [done|]. by apply Hk; auto.
Qed.

(** ** The plan *)

Definition plan (peernode peerip this : string) : list string :=
  merged <$> [cat_command; ls_command; ping_command peerip; this; peer_command peernode this;
              hwclock_command; peer_hwclock_command peernode].

(** What the first commands have said: the name and an address of the other node, and that
    it answers. *)
Definition named (peernode : string) (s : DateProc) : Prop :=
  ∃ out, said cat_command out s ∧ out ≠ EmptyString ∧ peernode = take (String.length out - 1) out.
Definition addressed (peerip : string) (s : DateProc) : Prop :=
  ∃ out rest, said ls_command out s ∧ strchr out LF = Some (peerip, rest).
Definition reached (peerip : string) (s : DateProc) : Prop :=
  ∃ out, said (ping_command peerip) out s ∧ strstr out "bytes from" = true.

(** All that the plan needs for the command [n]. *)
Record known (n : nat) (peernode peerip : string) (s : DateProc) : Prop := {
  kn_named : (1 ≤ n)%nat → named peernode s;
  kn_addressed : (2 ≤ n)%nat → addressed peerip s;
  kn_reached : (3 ≤ n)%nat → reached peerip s
}.

(** A run has followed the plan: each command was run when all that was known. *)
Definition followed (peernode peerip this : string) (s : DateProc) : Prop :=
  commands s `prefix_of` plan peernode peerip this ∧ known (length (commands s) - 1) peernode peerip s.

(** How a run ends: it has followed a plan, to its end if it returns [e_ok]. *)
Definition ended (this : string) (o : outcome (Z * option string)) (s : DateProc) : Prop :=
  ∃ peernode peerip, followed peernode peerip this s
    ∧ ∀ out, o = Val (e_ok, out) → commands s = plan peernode peerip this.

Lemma known_grows n peernode peerip s s' :
  grows s s' → known n peernode peerip s → known n peernode peerip s'.
Proof.
  intros Hg [H1 H2 H3]. split; intros H.
  - destruct (H1 H) as (out & Hs & Ho). exists out. eauto using said_grows.
  - destruct (H2 H) as (out & rest & Hs & Ho). exists out, rest. eauto using said_grows.
  - destruct (H3 H) as (out & Hs & Ho). exists out. eauto using said_grows.
Qed.

Lemma known_less n m peernode peerip s : (m ≤ n)%nat → known n peernode peerip s → known m peernode peerip s.
Proof. intros Hm [H1 H2 H3]. split; intros H; [apply H1|apply H2|apply H3]; lia. Qed.

Section follow.
Context (peernode peerip this : string).

Abbreviation commands_to n s := (commands s = firstn n (plan peernode peerip this)).

Lemma followed_to n m s :
  known n peernode peerip s → commands_to m s → (m ≤ S n)%nat → followed peernode peerip this s.
Proof.
  intros Hk Hc Hm. split.
  - rewrite Hc. exists (skipn m (plan peernode peerip this)). by rewrite firstn_skipn.
  - eapply known_less; [|exact Hk]. pose proof (firstn_le_length m (plan peernode peerip this)). rewrite Hc. lia.
Qed.

Lemma ended_early n m s rc out :
  known n peernode peerip s → commands_to m s → (m ≤ S n)%nat → rc ≠ e_ok → ended this (Val (rc, out)) s.
Proof. intros Hk Hc Hm Hr. exists peernode, peerip. split; [by eapply followed_to|]. congruence. Qed.

(** The next command of the plan. *)
Lemma wp_step n command fails k s :
  fails (-1) = true → known n peernode peerip s → commands_to n s →
  plan peernode peerip this !! n = Some (merged command) →
  (∀ out s', known n peernode peerip s' → commands_to (S n) s' → said command out s' → wp (k out) (ended this) s') →
  wp (run command fails k) (ended this) s.
Proof.
  intros Hf Hk Hc Hp Hn. assert (HS : firstn (S n) (plan peernode peerip this) = commands s ++ [merged command]).
  { rewrite Hc. by apply take_S_r. }
  apply wp_run_command; [done| |].
  - intros out s' Hg Hc' Hs. apply Hn; [by eapply known_grows|by rewrite HS|done].
  - intros s' Hg Hc'. pose proof (known_grows n _ _ _ _ Hg Hk) as Hk'.
    destruct Hc' as [Hc'|Hc']; [eapply (ended_early n n)|eapply (ended_early n (S n))]; try done; try lia; congruence.
Qed.
End follow.

Lemma set_clocks_ended peernode peerip this s :
  known 3 peernode peerip s → commands s = firstn 3 (plan peernode peerip this) →
  wp (set_clocks peernode this) (ended this) s.
Proof.
  intros Hk Hc. unfold set_clocks.
  assert (Hup : ∀ n s, known 3 peernode peerip s → known n peernode peerip s) by (intros n s0 []; by split; auto).
  assert (Hdn : ∀ n s, known (3 + n) peernode peerip s → known 3 peernode peerip s)
    by (intros n s0 H; eapply known_less; [|exact H]; lia).
  eapply (wp_step peernode peerip this 3); [done..|]. intros result s1 K1 C1 _.
  eapply (wp_step peernode peerip this 4); [done|by apply Hup|done..|]. intros ? s2 K2%(Hdn 1%nat) C2 _.
  eapply (wp_step peernode peerip this 5); [done|by apply Hup|done..|]. intros ? s3 K3%(Hdn 2%nat) C3 _.
  eapply (wp_step peernode peerip this 6); [done|by apply Hup|done..|]. intros ? s4 K4%(Hdn 3%nat) C4 _.
  apply wp_ret. exists peernode, peerip. split; [|by intros].
  by apply (followed_to _ _ _ 6 7); [apply Hup| |].
Qed.

Lemma set_date_ended date utc format creds :
  wp (set_date date utc format) (ended (date_command date utc format)) (mkDate [] creds).
Proof.
  set (this := date_command date utc format). unfold set_date. fold this.
  eapply (wp_step EmptyString EmptyString this 0); [done|split; lia|done..|]. intros out1 s1 K1 C1 S1.
  apply wp_bind. unfold erase_last. destruct out1 as [|c out1].
  { apply wp_exit. exists EmptyString, EmptyString. split; [by apply (followed_to _ _ _ 0 1)|done]. }
  apply wp_ret. cbn [thenQ]. set (out := String c out1) in *. set (peernode := take _ out).
  assert (N1 : named peernode s1) by (by exists out).
  eapply (wp_step peernode EmptyString this 1); [done|split; [done|lia..]|done..|]. intros out2 s2 K2 C2 S2.
  destruct (strchr out2 LF) as [[peerip rest]|] eqn:Hip.
  2: { apply wp_ret. by eapply (ended_early peernode EmptyString this 1 2). }
  assert (N2 : addressed peerip s2) by (by exists out2, rest).
  eapply (wp_step peernode peerip this 2); [done|split; [intros _; by apply K2|done|lia]|done..|].
  intros out3 s3 K3 C3 S3. destruct (strstr out3 "bytes from") eqn:Hb; cbn [negb].
  2: { apply wp_ret. by eapply (ended_early peernode peerip this 2 3). }
  apply (set_clocks_ended peernode peerip this); [|done].
  destruct K3 as [K31 K32 _]. split; intros _; [apply K31; lia|by apply K32|by exists out3].
Qed.

(** C19: a run of [date] that sets the clocks gives the commands in a fixed order: the name
    and the address of the other node, a ping, then the clock of this node, of the other,
    and both hardware clocks.  Each of them is given only when those before it were run and
    have said what it needs; no clock is touched unless the ping was answered; and if the
    command reports success all of them were given. *)
Theorem clocks_set_in_order args a format creds :
  date_options (getopt "s:uh" args).1 (mkDateArgs false false false EmptyString) = Some a →
  date_format (getopt "s:uh" args).2 = Some format → a_set a = true → a_help a = false →
  let '(o, s) := date_main args (mkDate [] creds) in
  ended (date_command (a_date a) (a_utc a) format) o s.
Proof.
  intros Ha Hf Hs Hh. pose proof (set_date_ended (a_date a) (a_utc a) format creds) as H. unfold wp in H.
  unfold date_main. destruct (getopt "s:uh" args) as [evs operands]. cbn [fst snd] in *. rewrite Ha, Hf, Hh, Hs.
  cbn [negb]. destruct (set_date _ _ _ _). exact H.
Qed.

(** ** Credentials *)

Section creds.
Context (u sv : Z) (Hu : u ≠ 0).

(** The users that have run commands, and what the process still is. *)
Definition given_up (s : DateProc) : Prop :=
  users s = [] ∧ d_creds s = mkCreds u 0 sv
  ∨ ∃ n, users s = 0 :: replicate n u ∧ d_creds s = mkCreds u u u.

Abbreviation now_given_up := (λ (_ : outcome _) s, given_up s).

Lemma given_up_call e t c : shell_of e = None → given_up (mkDate t c) → given_up (mkDate (e :: t) c).
Proof. unfold given_up, users. intros He. rewrite shells_cons, He, app_nil_r. done. Qed.

(** A child, and the change that the parent makes after it. *)
Lemma given_up_child command r t c :
  given_up (mkDate t c) →
  given_up (mkDate (DEv (Shell (euid (setuid 0 c)) command) r :: t) (setuid (ruid c) c)).
Proof.
  unfold given_up, users. rewrite shells_cons, fmap_app. cbn [shell_of d_creds]. intros [[H ->]|(n & H & ->)]; right.
  - exists 0%nat. by rewrite (shells_creds t _ (mkCreds u 0 sv)), H.
  - exists (S n). rewrite (shells_creds t _ (mkCreds u u u)), H. unfold setuid. cbn [euid ruid suid].
    apply Z.eqb_neq in Hu. rewrite Hu. rewrite Z.eqb_refl. cbn [orb].
    rewrite (proj2 (Z.eqb_neq 0 u)) by (intros <-; done). cbn [orb euid]. split; [|done].
    cbn. by rewrite <- replicate_cons_app.
Qed.

Lemma given_up_execute command s : given_up s → wp (executeCommand command) now_given_up s.
Proof.
  destruct s as [t c]. intros Hs. unfold executeCommand.
  apply wp_bind, (wp_sys Pipe). intros p. cbn [thenQ d_trace d_creds]. apply (given_up_call (DEv Pipe p)) in Hs; [|done].
  destruct p; [|by apply wp_ret]. cbn [negb].
  apply wp_bind, (wp_sys Vfork). intros v. cbn [thenQ d_trace d_creds]. apply (given_up_call (DEv Vfork v)) in Hs; [|done].
  apply wp_bind, wp_gets. cbn [thenQ d_creds]. destruct v; [|by apply wp_ret]. cbn [negb].
  apply wp_bind, (wp_sys (Shell _ _)). intros [o st]. cbn [thenQ d_trace d_creds].
  apply wp_bind, wp_modify. cbn [thenQ d_trace d_creds].
  apply (given_up_child (String.append command " 2>&1") (o, st)) in Hs.
  apply wp_bind, (wp_sys Fdopen). intros fd. cbn [thenQ d_trace d_creds].
  apply (given_up_call (DEv Fdopen fd)) in Hs; [|done]. by destruct fd; apply wp_ret.
Qed.

Lemma given_up_run command fails k s :
  given_up s → (∀ out s', given_up s' → wp (k out) now_given_up s') → wp (run command fails k) now_given_up s.
Proof.
  intros Hs Hk. unfold run. apply wp_bind. eapply wp_mono; [by apply given_up_execute|].
  intros [[ret out]| | |] s' H; try done. cbn [thenQ]. destruct (fails ret); [by apply wp_ret|by apply Hk].
Qed.

Lemma given_up_main args s : given_up s → wp (date_main args) now_given_up s.
Proof.
  intros Hs. unfold date_main. destruct (getopt _ _) as [evs operands].
  destruct (date_options _ _) as [a|]; [|by apply wp_ret]. destruct (date_format _) as [format|]; [|by apply wp_ret].
  destruct (a_help a); [by destruct (_ || _); apply wp_ret|].
  destruct (negb _); [apply given_up_run; [done|]; intros out s' H; by apply wp_ret|].
  unfold set_date. apply given_up_run; [done|]. intros out1 s1 H1. apply wp_bind.
  destruct out1 as [|c out1]; [by apply wp_exit|]. apply wp_ret. cbn [thenQ].
  apply given_up_run; [done|]. intros out2 s2 H2. destruct (strchr _ _) as [[ip rest]|]; [|by apply wp_ret].
  apply given_up_run; [done|]. intros out3 s3 H3. destruct (negb _); [by apply wp_ret|]. unfold set_clocks.
  do 4 (apply given_up_run; [done|]; intros ? ? ?). by apply wp_ret.
Qed.
End creds.

(** When [date] is started by a user who is not [root] in a process that is [root] only
    effectively, as a program with the set-user-ID bit is, the first command runs as [root]
    and every other as the user: [setuid] in the parent is not undone, so that the commands
    that set the clocks have no privilege. *)
Theorem root_given_up args u sv k user :
  u ≠ 0 → users (date_main args (mkDate [] (mkCreds u 0 sv))).2 !! k = Some user →
  user = match k with O => 0 | S _ => u end.
Proof.
  intros Hu Hk. assert (H : given_up u sv (date_main args (mkDate [] (mkCreds u 0 sv))).2).
  { apply (given_up_main u sv Hu). by left. }
  destruct H as [[H _]|(n & H & _)]; rewrite H in Hk; [done|]. destruct k as [|k]; [by injection Hk|].
  by apply lookup_replicate in Hk as [-> _].
Qed.
End spec.

(** ** Examples *)

(** A node whose shell answers every command with the same text. *)
Definition demo_shell : DateEnv := {|
  date_answer := λ _ c,
    match c with
    | Pipe | Vfork => true
    | Shell _ _ => (String.append "64 bytes from B" (String LF EmptyString), Some 0)
    | Fdopen => None
    end
|}.

Definition set_args : list string := ["-s"; "2012-07-27"; "-u"]%string.

Lemma clocks_set_in_order_witness :
  let '(o, s) := @date_main demo_shell set_args (mkDate [] (mkCreds 0 0 0)) in
  ended (date_command "2012-07-27" true EmptyString) o s.
Proof.
  apply (@clocks_set_in_order demo_shell set_args (mkDateArgs true true false "2012-07-27") EmptyString
           (mkCreds 0 0 0)); reflexivity.
Defined.

Lemma root_given_up_witness :
  users (@date_main demo_shell set_args (mkDate [] (mkCreds 1000 0 0))).2 !! 3%nat = Some 1000.
Proof.
  destruct (users (@date_main demo_shell set_args (mkDate [] (mkCreds 1000 0 0))).2 !! 3%nat) as [user|] eqn:Hk.
  - f_equal. exact (@root_given_up demo_shell set_args 1000 0 3 user ltac:(done) Hk).
  - vm_compute in Hk. discriminate Hk.
Defined.
