(* ===== verification/ConfSched.v ===== *)
(** * Configuration administration: the daemon and its operation scheduler

    [confadm_caa] keeps a component registered with AMF: the callbacks and the signal
    handler put operations into the queue of a scheduler thread, and an operation SHUTDOWN
    ends that thread and the event loop of the main reactor.  In HA mode the main thread
    waits in the AMF library and a second thread runs the reactor; in debug mode the main
    thread runs it.

    The threads share the working set, so their code is kept as a tree of the actions they
    take on it ([Code]), and the process runs the trees interleaved, one action per step
    ([step]).  Signals interrupt any thread at any point and AMF calls back at any point of
    its wait ([env_step]). *)

From stdpp Require Import relations.
From S2P Require Import Prelude.

Open Scope Z_scope.

(** ** Constants *)

Definition ERR_NO_ERRORS : Z := 0.
Definition ERR_OPEN : Z := 2.
Definition ERR_SVC_ACTIVATE : Z := 5.
Definition ERR_SVC_DEACTIVATE : Z := 6.
Definition ERR_MEMORY_BAD_ALLOC : Z := 7.
Definition ERR_REACTOR_HANDLER_REGISTER_FAILURE : Z := 8.
Definition ERR_REACTOR_HANDLER_REMOVE_FAILURE : Z := 9.

Definition PROGRAM_EXIT_ANOTHER_SERVER_RUNNING : Z := 1.
Definition PROGRAM_EXIT_BAD_INVOCATION : Z := 2.
Definition PROGRAM_EXIT_LOCK_FILE_OPEN_ERROR : Z := 3.
Definition PROGRAM_EXIT_LOCK_FILE_LOCKING_ERROR : Z := 4.

Inductive identifier_t : Set := NOOP | START | STOP | SHUTDOWN.

#[export] Instance identifier_eq_dec : EqDecision identifier_t.
Proof. solve_decision. Defined.

Inductive signum : Set := SIGHUP | SIGINT | SIGTERM.

#[export] Instance signum_eq_dec : EqDecision signum.
Proof. solve_decision. Defined.

(** What [ACS_APGCC_ApplicationManager::activate] returns, and the HA states. *)
Inductive HaResult : Set := CONF_HA_SUCCESS | CONF_HA_FAILURE | CONF_HA_FAILURE_CLOSE.
Inductive ConfState : Set := CS_UNDEFINED | CS_ACTIVE | CS_STANDBY | CS_QUIESCED | CS_QUIESCING.

#[export] Instance ConfState_eq_dec : EqDecision ConfState.
Proof. solve_decision. Defined.

(** ** Code as a tree of actions *)

(** The tasks that can be activated and waited for. *)
Inductive Task : Set := Sched | Svc.

(** The calls that cannot fail in a way that matters to other threads. *)
Inductive OsCall : Set :=
| OsOpenLock | OsCapGet | OsCapFlag (which : nat) | OsCapSet | OsCapFree.

Inductive Act : Set :=
| ANew (id : identifier_t)
| AEnqueue (request : option identifier_t)
| ADequeue
| AThrCount
| AActivate (t : Task)
| AWait (t : Task)
| AEndReactor
| ARunReactor
| AHaActivate
| ASetDebug (on : bool)
| AIsDebug
| AIsMember (sig : signum)
| ARegister (sig : signum)
| ARemove (sig : signum)
| AOs (c : OsCall)
| AFlock.

(** What an action returns: for most whether it succeeded.  A request in the queue may be
    a null pointer, and the lock is had, held by another process, or out of order. *)
Definition Res (a : Act) : Set :=
  match a with
  | ADequeue => option identifier_t
  | AWait _ | AEndReactor | ASetDebug _ => unit
  | AHaActivate => HaResult
  | AFlock => option bool
  | _ => bool
  end.

Inductive Code (A : Type) : Type :=
| Ret (x : A)
| Do (a : Act) (k : Res a → Code A).
Arguments Ret {_} _.
Arguments Do {_} _ _.

Fixpoint code_bind {A B : Type} (c : Code A) (f : A → Code B) : Code B :=
  match c with
  | Ret x => f x
  | Do a k => Do a (λ r, code_bind (k r) f)
  end.

#[export] Instance Code_ret : MRet Code := @Ret.
#[export] Instance Code_bind : MBind Code := λ A B f c, code_bind c f.

Definition act (a : Act) : Code (Res a) := Do a Ret.

(** ** Operations *)

(** [Creator::make]: [None] is the null pointer. *)
Definition make (id : identifier_t) : Code (option identifier_t) :=
  ok ← act (ANew id); mret (if (ok : bool) then Some id else None).

(** [Scheduler::enqueue]. *)
Definition enqueue (request : option identifier_t) : Code Z :=
  ok ← act (AEnqueue request); mret (if (ok : bool) then 0 else -1).

(** [Creator::schedule]. *)
Definition schedule (id : identifier_t) : Code Z :=
  op ← make id;
  match op with
  | Some id => enqueue (Some id)
  | None => mret ERR_MEMORY_BAD_ALLOC
  end.

(** The [call] of [NoOp], [Start], [Stop] and [Shutdown]. *)
Definition call_op (id : identifier_t) : Code Z :=
  match id with
  | NOOP | START | STOP => mret ERR_NO_ERRORS
  | SHUTDOWN => act AEndReactor;; mret ERR_SVC_DEACTIVATE
  end.

(** ** The scheduler *)

(** A round of the loop of [Scheduler::svc]: whether it goes on. *)
Definition sched_round : Code bool :=
  cmdRequest ← act ADequeue;
  match cmdRequest with
  | Some id => r ← call_op id; mret (negb (r =? ERR_SVC_DEACTIVATE))
  | None => mret true
  end.

Definition sched_open : Code Z :=
  ok ← act (AActivate Sched); mret (if (ok : bool) then ERR_NO_ERRORS else ERR_SVC_ACTIVATE).

Definition sched_start : Code Z :=
  running ← act AThrCount;
  if (running : bool) then mret ERR_OPEN else sched_open.

Definition sched_stop : Code unit :=
  running ← act AThrCount;
  (if (running : bool) then terminate ← make SHUTDOWN; _ ← enqueue terminate; mret tt
   else mret tt);;
  act (AWait Sched).

(** ** Signals and callbacks *)

(** [SignalsEventHandler::handle_signal]. *)
Definition handle_signal (sig : signum) : Code unit :=
  match sig with
  | SIGINT | SIGTERM =>
      debug ← act AIsDebug;
      if (debug : bool) then _ ← schedule SHUTDOWN; mret tt else mret tt
  | SIGHUP => mret tt
  end.

(** The callbacks of [HaImplementer]; all of them succeed. *)
Inductive Callback : Set :=
| ToActive (previous : ConfState)
| ToPassive (previous : ConfState)
| ToQueising (previous : ConfState)
| ToQuiesced (previous : ConfState)
| HealthCheck
| Terminate
| Remove
| AppShutdown.

Definition transition (from : ConfState) (previous : ConfState) (id : identifier_t) : Code unit :=
  if bool_decide (previous = from) then mret tt else _ ← schedule id; mret tt.

Definition run_callback (cb : Callback) : Code unit :=
  match cb with
  | ToActive previous => transition CS_ACTIVE previous START
  | ToPassive previous => transition CS_STANDBY previous STOP
  | ToQueising previous => transition CS_QUIESCING previous STOP
  | ToQuiesced previous => transition CS_QUIESCED previous STOP
  | HealthCheck => mret tt
  | Terminate | Remove | AppShutdown => _ ← schedule STOP; mret tt
  end.

(** ** The daemon *)

Definition m_systemSignalsToCatch : list signum := [SIGHUP; SIGINT; SIGTERM].

(** The loop of [init_signals_handler] and that of [reset_signals_handler]. *)
Fixpoint add_signals (sigs : list signum) (result : Z) : Code Z :=
  match sigs with
  | [] => mret result
  | sig :: sigs =>
      member ← act (AIsMember sig);
      if (member : bool) then add_signals sigs result else
      ok ← act (ARegister sig);
      add_signals sigs (if (ok : bool) then result else ERR_REACTOR_HANDLER_REGISTER_FAILURE)
  end.

Fixpoint remove_signals (sigs : list signum) (result : Z) : Code Z :=
  match sigs with
  | [] => mret result
  | sig :: sigs =>
      member ← act (AIsMember sig);
      if (member : bool) then
        ok ← act (ARemove sig);
        remove_signals sigs (if (ok : bool) then result else ERR_REACTOR_HANDLER_REMOVE_FAILURE)
      else remove_signals sigs result
  end.

Definition init_signals_handler : Code Z := add_signals m_systemSignalsToCatch ERR_NO_ERRORS.
Definition reset_signals_handler : Code Z := remove_signals m_systemSignalsToCatch ERR_NO_ERRORS.

(** [set_process_capability]. *)
Definition set_process_capability : Code Z :=
  cap ← act (AOs OsCapGet);
  if (cap : bool) then
    effective ← act (AOs (OsCapFlag 0));
    inheritable ← act (AOs (OsCapFlag 1));
    set ← act (AOs OsCapSet);
    free ← act (AOs OsCapFree);
    mret (if effective && inheritable && set && free then 0 else -1)
  else mret (-1).

(** [multiple_process_instance_running_check]. *)
Definition multiple_process_instance_running_check : Code Z :=
  fd ← act (AOs OsOpenLock);
  if negb fd then mret PROGRAM_EXIT_LOCK_FILE_OPEN_ERROR else
  lock ← act AFlock;
  mret (match lock with
        | Some true => ERR_NO_ERRORS
        | Some false => PROGRAM_EXIT_ANOTHER_SERVER_RUNNING
        | None => PROGRAM_EXIT_LOCK_FILE_LOCKING_ERROR
        end).

(** [Daemon::svc], the thread that runs the reactor in HA mode. *)
Definition daemon_svc : Code Z := _ ← act ARunReactor; mret ERR_NO_ERRORS.

(** [Daemon::debug]. *)
Definition debug : Code Z :=
  _ ← set_process_capability;
  _ ← sched_start;
  _ ← init_signals_handler;
  _ ← schedule START;
  _ ← act ARunReactor;
  _ ← schedule STOP;
  _ ← reset_signals_handler;
  sched_stop;;
  mret ERR_NO_ERRORS.

(** The branch of [Daemon::work] for HA mode, from the constructor of [HaImplementer] on. *)
Definition work_ha : Code Z :=
  act (ASetDebug false);;
  _ ← set_process_capability;
  _ ← sched_start;
  _ ← act (AActivate Svc);
  _ ← init_signals_handler;
  _ ← act AHaActivate;
  _ ← reset_signals_handler;
  sched_stop;;
  act (AWait Svc);;
  mret ERR_NO_ERRORS.

(** [Daemon::work]. *)
Definition work (debug_mode : bool) : Code Z :=
  if debug_mode then
    result ← multiple_process_instance_running_check;
    if negb (result =? 0) then mret result else
    act (ASetDebug true);;
    debug
  else work_ha.

(** ** The process *)

(** What the threads share: the flags of the working set, the queue, which tasks have a
    thread, the handlers that are registered; and, for the statements, the requests that
    were ever put into the queue and taken from it, and what AMF returned. *)
Record Shared : Set := mkShared {
  m_debugMode : bool;
  m_ActivationQueue : list (option identifier_t);
  sched_alive : bool;
  svc_alive : bool;
  loop_done : bool;
  m_SignalsToCatch : list signum;
  scheduled : list (option identifier_t);
  taken : list (option identifier_t);
  ha_returned : bool
}.

Definition newShared : Shared := mkShared false [] false false false [] [] [] false.

Definition set_debugMode (x : bool) (s : Shared) : Shared :=
  mkShared x (m_ActivationQueue s) (sched_alive s) (svc_alive s) (loop_done s)
    (m_SignalsToCatch s) (scheduled s) (taken s) (ha_returned s).
Definition set_alive (t : Task) (x : bool) (s : Shared) : Shared :=
  mkShared (m_debugMode s) (m_ActivationQueue s)
    (match t with Sched => x | Svc => sched_alive s end)
    (match t with Sched => svc_alive s | Svc => x end) (loop_done s)
    (m_SignalsToCatch s) (scheduled s) (taken s) (ha_returned s).
Definition set_loop_done (s : Shared) : Shared :=
  mkShared (m_debugMode s) (m_ActivationQueue s) (sched_alive s) (svc_alive s) true
    (m_SignalsToCatch s) (scheduled s) (taken s) (ha_returned s).
Definition set_signals (x : list signum) (s : Shared) : Shared :=
  mkShared (m_debugMode s) (m_ActivationQueue s) (sched_alive s) (svc_alive s) (loop_done s)
    x (scheduled s) (taken s) (ha_returned s).
Definition set_ha_returned (s : Shared) : Shared :=
  mkShared (m_debugMode s) (m_ActivationQueue s) (sched_alive s) (svc_alive s) (loop_done s)
    (m_SignalsToCatch s) (scheduled s) (taken s) true.

(** The queue: all requests have the same priority, so it is in the order of arrival. *)
Definition push_request (r : option identifier_t) (s : Shared) : Shared :=
  mkShared (m_debugMode s) (m_ActivationQueue s ++ [r]) (sched_alive s) (svc_alive s)
    (loop_done s) (m_SignalsToCatch s) (scheduled s ++ [r]) (taken s) (ha_returned s).
Definition take_request (r : option identifier_t) (q : list (option identifier_t)) (s : Shared) : Shared :=
  mkShared (m_debugMode s) q (sched_alive s) (svc_alive s)
    (loop_done s) (m_SignalsToCatch s) (scheduled s) (taken s ++ [r]) (ha_returned s).

Definition alive (t : Task) (s : Shared) : bool :=
  match t with Sched => sched_alive s | Svc => svc_alive s end.

(** Which calls can succeed and which can fail. *)
Class Faults : Set := fate : Act → list bool.

Section process.
Context `{F : Faults}.

(** The outcomes of an action: none while it blocks. *)
Definition outcomes (a : Act) (s : Shared) : list (Res a * Shared) :=
  match a return list (Res a * Shared) with
  | ANew _ as a | AOs _ as a => (λ b, (b, s)) <$> fate a
  | AEnqueue r as a => (λ b : bool, (b, if b then push_request r s else s)) <$> fate a
  | ADequeue =>
      match m_ActivationQueue s with
      | [] => []
      | r :: q => [(r, take_request r q s)]
      end
  | AThrCount => [(sched_alive s, s)]
  | AActivate t as a => (λ b : bool, (b, if b then set_alive t true s else s)) <$> fate a
  | AWait t => if alive t s then [] else [(tt, s)]
  | AEndReactor => [(tt, set_loop_done s)]
  | ARunReactor =>
      (if loop_done s then [(true, s)] else [])
      ++ (if bool_decide (false ∈ fate ARunReactor) then [(false, s)] else [])
  | AHaActivate => []
  | ASetDebug on => [(tt, set_debugMode on s)]
  | AIsDebug => [(m_debugMode s, s)]
  | AIsMember sig => [(bool_decide (sig ∈ m_SignalsToCatch s), s)]
  | ARegister sig as a =>
      (λ b : bool, (b, if b then set_signals (sig :: m_SignalsToCatch s) s else s)) <$> fate a
  | ARemove sig as a =>
      (λ b : bool, (b, if b then set_signals (filter (λ g, g ≠ sig) (m_SignalsToCatch s)) s else s)) <$> fate a
  | AFlock => [(Some true, s); (Some false, s); (None, s)]
  end.

(** The threads: the main thread, what is left of the round of the scheduler, and the
    thread that runs the reactor, which is started once. *)
Record Pool : Type := mkPool {
  main_thread : Code Z;
  sched_thread : Code bool;
  svc_thread : Code Z;
  shared : Shared
}.

Inductive step : Pool → Pool → Prop :=
| step_main a k c v s r s' :
    (r, s') ∈ outcomes a s → step (mkPool (Do a k) c v s) (mkPool (k r) c v s')
| step_sched m a k v s r s' :
    sched_alive s = true → (r, s') ∈ outcomes a s →
    step (mkPool m (Do a k) v s) (mkPool m (k r) v s')
| step_next m v s :
    sched_alive s = true → step (mkPool m (Ret true) v s) (mkPool m sched_round v s)
| step_sched_end m v s :
    sched_alive s = true →
    step (mkPool m (Ret false) v s) (mkPool m sched_round v (set_alive Sched false s))
| step_svc m c a k s r s' :
    svc_alive s = true → (r, s') ∈ outcomes a s →
    step (mkPool m c (Do a k) s) (mkPool m c (k r) s')
| step_svc_end m c z s :
    svc_alive s = true →
    step (mkPool m c (Ret z) s) (mkPool m c (Ret z) (set_alive Svc false s)).

(** A signal with a handler interrupts one of the threads that have not ended; AMF calls back
    while the main thread waits for it, and lets it go on. *)
Inductive env_step : Pool → Pool → Prop :=
| signal_main sig a k c v s :
    sig ∈ m_SignalsToCatch s →
    env_step (mkPool (Do a k) c v s) (mkPool (handle_signal sig;; Do a k) c v s)
| signal_sched sig m c v s :
    sig ∈ m_SignalsToCatch s → sched_alive s = true →
    env_step (mkPool m c v s) (mkPool m (handle_signal sig;; c) v s)
| signal_svc sig m c v s :
    sig ∈ m_SignalsToCatch s → svc_alive s = true →
    env_step (mkPool m c v s) (mkPool m c (handle_signal sig;; v) s)
| amf_calls cb k c v s :
    env_step (mkPool (Do AHaActivate k) c v s) (mkPool (run_callback cb;; Do AHaActivate k) c v s)
| amf_returns r k c v s :
    env_step (mkPool (Do AHaActivate k) c v s) (mkPool (k r) c v (set_ha_returned s)).

Definition start (debug_mode : bool) : Pool := mkPool (work debug_mode) sched_round daemon_svc newShared.

Definition any_step (p q : Pool) : Prop := step p q ∨ env_step p q.
Definition reachable (debug_mode : bool) : Pool → Prop := rtc any_step (start debug_mode).

(** Runs that can be executed: a thread takes an outcome of its next action, or something
    arrives for the main thread.  A move that is not possible changes nothing. *)
Inductive Move : Set :=
| MMain (n : nat) | MSched (n : nat) | MSvc (n : nat)
| MSignal (sig : signum) | MCall (cb : Callback) | MReturn (r : HaResult).

Definition move (p : Pool) (mv : Move) : Pool :=
  let '(mkPool m c v s) := p in
  match mv, m, c, v with
  | MMain n, Do a k, _, _ =>
      match outcomes a s !! n with Some (r, s') => mkPool (k r) c v s' | None => p end
  | MSched n, _, Do a k, _ =>
      if sched_alive s then
        match outcomes a s !! n with Some (r, s') => mkPool m (k r) v s' | None => p end
      else p
  | MSched _, _, Ret go, _ =>
      if sched_alive s then
        mkPool m sched_round v (if (go : bool) then s else set_alive Sched false s)
      else p
  | MSvc n, _, _, Do a k =>
      if svc_alive s then
        match outcomes a s !! n with Some (r, s') => mkPool m c (k r) s' | None => p end
      else p
  | MSvc _, _, _, Ret _ => if svc_alive s then mkPool m c v (set_alive Svc false s) else p
  | MSignal sig, Do a k, _, _ =>
      if bool_decide (sig ∈ m_SignalsToCatch s) then mkPool (handle_signal sig;; m) c v s else p
  | MCall cb, Do AHaActivate k, _, _ => mkPool (run_callback cb;; m) c v s
  | MReturn r, Do AHaActivate k, _, _ => mkPool (k r) c v (set_ha_returned s)
  | _, _, _, _ => p
  end.

Lemma move_sound p mv : rtc any_step p (move p mv).
Proof.
  destruct p as [m c v s]. destruct mv, m as [|[]], c, v; cbn [move]; try apply rtc_refl;
    repeat match goal with
      | |- context [outcomes ?a ?s !! ?n] => destruct (outcomes a s !! n) as [[]|] eqn:?
      | |- context [if sched_alive ?s then _ else _] => destruct (sched_alive s) eqn:?
      | |- context [if svc_alive ?s then _ else _] => destruct (svc_alive s) eqn:?
      | |- context [if ?b then _ else _] => destruct b eqn:?
      end; try apply rtc_refl; apply rtc_once;
    solve [left; econstructor; eauto using list_elem_of_lookup_2
          |right; econstructor; by eapply bool_decide_eq_true
          |right; econstructor].
Qed.

Definition play (moves : list Move) (p : Pool) : Pool := foldl move p moves.

Lemma play_reachable b moves : reachable b (play moves (start b)).
Proof.
  unfold reachable, play. generalize (start b). induction moves as [|mv moves IH]; intros p; [done|].
  cbn. etrans; [apply move_sound|apply IH].
Qed.
End process.

(** The environments in which the scheduler can be relied on: memory, the queue and the
    threads are there, and the reactor does not fail.  The other calls may fail. *)
Definition critical (a : Act) : bool :=
  match a with ANew _ | AEnqueue _ | AActivate _ | ARunReactor => true | _ => false end.

Definition reliable (F : Faults) : Prop :=
  ∀ a, fate a ≠ [] ∧ (critical a = true → fate a = [true]).

(** The environment in which no call fails. *)
Definition no_faults : Faults := λ _, [true].

(** A daemon in debug mode that is interrupted while it runs the reactor. *)
Definition interrupted : list Move := repeat (MMain 0) 18 ++ [MSignal SIGINT] ++ repeat (MMain 0) 3.

(** ** Every burst of work ends *)

Definition all_res (a : Act) : list (Res a) :=
  match a return list (Res a) with
  | ADequeue => [None; Some NOOP; Some START; Some STOP; Some SHUTDOWN]
  | AWait _ | AEndReactor | ASetDebug _ => [tt]
  | AHaActivate => [CONF_HA_SUCCESS; CONF_HA_FAILURE; CONF_HA_FAILURE_CLOSE]
  | AFlock => [Some true; Some false; None]
  | _ => [true; false]
  end.

Lemma all_res_spec a (r : Res a) : r ∈ all_res a.
Proof.
  destruct a; cbn in r |- *; repeat match goal with
    | r : option _ |- _ => destruct r | r : bool |- _ => destruct r | r : unit |- _ => destruct r
    | r : identifier_t |- _ => destruct r | r : HaResult |- _ => destruct r end;
    rewrite ?elem_of_cons; tauto.
Qed.

(** A bound on the steps of a code up to its next request: what follows a request is paid
    for by the request, three steps each. *)
Definition cost (a : Act) : nat := match a with AEnqueue _ => 4 | AActivate _ => 2 | _ => 1 end.
Definition is_dequeue (a : Act) : bool := match a with ADequeue => true | _ => false end.

Fixpoint weight {A} (c : Code A) : nat :=
  match c with
  | Ret _ => 2
  | Do a k => cost a + if is_dequeue a then 0 else max_list_with (λ r, weight (k r)) (all_res a)
  end.

Fixpoint served {A} (c : Code A) : Prop :=
  match c with
  | Ret _ => True
  | Do a k => (is_dequeue a = true → ∀ r, (weight (k r) ≤ 3)%nat) ∧ ∀ r, served (k r)
  end.

(** What the shared state still holds: the requests, and the end of the second thread. *)
Definition credit (s : Shared) : nat :=
  3 * length (m_ActivationQueue s) + if svc_alive s then 1 else 0.

Definition burst (p : Pool) : nat :=
  weight (main_thread p) + weight (sched_thread p) + weight (svc_thread p) + credit (shared p).

Definition pool_served (p : Pool) : Prop :=
  served (main_thread p) ∧ served (sched_thread p) ∧ served (svc_thread p).

Lemma weight_do {A} a (k : Res a → Code A) r :
  is_dequeue a = false → (cost a + weight (k r) ≤ weight (Do a k))%nat.
Proof.
  intros H. cbn [weight]. rewrite H.
  assert (weight (k r) ≤ max_list_with (λ r, weight (k r)) (all_res a))%nat; [|lia].
  induction (all_res_spec a r); cbn [max_list_with]; lia.
Qed.

(** Code that takes no requests: all but that of the scheduler. *)
Fixpoint asks_only {A} (c : Code A) : Prop :=
  match c with
  | Ret _ => True
  | Do a k => is_dequeue a = false ∧ ∀ r, asks_only (k r)
  end.

Lemma asks_only_bind {A B} (c : Code A) (f : A → Code B) :
  asks_only c → (∀ x, asks_only (f x)) → asks_only (c ≫= f).
Proof. intros Hc Hf. induction c as [x|a k IH]; [apply Hf|]. split; [apply Hc|]. intros r. apply IH, Hc. Qed.

Lemma served_bind {A B} (c : Code A) (f : A → Code B) :
  asks_only c → (∀ x, served (f x)) → served (c ≫= f).
Proof.
  intros Hc Hf. induction c as [x|a k IH]; [apply Hf|]. destruct Hc as [Ha Hk].
  split; [by rewrite Ha|]. intros r. by apply IH.
Qed.

Lemma asks_only_served {A} (c : Code A) : asks_only c → served c.
Proof.
  induction c as [x|a k IH]; [done|]. intros [Ha Hk]. split; [by rewrite Ha|]. intros r. by apply IH.
Qed.

Lemma asks_only_act a : is_dequeue a = false → asks_only (act a).
Proof. by intros. Qed.

Create HintDb conf.
#[export] Hint Extern 1 (asks_only (act _)) => (apply asks_only_act; reflexivity) : conf.
#[export] Hint Extern 1 (asks_only (mret _)) => exact I : conf.
#[export] Hint Extern 2 (asks_only (mbind _ _)) => (apply asks_only_bind; [|intros]) : conf.
#[export] Hint Extern 3 (asks_only (if ?b then _ else _)) => destruct b : conf.
#[export] Hint Extern 3 (asks_only (match ?x with _ => _ end)) => destruct x : conf.

Lemma asks_schedule id : asks_only (schedule id).
Proof. unfold schedule, make, enqueue. auto 10 with conf. Qed.
#[export] Hint Resolve asks_schedule : conf.

Lemma asks_signal sig : asks_only (handle_signal sig).
Proof. destruct sig; cbn [handle_signal]; auto with conf. Qed.

Lemma asks_callback cb : asks_only (run_callback cb).
Proof. destruct cb; cbn [run_callback]; unfold transition; auto with conf. Qed.

Lemma asks_signals sigs z : asks_only (add_signals sigs z) ∧ asks_only (remove_signals sigs z).
Proof.
  revert z. induction sigs as [|sig sigs IH]; intros z; [done|].
  split; cbn [add_signals remove_signals]; auto 10 using proj1, proj2 with conf.
  all: apply asks_only_bind; [auto with conf|]; intros []; try apply IH.
  all: apply asks_only_bind; [auto with conf|]; intros b; apply IH.
Qed.

Lemma asks_work b : asks_only (work b).
Proof.
  assert (∀ sigs z, asks_only (add_signals sigs z)) by apply asks_signals.
  assert (∀ sigs z, asks_only (remove_signals sigs z)) by (intros; apply asks_signals).
  destruct b; cbn [work]; unfold multiple_process_instance_running_check, work_ha, debug,
    set_process_capability, sched_start, sched_open, sched_stop, make, enqueue,
    init_signals_handler, reset_signals_handler; auto 60 with conf.
Qed.

Section burst.
Context `{F : Faults}.

(** An action pays for what it puts into the queue, and a request for what it starts. *)
Lemma action_pays {A} a (k : Res a → Code A) s r s' :
  served (Do a k) → (r, s') ∈ outcomes a s →
  (weight (k r) + credit s' < weight (Do a k) + credit s)%nat.
Proof.
  intros [Hw _] Ho. destruct (is_dequeue a) eqn:Ed.
  - destruct a; try discriminate. cbn in Ho. specialize (Hw eq_refl r).
    destruct (m_ActivationQueue s) as [|r0 q] eqn:Eq; [by apply not_elem_of_nil in Ho|].
    apply list_elem_of_singleton in Ho as [= -> ->]. unfold credit. rewrite Eq. cbn. lia.
  - pose proof (weight_do a k r Ed). clear Hw.
    assert (credit s' < cost a + credit s)%nat; [|lia].
    unfold credit. destruct a; try discriminate; cbn in Ho |- *;
      repeat match goal with
        | H : _ ∈ _ <$> _ |- _ => apply list_elem_of_fmap in H as (? & [= -> ->] & _)
        | H : _ ∈ (_ ++ _) |- _ => apply elem_of_app in H as [H|H]
        | H : _ ∈ (if ?b then _ else _) |- _ => destruct b
        | H : _ ∈ [] |- _ => by apply not_elem_of_nil in H
        | H : _ ∈ _ :: _ |- _ => apply elem_of_cons in H as [[= -> ->]|H]
        | |- context [if ?b then _ else _] => destruct b eqn:?
        | t : Task |- _ => destruct t
        end; cbn in *; rewrite ?length_app; cbn; congruence || lia.
Qed.

Lemma step_burst p q : pool_served p → step p q → (burst q < burst p)%nat.
Proof.
  intros (Hm & Hs & Hv) Hst.
  destruct Hst; unfold burst; cbn [main_thread sched_thread svc_thread shared] in *;
    try match goal with Ho : _ ∈ outcomes ?a _, k : Res ?a → _ |- _ =>
      pose proof (action_pays a k _ _ _ ltac:(eassumption) Ho); lia end.
  1,2: cbn; lia.
  unfold credit. rewrite H. cbn. lia.
Qed.

Lemma served_run {A} a (k : Res a → Code A) r : served (Do a k) → served (k r).
Proof. intros [_ H]. apply H. Qed.

Lemma sched_round_served : served sched_round.
Proof. split; [intros _ [[]|]; cbn; lia|]. by intros [[]|]; repeat split. Qed.

Lemma any_step_served p q : pool_served p → any_step p q → pool_served q.
Proof.
  intros (Hm & Hs & Hv) [Hst|Hst]; destruct Hst; repeat split; cbn in *;
    try done; try apply sched_round_served; eauto using served_run;
    try apply Hm; try apply Hs; try apply Hv;
    by apply served_bind; auto using asks_signal, asks_callback.
Qed.

Lemma reachable_served b p : reachable b p → pool_served p.
Proof.
  intros H. unfold reachable in H. eapply (rtc_ind_r (λ p, pool_served p)); [| |exact H].
  - split; [apply asks_only_served, asks_work|]. split; [apply sched_round_served|]. done.
  - intros. by eapply any_step_served.
Qed.

Lemma served_sn p : pool_served p → sn step p.
Proof.
  induction (Nat.lt_wf_0_projected burst p) as [p _ IH]. intros Hp.
  constructor. intros q Hq. apply IH; [by apply step_burst|].
  eapply any_step_served; [done|by left].
Qed.

(** C11: Whatever fails, the daemon settles: from every state it can get to, however its
    threads are interleaved, they come to rest after finitely many steps unless another
    signal or callback arrives. *)
Theorem work_settles b p : reachable b p → sn step p.
Proof. intros Hr. by eapply served_sn, reachable_served. Qed.
End burst.

Lemma work_settles_witness :
  let p := play (F := no_faults) interrupted (start true) in
  scheduled (shared p) = [Some START; Some SHUTDOWN] ∧ sn (step (F := no_faults)) p.
Proof.
  split; [vm_compute; reflexivity|].
  apply (work_settles (F := no_faults) true), play_reachable.
Defined.
