(* ===== verification/ConfShutdown.v ===== *)
(** * Configuration administration: shutdown

    What the threads of [ConfSched.v] rely on when the daemon goes down.  The code of a thread
    is checked against what the thread knows ([allowed], [learn]): it waits for the scheduler
    only after a SHUTDOWN is under way, and for the reactor only after the scheduler has
    ended.  The invariant ties this knowledge to the shared state, and from it follow that an
    ordered shutdown completes and that nothing is executed after it. *)

From stdpp Require Import relations.
From S2P Require Import Prelude ConfSched.

Open Scope Z_scope.

(** ** Code that keeps to a protocol *)

(** What a thread may do with what it knows, the results it can get, what it learns from
    them and how it may end. *)
Record Protocol (Q A : Type) : Type := mkProtocol {
  may : Q → Act → bool;
  gets : Q → ∀ a, list (Res a);
  learns : Q → ∀ a, Res a → Q;
  ends : Q → A → Prop
}.
Arguments may {_ _} _ _ _.
Arguments gets {_ _} _ _ _.
Arguments learns {_ _} _ _ _ _.
Arguments ends {_ _} _ _ _.

Fixpoint conforms {Q A} (P : Protocol Q A) (q : Q) (c : Code A) : Prop :=
  match c with
  | Ret x => ends P q x
  | Do a k => may P q a = true ∧ ∀ r, r ∈ gets P q a → conforms P (learns P q a r) (k r)
  end.

(** An interruption by a signal keeps to the protocol. *)
Lemma conforms_signal {Q A} (P : Protocol Q A) q (c : Code A) sig d :
  may P q AIsDebug = true → gets P q AIsDebug = [d] → learns P q AIsDebug d = q →
  (d = true →
    may P q (ANew SHUTDOWN) = true ∧ gets P q (ANew SHUTDOWN) = [true]
    ∧ learns P q (ANew SHUTDOWN) true = q
    ∧ may P q (AEnqueue (Some SHUTDOWN)) = true ∧ gets P q (AEnqueue (Some SHUTDOWN)) = [true]
    ∧ conforms P (learns P q (AEnqueue (Some SHUTDOWN)) true) c) →
  conforms P q c → conforms P q (handle_signal sig;; c).
Proof.
  intros Hm Hg Hl Hd Hc.
  assert (Hi : conforms P q (handle_signal SIGINT;; c)); [|by destruct sig; [done|exact Hi..]].
  split; [done|]. intros r Hr. rewrite Hg in Hr. apply list_elem_of_singleton in Hr as ->.
  rewrite Hl. destruct d; [|done]. destruct (Hd eq_refl) as (Hn & Hng & Hnl & He & Heg & Hk).
  split; [done|]. intros r Hr. rewrite Hng in Hr. apply list_elem_of_singleton in Hr as ->.
  rewrite Hnl. split; [done|]. intros r Hr. rewrite Heg in Hr. apply list_elem_of_singleton in Hr as ->.
  done.
Qed.

(** ** What the main thread knows *)

Record Facts : Set := mkFacts {
  q_debug : bool;     (* debug mode is on *)
  q_started : bool;   (* the scheduler was started *)
  q_ha : bool;        (* AMF has let the thread go on *)
  q_left : bool;      (* the event loop is done *)
  q_ordered : bool;   (* a SHUTDOWN was put into the queue *)
  q_waited : bool     (* the thread of the scheduler has ended *)
}.

(** What it may do: the conditions under which its actions do no harm.  [b] is the mode the
    daemon was started in. *)
Definition allowed (b : bool) (q : Facts) (a : Act) : bool :=
  match a with
  | AEnqueue (Some SHUTDOWN) => q_started q && (q_debug q || q_ha q)
  | AEnqueue (Some STOP) => q_started q && (negb (q_debug q) || q_left q)
  | AEnqueue (Some _) | ARegister _ => q_started q
  | AEnqueue None | ADequeue | AEndReactor => false
  | AActivate Sched => negb (q_started q) && eqb (q_debug q) b
  | ASetDebug _ => negb (q_started q)
  | AActivate Svc => q_started q && negb (q_debug q)
  | AWait Sched => q_ordered q
  | AWait Svc => q_waited q
  | ARunReactor => q_debug q
  | AHaActivate => q_started q && negb (q_debug q) && negb (q_ha q)
  | _ => true
  end.

(** The results it can get, and what it learns from them. *)
Definition results (q : Facts) (a : Act) : list (Res a) :=
  match a return list (Res a) with
  | ANew _ | AEnqueue _ | AActivate _ | ARunReactor => [true]
  | AIsDebug => [q_debug q]
  | AThrCount => if q_started q then [true; false] else [false]
  | a => all_res a
  end.

Definition learn (q : Facts) (a : Act) (r : Res a) : Facts :=
  let '(mkFacts d s h l o w) := q in
  match a return Res a → Facts with
  | ASetDebug on => λ _, mkFacts on s h l o w
  | AActivate Sched => λ _, mkFacts d true h l o w
  | AHaActivate => λ _, mkFacts d s true l o w
  | ARunReactor => λ _, mkFacts d s h true o w
  | AEnqueue (Some SHUTDOWN) => λ _, mkFacts d s h l true w
  | AThrCount => λ r : bool, mkFacts d s h l (o || s && negb r) w
  | AWait Sched => λ _, mkFacts d s h l o true
  | _ => λ _, q
  end r.

Definition main_protocol (b : bool) : Protocol Facts Z :=
  mkProtocol _ _ (allowed b) results learn (λ q z, q_started q = true → q_waited q = true ∧ z = 0).

(** More knowledge does no harm. *)
Definition knows (q q' : Facts) : Prop :=
  q_debug q' = q_debug q ∧ q_started q' = q_started q ∧ q_ha q' = q_ha q
  ∧ (q_left q = true → q_left q' = true) ∧ (q_ordered q = true → q_ordered q' = true)
  ∧ (q_waited q = true → q_waited q' = true).

Lemma knows_allowed b q q' a : knows q q' → allowed b q a = true → allowed b q' a = true.
Proof.
  destruct q, q'. unfold knows; cbn. intros (-> & -> & -> & ? & ? & ?).
  destruct a as [|[[]|]| | |[]|[]| | | | | | | | | |]; cbn; try done; auto.
  intros [-> [->| ->%(H)]%orb_true_iff]%andb_true_iff; by rewrite ?orb_true_r.
Qed.

Lemma knows_learn q q' a r : knows q q' → knows (learn q a r) (learn q' a r).
Proof.
  destruct q as [d s h l o w], q' as [d' s' h' l' o' w']. unfold knows; cbn.
  intros (-> & -> & -> & ? & ? & ?).
  destruct a as [|[[]|]| | |[]|[]| | | | | | | | | |]; cbn; repeat split; auto.
  intros [->%H0| ->]%orb_true_iff; by rewrite ?orb_true_r.
Qed.

Lemma conforms_mono b q q' c :
  knows q q' → conforms (main_protocol b) q c → conforms (main_protocol b) q' c.
Proof.
  revert q q'. induction c as [x|a k IH]; intros q q' Hk.
  { cbn. destruct Hk as (_ & -> & _ & _ & _ & Hw). intros Hc Hs. destruct (Hc Hs). auto. }
  intros [Ha Hc].
  split; [by eapply knows_allowed|]. intros r Hr.
  eapply IH; [by apply knows_learn|]. apply Hc.
  destruct Hk as (Hd & Hs & _). revert Hr. destruct a; cbn; by rewrite ?Hd, ?Hs.
Qed.

Lemma main_signal b q c sig :
  q_started q = true → conforms (main_protocol b) q c → conforms (main_protocol b) q (handle_signal sig;; c).
Proof.
  intros Hs Hc. destruct q as [d s h l o w]. cbn in Hs. subst s.
  apply (conforms_signal _ _ _ _ d); [done..| |done]. cbn. intros ->. repeat split.
  eapply conforms_mono; [|exact Hc]. by repeat split.
Qed.

Lemma main_callback b q cb k :
  q_started q = true → conforms (main_protocol b) q (Do AHaActivate k) →
  conforms (main_protocol b) q (run_callback cb;; Do AHaActivate k).
Proof.
  intros Hst Hc. assert (Hd : q_debug q = false) by (destruct Hc as [Ha _]; by destruct q as [[] [] [] ? ? ?]).
  assert (Hs : ∀ id, id = START ∨ id = STOP →
    conforms (main_protocol b) q ((_ ← schedule id; mret tt);; Do AHaActivate k)).
  { intros id Hid. destruct q as [d s h l o w]; cbn in Hd, Hst; subst d s.
    split; [done|]. intros r ->%list_elem_of_singleton. cbn.
    split; [by destruct Hid as [-> | ->]|]. intros r ->%list_elem_of_singleton.
    by destruct Hid as [-> | ->]. }
  destruct cb; cbn [run_callback]; unfold transition; try case_bool_decide; try exact Hc; by apply Hs; auto.
Qed.

(** Code that neither needs nor brings knowledge. *)
Definition is_neutral (started : bool) (a : Act) : bool :=
  match a with
  | ANew _ | AIsMember _ | ARemove _ | AOs _ | AFlock => true
  | ARegister _ | AEnqueue (Some START) => started
  | _ => false
  end.

Fixpoint neutral {A} (started : bool) (c : Code A) : Prop :=
  match c with
  | Ret _ => True
  | Do a k =>
      is_neutral started a = true
      ∧ ∀ r, r ∈ results (mkFacts false false false false false false) a → neutral started (k r)
  end.

Lemma conforms_neutral {A} b q (c : Code A) (f : A → Code Z) :
  neutral (q_started q) c → (∀ x, conforms (main_protocol b) q (f x)) → conforms (main_protocol b) q (c ≫= f).
Proof.
  intros Hc Hf. induction c as [x|a k IH]; [apply Hf|]. destruct Hc as [Ha Hk].
  destruct q as [d s h l o w].
  split; [by destruct a as [|[[]|]| | |[]|[]| | | | | | | | | |]|]. intros r Hr.
  replace (learns _ _ a r) with (mkFacts d s h l o w);
    [|by destruct a as [|[[]|]| | |[]|[]| | | | | | | | | |]].
  apply IH, Hk. by destruct a.
Qed.

Lemma neutral_act st a : is_neutral st a = true → neutral st (act a).
Proof. by intros. Qed.

Lemma neutral_bind {A B} st (c : Code A) (f : A → Code B) :
  neutral st c → (∀ x, neutral st (f x)) → neutral st (c ≫= f).
Proof. intros Hc Hf. induction c as [x|a k IH]; [apply Hf|]. split; [apply Hc|]. intros r Hr. by apply IH, Hc. Qed.

#[export] Hint Extern 1 (neutral _ (act _)) => (apply neutral_act; reflexivity) : conf.
#[export] Hint Extern 1 (neutral _ (mret _)) => exact I : conf.
#[export] Hint Extern 2 (neutral _ (mbind _ _)) => (apply neutral_bind; [|intros]) : conf.
#[export] Hint Extern 3 (neutral _ (if ?b then _ else _)) => destruct b : conf.

Lemma neutral_signals sigs z : neutral true (add_signals sigs z) ∧ neutral true (remove_signals sigs z).
Proof.
  revert z. induction sigs as [|sig sigs IH]; intros z; [done|].
  split; cbn [add_signals remove_signals].
  all: apply neutral_bind; [auto with conf|]; intros []; try apply IH.
  all: apply neutral_bind; [auto with conf|]; intros b; apply IH.
Qed.

Lemma neutral_capability st : neutral st set_process_capability.
Proof. unfold set_process_capability. auto 10 with conf. Qed.

Lemma neutral_check st : neutral st multiple_process_instance_running_check.
Proof. unfold multiple_process_instance_running_check. auto 10 with conf. Qed.

Lemma neutral_start : neutral true (schedule START).
Proof. split; [done|]. intros r ->%list_elem_of_singleton. split; [done|]. by intros r ->%list_elem_of_singleton. Qed.

Definition no_facts : Facts := mkFacts false false false false false false.

(** One action at a time: its result is known or split into cases. *)
Ltac conform_act :=
  split; [reflexivity|]; intros ? Hr; cbn in Hr; repeat first
    [apply list_elem_of_singleton in Hr as -> | apply elem_of_cons in Hr as [->|Hr]
    |by apply not_elem_of_nil in Hr]; cbn [learns learn main_protocol andb orb negb Code_bind code_bind no_facts].

(** The last part of both modes. *)
Lemma conforms_stop b q (c : Code Z) :
  q_started q = true → q_debug q || q_ha q = true →
  (∀ q', knows q q' → q_waited q' = true → conforms (main_protocol b) q' c) →
  conforms (main_protocol b) q (sched_stop;; c).
Proof.
  destruct q as [d s h l o w]; cbn. intros -> Hdh Hc.
  split; [done|]. intros r Hr. cbn in Hr.
  apply elem_of_cons in Hr as [->|Hr]; [|apply list_elem_of_singleton in Hr as ->].
  - conform_act. split; [exact Hdh|]. intros ? ->%list_elem_of_singleton. cbn.
    conform_act. by apply Hc; repeat split.
  - split; [cbn; by rewrite orb_true_r|]. intros ? ->%list_elem_of_singleton. cbn.
    apply Hc; [|done]. repeat split; cbn; auto. intros ->. done.
Qed.

Lemma work_conforms b : conforms (main_protocol b) no_facts (work b).
Proof.
  destruct b; cbn [work].
  - apply conforms_neutral; [apply neutral_check|]. intros z. destruct (negb (z =? 0)); [done|].
    conform_act. unfold debug. apply conforms_neutral; [apply neutral_capability|]. intros _.
    conform_act. conform_act. apply conforms_neutral; [apply neutral_signals|]. intros _.
    apply conforms_neutral; [apply neutral_start|]. intros _.
    conform_act. conform_act. conform_act.
    apply conforms_neutral; [apply neutral_signals|]. intros _. by apply conforms_stop.
  - conform_act. apply conforms_neutral; [apply neutral_capability|]. intros _.
    conform_act. conform_act. conform_act. apply conforms_neutral; [apply neutral_signals|]. intros _.
    conform_act; (apply conforms_neutral; [apply neutral_signals|]; intros _;
      apply conforms_stop; [done..|]; intros [] _ Hq; split; [exact Hq|];
      intros ? _ _; split; [exact Hq|done]).
Qed.

(** ** The other threads *)

(** The scheduler waits for a request, executes an ordinary one, or a SHUTDOWN, in which
    it has stopped the reactor or not; [d] is debug mode. *)
Inductive Phase : Set := Idle | Running | Down (stopped : bool).

Definition sched_protocol (d : bool) : Protocol Phase bool :=
  mkProtocol _ _
    (λ ph a, match a with
             | ANew _ | AIsDebug => true
             | AEnqueue (Some SHUTDOWN) => d
             | ADequeue => match ph with Idle => true | _ => false end
             | AEndReactor => match ph with Down _ => true | _ => false end
             | _ => false
             end)
    (λ _, results (mkFacts d true false false false false))
    (λ ph a, match a return Res a → Phase with
             | ADequeue => λ r, if bool_decide (r = Some SHUTDOWN) then Down false else Running
             | AEndReactor => λ _, Down true
             | _ => λ _, ph
             end)
    (λ ph go, ph = if (go : bool) then Running else Down true).

(** The thread of the reactor runs it and otherwise only serves signals. *)
Definition svc_protocol (d : bool) : Protocol unit Z :=
  mkProtocol _ _
    (λ _ a, match a with
            | ANew _ | AIsDebug | ARunReactor => true
            | AEnqueue (Some SHUTDOWN) => d
            | _ => false
            end)
    (λ _, results (mkFacts d true false false false false))
    (λ _ _ _, tt)
    (λ _ _, True).

Lemma round_conforms d : conforms (sched_protocol d) Idle sched_round.
Proof. split; [done|]. by intros [[]|] _; cbn; repeat split. Qed.

Lemma svc_conforms d : conforms (svc_protocol d) tt daemon_svc.
Proof. by split. Qed.

Lemma sched_signal d ph c sig :
  conforms (sched_protocol d) ph c → conforms (sched_protocol d) ph (handle_signal sig;; c).
Proof. intros Hc. by apply (conforms_signal _ _ _ _ d). Qed.

Lemma svc_signal d c sig :
  conforms (svc_protocol d) tt c → conforms (svc_protocol d) tt (handle_signal sig;; c).
Proof. intros Hc. by apply (conforms_signal _ _ _ _ d). Qed.

(** ** The invariant *)

(** SHUTDOWN is the last request that was taken. *)
Definition down_last (t : list (option identifier_t)) : Prop :=
  ∃ l, t = l ++ [Some SHUTDOWN] ∧ Some SHUTDOWN ∉ l.

Definition at_phase (ph : Phase) (s : Shared) : Prop :=
  match ph with
  | Idle | Running => Some SHUTDOWN ∉ taken s
  | Down stopped => down_last (taken s) ∧ (stopped = true → loop_done s = true)
  end.

Record SInv (b : bool) (q : Facts) (ph : Phase) (s : Shared) : Prop := mkSInv {
  si_debug : m_debugMode s = q_debug q;
  si_ha : ha_returned s = q_ha q;
  si_mode : q_started q = true → q_debug q = b;
  si_amf : q_ha q = true → q_started q = true ∧ q_debug q = false;
  si_new : q_started q = false →
    sched_alive s = false ∧ svc_alive s = false ∧ loop_done s = false
    ∧ scheduled s = [] ∧ taken s = [] ∧ m_SignalsToCatch s = [];
  si_left : q_left q = true → loop_done s = true;
  si_ordered : q_ordered q = true → Some SHUTDOWN ∈ scheduled s;
  si_waited : q_waited q = true → q_started q = true ∧ sched_alive s = false;
  si_queue : scheduled s = taken s ++ m_ActivationQueue s;
  si_alive : sched_alive s = true → at_phase ph s;
  si_dead : sched_alive s = false → q_started q = true → loop_done s = true;
  si_done : loop_done s = true → down_last (taken s);
  si_shut : Some SHUTDOWN ∈ scheduled s → q_debug q || q_ha q = true;
  si_stop : q_debug q = true →
    Some STOP ∉ taken s ∧ (Some STOP ∈ scheduled s → loop_done s = true)
}.

Definition Inv (b : bool) (p : Pool) : Prop :=
  ∃ q ph, SInv b q ph (shared p)
    ∧ conforms (main_protocol b) q (main_thread p)
    ∧ (if sched_alive (shared p) then conforms (sched_protocol (q_debug q)) ph (sched_thread p)
       else sched_thread p = sched_round)
    ∧ conforms (svc_protocol (q_debug q)) tt (svc_thread p)
    ∧ (q_started q = false → svc_thread p = daemon_svc).

Lemma push_inv b q ph s id :
  q_started q = true → (id = SHUTDOWN → q_debug q || q_ha q = true) →
  (id = STOP → q_debug q = true → loop_done s = true) →
  SInv b q ph s → SInv b q ph (push_request (Some id) s).
Proof.
  intros Hst Hd Hs []. constructor; cbn; try done; try (intros; congruence).
  - set_solver.
  - by rewrite si_queue0, (assoc_L (++)).
  - intros [?|[= <-]%list_elem_of_singleton]%elem_of_app; auto.
  - intros Hq. destruct (si_stop0 Hq). split; [done|].
    intros [?|[= <-]%list_elem_of_singleton]%elem_of_app; auto.
Qed.

Lemma ordered_inv b d st h l o w ph s :
  SInv b (mkFacts d st h l o w) ph s → Some SHUTDOWN ∈ scheduled s →
  SInv b (mkFacts d st h l true w) ph s.
Proof. by intros [] H; constructor. Qed.

Lemma signals_inv b q ph s x :
  (q_started q = true ∨ x = []) → SInv b q ph s → SInv b q ph (set_signals x s).
Proof. intros Hs []; constructor; try done. cbn. intros Hq. destruct Hs; [congruence|]. by destruct (si_new0 Hq) as (?&?&?&?&?&?). Qed.

(** Takes the outcome of an action apart. *)
Ltac split_outcome H := repeat match type of H with
  | _ ∈ _ <$> _ => apply list_elem_of_fmap in H as (? & [= -> ->] & H)
  | _ ∈ (_ ++ _) => apply elem_of_app in H as [H|H]
  | _ ∈ (if ?c then _ else _) => let E := fresh "Eo" in destruct c eqn:E
  | _ ∈ [] => by apply not_elem_of_nil in H
  | _ ∈ [_] => apply list_elem_of_singleton in H as [= -> ->]
  | _ ∈ _ :: _ => apply elem_of_cons in H as [[= -> ->]|H]
  end.

#[local] Arguments conforms : simpl never.
#[local] Arguments sched_round : simpl never.
#[local] Arguments daemon_svc : simpl never.

Section preservation.
Context `{F : Faults} (HF : reliable F).

Lemma critical_fate a : critical a = true → fate a = [true].
Proof. apply HF. Qed.

Lemma main_act b q ph s a r s' :
  SInv b q ph s → allowed b q a = true → (r, s') ∈ outcomes a s →
  r ∈ results q a
  ∧ SInv b (learn q a r) (match a with AActivate Sched => Idle | _ => ph end) s'.
Proof.
  intros Hi Ha Ho. destruct q as [d st h l o w].
  destruct a as [id|[[]|]| | |[]|[]| | | | | | | | | |]; cbn in Ha; try discriminate;
    cbn in Ho; rewrite ?critical_fate in Ho by done; cbn in Ho.
  all: split_outcome Ho; cbn [results learn q_debug q_started q_ha q_left q_ordered q_waited].
  all: try (split; [apply all_res_spec|]; exact Hi).
  all: try (split; [by left|]; exact Hi || by apply push_inv).
  - split; [by left|]. apply andb_true_iff in Ha as [-> Ha]. apply push_inv; try done. cbn.
    intros _ ->. by apply (si_left _ _ _ _ Hi).
  - split; [by left|]. apply andb_true_iff in Ha as [-> Ha].
    eapply ordered_inv; [by apply push_inv|]. set_solver.
  - destruct st; cbn [andb].
    + split; [destruct (sched_alive s); set_solver|].
      destruct (sched_alive s) eqn:Es; cbn; rewrite ?orb_true_r, ?orb_false_r; [done|].
      apply (ordered_inv _ d true h l o w); [done|]. destruct Hi. cbn in *.
      destruct (si_done0 (si_dead0 Es eq_refl)) as (t & Ht & _). rewrite si_queue0, Ht. set_solver.
    + destruct (si_new _ _ _ _ Hi eq_refl) as (-> & _). rewrite orb_false_r. split; [by left|done].
  - split; [by left|]. apply andb_true_iff in Ha as [Ha Hdb%eqb_prop].
    destruct st; [done|]. destruct Hi; cbn in *.
    destruct (si_new0 eq_refl) as (Ha1 & Hv & Hl & Hsc & Ht & Hsig).
    constructor; cbn; try done.
    + by intros [? _]%si_amf0.
    + by intros [? _]%si_waited0.
    + rewrite Ht. intros _. by apply not_elem_of_nil.
  - apply andb_true_iff in Ha as [-> ->%negb_true_iff]. split; [by left|]. destruct Hi. by constructor.
  - split; [by left|]. destruct Hi; cbn in *. constructor; try done. intros _. split; [|done].
    destruct st; [done|]. specialize (si_ordered0 Ha). destruct (si_new0 eq_refl) as (_ & _ & _ & Hsc & _).
    rewrite Hsc in si_ordered0. by apply not_elem_of_nil in si_ordered0.
  - split; [by left|]. destruct Hi. by constructor.
  - exfalso. apply bool_decide_eq_true in Eo. set_solver.
  - split; [by left|]. destruct st; [done|]. destruct Hi; cbn in *.
    destruct (si_new0 eq_refl) as (Ha1 & Hv & Hl & Hsc & Ht & Hsig).
    constructor; cbn; try done.
    + by intros [? _]%si_amf0.
    + rewrite Hsc. by intros ?%not_elem_of_nil.
    + rewrite Hsc, Ht. intros _. split; [apply not_elem_of_nil|by intros ?%not_elem_of_nil].
  - split; [|done]. destruct Hi; cbn in *. rewrite si_debug0. by left.
  - split; [apply all_res_spec|]. destruct x; [|done]. apply signals_inv; [by left|done].
  - split; [apply all_res_spec|]. destruct x; [|done]. apply signals_inv; [|done].
    destruct st; [by left|right]. by destruct (si_new _ _ _ _ Hi eq_refl) as (_ & _ & _ & _ & _ & ->).
Qed.

Lemma alive_started b q ph s : SInv b q ph s → sched_alive s = true ∨ svc_alive s = true → q_started q = true.
Proof.
  intros Hi Ha. destruct (q_started q) eqn:Es; [done|].
  destruct (si_new _ _ _ _ Hi Es) as (? & ? & _). destruct Ha; congruence.
Qed.

Lemma take_inv b q s r rest :
  SInv b q Idle s → sched_alive s = true → m_ActivationQueue s = r :: rest →
  SInv b q (if bool_decide (r = Some SHUTDOWN) then Down false else Running) (take_request r rest s).
Proof.
  intros Hi Ha Hr. pose proof (alive_started _ _ _ _ Hi (or_introl Ha)) as Hst.
  destruct Hi. specialize (si_alive0 Ha). cbn in si_alive0.
  assert (Hl : loop_done s = false).
  { destruct (loop_done s) eqn:El; [|done]. destruct (si_done0 eq_refl) as (l & Ht & _).
    destruct si_alive0. rewrite Ht. apply elem_of_app. right. left. }
  constructor; cbn; try done; try (intros; congruence).
  - by rewrite si_queue0, Hr, <- (assoc_L (++)).
  - intros _. case_bool_decide as Hs; [subst r; split; [by eexists|done]|]. cbn.
    intros [?|?%list_elem_of_singleton]%elem_of_app; congruence.
  - intros Hd. destruct (si_stop0 Hd) as [Hn Hs]. split; [|done].
    intros [?|Hs'%list_elem_of_singleton]%elem_of_app; [done|]. subst r.
    rewrite Hs in Hl; [done|]. rewrite si_queue0, Hr. set_solver.
Qed.

Lemma sched_act b q ph s a r s' :
  SInv b q ph s → sched_alive s = true → may (sched_protocol (q_debug q)) ph a = true →
  (r, s') ∈ outcomes a s →
  r ∈ gets (sched_protocol (q_debug q)) ph a ∧ sched_alive s' = true
  ∧ SInv b q (learns (sched_protocol (q_debug q)) ph a r) s'.
Proof.
  intros Hi Hal Ha Ho. pose proof (alive_started _ _ _ _ Hi (or_introl Hal)) as Hst.
  destruct a as [id|[[]|]| | |[]|[]| | | | | | | | | |]; cbn in Ha; try discriminate;
    cbn in Ho; rewrite ?critical_fate in Ho by done; cbn in Ho.
  - split_outcome Ho. split; [by left|done].
  - split_outcome Ho. split; [by left|]. split; [done|]. apply push_inv; try done. by rewrite Ha.
  - destruct ph; try discriminate. destruct (m_ActivationQueue s) as [|r0 rest] eqn:Er; split_outcome Ho.
    split; [apply all_res_spec|]. split; [done|]. by apply take_inv.
  - destruct ph as [| |e]; try discriminate. split_outcome Ho. split; [by left|]. split; [done|].
    destruct Hi. specialize (si_alive0 Hal) as [Hd _].
    constructor; cbn; try done; try (intros; congruence).
    intros Hdb. by destruct (si_stop0 Hdb).
  - split_outcome Ho. rewrite (si_debug _ _ _ _ Hi). split; [by left|done].
Qed.

Lemma svc_act b q ph s a r s' :
  SInv b q ph s → svc_alive s = true → may (svc_protocol (q_debug q)) tt a = true →
  (r, s') ∈ outcomes a s →
  r ∈ gets (svc_protocol (q_debug q)) tt a ∧ sched_alive s' = sched_alive s ∧ SInv b q ph s'.
Proof.
  intros Hi Hal Ha Ho. pose proof (alive_started _ _ _ _ Hi (or_intror Hal)) as Hst.
  destruct a as [id|[[]|]| | |[]|[]| | | | | | | | | |]; cbn in Ha; try discriminate;
    cbn in Ho; rewrite ?critical_fate in Ho by done; cbn in Ho; split_outcome Ho.
  - split; [by left|done].
  - split; [by left|]. split; [done|]. apply push_inv; try done. by rewrite Ha.
  - split; [by left|done].
  - exfalso. apply bool_decide_eq_true in Eo. set_solver.
  - rewrite (si_debug _ _ _ _ Hi). split; [by left|done].
Qed.

(** What most actions of the main thread leave alone. *)
Definition sets_up (a : Act) : bool :=
  match a with AActivate Sched | ASetDebug _ => true | _ => false end.

Lemma learn_same q a r :
  sets_up a = false → q_debug (learn q a r) = q_debug q ∧ q_started (learn q a r) = q_started q.
Proof. destruct q. by destruct a as [|[[]|]| | |[]|[]| | | | | | | | | |]. Qed.

Lemma outcomes_same a s r s' :
  sets_up a = false → (r, s') ∈ outcomes a s → sched_alive s' = sched_alive s.
Proof.
  intros Ha Ho. destruct a as [|[[]|]| | |[]|[]| | | | | | | | | |]; try discriminate; cbn in Ho;
    try (destruct (m_ActivationQueue s)); split_outcome Ho; by try destruct x.
Qed.

Lemma inv_main b a k c v s r s' :
  Inv b (mkPool (Do a k) c v s) → (r, s') ∈ outcomes a s → Inv b (mkPool (k r) c v s').
Proof.
  intros (q & ph & Hi & [Ha Hk] & Hc & Hv & Hn) Ho; cbn in Hi, Hc, Hv, Hn.
  destruct (main_act _ _ _ _ _ _ _ Hi Ha Ho) as [Hr Hi'].
  exists (learn q a r), (match a with AActivate Sched => Idle | _ => ph end).
  split; [exact Hi'|]. split; [by apply Hk|]. clear Hk Hi'. cbn.
  destruct (sets_up a) eqn:Ep.
  - destruct q as [d st h l o w].
    destruct a as [| | | |[]| | | | |on| | | | | |]; try discriminate; cbn in Ha, Ho;
      (assert (st = false) as -> by (by destruct st)); destruct (si_new _ _ _ _ Hi eq_refl) as (Hs & _);
      rewrite Hs in Hc; subst c; specialize (Hn eq_refl); subst v.
    + rewrite critical_fate in Ho by done. split_outcome Ho.
      apply list_elem_of_singleton in Ho as ->. split; [apply round_conforms|]. by split.
    + split_outcome Ho. cbn. rewrite Hs. by split.
  - destruct (learn_same q a r Ep) as [-> ->]. rewrite (outcomes_same _ _ _ _ Ep Ho).
    replace (match a with AActivate Sched => Idle | _ => ph end) with ph; [done|].
    by destruct a as [| | | |[]| | | | | | | | | | |].
Qed.

(** The end of the thread of the scheduler. *)
Lemma dead_inv b q s : SInv b q (Down true) s → sched_alive s = true → SInv b q Idle (set_alive Sched false s).
Proof.
  intros Hi Ha. pose proof (alive_started _ _ _ _ Hi (or_introl Ha)) as Hst.
  destruct Hi. destruct (si_alive0 Ha) as [Hd He].
  constructor; cbn; try done; try (intros; congruence); auto.
Qed.

Lemma svc_dead_inv b q ph s : SInv b q ph s → SInv b q ph (set_alive Svc false s).
Proof. intros []. constructor; cbn; try done. intros Hq. by destruct (si_new0 Hq) as (?&?&?). Qed.

Lemma ran_inv b q s : SInv b q Running s → SInv b q Idle s.
Proof. by intros []; constructor. Qed.

Lemma inv_step b p p' : Inv b p → step p p' → Inv b p'.
Proof.
  intros Hp Hst. destruct Hst as [a k c v s r s' Ho|m a k v s r s' Hs Ho|m v s Hs|m v s Hs
    |m c a k s r s' Hv Ho|m c z s Hv].
  - by eapply inv_main.
  - destruct Hp as (q & ph & Hi & Hm & Hc & Hv & Hn). cbn in *. rewrite Hs in Hc. destruct Hc as [Ha Hk].
    destruct (sched_act _ _ _ _ _ _ _ Hi Hs Ha Ho) as (Hr & Hs' & Hi').
    exists q, (learns (sched_protocol (q_debug q)) ph a r). cbn. rewrite Hs'. auto.
  - destruct Hp as (q & ph & Hi & Hm & Hc & Hv & Hn). cbn in *. rewrite Hs in Hc. hnf in Hc. subst ph.
    exists q, Idle. cbn. rewrite Hs. auto using ran_inv, round_conforms.
  - destruct Hp as (q & ph & Hi & Hm & Hc & Hv & Hn). cbn in *. rewrite Hs in Hc. hnf in Hc. subst ph.
    exists q, Idle. cbn. auto using dead_inv.
  - destruct Hp as (q & ph & Hi & Hm & Hc & Hvc & Hn). cbn in *. destruct Hvc as [Ha Hk].
    destruct (svc_act _ _ _ _ _ _ _ Hi Hv Ha Ho) as (Hr & Hs' & Hi').
    exists q, ph. cbn. rewrite Hs'. split_and!; auto; [exact (Hk _ Hr)|]. intros Hq.
    by rewrite (alive_started _ _ _ _ Hi (or_intror Hv)) in Hq.
  - destruct Hp as (q & ph & Hi & Hm & Hc & Hvc & Hn). cbn in *.
    exists q, ph. cbn. auto using svc_dead_inv.
Qed.

Lemma caught_started b q ph s sig : SInv b q ph s → sig ∈ m_SignalsToCatch s → q_started q = true.
Proof.
  intros Hi Hs. destruct (q_started q) eqn:Eq; [done|].
  destruct (si_new _ _ _ _ Hi Eq) as (_&_&_&_&_&E). rewrite E in Hs. by apply not_elem_of_nil in Hs.
Qed.

Lemma inv_env b p p' : Inv b p → env_step p p' → Inv b p'.
Proof.
  intros (q & ph & Hi & Hm & Hc & Hv & Hn) Hst.
  destruct Hst as [sig a k c v s Hs|sig m c v s Hs Ha|sig m c v s Hs Ha|cb k c v s|r k c v s]; cbn in *.
  - exists q, ph. cbn. split_and!; auto. apply main_signal; [by eapply caught_started|done].
  - exists q, ph. cbn. rewrite Ha in *. auto using sched_signal.
  - exists q, ph. cbn. split_and!; auto using svc_signal. intros Hq.
    by rewrite (alive_started _ _ _ _ Hi (or_intror Ha)) in Hq.
  - destruct (Hm) as [Ha _]. exists q, ph. cbn. split_and!; auto. apply main_callback; [|done].
    by destruct q as [? [] ? ? ? ?].
  - destruct Hm as [Ha Hk]. exists (learn q AHaActivate r), ph. destruct q as [d st h l o w]. cbn in *.
    apply andb_true_iff in Ha as [[-> ->%negb_true_iff]%andb_true_iff ->%negb_true_iff].
    split_and!; auto.
    + destruct Hi. by constructor.
    + apply Hk, (all_res_spec AHaActivate).
Qed.

Lemma reachable_inv b p : reachable b p → Inv b p.
Proof.
  intros H. unfold reachable in H. eapply (rtc_ind_r (Inv b)); [| |exact H].
  - exists no_facts, Idle. split_and!; [|apply work_conforms|done|apply svc_conforms|done].
    constructor; cbn; try done. by intros ?%not_elem_of_nil.
  - intros p1 p2 _ [Hs|Hs] Hi; [by eapply inv_step|by eapply inv_env].
Qed.

(** ** Coming to rest *)

(** An action that does not block has an outcome. *)
Definition blocks (a : Act) : bool :=
  match a with ADequeue | AWait _ | ARunReactor | AHaActivate => true | _ => false end.

Lemma not_blocked a s : blocks a = false → ∃ r s', (r, s') ∈ outcomes a s.
Proof.
  intros Hb. assert (Hf : ∃ b, b ∈ fate a).
  { destruct (HF a) as [Hne _]. destruct (fate a) as [|b l]; [done|]. exists b. by left. }
  destruct Hf as [b Hb']. destruct a; try discriminate; cbn; do 2 eexists;
    first [by left | by apply list_elem_of_fmap; exists b].
Qed.

(** A thread of the scheduler that does not move waits for a request. *)
Lemma sched_rests b m c v s :
  Inv b (mkPool m c v s) → nf step (mkPool m c v s) → sched_alive s = true →
  m_ActivationQueue s = [] ∧ Some SHUTDOWN ∉ taken s.
Proof.
  intros (q & ph & Hi & _ & Hc & _) Hnf Ha. cbn in *. rewrite Ha in Hc.
  destruct c as [go|a k].
  - destruct Hnf. destruct go; eexists; by constructor.
  - destruct (blocks a) eqn:Eb.
    + destruct Hc as [Hm _]. destruct a; try discriminate. destruct ph; try discriminate.
      pose proof (si_alive _ _ _ _ Hi Ha) as Hp. split; [|exact Hp].
      destruct (m_ActivationQueue s) as [|r rest] eqn:Er; [done|]. destruct Hnf.
      eexists. eapply step_sched; [done|]. cbn. rewrite Er. by left.
    + destruct (not_blocked a s Eb) as (r & s' & Ho).
      destruct Hnf. eexists. by eapply step_sched.
Qed.

(** Neither does that of the reactor while the event loop is done. *)
Lemma svc_rests b m c v s :
  Inv b (mkPool m c v s) → nf step (mkPool m c v s) → loop_done s = true → svc_alive s = false.
Proof.
  intros (q & ph & Hi & _ & _ & Hv & _) Hnf Hd. cbn in *.
  destruct (svc_alive s) eqn:Ha; [|done]. destruct Hnf. destruct v as [z|a k].
  - eexists. by constructor.
  - destruct (blocks a) eqn:Eb.
    + destruct Hv as [Hm _]. destruct a; try discriminate. eexists. eapply step_svc; [done|]. cbn. rewrite Hd. by left.
    + destruct (not_blocked a s Eb) as (r & s' & Ho).
      eexists. by eapply step_svc.
Qed.

(** At rest, a scheduler that was ordered to go down has ended, and with it the loop. *)
Lemma ordered_rests b m c v s :
  Inv b (mkPool m c v s) → nf step (mkPool m c v s) → Some SHUTDOWN ∈ scheduled s →
  sched_alive s = false ∧ loop_done s = true.
Proof.
  intros Hp Hnf Hs. pose proof (sched_rests _ _ _ _ _ Hp Hnf) as Hr.
  destruct Hp as (q & ph & Hi & _); cbn in *. destruct Hi.
  destruct (sched_alive s) eqn:Ha.
  - destruct (Hr eq_refl) as [Hq Ht]. exfalso. apply Ht. by rewrite si_queue0, Hq, app_nil_r in Hs.
  - split; [done|]. apply si_dead0; [done|]. destruct (q_started q) eqn:Eq; [done|].
    destruct (si_new0 eq_refl) as (_&_&_&E&_). rewrite E in Hs. by apply not_elem_of_nil in Hs.
Qed.

(** Where the main thread can be at rest: at its end, in the reactor before a shutdown was
    ordered, or in the AMF library. *)
Lemma main_rests b m c v s :
  Inv b (mkPool m c v s) → nf step (mkPool m c v s) →
  (∃ z, m = Ret z) ∨ (∃ k, m = Do ARunReactor k ∧ Some SHUTDOWN ∉ scheduled s)
  ∨ (∃ k, m = Do AHaActivate k ∧ ha_returned s = false).
Proof.
  intros Hp Hnf. pose proof (ordered_rests _ _ _ _ _ Hp Hnf) as Hor.
  pose proof (svc_rests _ _ _ _ _ Hp Hnf) as Hvr.
  destruct Hp as (q & ph & Hi & Hm & _); cbn in *. destruct m as [z|a k]; [by left; eexists|right].
  destruct Hm as [Ha _]. cbn in Ha. destruct (blocks a) eqn:Eb.
  2:{ destruct (not_blocked a s Eb) as (r & s' & Ho). destruct Hnf. eexists. by eapply step_main. }
  destruct a as [| | | | |[]| | | | | | | | | |]; try discriminate; cbn in Ha.
  - destruct (Hor (si_ordered _ _ _ _ Hi Ha)) as [Hd _]. destruct Hnf. eexists. eapply step_main.
    cbn. rewrite Hd. by left.
  - destruct (si_waited _ _ _ _ Hi Ha) as [Hst Hd].
    pose proof (Hvr (si_dead _ _ _ _ Hi Hd Hst)) as Hv. destruct Hnf. eexists. eapply step_main.
    cbn. rewrite Hv. by left.
  - left. eexists. split; [done|]. intros Hs. destruct (Hor Hs) as [_ Hd].
    destruct Hnf. eexists. eapply step_main. cbn. rewrite Hd. by left.
  - right. eexists. split; [done|]. rewrite (si_ha _ _ _ _ Hi). by destruct q as [[] [] [] ? ? ?].
Qed.

(** ** The shutdown *)

(** The daemon goes down once a SHUTDOWN is scheduled or AMF lets the main thread go on. *)
Definition going_down (s : Shared) : Prop := Some SHUTDOWN ∈ scheduled s ∨ ha_returned s = true.

Lemma outcomes_down a s r s' : (r, s') ∈ outcomes a s → going_down s → going_down s'.
Proof.
  intros Ho. destruct a as [|[[]|]| | |[]|[]| | | | | | | | | |]; cbn in Ho;
    try (destruct (m_ActivationQueue s)); split_outcome Ho; try done;
    (destruct x; [|done]); unfold going_down; cbn; set_solver.
Qed.

Lemma step_down p q : step p q → going_down (shared p) → going_down (shared q).
Proof. intros Hst. destruct Hst; cbn; eauto using outcomes_down. Qed.

Lemma steps_down p q : rtc step p q → going_down (shared p) → going_down (shared q).
Proof. induction 1; eauto using step_down. Qed.

Lemma inv_steps b p q : rtc step p q → Inv b p → Inv b q.
Proof. induction 1; eauto using inv_step. Qed.

(** The state in which the process ends. *)
Definition ended (p : Pool) : Prop :=
  main_thread p = Ret 0 ∧ sched_alive (shared p) = false ∧ svc_alive (shared p) = false.

Lemma down_rests b p : Inv b p → nf step p → going_down (shared p) → ended p.
Proof.
  destruct p as [m c v s]. intros Hp Hnf Hd. pose proof (main_rests _ _ _ _ _ Hp Hnf) as Hm.
  pose proof (svc_rests _ _ _ _ _ Hp Hnf) as Hv.
  destruct Hp as (q & ph & Hi & Hc & _). cbn in *. unfold going_down in Hd; cbn in Hd.
  assert (Hst : q_started q = true).
  { destruct (q_started q) eqn:Eq; [done|]. destruct (si_new _ _ _ _ Hi Eq) as (_&_&_&E&_).
    rewrite E in Hd. destruct Hd as [?%not_elem_of_nil|Hh]; [done|].
    rewrite (si_ha _ _ _ _ Hi) in Hh. destruct (si_amf _ _ _ _ Hi Hh). congruence. }
  destruct Hm as [[z ->]|[(k & -> & Hs)|(k & -> & Hs)]].
  - destruct (Hc Hst) as [Hw ->]. destruct (si_waited _ _ _ _ Hi Hw) as [_ Hdead].
    repeat split; [done|]. apply Hv. by apply (si_dead _ _ _ _ Hi).
  - destruct Hd as [?|Hd]; [done|]. rewrite (si_ha _ _ _ _ Hi) in Hd.
    destruct (si_amf _ _ _ _ Hi Hd) as [_ Hdb]. destruct Hc as [Ha _]. cbn in Ha. congruence.
  - destruct Hd as [Hd|?]; [|congruence]. apply (si_shut _ _ _ _ Hi) in Hd.
    rewrite (si_ha _ _ _ _ Hi) in Hs. destruct Hc as [Ha _]. cbn in Ha.
    destruct q as [[] ? [] ? ? ?]; cbn in *; try done. by rewrite andb_false_r in Ha.
Qed.

(** C10: A shutdown completes: once a SHUTDOWN is scheduled, or AMF lets the main thread go
    on, every interleaving of the threads is finite, and where it ends the process has
    returned 0 and both other threads have ended, whatever signals came before and whichever
    of the other calls fail. *)
Theorem shutdown_completes b p :
  reachable b p → going_down (shared p) →
  sn step p ∧ ∀ q, rtc step p q → nf step q → ended q.
Proof.
  intros Hr Hd. split; [by eapply served_sn, reachable_served|].
  intros q Hpq Hnf. eapply down_rests; [|done|by eapply steps_down].
  eapply inv_steps; [done|by apply reachable_inv].
Qed.

(** ** What is executed *)

Lemma taken_inv b q ph s :
  SInv b q ph s → Some SHUTDOWN ∈ taken s → down_last (taken s).
Proof.
  intros [] Ht. destruct (sched_alive s) eqn:Ha.
  - specialize (si_alive0 eq_refl). by destruct ph; [..|destruct si_alive0].
  - apply si_done0, si_dead0; [done|]. destruct (q_started q) eqn:Eq; [done|].
    destruct (si_new0 eq_refl) as (_&_&_&_&E&_). rewrite E in Ht. by apply not_elem_of_nil in Ht.
Qed.

(** Nothing is executed after a SHUTDOWN: it is the last request the scheduler ever
    takes, whatever is scheduled after it.  So in debug mode the STOP that is scheduled when
    the event loop is left, to simulate the deactivation, is never executed. *)
Theorem nothing_after_shutdown b p :
  reachable b p →
  (∀ before after, taken (shared p) = before ++ Some SHUTDOWN :: after → after = [])
  ∧ (b = true → Some STOP ∉ taken (shared p)).
Proof.
  intros (q & ph & Hi & _)%reachable_inv. split.
  - intros before after Ht. destruct (taken_inv _ _ _ _ Hi) as (l & Hl & Hn); [rewrite Ht; set_solver|].
    rewrite Hl in Ht. destruct (decide (after = [])) as [->|Hne]; [done|].
    destruct (exists_last Hne) as (init & x & ->).
    rewrite app_comm_cons, (assoc_L (++)) in Ht. apply app_inj_tail in Ht as [-> _].
    set_solver.
  - intros ->. destruct (q_started q) eqn:Eq.
    + apply (si_stop _ _ _ _ Hi), (si_mode _ _ _ _ Hi Eq).
    + destruct (si_new _ _ _ _ Hi Eq) as (_&_&_&_&->&_). apply not_elem_of_nil.
Qed.

(** In HA mode signals do not stop the daemon: no SHUTDOWN is scheduled before AMF lets
    the main thread go on. *)
Theorem signals_ignored p :
  reachable false p → Some SHUTDOWN ∈ scheduled (shared p) → ha_returned (shared p) = true.
Proof.
  intros (q & ph & Hi & _)%reachable_inv Hs. rewrite (si_ha _ _ _ _ Hi).
  pose proof (si_shut _ _ _ _ Hi Hs) as Hd. destruct (q_started q) eqn:Eq.
  - by rewrite (si_mode _ _ _ _ Hi Eq) in Hd.
  - destruct (si_new _ _ _ _ Hi Eq) as (_&_&_&E&_). rewrite E in Hs. by apply not_elem_of_nil in Hs.
Qed.
End preservation.

(** ** A scheduler that does not start *)

(** The main thread of a daemon in HA mode without a scheduler, which knows whether the
    thread of the reactor was started, and that thread: neither ends. *)
Definition hang_main : Protocol bool Z :=
  mkProtocol _ _
    (λ q a, match a with
            | ADequeue | AEndReactor | ARunReactor => false
            | ASetDebug on => negb on
            | AWait Svc => q
            | _ => true
            end)
    (λ q a, match a return list (Res a) with
            | AThrCount | AIsDebug | AActivate Sched => [false]
            | AActivate Svc => [true]
            | AWait Svc => []
            | a => all_res a
            end)
    (λ q a, match a return Res a → bool with AActivate Svc => λ _, true | _ => λ _, q end)
    (λ _ _, False).

Definition hang_svc : Protocol unit Z :=
  mkProtocol _ _
    (λ _ a, match a with AIsDebug | ARunReactor => true | _ => false end)
    (λ _ a, match a return list (Res a) with
            | AIsDebug => [false]
            | ARunReactor => []
            | a => all_res a
            end)
    (λ _ _ _, tt) (λ _ _, False).

Definition Hanging (p : Pool) : Prop :=
  ∃ q, conforms hang_main q (main_thread p) ∧ conforms hang_svc tt (svc_thread p)
    ∧ m_debugMode (shared p) = false ∧ sched_alive (shared p) = false
    ∧ loop_done (shared p) = false ∧ (q = true → svc_alive (shared p) = true).

(** Code that keeps to the protocol whatever it returns, but does not end. *)
Fixpoint passes {A} (c : Code A) : Prop :=
  match c with
  | Ret _ => True
  | Do a k =>
      (∀ q, may hang_main q a = true ∧ ∀ r, learns hang_main q a r = q)
      ∧ ∀ r, r ∈ gets hang_main false a → passes (k r)
  end.

Lemma passes_bind {A B} (c : Code A) (f : A → Code B) :
  passes c → (∀ x, passes (f x)) → passes (c ≫= f).
Proof. intros Hc Hf. induction c as [x|a k IH]; [apply Hf|]. split; [apply Hc|]. intros r Hr. by apply IH, Hc. Qed.

Lemma hang_bind {A} q (c : Code A) (f : A → Code Z) :
  passes c → (∀ x, conforms hang_main q (f x)) → conforms hang_main q (c ≫= f).
Proof.
  intros Hc Hf. induction c as [x|a k IH]; [apply Hf|]. destruct Hc as [Hq Hk].
  destruct (Hq q) as [Hm Hl]. split; [exact Hm|]. intros r Hr. rewrite Hl. by apply IH, Hk.
Qed.

Lemma passes_act a :
  match a with
  | ADequeue | AEndReactor | ARunReactor | AWait Svc | AActivate Svc | ASetDebug true => False
  | _ => True end → passes (act a).
Proof. intros H. split; [|done]. intros q. by destruct a as [| | | |[]|[]| | | |[]| | | | | |]. Qed.

#[local] Hint Extern 1 (passes (act _)) => (apply passes_act; exact I) : conf.
#[local] Hint Extern 1 (passes (mret _)) => exact I : conf.
#[local] Hint Extern 2 (passes (mbind _ _)) => (apply passes_bind; [|intros]) : conf.
#[local] Hint Extern 3 (passes (if ?b then _ else _)) => destruct b : conf.
#[local] Hint Extern 3 (passes (match ?x with _ => _ end)) => destruct x : conf.

Lemma passes_schedule id : passes (schedule id).
Proof. unfold schedule, make, enqueue. auto 10 with conf. Qed.
#[local] Hint Resolve passes_schedule : conf.

Lemma passes_signals sigs z : passes (add_signals sigs z) ∧ passes (remove_signals sigs z).
Proof.
  revert z. induction sigs as [|sig sigs IH]; intros z; [done|].
  split; cbn [add_signals remove_signals].
  all: apply passes_bind; [auto with conf|]; intros []; try apply IH.
  all: apply passes_bind; [auto with conf|]; intros b; apply IH.
Qed.

Lemma passes_callback cb : passes (run_callback cb).
Proof. destruct cb; cbn [run_callback]; unfold transition; auto with conf. Qed.

Lemma passes_signal sig : passes (handle_signal sig).
Proof. destruct sig; cbn [handle_signal]; auto with conf. Qed.

Lemma work_hangs : conforms hang_main false (work false).
Proof.
  cbn [work]. unfold work_ha. split; [done|]. intros ? _.
  apply (hang_bind false set_process_capability); [unfold set_process_capability; auto 20 with conf|intros _].
  apply hang_bind; [unfold sched_start, sched_open; auto 20 with conf|intros _].
  split; [done|]. intros r1 ->%list_elem_of_singleton. cbn [learns hang_main Code_bind code_bind].
  apply (hang_bind true init_signals_handler); [apply passes_signals|intros _].
  apply hang_bind; [auto with conf|intros _].
  apply hang_bind; [apply passes_signals|intros _].
  apply hang_bind; [unfold sched_stop, make, enqueue; auto 20 with conf|intros _].
  split; [done|]. by intros x ?%not_elem_of_nil.
Qed.

Section hanging.
Context `{F : Faults}.
Hypothesis no_sched : fate (AActivate Sched) = [false].
Hypothesis svc_starts : fate (AActivate Svc) = [true].
Hypothesis reactor_runs : fate ARunReactor = [true].

Lemma hanging_main a k c v s r s' :
  Hanging (mkPool (Do a k) c v s) → (r, s') ∈ outcomes a s → Hanging (mkPool (k r) c v s').
Proof.
  intros (q & [Hm Hk] & Hv & Hd & Hs & Hl & Hq) Ho. cbn in *.
  exists (learns hang_main q a r). cbn.
  destruct a as [| | | |[]|[]| | | |[]| | | | | |]; try discriminate; cbn in Ho;
    rewrite ?no_sched, ?svc_starts in Ho; split_outcome Ho; cbn in Hk |- *.
  all: assert (Hall : ∀ b : bool, b ∈ [true; false]) by (intros []; set_solver).
  all: try (split_and!; [apply Hk, Hall|destruct x; done..]).
  all: try (split_and!; [apply Hk; set_solver|done..]).
  - apply list_elem_of_singleton in Ho as ->. split_and!; [apply Hk; by left|done..].
  - apply list_elem_of_singleton in Ho as ->. split_and!; [apply Hk; by left|done..].
  - by specialize (Hq Hm).
Qed.

Lemma hanging_svc m c a k s r s' :
  Hanging (mkPool m c (Do a k) s) → svc_alive s = true → (r, s') ∈ outcomes a s →
  Hanging (mkPool m c (k r) s').
Proof.
  intros (q & Hm & [Hv Hk] & Hd & Hs & Hl & Hq) Ha Ho. cbn in *. exists q.
  destruct a; try discriminate; cbn in Ho.
  - rewrite Hl, reactor_runs in Ho. by apply not_elem_of_nil in Ho.
  - split_outcome Ho. cbn. rewrite Hd. split_and!; [done|apply Hk; by left|done..].
Qed.

Lemma hanging_step p p' : Hanging p → any_step p p' → Hanging p'.
Proof.
  intros Hp [Hst|Hst]; destruct Hst; (pose proof Hp as (q & Hm & Hv & Hd & Hs & Hl & Hq); cbn in Hm, Hv, Hd, Hs, Hl, Hq).
  - by eapply hanging_main.
  - congruence.
  - congruence.
  - congruence.
  - by eapply hanging_svc.
  - done.
  - exists q. split_and!; try done. apply hang_bind; [apply passes_signal|done].
  - congruence.
  - exists q. split_and!; try done. by apply (conforms_signal _ _ _ _ false).
  - exists q. split_and!; try done. apply hang_bind; [apply passes_callback|done].
  - exists q. split_and!; try done. apply Hm, (all_res_spec AHaActivate).
Qed.

(** C39: A daemon whose scheduler thread cannot be started does not end any more: the failure
    is only logged, and without the scheduler nothing ends the event loop that the main
    thread waits for after AMF has let it go on. *)
Theorem no_scheduler_hangs p z : reachable false p → main_thread p ≠ Ret z.
Proof.
  intros Hr Hz. enough (Hanging p) as (q & Hm & _) by (by rewrite Hz in Hm).
  unfold reachable in Hr. eapply (rtc_ind_r Hanging); [| |exact Hr].
  - exists false. split_and!; [apply work_hangs| |done..].
    split; [done|]. by intros x ?%not_elem_of_nil.
  - intros p1 p2 _ Hs Hp. by eapply hanging_step.
Qed.
End hanging.

(** ** Concrete runs *)

Lemma no_faults_reliable : reliable no_faults.
Proof. by split. Qed.

Lemma shutdown_completes_witness :
  let p := play (F := no_faults) interrupted (start true) in
  scheduled (shared p) = [Some START; Some SHUTDOWN]
  ∧ ∀ q, rtc (step (F := no_faults)) p q → nf (step (F := no_faults)) q → ended q.
Proof.
  split; [vm_compute; reflexivity|].
  apply (shutdown_completes (F := no_faults) no_faults_reliable true).
  - apply play_reachable.
  - left. vm_compute. right. left.
Defined.

(** The scheduler takes the SHUTDOWN, the main thread schedules the STOP and waits. *)
Definition stopping : list Move := interrupted ++ repeat (MSched 0) 6 ++ repeat (MMain 0) 12.

Lemma nothing_after_shutdown_witness :
  let p := play (F := no_faults) stopping (start true) in
  scheduled (shared p) = [Some START; Some SHUTDOWN; Some STOP]
  ∧ taken (shared p) = [Some START; Some SHUTDOWN]
  ∧ Some STOP ∉ taken (shared p).
Proof.
  split; [vm_compute; reflexivity|]. split; [vm_compute; reflexivity|].
  refine (proj2 (nothing_after_shutdown (F := no_faults) no_faults_reliable true _ _) eq_refl).
  apply play_reachable.
Defined.

(** In HA mode: a signal, a callback, the end of the wait for AMF and the SHUTDOWN. *)
Definition released : list Move :=
  repeat (MMain 0) 15 ++ [MSignal SIGTERM; MMain 0; MCall (ToActive CS_UNDEFINED)]
  ++ repeat (MMain 0) 2 ++ [MReturn CONF_HA_SUCCESS] ++ repeat (MMain 0) 9.

Lemma signals_ignored_witness :
  let p := play (F := no_faults) released (start false) in
  scheduled (shared p) = [Some START; Some SHUTDOWN] ∧ ha_returned (shared p) = true.
Proof.
  split; [vm_compute; reflexivity|].
  apply (signals_ignored (F := no_faults) no_faults_reliable).
  - apply play_reachable.
  - vm_compute. right. left.
Defined.

Definition broken_sched : Faults := λ a, match a with AActivate Sched => [false] | _ => [true] end.

Lemma no_scheduler_hangs_witness :
  let p := play (F := broken_sched) released (start false) in
  ha_returned (shared p) = true ∧ main_thread p ≠ Ret 0.
Proof.
  split; [vm_compute; reflexivity|].
  apply (no_scheduler_hangs (F := broken_sched)); [reflexivity..|].
  apply play_reachable.
Defined.
