(* ===== verification/ConfCli.v ===== *)
(** * Configuration administration: the command line

    [cli::parse] and [main] of [confadm_caa]: the options that [getopt_long] reads, the flags
    it sets itself for long options, and the values the daemon is started with. *)

From S2P Require Import Prelude CString Getopt ConfSched.

Open Scope Z_scope.

Record Cli : Set := mkCli {
  debug_mode_flag : bool;
  help_flag : bool;
  ha_daemon_name_flag : bool;
  logger_appender_name_flag : bool;
  server_lock_file_path_flag : bool;
  ha_daemon_name_value : string;
  logger_appender_name_value : string;
  server_lock_file_path_value : string
}.

Definition newCli : Cli := mkCli false false false false false "apos_cfgd" "APOS_CFGD" "/var/run/ap/".

Record CliCounts : Set := mkCliCounts {
  debug_opt_count : nat;
  name_opt_count : nat;
  logger_opt_count : nat;
  lock_opt_count : nat
}.

Definition conf_short_options : string := "dn:l:f:".
Definition conf_long_options : list LongOpt :=
  [mkLong "debug" false; mkLong "help" false; mkLong "name" true; mkLong "logger" true; mkLong "filelock" true].

Definition set_debug_flag (c : Cli) : Cli :=
  mkCli true (help_flag c) (ha_daemon_name_flag c) (logger_appender_name_flag c)
    (server_lock_file_path_flag c) (ha_daemon_name_value c) (logger_appender_name_value c)
    (server_lock_file_path_value c).
Definition set_help_flag (c : Cli) : Cli :=
  mkCli (debug_mode_flag c) true (ha_daemon_name_flag c) (logger_appender_name_flag c)
    (server_lock_file_path_flag c) (ha_daemon_name_value c) (logger_appender_name_value c)
    (server_lock_file_path_value c).
Definition set_name (v : string) (c : Cli) : Cli :=
  mkCli (debug_mode_flag c) (help_flag c) true (logger_appender_name_flag c)
    (server_lock_file_path_flag c) v (logger_appender_name_value c) (server_lock_file_path_value c).
Definition set_logger (v : string) (c : Cli) : Cli :=
  mkCli (debug_mode_flag c) (help_flag c) (ha_daemon_name_flag c) true
    (server_lock_file_path_flag c) (ha_daemon_name_value c) v (server_lock_file_path_value c).
Definition append_lock (flag : bool) (v : string) (c : Cli) : Cli :=
  mkCli (debug_mode_flag c) (help_flag c) (ha_daemon_name_flag c) (logger_appender_name_flag c)
    (server_lock_file_path_flag c || flag) (ha_daemon_name_value c) (logger_appender_name_value c)
    (String.append (server_lock_file_path_value c) v).

(** The options, by either name. *)
Inductive Kind : Set := KDebug | KHelp | KName | KLogger | KLock.

#[export] Instance Kind_eq_dec : EqDecision Kind.
Proof. solve_decision. Defined.

Definition long_kind (name : string) : option Kind :=
  if streq name "debug" then Some KDebug
  else if streq name "help" then Some KHelp
  else if streq name "name" then Some KName
  else if streq name "logger" then Some KLogger
  else if streq name "filelock" then Some KLock
  else None.

Definition short_kind (c : ascii) : option Kind :=
  if eqc c "d" then Some KDebug
  else if eqc c "h" then Some KHelp
  else if eqc c "n" then Some KName
  else if eqc c "l" then Some KLogger
  else if eqc c "f" then Some KLock
  else None.

(** The body of the loop for an option and its value: it fails on a second instance. *)
Definition take_option (k : Kind) (optarg : string) (st : Cli * CliCounts) : option (Cli * CliCounts) :=
  let '(c, mkCliCounts d n l f) := st in
  match k with
  | KDebug => if (0 <? d)%nat then None else Some (set_debug_flag c, mkCliCounts (S d) n l f)
  | KHelp => None
  | KName => if (0 <? n)%nat then None else Some (set_name optarg c, mkCliCounts d (S n) l f)
  | KLogger => if (0 <? l)%nat then None else Some (set_logger optarg c, mkCliCounts d n (S l) f)
  | KLock => if (0 <? f)%nat then None else Some (append_lock true optarg c, mkCliCounts d n l (S f))
  end.

(** The loop of [parse]. *)
Fixpoint cli_loop (evs : list OptEvent) (st : Cli * CliCounts) : option (Cli * CliCounts) :=
  match evs with
  | [] => Some st
  | ev :: evs =>
      let r :=
        match ev with
        | EvLong name optarg => k ← long_kind name; take_option k (default EmptyString optarg) st
        | EvShort c optarg => k ← short_kind c; take_option k (default EmptyString optarg) st
        | EvError _ => None
        end in
      match r with
      | Some st => cli_loop evs st
      | None => None
      end
  end.

(** [parse] on the arguments after the program's name: [None] where it returns -1. *)
Definition parse (args : list string) : option Cli :=
  match cli_loop (getopt_long conf_short_options conf_long_options args).1
          (newCli, mkCliCounts 0 0 0 0) with
  | None => None
  | Some (c, _) =>
      if negb (ha_daemon_name_flag c) || negb (logger_appender_name_flag c) then None
      else if negb (server_lock_file_path_flag c) then
        Some (append_lock false ".lck" (append_lock false (ha_daemon_name_value c) c))
      else Some c
  end.

(** [main]. *)
Definition conf_main (args : list string) : Code Z :=
  match parse args with
  | None => mret PROGRAM_EXIT_BAD_INVOCATION
  | Some c => work (debug_mode_flag c)
  end.

(** ** What a command line means *)

(** An option of the command line: which, how it is written, and its value. *)
Inductive Form : Set := FShort | FShortJoined | FLong | FLongJoined.
Record Opt : Set := mkOpt { o_kind : Kind; o_form : Form; o_value : string }.

Definition spell_as (c : ascii) (n : string) (f : Form) (v : string) : Written :=
  match f with
  | FShort => WShortSep c v
  | FShortJoined => if streq v EmptyString then WShortSep c v else WShortJoined c v
  | FLong => WLongSep n v
  | FLongJoined => WLongJoined n v
  end.

Definition spell (o : Opt) : Written :=
  match o_kind o with
  | KDebug => match o_form o with FShort | FShortJoined => WShort "d" | _ => WLong "debug" end
  | KHelp => WLong "help"
  | KName => spell_as "n" "name" (o_form o) (o_value o)
  | KLogger => spell_as "l" "logger" (o_form o) (o_value o)
  | KLock => spell_as "f" "filelock" (o_form o) (o_value o)
  end.

Definition command_line (os : list Opt) : list string := (spell <$> os) ≫= write.

(** The value that is given for an option. *)
Fixpoint given (k : Kind) (os : list Opt) : option string :=
  match os with
  | [] => None
  | o :: os => if bool_decide (o_kind o = k) then Some (o_value o) else given k os
  end.

(** What is asked for: each option once at most, no help, and the two that are required; the
    lock file is named after the daemon unless it is given. *)
Definition asked_for (os : list Opt) : option Cli :=
  let ks := o_kind <$> os in
  if bool_decide (NoDup ks ∧ KHelp ∉ ks) then
    match given KName os, given KLogger os with
    | Some name, Some logger =>
        Some (mkCli (bool_decide (KDebug ∈ ks)) false true true (bool_decide (KLock ∈ ks)) name logger
                (String.append "/var/run/ap/"
                   (default (String.append name ".lck") (given KLock os))))
    | _, _ => None
    end
  else None.

(** The state of the loop after the options [os]. *)
Definition seen (os : list Opt) : Cli * CliCounts :=
  let has k := bool_decide (k ∈ o_kind <$> os) in
  let n k := if has k then 1%nat else 0%nat in
  (mkCli (has KDebug) false (has KName) (has KLogger) (has KLock)
     (default "apos_cfgd" (given KName os)) (default "APOS_CFGD" (given KLogger os))
     (String.append "/var/run/ap/" (default EmptyString (given KLock os))),
   mkCliCounts (n KDebug) (n KName) (n KLogger) (n KLock)).

Lemma spell_known o : known conf_short_options conf_long_options (spell o) = true.
Proof.
  by destruct o as [[] [] [|a v]].
Qed.

(** The option as the loop sees it. *)
Lemma spelled o st :
  cli_loop [read_event (spell o)] st
  = take_option (o_kind o) (match o_kind o with KDebug | KHelp => EmptyString | _ => o_value o end) st.
Proof.
  destruct st as [c [d n l f]]. destruct o as [[] [] [|a v]]; cbn; by repeat case_match.
Qed.

Lemma given_app k os os' : given k (os ++ os') = match given k os with Some v => Some v | None => given k os' end.
Proof. induction os as [|o os IH]; [done|]. cbn. by case_bool_decide. Qed.

Lemma given_None k os : k ∉ o_kind <$> os → given k os = None.
Proof.
  induction os as [|o os IH]; [done|]. cbn. intros [Hne Hn]%not_elem_of_cons.
  rewrite bool_decide_false by congruence. auto.
Qed.

Lemma given_Some k os : k ∈ o_kind <$> os → ∃ v, given k os = Some v.
Proof.
  induction os as [|o os IH]; cbn; [by intros ?%not_elem_of_nil|].
  case_bool_decide; [eauto|]. intros [->|?]%elem_of_cons; [done|auto].
Qed.

(** One more option. *)
Lemma seen_step os o :
  take_option (o_kind o) (match o_kind o with KDebug | KHelp => EmptyString | _ => o_value o end) (seen os)
  = if bool_decide (o_kind o ∈ o_kind <$> os ∨ o_kind o = KHelp) then None
    else Some (seen (os ++ [o])).
Proof.
  destruct (decide (o_kind o ∈ o_kind <$> os)) as [Hin|Hnin].
  - rewrite bool_decide_true by auto. unfold seen, take_option.
    destruct o as [[] f v]; cbn in *; by rewrite ?bool_decide_true by done.
  - assert (Hg : ∀ k, given k (os ++ [o]) = if bool_decide (o_kind o = k) then Some (o_value o) else given k os).
    { intros k. rewrite given_app. case_bool_decide as Hk.
      - subst k. rewrite given_None by done. cbn. by rewrite bool_decide_true.
      - cbn. rewrite bool_decide_false by done. by destruct (given k os). }
    assert (Hk : ∀ k, bool_decide (k ∈ o_kind <$> (os ++ [o]))
      = if bool_decide (o_kind o = k) then true else bool_decide (k ∈ o_kind <$> os)).
    { intros k. rewrite fmap_app. destruct (decide (o_kind o = k)) as [Hk|Hk];
        [rewrite (bool_decide_true (_ = k)) by done|rewrite (bool_decide_false (_ = k)) by done].
      - apply bool_decide_true. subst k. apply elem_of_app. right. by left.
      - apply bool_decide_ext. change (o_kind <$> [o]) with [o_kind o].
        rewrite elem_of_app, list_elem_of_singleton. naive_solver. }
    unfold seen. rewrite !Hg, !Hk. destruct o as [[] f v]; cbn in *.
    all: rewrite ?(bool_decide_false (_ ∈ _)) by done.
    all: rewrite ?(bool_decide_true (_ ∨ _)), ?(bool_decide_false (_ ∨ _)) by naive_solver.
    all: try reflexivity.
    unfold append_lock. cbn. rewrite (given_None KLock) by done. cbn. by rewrite append_nil_r.
Qed.

Lemma loop_cons ev evs st :
  cli_loop (ev :: evs) st = match cli_loop [ev] st with Some st => cli_loop evs st | None => None end.
Proof. cbn. by repeat case_match. Qed.

Lemma loop_seen os pre :
  cli_loop (read_event <$> (spell <$> os)) (seen pre)
  = if bool_decide (NoDup (o_kind <$> os) ∧ KHelp ∉ o_kind <$> os
                    ∧ Forall (λ k, k ∉ o_kind <$> pre) (o_kind <$> os))
    then Some (seen (pre ++ os)) else None.
Proof.
  revert pre. induction os as [|o os IH]; intros pre; cbn [fmap list_fmap].
  - rewrite bool_decide_true by (split_and!; [constructor|apply not_elem_of_nil|constructor]).
    by rewrite app_nil_r.
  - rewrite loop_cons, spelled, seen_step. case_bool_decide as Hbad.
    + rewrite bool_decide_false; [done|]. rewrite Forall_cons, not_elem_of_cons. naive_solver.
    + rewrite IH, <- (assoc_L (++)). apply (f_equal (λ b : bool, if b then _ else _)).
      apply bool_decide_ext.
      rewrite NoDup_cons, not_elem_of_cons, Forall_cons, fmap_app, !Forall_forall.
      change (o_kind <$> [o]) with [o_kind o].
      setoid_rewrite elem_of_app. setoid_rewrite list_elem_of_singleton. naive_solver.
Qed.

(** The command line of the daemon: however the options are ordered and written, the
    daemon is started exactly if each is given once at most, none is --help and both required
    ones are there, with the values given and the lock file named after the daemon unless it
    is given. *)
Theorem parse_command_line_back os : parse (command_line os) = asked_for os.
Proof.
  unfold parse, command_line, asked_for. rewrite getopt_write_all.
  2: { apply forallb_forall. intros w Hw. apply list_elem_of_In, list_elem_of_fmap in Hw as (o & -> & _). apply spell_known. }
  cbn [fst]. change (newCli, mkCliCounts 0 0 0 0) with (seen []). rewrite loop_seen.
  rewrite (bool_decide_ext _ (NoDup (o_kind <$> os) ∧ KHelp ∉ o_kind <$> os)).
  2: { rewrite Forall_forall. split; [naive_solver|]. intros [? ?]. split_and!; try done.
       intros k _. apply not_elem_of_nil. }
  case_bool_decide; [|done]. cbn [app seen ha_daemon_name_flag logger_appender_name_flag server_lock_file_path_flag].
  destruct (decide (KName ∈ o_kind <$> os)) as [Hn|Hn].
  2: { rewrite (bool_decide_false (KName ∈ _)) by done. by rewrite given_None. }
  destruct (decide (KLogger ∈ o_kind <$> os)) as [Hl|Hl].
  2: { rewrite (bool_decide_false (KLogger ∈ _)), orb_true_r, (given_None KLogger) by done. by destruct (given KName os). }
  destruct (given_Some _ _ Hn) as [name ->], (given_Some _ _ Hl) as [logger ->].
  rewrite (bool_decide_true (KName ∈ _)), (bool_decide_true (KLogger ∈ _)) by done. cbn [negb orb].
  destruct (decide (KLock ∈ o_kind <$> os)) as [Hk|Hk].
  - rewrite !(bool_decide_true (KLock ∈ _)) by done. by destruct (given_Some _ _ Hk) as [lock ->].
  - rewrite !(bool_decide_false (KLock ∈ _)), (given_None KLock) by done. cbn [negb].
    unfold append_lock; cbn. by rewrite !append_assoc.
Qed.
