(* ===== verification/Simap.v ===== *)
(** * The stand-ins for the agent and the device monitor

    On a simulated node two programs take the places of the agent and the device monitor
    (src/ha_cnz/ha_appdemo/simap_agent and simap_devmon): they are components of AMF through
    the same class, modelled in [Amf], and have one thread.  The thread of the first mounts
    the disks and configures the addresses and undoes both when it is told to stop; that of
    the second only waits. *)

From S2P Require Import Prelude CString Types World Amf Proc MdPipe.

Open Scope Z_scope.

(** The type of the message that ends a thread. *)
Definition SIM_SHUTDOWN : Z := 111.

(** ** The device monitor *)

Record FDevT : Set := mkFDev { fd_adm : bool; fd_amf : AmfT }.
Definition newFDev : FDevT := mkFDev false newAmf.
Definition set_fd_adm (b : bool) (m : FDevT) : FDevT := mkFDev b (fd_amf m).
Definition set_fd_amf (f : AmfT → AmfT) (m : FDevT) : FDevT := mkFDev (fd_adm m) (f (fd_amf m)).

(** The loop of [parse_command_line]: the number of options and of other arguments, and
    whether two dashes end the options. *)
Fixpoint noha_args (args : list string) (noha_opt_cnt nonopts : nat) : option (nat * nat * bool) :=
  match args with
  | [] => Some (noha_opt_cnt, nonopts, false)
  | arg :: args =>
      if streq arg "--" then Some (noha_opt_cnt, (nonopts + length args)%nat, true)
      else
        match arg with
        | String a (String b text) =>
            if negb (eqc a "-") then noha_args args noha_opt_cnt (S nonopts)
            else if negb (eqc b "-") then None
            else if negb (streq text "noha") then None
            else if (0 <? noha_opt_cnt)%nat then None
            else noha_args args (S noha_opt_cnt) nonopts
        | _ => noha_args args noha_opt_cnt (S nonopts)
        end
  end.

(** [parse_command_line]: [nohaflag], or [None] where it returns -1. *)
Definition fdev_parse_command_line (args : list string) : option bool :=
  match noha_args args 0 0 with
  | None => None
  | Some (cnt, nonopts, dashes) =>
      if dashes then None
      else if (0 <? nonopts)%nat then None
      else Some (0 <? cnt)%nat
  end.

Section fdevmon.
Context `{E : Env}.

Abbreviation MF := (M (Proc FDevT)).

(** [admClass::open], which [start] calls. *)
Definition fdev_open : MF Z :=
  st ← req (CRegister "SIGINT");
  if negb st then mret (-1) else
  st ← req (CRegister "SIGTERM");
  if negb st then mret (-1) else
  ok ← req (CActivate "fdevmon");
  mret (if (ok : bool) then 0 else -1).

Definition fdev_stop : MF unit :=
  mb ← req (CNew "ACE_Message_Block");
  if (mb : bool) then _ ← req (CPutq "fdevmon" SIM_SHUTDOWN); mret tt else mret tt.

Definition fdev_handle_signal (signum : Z) : MF Z := fdev_stop;; mret 0.

(** [admClass::svc]: a message of another type is released, and then asked for its type
    through a null pointer. *)
Definition fdev_svc : MF Z :=
  mb ← req (CGetq "fdevmon");
  match mb with
  | None => mret 0
  | Some ty => if ty =? SIM_SHUTDOWN then mret 0 else undef
  end.

Definition fdev_activateApp : MF bool :=
  a ← mem fd_adm;
  if (a : bool) then mret true else
  n ← req (CNew "admClass");
  upd (set_fd_adm n);;
  if negb n then mret false else
  res ← fdev_open;
  if res <? 0 then upd (set_fd_adm false);; mret false else mret true.

Definition fdev_passifyApp : MF bool :=
  a ← mem fd_adm;
  if negb a then mret true else
  fdev_stop;;
  req (CWait "fdevmon");;
  upd (set_fd_adm false);;
  mret true.

Definition fdev_job (j : Job) : MF bool :=
  match j with
  | JobActive _ => fdev_activateApp
  | JobPassive _ | JobQuiesing _ | JobQuiesced _ | JobTerminate | JobRemove | JobShutdown => fdev_passifyApp
  | JobHealth => mret true
  end.

#[export] Instance fdev_obj : AmfObj (Proc FDevT) := {|
  host_ask := req;
  host_amf := fd_amf ∘ p_mem;
  host_set := λ f s, mkProc (p_trace s) (p_fs s) (set_fd_amf f (p_mem s));
  host_name := "apos_ha_devmond"
|}.
#[export] Instance fdev_host : Host (Proc FDevT) := {| host_job := fdev_job |}.

(** [run_devmon_daemon]. *)
Definition fdev_run_devmon_daemon : MF Z :=
  n ← req (CNew "admClass");
  if negb n then mret (-1) else
  res ← fdev_open;
  (if res <? 0 then mret tt else req (CWait "fdevmon"));;
  mret 0.

(** [ACE_TMAIN]: the constructor of the AMF class detaches the process, the destructor of the
    HA object stops what is left. *)
Definition fdev_main (fuel : nat) (args : list string) : MF Z :=
  match fdev_parse_command_line args with
  | None => mret (-1)
  | Some true => fdev_run_devmon_daemon
  | Some false =>
      n ← req (CNew "HAClass");
      if negb n then mret (-2) else
      daemonize;;
      e ← activate_ha fuel;
      _ ← fdev_passifyApp;
      mret (match e with HA_SUCCESS => 0 | HA_FAILURE => -1 | HA_FAILURE_CLOSE => -2 end)
  end.
End fdevmon.

(** ** The agent *)

Definition sim_HA_BASE_CMD : string := "/opt/ap/apos/bin/apos_ha_operations".
Definition sim_APOS_BASE_CMD : string := "/opt/ap/apos/bin/apos_operations".
Definition sim_DISK_MGMT_CMD : string := "/usr/bin/raidmgmt".

Definition cmd_raid_mount : string := String.append sim_DISK_MGMT_CMD " --assemble --mount --force".
Definition cmd_raid_unmount : string := String.append sim_DISK_MGMT_CMD " --disable --unmount".
Definition cmd_mip_start : string := String.append sim_APOS_BASE_CMD " -s".
Definition cmd_mip_from_passive : string := String.append sim_APOS_BASE_CMD " -f passive".
Definition cmd_mip_stop : string := String.append sim_APOS_BASE_CMD " -f active".
Definition cmd_raid_cleanup : string := String.append sim_APOS_BASE_CMD " --cleanup".
Definition cmd_sim_reboot : string := String.append sim_HA_BASE_CMD " --reboot-node".

(** [admClass]. *)
Record FAdmT : Set := mkFAdm {
  IsRAIDConfigured : Z;
  IsMIPConfigured : Z;
  Is_Agent_Stanby : Z;
  Is_State_Assgned : Z;
  DownJobsDone : Z;
  adm_passiveToActive : bool
}.

(** [HAClass]. *)
Record FAgentT : Set := mkFAgent { fa_adm : option FAdmT; fa_passiveToActive : bool; fa_amf : AmfT }.
Definition newFAgent : FAgentT := mkFAgent None false newAmf.

Definition set_fa_adm (a : option FAdmT) (m : FAgentT) : FAgentT := mkFAgent a (fa_passiveToActive m) (fa_amf m).
Definition on_fa_adm (f : FAdmT → FAdmT) (m : FAgentT) : FAgentT := set_fa_adm (f <$> fa_adm m) m.
Definition set_fa_p2a (b : bool) (m : FAgentT) : FAgentT := mkFAgent (fa_adm m) b (fa_amf m).
Definition set_fa_amf (f : AmfT → AmfT) (m : FAgentT) : FAgentT :=
  mkFAgent (fa_adm m) (fa_passiveToActive m) (f (fa_amf m)).

Definition set_raid (z : Z) (a : FAdmT) : FAdmT :=
  mkFAdm z (IsMIPConfigured a) (Is_Agent_Stanby a) (Is_State_Assgned a) (DownJobsDone a) (adm_passiveToActive a).
Definition set_mip (z : Z) (a : FAdmT) : FAdmT :=
  mkFAdm (IsRAIDConfigured a) z (Is_Agent_Stanby a) (Is_State_Assgned a) (DownJobsDone a) (adm_passiveToActive a).
Definition set_down_done (z : Z) (a : FAdmT) : FAdmT :=
  mkFAdm (IsRAIDConfigured a) (IsMIPConfigured a) (Is_Agent_Stanby a) (Is_State_Assgned a) z (adm_passiveToActive a).
Definition set_adm_p2a (b : bool) (a : FAdmT) : FAdmT :=
  mkFAdm (IsRAIDConfigured a) (IsMIPConfigured a) (Is_Agent_Stanby a) (Is_State_Assgned a) (DownJobsDone a) b.

Section fagent.
Context `{E : Env}.

Abbreviation MA := (M (Proc FAgentT)).

#[export] Instance fagent_obj : AmfObj (Proc FAgentT) := {|
  host_ask := req;
  host_amf := fa_amf ∘ p_mem;
  host_set := λ f s, mkProc (p_trace s) (p_fs s) (set_fa_amf f (p_mem s));
  host_name := "apos_ha_rdeagentd"
|}.

(** A member of the object. *)
Definition adm_field {A} (f : FAdmT → A) : MA A :=
  o ← mem fa_adm; a ← deref o; mret (f a).

(** [launchCommand]. *)
Definition sim_launchCommand (cmd : string) : MA bool :=
  r ← req (CExec cmd 0);
  mret (match r with ForkFailed => false | ChildStatus st => WEXITSTATUS st =? 0 end).

(** [umountRAIDandDeactivateMIPs]: it always reports success, and the flags stay. *)
Definition sim_umountRAIDandDeactivateMIPs : MA bool :=
  mip ← adm_field IsMIPConfigured;
  (if mip =? 0 then mret tt else _ ← sim_launchCommand cmd_mip_stop; mret tt);;
  raid ← adm_field IsRAIDConfigured;
  (if raid =? 0 then mret tt
   else _ ← sim_launchCommand cmd_raid_cleanup; _ ← sim_launchCommand cmd_raid_unmount; mret tt);;
  mret true.

(** [handleRdeAgentGracefullDownJobs]. *)
Definition sim_handleRdeAgentGracefullDownJobs : MA bool :=
  assigned ← adm_field Is_State_Assgned;
  if assigned =? 0 then mret true else
  standby ← adm_field Is_Agent_Stanby;
  if negb (standby =? 0) then mret true else
  done ← adm_field DownJobsDone;
  if negb (done =? 0) then mret true else
  ok ← sim_umountRAIDandDeactivateMIPs;
  if negb ok then mret false else
  upd (on_fa_adm (set_down_done 1));;
  mret true.

(** [sim_reboot_local_node]. *)
Definition sim_reboot_local_node : MA unit :=
  _ ← finalize;
  _ ← sim_launchCommand cmd_sim_reboot;
  mret tt.

(** [InitiateFailover]. *)
Definition sim_InitiateFailover (recommendedRecovery : Recovery) : MA unit :=
  done ← adm_field DownJobsDone;
  recovery ←
    (if done =? 0 then
       ok ← sim_handleRdeAgentGracefullDownJobs;
       mret (if (ok : bool) then recommendedRecovery else NODE_FAILOVER)
     else mret recommendedRecovery);
  ok ← req (CReport recovery);
  if negb ok then sim_reboot_local_node else mret tt.

(** [mountRAIDandActivateMIPs]: that the addresses cannot be configured is no failure. *)
Definition sim_mountRAIDandActivateMIPs : MA bool :=
  raid ← adm_field IsRAIDConfigured;
  ok ← (if raid =? 1 then mret true
        else
          ok ← sim_launchCommand cmd_raid_mount;
          if negb ok then sim_InitiateFailover COMPONENT_FAILOVER;; mret false
          else upd (on_fa_adm (set_raid 1));; mret true);
  if negb ok then mret false else
  mip ← adm_field IsMIPConfigured;
  if mip =? 1 then mret true else
  p2a ← adm_field adm_passiveToActive;
  ok ← sim_launchCommand (if (p2a : bool) then cmd_mip_from_passive else cmd_mip_start);
  if negb ok then mret true else
  upd (on_fa_adm (set_mip 1));;
  mret true.

(** [admClass::svc]. *)
Definition fagent_svc : MA Z :=
  ok ← sim_mountRAIDandActivateMIPs;
  raid ← adm_field IsRAIDConfigured;
  if negb ok && (raid =? 0) then mret (-1) else
  mb ← req (CGetq "fagent");
  match mb with
  | None => mret 0
  | Some ty => if ty =? SIM_SHUTDOWN then _ ← sim_umountRAIDandDeactivateMIPs; mret 0 else undef
  end.

Definition fagent_stop : MA unit :=
  mb ← req (CNew "ACE_Message_Block");
  if (mb : bool) then _ ← req (CPutq "fagent" SIM_SHUTDOWN); mret tt else mret tt.

(** [new admClass()]: the constructor sets one member, the others are what the memory
    holds. *)
Definition garbage_int : MA Z :=
  b ← req (CUninit 4); mret (i32 (foldr (λ x acc, x + 256 * acc) 0 b)).
Definition new_fadm : MA (option FAdmT) :=
  n ← req (CNew "admClass");
  if negb n then mret None else
  raid ← garbage_int;
  mip ← garbage_int;
  standby ← garbage_int;
  assigned ← garbage_int;
  done ← garbage_int;
  mret (Some (mkFAdm raid mip standby assigned done false)).

Definition fagent_activateApp : MA bool :=
  a ← mem fa_adm;
  rCode ←
    (match a with
     | Some _ =>
         p2a ← mem fa_passiveToActive;
         if (p2a : bool) then upd (on_fa_adm (set_adm_p2a true) ∘ set_fa_p2a false);; mret false else mret true
     | None => a ← new_fadm; upd (set_fa_adm a);; mret false
     end);
  a ← mem fa_adm;
  match a with
  | None => mret rCode
  | Some _ =>
      ok ← req (CActivate "fagent");
      if negb ok then upd (set_fa_adm None);; mret rCode else mret true
  end.

Definition fagent_shutdownApp : MA bool :=
  a ← mem fa_adm;
  match a with
  | None => mret true
  | Some _ =>
      fagent_stop;;
      req (CWait "fagent");;
      upd (set_fa_adm None);;
      mret true
  end.

(** [passifyApp]: the thread is not stopped. *)
Definition fagent_passifyApp : MA bool := upd (set_fa_p2a true);; mret true.

Definition fagent_job (j : Job) : MA bool :=
  match j with
  | JobActive _ => fagent_activateApp
  | JobPassive _ => fagent_passifyApp
  | JobQuiesing _ | JobQuiesced _ | JobTerminate | JobRemove | JobShutdown => fagent_shutdownApp
  | JobHealth => mret true
  end.

#[export] Instance fagent_host : Host (Proc FAgentT) := {| host_job := fagent_job |}.

(** [ACE_TMAIN]. *)
Definition fagent_main (fuel : nat) : MA Z :=
  n ← req (CNew "HAClass");
  if negb n then mret (-2) else
  daemonize;;
  e ← activate_ha fuel;
  _ ← fagent_shutdownApp;
  mret (match e with HA_SUCCESS => 0 | HA_FAILURE => -1 | HA_FAILURE_CLOSE => -2 end).
End fagent.

(** ** Under AMF *)

(** Whether the object of the agent exists, with the flag that its thread reads. *)
Definition fa_shape (m : FAgentT) : option bool := adm_passiveToActive <$> fa_adm m.
Definition fa_threads : relation (Proc FAgentT) := keeps (fa_shape ∘ p_mem).
Definition fa_only_active (v : HAState) (s : Proc FAgentT) : Prop :=
  ∀ b, fa_shape (p_mem s) = Some b → v = HA_ACTIVE ∧ b = false.

(** No addresses are taken over from a passive state. *)
Definition no_takeover (e : Event) : Prop := request e ≠ CExec cmd_mip_from_passive 0.

(** A run that leaves the shape, and without the flag does not take over. *)
Definition fresh_run : relation (Proc FAgentT) := λ s s',
  fa_threads s s'
  ∧ (fa_shape (p_mem s) ≠ Some true → ∃ new, p_trace s' = new ++ p_trace s ∧ Forall no_takeover new).

#[export] Instance fresh_run_preorder : PreOrder fresh_run.
Proof.
  split.
  - intros s. split; [done|]. intros _. by exists [].
  - intros s1 s2 s3 [H1 T1] [H2 T2]. split; [by transitivity s2|]. intros H.
    destruct (T1 H) as (n1 & E1 & F1). destruct T2 as (n2 & E2 & F2); [by rewrite (H1 : fa_shape _ = fa_shape _)|].
    exists (n2 ++ n1). split; [by rewrite E2, E1, app_assoc|by apply Forall_app].
Qed.

Section sim.
Context `{E : Env}.

Lemma fresh_req c : c ≠ CExec cmd_mip_from_passive 0 → steps fresh_run (req (G:=FAgentT) c).
Proof. intros Hc s. split; [done|]. intros _. eexists [_]. split; [done|]. by repeat constructor. Qed.

Lemma fresh_upd f :
  (∀ a, adm_passiveToActive (f a) = adm_passiveToActive a) → steps fresh_run (upd (on_fa_adm f)).
Proof.
  intros Hf s. split; [|intros _; by exists []]. unfold fa_threads, keeps, fa_shape. cbn.
  destruct (fa_adm (p_mem s)) as [a|]; [|done]. cbn. by rewrite Hf.
Qed.

Lemma fresh_on_amf f : steps fresh_run (on_amf (St:=Proc FAgentT) f).
Proof. intros s. split; [done|]. intros _. by exists []. Qed.

#[local] Instance fresh_amf_frame : AmfFrame (St:=Proc FAgentT) fresh_run.
Proof.
  split; [|apply fresh_on_amf]. intros c Hc. apply (fresh_req c). intros ->. done.
Qed.

#[local] Hint Extern 1 (steps fresh_run (req _)) => apply fresh_req; discriminate : steps.
#[local] Hint Extern 1 (steps fresh_run (upd (on_fa_adm _))) => by apply fresh_upd : steps.

Lemma fresh_field {A} (f : FAdmT → A) : steps fresh_run (adm_field f).
Proof. unfold adm_field, mem. solve_steps. Qed.

Lemma fresh_launch cmd : cmd ≠ cmd_mip_from_passive → steps fresh_run (sim_launchCommand cmd).
Proof. intros Hc. unfold sim_launchCommand. apply steps_bind; [apply _|apply fresh_req|intros r; solve_steps].
  intros H. apply Hc. by injection H.
Qed.

#[local] Hint Resolve fresh_field : steps.
#[local] Hint Extern 1 (steps fresh_run (sim_launchCommand _)) => apply fresh_launch; discriminate : steps.

Lemma fresh_umount : steps fresh_run sim_umountRAIDandDeactivateMIPs.
Proof. unfold sim_umountRAIDandDeactivateMIPs. solve_steps. Qed.

#[local] Hint Resolve fresh_umount : steps.

Lemma fresh_failover r : steps fresh_run (sim_InitiateFailover r).
Proof. unfold sim_InitiateFailover, sim_handleRdeAgentGracefullDownJobs, sim_reboot_local_node. solve_steps. Qed.

#[local] Hint Resolve fresh_failover : steps.

(** The addresses: the command depends on the flag of the object. *)
Lemma fresh_addresses :
  steps fresh_run
    (p2a ← adm_field adm_passiveToActive;
     ok ← sim_launchCommand (if (p2a : bool) then cmd_mip_from_passive else cmd_mip_start);
     if negb ok then mret true else upd (on_fa_adm (set_mip 1));; mret true).
Proof.
  intros s. apply steps_bind_at; [apply _|apply fresh_field|]. intros p2a s' H.
  apply bind_Val_inv in H as (o & ? & [= <- <-] & H). cbn [compose] in H.
  destruct (fa_adm (p_mem s)) as [a|] eqn:Ha; [|done]. injection H as <- <-.
  assert (Hk : ∀ ok : bool, steps fresh_run (if negb ok then mret true else upd (on_fa_adm (set_mip 1));; mret true))
    by (intros ok; solve_steps).
  apply (steps_bind_at fresh_run); [|intros ok s1 _; apply Hk].
  split; [done|]. intros Hs. eexists [_]. split; [done|]. constructor; [|done].
  unfold fa_shape in Hs. rewrite Ha in Hs. cbn in Hs. unfold no_takeover.
  destruct (adm_passiveToActive a); [done|discriminate].
Qed.

Lemma fresh_mount : steps fresh_run sim_mountRAIDandActivateMIPs.
Proof.
  unfold sim_mountRAIDandActivateMIPs. apply steps_bind; [apply _|solve_steps|]. intros raid.
  apply steps_bind; [apply _|solve_steps|]. intros ok. destruct (negb ok); [solve_steps|].
  apply steps_bind; [apply _|solve_steps|]. intros mip. destruct (mip =? 1); [solve_steps|]. apply fresh_addresses.
Qed.

(** The thread keeps the shape, and does not take over while the flag is not set. *)
Lemma fresh_svc : steps fresh_run fagent_svc.
Proof.
  unfold fagent_svc. apply steps_bind; [apply _|apply fresh_mount|]. intros ok. solve_steps.
Qed.

Lemma shutdownApp_gone s : after fagent_shutdownApp (λ _ s', fa_shape (p_mem s') = None) s.
Proof.
  intros r s' H. apply bind_Val_inv in H as (o & s0 & [= <- <-] & H). cbn [compose] in H.
  destruct (fa_adm (p_mem s)) eqn:Ha; [|injection H as _ <-; unfold fa_shape; by rewrite Ha].
  apply bind_Val_inv in H as ([] & s1 & _ & H). apply bind_Val_inv in H as ([] & s2 & _ & H).
  apply bind_Val_inv in H as ([] & s3 & [= <-] & [= _ <-]). done.
Qed.

(** An object that was not there before has the flag not set. *)
Lemma activateApp_fresh s :
  fa_shape (p_mem s) = None → after fagent_activateApp (λ _ s', ∀ b, fa_shape (p_mem s') = Some b → b = false) s.
Proof.
  intros Hs. unfold fagent_activateApp. apply after_bind, after_gets. cbn [compose].
  unfold fa_shape in Hs. destruct (fa_adm (p_mem s)) eqn:Ha; [done|]. apply after_bind, after_bind.
  apply (after_mono _ (λ o _, ∀ a, o = Some a → adm_passiveToActive a = false)).
  { intros o s' H. unfold new_fadm in H. apply bind_Val_inv in H as (n & s0 & _ & H).
    destruct (negb n); [by injection H as <- _|].
    do 5 (apply bind_Val_inv in H as (? & ? & _ & H)). injection H as <- _. by intros a [= <-]. }
  intros o s1 Ho. apply after_bind, after_modify, after_ret, after_bind, after_gets. cbn [compose p_mem].
  destruct o as [a|]; [|by apply after_ret].
  apply after_bind. intros ok s2 H. injection H as _ <-. destruct (negb ok).
  - apply after_bind, after_modify, after_ret. done.
  - apply after_ret. intros b [= <-]. by apply Ho.
Qed.

Lemma fagent_inv : amf_inv fa_threads fa_only_active.
Proof.
  assert (Hstop : ∀ v s, after fagent_shutdownApp (λ _, fa_only_active v) s).
  { intros v s. eapply after_mono; [apply shutdownApp_gone|]. intros ? s' H b Hb. congruence. }
  split; cbn [host_job fagent_host].
  - intros v st prev j s Hmay Hj H.
    assert (Hn : v ≠ HA_ACTIVE → fa_shape (p_mem s) = None).
    { intros Hv. destruct (fa_shape (p_mem s)) as [b|] eqn:Hb; [|done]. by destruct (H b Hb). }
    destruct Hmay; injection Hj as <-; try apply Hstop;
      try (eapply after_mono; [by apply activateApp_fresh, Hn|]; intros ? s' Hb b Hs; split; [done|eauto]).
    all: intros r s' [= _ <-] b Hb; change (fa_shape (p_mem s) = Some b) in Hb; by rewrite Hn in Hb.
  - intros v j s [-> | ->] _; apply Hstop.
  - intros v j s [-> | ->] H; [by apply after_ret|apply Hstop].
  - done.
  - by intros v c s H ? ? [= <- <-].
  - intros v s s' Ht H b Hb. apply H. by rewrite <- (Ht : fa_shape _ = fa_shape _).
Qed.

(** The stand-in for the agent has its thread only while the active state is assigned to it;
    the flag that tells of the change from the passive state is never set in it, so that the
    command for that change is never given. *)
Theorem fagent_only_active v s v' s' :
  fa_shape (p_mem s) = None → rtc (amf_step fa_threads) (v, s) (v', s') →
  (fa_shape (p_mem s') = None ∨ v' = HA_ACTIVE ∧ fa_shape (p_mem s') = Some false)
  ∧ ∃ new, p_trace (fagent_svc s').2 = new ++ p_trace s' ∧ Forall no_takeover new.
Proof.
  intros Hs Hrtc. pose proof (amf_invariant fa_threads fagent_inv (v, s) (v', s') Hrtc) as H. cbn in H.
  assert (Hi : fa_only_active v' s') by (apply H; intros b Hb; congruence). split.
  - destruct (fa_shape (p_mem s')) as [b|] eqn:Hb; [right|by left]. by destruct (Hi b Hb) as [-> ->].
  - apply fresh_svc. intros Ht. by destruct (Hi true Ht).
Qed.

(** The stand-in for the device monitor: as the device monitor. *)
Definition fd_threads : relation (Proc FDevT) := keeps (fd_adm ∘ p_mem).
Definition fd_only_active (v : HAState) (s : Proc FDevT) : Prop := fd_adm (p_mem s) = true → v = HA_ACTIVE.

Lemma fdev_passifyApp_gone s : after fdev_passifyApp (λ _ s', fd_adm (p_mem s') = false) s.
Proof.
  intros r s' H. apply bind_Val_inv in H as (o & s0 & [= <- <-] & H). cbn [compose] in H.
  destruct (fd_adm (p_mem s)) eqn:Ha; cbn [negb] in H; [|by injection H as _ <-].
  apply bind_Val_inv in H as ([] & s1 & _ & H). apply bind_Val_inv in H as ([] & s2 & _ & H).
  apply bind_Val_inv in H as ([] & s3 & [= <-] & [= _ <-]). done.
Qed.

Theorem fdev_only_active v s v' s' :
  fd_adm (p_mem s) = false → rtc (amf_step fd_threads) (v, s) (v', s') → fd_only_active v' s'.
Proof.
  intros Hs Hrtc. apply (amf_invariant fd_threads (I:=fd_only_active)) in Hrtc; [done| |intros H; cbn in *; congruence].
  assert (Hstop : ∀ v s, after fdev_passifyApp (λ _, fd_only_active v) s).
  { intros v0 s0. eapply after_mono; [apply fdev_passifyApp_gone|]. intros ? s1 H Hb. congruence. }
  split; cbn [host_job fdev_host].
  - intros v0 st prev j s0 _ Hj _. destruct st; inversion Hj; subst j; try apply Hstop. by intros ? ? _ _.
  - intros v0 j s0 [-> | ->] _; apply Hstop.
  - intros v0 j s0 [-> | ->] H; [by apply after_ret|apply Hstop].
  - done.
  - by intros v0 c s0 H ? ? [= <- <-].
  - intros v0 s0 s1 Ht H Hb. apply H. by rewrite <- (Ht : fd_adm _ = fd_adm _).
Qed.
End sim.
